(* ===== verification/_CoqProject ===== *)
-Q . S2P
Prelude.v
ReadLines.v
Scanf.v
Path.v
Connections.v
Routing.v
RoutingSpec.v
State.v
Show.v
Ring.v
Protocol.v
NodeServer.v
RingInv.v
Main.v
Args.v
Fits.v
Network.v
