(* ===== verification/Prelude.v ===== *)
(** * A verification development of the projeto-rci overlay node

    The program ([src/]) is a node of a peer-to-peer ring with chords.
    It is a single-threaded [select] loop ([src/main.c]) that reads user
    commands on stdin, accepts TCP connections, and reads line-framed
    messages from its peers ([src/read-lines.c]).  Each line goes to the
    protocol dispatcher and ring state machine ([src/ring.c]).  That code
    keeps the registry of connections and their roles
    ([src/connections.c]).  It also keeps distance-vector routing tables
    ([src/routing.c]) and talks to a directory server over UDP
    ([src/node-server.c]).

    ** Files, in dependency order

    - [Prelude] (this file): the constants of the headers, the outcome
      type [outcome] ([Ok], [Exit] for [error()], [Undefined] for
      undefined behaviour), arrays as lists indexed by [Z] ([zget],
      [zset], [zlen]), loops ([zrange], [foldM], [find_index]) and their
      lemmas.
    - [ReadLines]: [read_lines], one [read(2)] and the newline scan.
    - [Scanf]: the glibc meaning of the [sscanf] formats the code uses:
      [%hhd] with [strtol] saturation, [%Ns], [%*s], [%n], white space.
    - [Path]: [struct Path], [path_to_string], [get_route_message], and
      the [ROUTE] path parser of [handle_message_from_any_node].
    - [Connections]: the registry (slots, the four role pointers,
      [select_inputs]) and its operations.  Its invariant [reg_wf], and the
      class [ConnTable] through which the routing engine sees the
      registry.
    - [Routing]: every function of [routing.c] on explicit tables, with
      the routing invariant [routing_wf].
    - [RoutingSpec]: the routing engine's contract.  It has the abstract
      table of last announcements per (neighbor, recipient), its steps
      [learn] and [forget], best routes, and the abstraction function
      [view] from the C arrays to that table.
    - [State]: the program's globals as one record [Globals], the handler
      monad [M] (state and outcome), the environment class [Net] (what
      [socket]/[connect] and the node server answer), POSIX lowest-fd
      allocation, timers, and the Hoare-style predicate [keeps] with its
      rules.
    - [Show]: the reports the user asks for, [show topology], [show
      routing], [show path] and the node table [print_node_table].  Each
      [printf] is a [Printed] event with its text.
    - [Ring]: every function of [ring.c], statement by statement, in [M].
    - [Protocol]: the wire format between two nodes.  It has the [sscanf]
      steps of the [ROUTE] format on a line that [get_route_message]
      writes, and the round trip of an announcement.  It goes from the
      sender's [get_route_message] through [conn_printf] and the
      receiver's [read_lines] to its [handle_message_from_any_node].
      It also has the run where a [ROUTE] about node [-1] is accepted.
    - [NodeServer]: [request_node_list] (with its messages and the node
      table) and [parse_node_list].
    - [RingInv]: the registry invariant [ring_inv], one [keeps] lemma per
      operation of [Ring], the tactic [keep] that walks a handler, and
      the handlers' preservation lemmas.  Also [leave_ring] run to its end
      ([leave_ring_spec]).
    - [Main]: [handle_user_input] (every command), one turn of the event
      loop ([loop_iteration]), [main_init], the reachable states
      [reachable], and concrete runs from reachable states.
    - [Args]: [main]'s command line: glibc's permuting [getopt] for
      ["x:v:"], [atoi], the option switch, the usage check, the
      directory defaults, and [main_start] ([parse_args] then
      [Main.main_init], which resolves the directory with
      [NodeServer.init_ns] and binds the listening port).
    - [Fits]: the type invariant [fits] of the node fields ([self],
      [succ], [second_succ], [node_arr], [ring_id_str]), one [keeps]
      lemma per operation ([keep_fits]), and its proof for every
      reachable state, and the widths of the rows the tables print.
    - [Network]: two, then three copies of the program, each with its
      own environment, whose socket writes ([Sent] events, [sent_since]) are
      fed to the other's reads, turn by turn.  A crashed node is one
      whose peers' [read] returns 0 bytes.

    ** What the theorems show

    - Role exclusivity in every reachable state
      ([Main.reachable_roles_exclusive]).  It is proved by induction on
      [reachable] from one [keeps] lemma per operation.
    - The routing engine: the invariant (loop freedom, forwarding to
      allocated neighbors along minimal valid paths) is kept by updates
      and neighbor removal.  The announcement flag is exact.  The search
      loop equals a first-minimum specification.  Forwarding picks the
      chosen neighbor's live socket.
    - The line reader: framing of lines, the index bounds, and the code's
      failure to deliver a line split across two reads.
    - Liveness of the predecessor timer
      ([Main.pred_timer_fires_leaves_ring],
      [Main.select_timeout_reaches_deadline]).  A [select] that returns
      by its computed timeout returns after the deadline.  From every
      reachable state with the timer armed, the turn after the deadline
      leaves the ring.  It closes every slot ([Connections.close_slots]), clears the roles
      and the timer, and sets [DISCONNECTED].
    - Refinement of the routing engine
      ([RoutingSpec.update_routing_refines],
      [RoutingSpec.remove_routing_neighbor_refines]).  Seen through
      [view], [update_routing_given_new_path] is [learn] and
      [remove_routing_neighbor] is [forget].  After either, every
      recipient's [forwarding_table] entry is a best route of the
      abstract table.
    - Round trip of an announcement across two nodes
      ([Protocol.route_announcement_roundtrip]).  The line fits
      [route_msg] with no byte to spare at the longest path.  The
      receiver reads exactly that line.  Its dispatcher hands the path,
      as seen from the receiver, to its routing engine.
    - Composition of two nodes ([Network.two_node_join_via_directory]).
      Node 20 joins node 10's ring through the directory.  After twelve
      reachable turns both nodes are [CONNECTED], each is the other's
      successor and predecessor on live connections, each routes to the
      other directly, and no further message is written.  Each node's
      second successor is itself (the [SUCC] lines of [src/ring.c]),
      not the other node as the spec's scenario 2 says.  A third node
      entering with [dj] through node 10
      ([Network.entry_inserted_before_successor]) is inserted before
      node 10, with every second successor, predecessor and direct route
      right, where the spec's scenario 3 puts it after node 10.
      In that ring a chat line from node 10 to node 20 reaches node 20
      and is delivered ([Network.chat_delivered_in_ring]).  When node 20
      then crashes (its peers' reads return end of file),
      [Network.crash_repaired_by_second_successor] shows that the two
      survivors end [CONNECTED] in a ring of two, with the orphaned
      node's timer cancelled and no route to node 20.  The spec's
      scenario 5 has the orphaned node leave the ring instead.  The user
      of node 10 then sees the repaired ring in [show topology], but
      [sp 255] reads outside the routing table
      ([Network.reports_after_crash]).
    - The reports ([Show.show_path_prints_announced_path],
      [Show.show_path_unrouted_row_undefined],
      [Fits.reachable_tables_aligned]).  [show path] prints the path
      string of the [ROUTE] line the node announces, which its neighbors
      read back.  On a row whose forwarding entry is [-1] it reads
      [routing_table[r][-1]].  In every reachable state the table rows are
      as wide as their borders exactly for ids from -9 to 99.
    - The command line ([Args.parse_args_roundtrip],
      [Args.parse_args_usage], [Args.main_start_startup_errors],
      [Args.main_start_long_address]).  A command line with options after
      the address and port is read back exactly.  The usage exit happens
      exactly on ['?'] or fewer than two positional arguments.  An
      unresolvable directory, an unresolvable own port and a port that
      cannot be bound each end [main] with status 1, in that order.
      [verbose_level] is a non-negative [int].  An address of 16 bytes or
      more overflows [self.ip_addr].
    - Type invariant of the node fields
      ([Fits.reachable_node_fields_fit]).  In every reachable state each
      node the program holds fits [struct Node] and [ring_id_str] fits
      its 4 bytes, so [copy_node] (whose two [strcpy] calls are modelled)
      never overflows from a node the program holds.  It rests on
      [Scanf.sscanf_fits]: each value [sscanf] stores fits the object its
      directive names.
    - [add_connection] and
      [close_connection] specifications, termination of the node-list
      loop, and the unused-id search.
    - Findings as concrete runs from reachable states.  A solo direct
      join never initialises routing, so the first joining node makes it
      exit.  A refused [join] renames the node.  A [ROUTE] about node
      [-1], the tables' free-slot marker, is stored in a free row and
      announced.  A node that joined as node [100] overflows
      [unreg_msg] when it leaves.  [set_timeout] can store
      [tv_nsec = 10^9], and the [select] timeout then has
      [tv_usec = 1000001].  [direct join] in a ring
      orphans its links.  There are also the overflows of [path.nodes],
      [route_msg] and [node_arr], and the two-second timer.

    ** Bounds and fuel

    Integers are [Z].  Node ids and indices are [signed char] ([schar]
    wraps [%hhd] values); the table sizes are the header constants.
    [parse_format] uses the format length as fuel (each step consumes a
    byte).  [lowest_fd] uses [size open + 1] candidates (one is free).
    [parse_node_lines] uses the datagram length, which is enough
    ([NodeServer.parse_node_list_terminates]).  The other loops are
    structural over [zrange] of a header constant.

    ** Not modelled

    Output to stdout other than the reports of [Show.v], the messages of
    [request_node_list], an unrecognized command's message and chat
    deliveries (the [Delivered] events): the other [printf] calls of the
    handlers only inform the user.  A failing [socket(2)] at start-up
    (an [error()] exit; the descriptors are the lowest free ones), and
    [listen(2)] apart from [bind(2)] ([net_bind] answers for both).  The
    [sigaction] that ignores [SIGPIPE] (writes never fail in the model).
    [select] itself: what it reports is an input of each turn
    ([Main.select_timeout] computes the timeout it is given, from the
    time read before it).  A failing [clock_gettime].  Failing writes
    ([conn_printf] returning [-1] and its call of [handle_broken_socket]).
    [recvfrom] on the node server socket in the loop (it only prints).
    The logging macros of [src/util.h] only print, and [malloc_f] is
    never called.  The bytes of [sendto] past the [NODES] string's NUL
    (indeterminate). *)

From stdpp Require Export base list decidable gmap.
From Stdlib Require Export ZArith Lia Ascii.
From Stdlib Require String.
Export (notations) String.
Abbreviation string := String.string.

Declare Scope rci_scope.
Delimit Scope rci_scope with rci.
Open Scope Z_scope.

(** ** Constants of [src/main.h], [src/routing.h], [src/connections.h] *)

Definition MAX_NODES : Z := 16.
Definition MAX_NODE_ID : Z := 99.
Definition MAX_NODE_MESSAGE_SIZE : Z := 256.
Definition MAX_PATH_STR_LENGTH : Z := 47.
Definition MAX_PATH_STR_SIZE : Z := MAX_PATH_STR_LENGTH + 1.
Definition USER_COMMAND_BUF_SIZE : Z := 256.
Definition IPV4_ADDR_STR_SIZE : Z := 16.
Definition TCP_PORT_STR_SIZE : Z := 6.
Definition MAX_RECIPIENTS : Z := MAX_NODES - 1.
Definition MAX_NEIGHBORS : Z := MAX_NODES - 1.
Definition MAX_INBOUND_CHORDS : Z := MAX_NODES - 2.
Definition MAX_CONNECTIONS : Z := MAX_INBOUND_CHORDS + 4.

(** [NodeID] and [NodeIndex] are [signed char]: a value stored in one is
    wrapped to [-128, 127]. *)
Definition schar (z : Z) : Z := (z + 128) mod 256 - 128.

(** ** Outcomes of a C routine

    [Exit] is the [error()] macro of [src/util.h] (print and [exit(1)]);
    [Undefined] marks the points where the C code has undefined behaviour
    (a NULL dereference, a write past an array). *)
Inductive outcome (A : Type) : Type :=
| Ok (a : A)
| Exit (msg : string)
| Undefined (what : string).
Arguments Ok {A} a.
Arguments Exit {A} msg.
Arguments Undefined {A} what.

Notation "'let!' p ':=' c 'in' k" :=
  (match c with
   | Ok p => k
   | Exit m => Exit m
   | Undefined w => Undefined w
   end)
  (at level 10, p pattern, c at level 100, k at level 200) : rci_scope.

Open Scope rci_scope.

Lemma Ok_inj {A} (a b : A) : Ok a = Ok b -> a = b.
Proof. by intros [= ->]. Qed.

Definition is_ok {A} (o : outcome A) : bool :=
  match o with Ok _ => true | _ => false end.

(** The value of a successful outcome, [d] otherwise: used to name the
    states of concrete runs. *)
Definition ok_or {A} (d : A) (o : outcome A) : A :=
  match o with Ok a => a | _ => d end.

(** ** C arrays as lists indexed by [int]

    The C code indexes its fixed-size arrays with [int]s; [zget] reads
    element [i], [zset] writes it (a write out of range does nothing, which
    the lemmas below never rely on: every index is proved in range). *)
Definition zget {A} `{Inhabited A} (l : list A) (i : Z) : A := l !!! Z.to_nat i.
Definition zset {A} (l : list A) (i : Z) (x : A) : list A := <[Z.to_nat i := x]> l.
Definition zlen {A} (l : list A) : Z := Z.of_nat (Datatypes.length l).

Notation "l .[ i ]" := (zget l i) (at level 1, left associativity, format "l .[ i ]") : rci_scope.

(** [zrange n] is the index sequence of a C loop [for (i = 0; i < n; i++)]. *)
Definition zrange (n : Z) : list Z := map Z.of_nat (seq 0 (Z.to_nat n)).

(** The first index [i] with [p l[i]], or [-1]: the search loops of the
    C code ([for (...) if (...) return i; return -1;]). *)
Fixpoint find_from {A} (p : A -> bool) (l : list A) (i : Z) : Z :=
  match l with
  | [] => -1
  | x :: l' => if p x then i else find_from p l' (i + 1)
  end.
Definition find_index {A} (p : A -> bool) (l : list A) : Z := find_from p l 0.

(** The same search returning a pointer ([None] for [NULL]). *)
Definition find_slot {A} (p : A -> bool) (l : list A) : option Z :=
  let i := find_index p l in if i =? -1 then None else Some i.

(** A loop whose body can fail: [for] over [l], threading [a]. *)
Fixpoint foldM {A B} (f : A -> B -> outcome A) (l : list B) (a : A) : outcome A :=
  match l with
  | [] => Ok a
  | x :: l' => let! a' := f a x in foldM f l' a'
  end.

(** ** Bytes and C strings *)

Definition byte_of_ascii (a : ascii) : Z := Z.of_nat (nat_of_ascii a).
Definition bytes (s : string) : list Z := map byte_of_ascii (String.list_ascii_of_string s).
Arguments bytes s%_string.

Definition NUL : Z := 0.
Definition LF : Z := 10.
Definition DASH : Z := 45.
Definition SPACE : Z := 32.
Definition is_digit (c : Z) : bool := (48 <=? c) && (c <=? 57).

(** The C string starting at a position: the bytes up to the first NUL. *)
Fixpoint cstr (l : list Z) : list Z :=
  match l with
  | [] => []
  | c :: l' => if c =? NUL then [] else c :: cstr l'
  end.

(** ** Automation *)

Create HintDb rci discriminated.
Create Rewrite HintDb rci_rw.

Ltac zify_nat :=
  repeat match goal with
  | H : context [Z.to_nat ?x] |- _ => rewrite ?Z2Nat.id in H by lia
  end.

(** [lia] with the size constants of the headers unfolded. *)
Ltac clia :=
  unfold MAX_RECIPIENTS, MAX_NEIGHBORS, MAX_INBOUND_CHORDS, MAX_CONNECTIONS,
    MAX_NODES, MAX_NODE_ID, MAX_PATH_STR_LENGTH, MAX_NODE_MESSAGE_SIZE in *; lia.

(** Case analysis on the boolean tests the model is written with. *)
Ltac case_bool :=
  repeat match goal with
  | |- context [if ?b then _ else _] =>
      lazymatch b with
      | Z.eqb ?x ?y => destruct (Z.eqb_spec x y)
      | Z.ltb ?x ?y => destruct (Z.ltb_spec x y)
      | Z.leb ?x ?y => destruct (Z.leb_spec x y)
      | _ => destruct b eqn:?
      end
  end.

(** ** Array lemmas *)

Section Arrays.
  Context {A : Type} `{Inhabited A}.

Lemma zlen_zset (l : list A) i x : zlen (zset l i x) = zlen l.
  Proof. unfold zlen, zset. by rewrite length_insert. Qed.

Lemma length_zset (l : list A) i x : Datatypes.length (zset l i x) = Datatypes.length l.
  Proof. unfold zset. by rewrite length_insert. Qed.

Lemma zget_zset_eq (l : list A) i x : 0 <= i < zlen l -> (zset l i x).[i] = x.
  Proof.
    unfold zlen, zget, zset. intros Hi.
    apply list_lookup_total_insert_eq. lia.
  Qed.

Lemma zget_zset_ne (l : list A) i j x :
    0 <= i -> 0 <= j -> i <> j -> (zset l i x).[j] = l.[j].
  Proof.
    unfold zget, zset. intros Hi Hj Hne.
    apply list_lookup_total_insert_ne. lia.
  Qed.

Lemma zget_zset (l : list A) i j x :
    0 <= i < zlen l -> 0 <= j -> (zset l i x).[j] = if decide (i = j) then x else l.[j].
  Proof.
    intros Hi Hj. case_decide; subst.
    - by apply zget_zset_eq.
    - by apply zget_zset_ne; lia.
  Qed.

Lemma zget_map {B} `{Inhabited B} (f : A -> B) (l : list A) i :
    0 <= i < zlen l -> (map f l).[i] = f l.[i].
  Proof.
    unfold zget, zlen. intros Hi.
    rewrite !list_lookup_total_alt, list_lookup_fmap.
    destruct (l !! Z.to_nat i) eqn:E; [done|].
    apply lookup_ge_None in E. lia.
  Qed.

Lemma zget_drop (l : list A) n k : 0 <= n -> 0 <= k -> (drop (Z.to_nat n) l).[k] = l.[n + k].
  Proof.
    unfold zget. intros Hn Hk. rewrite !list_lookup_total_alt, lookup_drop.
    by replace (Z.to_nat n + Z.to_nat k)%nat with (Z.to_nat (n + k)) by lia.
  Qed.

Lemma zlen_drop (l : list A) n : 0 <= n <= zlen l -> zlen (drop (Z.to_nat n) l) = zlen l - n.
  Proof. unfold zlen. intros Hn. rewrite length_drop. lia. Qed.

Lemma zget_In (l : list A) i : 0 <= i < zlen l -> In l.[i] l.
  Proof.
    unfold zget, zlen. intros Hi. apply list_elem_of_In.
    apply list_elem_of_lookup. exists (Z.to_nat i).
    apply list_lookup_lookup_total_lt. lia.
  Qed.

Lemma find_from_bound (p : A -> bool) l i :
    find_from p l i = -1 \/ i <= find_from p l i.
  Proof.
    revert i. induction l as [|x l IH]; intros i; simpl; [by left|].
    destruct (p x); [right; lia|]. destruct (IH (i + 1)); [left|right]; lia.
  Qed.

Lemma find_from_shift (p : A -> bool) l i :
    find_from p l i = if find_from p l 0 =? -1 then -1 else find_from p l 0 + i.
  Proof.
    revert i. induction l as [|x l IH]; intros i; simpl; [done|].
    destruct (p x); [done|].
    rewrite (IH (i + 1)), (IH (0 + 1)).
    destruct (find_from_bound p l 0) as [->|Hb]; [done|].
    destruct (Z.eqb_spec (find_from p l 0) (-1)); [lia|].
    destruct (Z.eqb_spec (find_from p l 0 + (0 + 1)) (-1)); lia.
  Qed.

  (** The search either fails and no element satisfies [p], or returns the
      first index whose element does. *)
Lemma find_index_spec (p : A -> bool) (l : list A) :
    (find_index p l = -1 /\ forall j, 0 <= j < zlen l -> p l.[j] = false) \/
    (0 <= find_index p l < zlen l /\ p l.[find_index p l] = true /\
     forall j, 0 <= j < find_index p l -> p l.[j] = false).
  Proof.
    unfold find_index, zlen, zget. induction l as [|x l IH]; simpl.
    - left. split; [done|]. intros j Hj. simpl in Hj. lia.
    - destruct (p x) eqn:Hx.
      + right. split; [lia|]. split; [done|]. intros; lia.
      + rewrite find_from_shift.
        destruct IH as [[H0 Hall] | [Hr [Hp Hbefore]]].
        * left. rewrite H0. simpl. split; [done|]. intros j Hj.
          destruct (decide (j = 0)) as [->|Hne]; [done|].
          replace (Z.to_nat j) with (S (Z.to_nat (j - 1))) by lia. simpl.
          apply Hall. lia.
        * right. destruct (Z.eqb_spec (find_from p l 0) (-1)); [lia|].
          split; [lia|].
          replace (Z.to_nat (find_from p l 0 + (0 + 1))) with (S (Z.to_nat (find_from p l 0))) by lia.
          simpl. split; [done|]. intros j Hj.
          destruct (decide (j = 0)) as [->|Hne]; [done|].
          replace (Z.to_nat j) with (S (Z.to_nat (j - 1))) by lia. simpl.
          apply Hbefore. lia.
  Qed.

Lemma find_index_range (p : A -> bool) l : -1 <= find_index p l < zlen l.
  Proof.
    destruct (find_index_spec p l) as [[-> _]|[? _]]; [|lia].
    unfold zlen. lia.
  Qed.

Lemma find_index_found (p : A -> bool) l i :
    0 <= i < zlen l -> p l.[i] = true -> 0 <= find_index p l <= i.
  Proof.
    intros Hi Hp. destruct (find_index_spec p l) as [[_ Hall]|[Hr [_ Hb]]].
    - rewrite Hall in Hp; [done | lia].
    - split; [lia|]. destruct (Z.le_gt_cases (find_index p l) i); [done|].
      rewrite Hb in Hp; [done|lia].
  Qed.
Lemma find_slot_Some (p : A -> bool) l i :
    find_slot p l = Some i <->
    0 <= i < zlen l /\ p l.[i] = true /\ forall j, 0 <= j < i -> p l.[j] = false.
  Proof.
    unfold find_slot. destruct (find_index_spec p l) as [[-> Hall]|[Hr [Hp Hb]]]; simpl.
    - split; [done|]. intros (Hi & Hpi & _). rewrite Hall in Hpi; [done|lia].
    - destruct (Z.eqb_spec (find_index p l) (-1)); [lia|]. split.
      + by intros [= <-].
      + intros (Hi & Hpi & Hbi). f_equal.
        destruct (Z.lt_trichotomy (find_index p l) i) as [Hlt|[Heq|Hgt]]; [|done|].
        * rewrite Hbi in Hp; [done|lia].
        * rewrite Hb in Hpi; [done|lia].
  Qed.

Lemma find_slot_None (p : A -> bool) l :
    find_slot p l = None <-> forall j, 0 <= j < zlen l -> p l.[j] = false.
  Proof.
    unfold find_slot. destruct (find_index_spec p l) as [[-> Hall]|[Hr [Hp Hb]]]; simpl.
    - by split.
    - destruct (Z.eqb_spec (find_index p l) (-1)); [lia|]. split; [done|].
      intros Hall. rewrite Hall in Hp; [done|lia].
  Qed.
End Arrays.

Lemma In_zrange n i : In i (zrange n) <-> 0 <= i < n.
Proof.
  unfold zrange. rewrite in_map_iff. split.
  - intros [k [<- Hk]]. apply in_seq in Hk. lia.
  - intros Hi. exists (Z.to_nat i). split; [lia|]. apply in_seq. lia.
Qed.

Lemma zlen_zrange n : 0 <= n -> zlen (zrange n) = n.
Proof. unfold zlen, zrange. rewrite length_map, length_seq. lia. Qed.

Lemma zget_zrange n i : 0 <= i < n -> (zrange n).[i] = i.
Proof.
  intros Hi. unfold zrange, zget. rewrite list_lookup_total_alt, list_lookup_fmap, lookup_seq_lt by lia.
  simpl. lia.
Qed.

Lemma NoDup_zrange n : List.NoDup (zrange n).
Proof. unfold zrange. apply NoDup_ListNoDup, NoDup_fmap_2; [intros ?? ?; lia|apply NoDup_seq]. Qed.

Lemma zrange_succ n : 0 <= n -> zrange (n + 1) = zrange n ++ [n].
Proof.
  intros Hn. unfold zrange.
  replace (Z.to_nat (n + 1)) with (Z.to_nat n + 1)%nat by lia.
  rewrite seq_app, map_app. simpl. by rewrite Z2Nat.id.
Qed.

(** A search for a value that occurs once finds it. *)
Lemma find_index_at (l : list Z) x i :
  0 <= i < zlen l -> l.[i] = x -> (forall j, 0 <= j < zlen l -> j <> i -> l.[j] <> x) ->
  find_index (Z.eqb x) l = i.
Proof.
  intros Hi E Hu.
  destruct (find_index_spec (Z.eqb x) l) as [[_ Hall]|[Hj [Hp _]]].
  - specialize (Hall i Hi). rewrite E, Z.eqb_refl in Hall. done.
  - apply Z.eqb_eq in Hp. destruct (decide (find_index (Z.eqb x) l = i)) as [|Hne]; [done|].
    exfalso. exact (Hu _ Hj Hne (eq_sym Hp)).
Qed.

(** Two searches that see the same answers at every index agree. *)
Lemma find_index_ext (p q : Z -> bool) (l l' : list Z) :
  zlen l = zlen l' -> (forall i, 0 <= i < zlen l -> p l.[i] = q l'.[i]) ->
  find_index p l = find_index q l'.
Proof.
  intros Hl Hpq.
  destruct (find_index_spec p l) as [[E Hall]|[Hi [Hp Hb]]];
  destruct (find_index_spec q l') as [[E' Hall']|[Hi' [Hq Hb']]]; try congruence.
  - rewrite <- Hpq, Hall in Hq by lia. done.
  - rewrite Hpq, Hall' in Hp by lia. done.
  - destruct (Z.lt_trichotomy (find_index p l) (find_index q l')) as [Hlt|[|Hgt]]; [|done|].
    + rewrite Hpq, Hb' in Hp by lia. done.
    + rewrite <- Hpq, Hb in Hq by lia. done.
Qed.

(** What a search for [x] returns when the slot [j] is overwritten: the
    same index when neither the old nor the new value is [x]; [j] when
    [x] was absent and is written there; [-1] when the only [x] is
    overwritten. *)
Lemma find_index_zset_other (l : list Z) j x y :
  0 <= j < zlen l -> x <> y -> l.[j] <> x ->
  find_index (Z.eqb x) (zset l j y) = find_index (Z.eqb x) l.
Proof.
  intros Hj Hxy Hjx. apply find_index_ext; [apply zlen_zset|]. intros i Hi.
  rewrite zget_zset by (rewrite ?zlen_zset in *; lia). case_decide; subst; [|done].
  destruct (Z.eqb_spec x y), (Z.eqb_spec x l.[i]); congruence.
Qed.

Lemma find_index_zset_fresh (l : list Z) j x :
  0 <= j < zlen l -> find_index (Z.eqb x) l = -1 -> find_index (Z.eqb x) (zset l j x) = j.
Proof.
  intros Hj Hn. destruct (find_index_spec (Z.eqb x) l) as [[_ Hall]|[Hr _]]; [|lia].
  apply find_index_at; [by rewrite zlen_zset|by apply zget_zset_eq|].
  intros i Hi Hne E. rewrite zlen_zset in Hi. rewrite zget_zset_ne in E by lia.
  specialize (Hall i Hi). rewrite E, Z.eqb_refl in Hall. done.
Qed.

Lemma find_index_zset_clear (l : list Z) j x y :
  0 <= j < zlen l -> x <> y -> (forall i, 0 <= i < zlen l -> i <> j -> l.[i] <> x) ->
  find_index (Z.eqb x) (zset l j y) = -1.
Proof.
  intros Hj Hxy Hu. destruct (find_index_spec (Z.eqb x) (zset l j y)) as [[E _]|[Hi [Hp _]]]; [done|].
  rewrite zlen_zset in Hi. apply Z.eqb_eq in Hp. rewrite zget_zset in Hp by lia.
  case_decide; [congruence|]. exfalso. by apply (Hu _ Hi).
Qed.

(** A successful search lands on its value. *)
Lemma find_index_hit (l : list Z) x :
  find_index (Z.eqb x) l <> -1 ->
  0 <= find_index (Z.eqb x) l < zlen l /\ l.[find_index (Z.eqb x) l] = x.
Proof.
  intros Hn. destruct (find_index_spec (Z.eqb x) l) as [[? _]|[Hi [Hp _]]]; [done|].
  split; [done|]. by apply Z.eqb_eq in Hp.
Qed.

(** A bounded [for] loop that checks a condition on every index. *)
Definition forall_range (n : Z) (p : Z -> bool) : bool := forallb p (zrange n).

Lemma forall_range_spec n p : forall_range n p = true -> forall i, 0 <= i < n -> p i = true.
Proof. unfold forall_range. rewrite forallb_forall. intros H i Hi. apply H, In_zrange, Hi. Qed.

Lemma foldM_app {A B} (f : A -> B -> outcome A) l1 l2 a :
  foldM f (l1 ++ l2) a = let! a' := foldM f l1 a in foldM f l2 a'.
Proof.
  revert a. induction l1 as [|x l1 IH]; intros a; simpl; [done|].
  destruct (f a x); [apply IH|done|done].
Qed.

(** The invariant rule of a fallible [for (k = 0; k < n; k++)] loop: an
    invariant of the index and the state that every successful iteration
    carries from [k] to [k + 1] holds when the loop succeeds. *)
Lemma foldM_zrange_inv {A} (I : Z -> A -> Prop) (f : A -> Z -> outcome A) n a a' :
  0 <= n -> I 0 a ->
  (forall k acc acc', 0 <= k < n -> I k acc -> f acc k = Ok acc' -> I (k + 1) acc') ->
  foldM f (zrange n) a = Ok a' -> I n a'.
Proof.
  intros Hn H0 Hstep. rewrite <- (Z2Nat.id n) in * by lia.
  induction (Z.to_nat n) as [|m IH] in a', Hstep |- *.
  - simpl. by intros [= <-].
  - rewrite Nat2Z.inj_succ, <- Z.add_1_r, zrange_succ, foldM_app by lia.
    destruct (foldM f (zrange (Z.of_nat m)) a) as [acc| |] eqn:E; [|done|done].
    simpl. destruct (f acc (Z.of_nat m)) as [acc1| |] eqn:E1; [|done|done]. intros [= <-].
    apply (Hstep (Z.of_nat m) acc); [lia| |done]. apply IH; [intros k acc0 acc0' ? ? ?; apply (Hstep k acc0); (done || lia)|done].
Qed.

(** Such a loop with a body that never fails does not fail. *)
Lemma foldM_zrange_total {A} (I : Z -> A -> Prop) (f : A -> Z -> outcome A) n a :
  0 <= n -> I 0 a ->
  (forall k acc, 0 <= k < n -> I k acc -> exists acc', f acc k = Ok acc' /\ I (k + 1) acc') ->
  exists a', foldM f (zrange n) a = Ok a' /\ I n a'.
Proof.
  intros Hn H0 Hstep. rewrite <- (Z2Nat.id n) in * by lia.
  induction (Z.to_nat n) as [|m IH] in Hstep |- *.
  - by exists a.
  - rewrite Nat2Z.inj_succ, <- Z.add_1_r, zrange_succ, foldM_app by lia.
    destruct IH as (acc & E & Hacc); [intros; apply Hstep; (done || lia)|]. rewrite E. simpl.
    destruct (Hstep (Z.of_nat m) acc) as (acc1 & E1 & H1); [lia|done|]. rewrite E1. by exists acc1.
Qed.

#[export] Hint Resolve zget_zset_eq zget_In : rci.
#[export] Hint Rewrite @zlen_zset @length_zset : rci_rw.
