(* ===== verification/ReadLines.v ===== *)
(** * ReadLines: the line-framed reader of [src/read-lines.c]

    [read_lines] performs one [read(2)] into the connection's buffer at
    [*buffer_index], scans for ['\n'], hands every complete line to the
    handler (as a NUL-terminated C string), and moves the unterminated
    tail to the start of the buffer.  The handler calls are returned as the
    list [rl_lines], in call order; the event loop dispatches them. *)

From S2P Require Import Prelude.

Inductive RLResult := RL_OK | RL_END | RL_ERROR | RL_OVERFLOW.

(** What one [read(2)] returned: [-1], or the bytes it stored ([[]] is a
    return value of [0], end of stream). *)
Inductive read_ret := ReadFail | ReadData (data : list Z).

Record rl_out := mk_rl_out {
  rl_result : RLResult;
  rl_lines : list (list Z);
  rl_buffer : list Z;
  rl_index : Z
}.

(** [read(fd, buffer + idx, ...)] stores [data] at [buffer[idx..]]. *)
Definition write_at (buf : list Z) (idx : Z) (data : list Z) : list Z :=
  take (Z.to_nat idx) buf ++ data ++ drop (Z.to_nat idx + length data) buf.

(** One iteration of [for (int i = 0; i < len; i++)]: the state is the
    buffer, [message_start_index] and the handler calls made so far (most
    recent first). *)
Definition scan_step (st : list Z * Z * list (list Z)) (i : Z) : list Z * Z * list (list Z) :=
  let '(buf, ms, acc) := st in
  if buf.[i] =? LF then
    let buf' := zset buf i NUL in
    (buf', i + 1, cstr (drop (Z.to_nat ms) buf') :: acc)
  else st.

(** [memmove(buffer, buffer + ms, rem)] *)
Definition memmove_front (buf : list Z) (ms rem : Z) : list Z :=
  take (Z.to_nat rem) (drop (Z.to_nat ms) buf) ++ drop (Z.to_nat rem) buf.

Definition read_lines (buffer_size : Z) (rd : read_ret) (buf : list Z) (idx : Z) : rl_out :=
  match rd with
  | ReadFail => mk_rl_out RL_ERROR [] buf idx
  | ReadData [] => mk_rl_out RL_END [] buf 0
  | ReadData data =>
      let len := zlen data in
      let buf1 := write_at buf idx data in
      let '(buf2, ms, acc) := fold_left scan_step (zrange len) (buf1, 0, []) in
      let rem := idx + len - ms in
      if rem =? buffer_size then mk_rl_out RL_OVERFLOW (rev acc) buf2 0
      else mk_rl_out RL_OK (rev acc) (memmove_front buf2 ms rem) rem
  end.

(** ** Reference framing: complete lines and the unterminated tail *)

Definition lf_step (st : list (list Z) * list Z) (c : Z) : list (list Z) * list Z :=
  let '(ls, cur) := st in
  if c =? LF then (ls ++ [cur], []) else (ls, cur ++ [c]).

Definition lf_split (l : list Z) : list (list Z) * list Z := fold_left lf_step l ([], []).

Definition nul_lf (c : Z) : Z := if c =? LF then NUL else c.

Example read_lines_two_lines :
  rl_lines (read_lines 8 (ReadData (bytes "ab" ++ [LF] ++ bytes "cd" ++ [LF] ++ bytes "e"))
              (repeat 0 8) 0) = [bytes "ab"; bytes "cd"].
Proof. reflexivity. Qed.

(** ** The scan loop *)

Lemma lf_split_snoc l c : lf_split (l ++ [c]) = lf_step (lf_split l) c.
Proof. unfold lf_split. by rewrite fold_left_app. Qed.

(** The tail of [lf_split l] is the suffix of [l] after its last ['\n']. *)
Lemma lf_split_tail l :
  drop (length l - length (lf_split l).2) l = (lf_split l).2 /\
  Forall (fun c => c <> LF) (lf_split l).2.
Proof.
  induction l as [|c l IH] using rev_ind; [done|].
  rewrite lf_split_snoc. destruct (lf_split l) as [ls t] eqn:E. simpl in *.
  destruct IH as [Hd Hf]. rewrite length_app. simpl.
  destruct (Z.eqb_spec c LF); simpl.
  - rewrite Nat.sub_0_r, drop_ge; [done | rewrite length_app; simpl; lia].
  - rewrite length_app. simpl.
    assert (length t <= length l)%nat by (rewrite <- Hd, length_drop; lia).
    replace (length l + 1 - (length t + 1))%nat with (length l - length t)%nat by lia.
    rewrite drop_app_le by lia. rewrite Hd. split; [done|].
    apply Forall_app. split; [done|]. by constructor.
Qed.

Lemma cstr_app_nul l r : cstr (l ++ NUL :: r) = cstr l.
Proof. induction l as [|c l IH]; simpl; [done|]. by rewrite IH. Qed.

Lemma map_nul_lf_id l : Forall (fun c => c <> LF) l -> map nul_lf l = l.
Proof.
  induction 1 as [|c l Hc _ IH]; simpl; [done|].
  unfold nul_lf at 1. destruct (Z.eqb_spec c LF); [done|]. by rewrite IH.
Qed.

Lemma map_drop_comm {A B} (f : A -> B) n l : drop n (map f l) = map f (drop n l).
Proof. revert l. induction n as [|n IH]; intros [|x l]; simpl; auto. Qed.

Lemma zset_middle (m r : list Z) c x : zset (m ++ c :: r) (zlen m) x = m ++ x :: r.
Proof.
  unfold zset, zlen. rewrite Nat2Z.id.
  rewrite insert_app_r_alt by lia. by rewrite Nat.sub_diag.
Qed.

Lemma zget_middle (m r : list Z) c : (m ++ c :: r).[zlen m] = c.
Proof.
  unfold zget, zlen. rewrite Nat2Z.id.
  apply list_lookup_total_correct. rewrite lookup_app_r by lia.
  by rewrite Nat.sub_diag.
Qed.

(** After [k] iterations, the ['\n'] bytes among the first [k] are NUL,
    [message_start_index] is just past the last of them, and the handler
    has received the complete lines of the first [k] bytes. *)
Lemma scan_invariant (b : list Z) (k : nat) :
  (k <= length b)%nat ->
  fold_left scan_step (zrange (Z.of_nat k)) (b, 0, []) =
  (map nul_lf (take k b) ++ drop k b,
   Z.of_nat (k - length (lf_split (take k b)).2),
   rev (map cstr (lf_split (take k b)).1)).
Proof.
  induction k as [|k IH]; intros Hk; [done|].
  rewrite Nat2Z.inj_succ, <- Z.add_1_r, zrange_succ, fold_left_app by lia.
  rewrite IH by lia. simpl.
  destruct (drop k b) as [|c r] eqn:Ed.
  { apply (f_equal length) in Ed. rewrite length_drop in Ed. simpl in Ed. lia. }
  assert (Hbk : b !! k = Some c) by (rewrite <- (Nat.add_0_r k), <- lookup_drop, Ed; done).
  assert (Htk : take (S k) b = take k b ++ [c]) by (by apply take_S_r).
  assert (Hdr : drop (S k) b = r) by (rewrite (drop_S b c k Hbk) in Ed; congruence).
  rewrite Htk, Hdr, lf_split_snoc.
  pose proof (lf_split_tail (take k b)) as [Htail HF].
  destruct (lf_split (take k b)) as [ls t] eqn:Es. simpl in *.
  assert (Hlen : zlen (map nul_lf (take k b)) = Z.of_nat k)
    by (unfold zlen; rewrite length_map, length_take; lia).
  rewrite <- Hlen, zget_middle.
  destruct (Z.eqb_spec c LF) as [->|Hc].
  - rewrite zset_middle. simpl. rewrite map_app. simpl. f_equal; [f_equal|].
    + by rewrite <- app_assoc.
    + rewrite Hlen. lia.
    + rewrite map_app, rev_app_distr. simpl. f_equal.
      rewrite Nat2Z.id, drop_app_le by (rewrite length_map, length_take; lia).
      rewrite map_drop_comm. rewrite length_take, Nat.min_l in Htail by lia.
      rewrite Htail.
      rewrite map_nul_lf_id by done. apply cstr_app_nul.
  - simpl. rewrite map_app. simpl.
    assert (Hn : nul_lf c = c) by (unfold nul_lf; destruct (Z.eqb_spec c LF); congruence).
    rewrite Hn, <- app_assoc. simpl. rewrite length_app. simpl.
    assert (length t <= length (take k b))%nat by (rewrite <- Htail, length_drop; lia).
    rewrite length_take in *.
    by replace (S k - (length t + 1))%nat with (k - length t)%nat by lia.
Qed.

Lemma take_app_exact (l r : list Z) n : n = length l -> take n (l ++ r) = l.
Proof. intros ->. apply take_app_length. Qed.

Lemma length_write_at buf idx data :
  0 <= idx -> idx + zlen data <= zlen buf -> length (write_at buf idx data) = length buf.
Proof.
  unfold write_at, zlen. intros. rewrite !length_app, length_take, length_drop. lia.
Qed.

Lemma lf_split_tail_length l : (length (lf_split l).2 <= length l)%nat.
Proof.
  destruct (lf_split_tail l) as [H _]. rewrite <- H at 1. rewrite length_drop. lia.
Qed.

(** ** Functional behaviour of one call *)

(** The loop of [read_lines] in closed form: [w] is the window the loop
    scans, the first [len] bytes of the buffer after the read. *)
Lemma read_lines_closed_form (size idx : Z) (buf data : list Z) :
  data <> [] -> 0 <= idx -> idx + zlen data <= zlen buf ->
  let buf1 := write_at buf idx data in
  let w := take (length data) buf1 in
  let t := (lf_split w).2 in
  let buf2 := map nul_lf w ++ drop (length data) buf1 in
  read_lines size (ReadData data) buf idx =
  if idx + zlen t =? size
  then mk_rl_out RL_OVERFLOW (map cstr (lf_split w).1) buf2 0
  else mk_rl_out RL_OK (map cstr (lf_split w).1)
         (memmove_front buf2 (zlen w - zlen t) (idx + zlen t)) (idx + zlen t).
Proof.
  intros Hne Hidx Hfit. cbv zeta.
  unfold read_lines. destruct data as [|d0 ds] eqn:Ed; [done|]. rewrite <- Ed in *.
  set (buf1 := write_at buf idx data).
  assert (Hl1 : length buf1 = length buf) by (by apply length_write_at).
  assert (Hw : (length data <= length buf1)%nat) by (unfold zlen in Hfit; lia).
  replace (zlen data) with (Z.of_nat (length data)) by done.
  rewrite (scan_invariant buf1 (length data) Hw), rev_involutive.
  set (w := take (length data) buf1).
  assert (Hwl : length w = length data) by (subst w; rewrite length_take; lia).
  pose proof (lf_split_tail_length w) as Htl.
  replace (idx + Z.of_nat (length data) - Z.of_nat (length data - length (lf_split w).2))
    with (idx + zlen (lf_split w).2) by (unfold zlen; lia).
  replace (Z.of_nat (length data - length (lf_split w).2))
    with (zlen w - zlen (lf_split w).2) by (unfold zlen; lia).
  done.
Qed.

(** The behaviour of [read_lines] on a successful read, from the closed
    form of its loop. *)
Lemma read_lines_window (size idx : Z) (buf data : list Z) :
  data <> [] -> 0 <= idx -> idx + zlen data <= zlen buf ->
  let buf1 := write_at buf idx data in
  let w := take (length data) buf1 in
  let t := (lf_split w).2 in
  let out := read_lines size (ReadData data) buf idx in
  rl_lines out = map cstr (lf_split w).1 /\
  if idx + zlen t =? size
  then rl_result out = RL_OVERFLOW /\ rl_index out = 0
  else rl_result out = RL_OK /\ rl_index out = idx + zlen t /\
       take (Z.to_nat (idx + zlen t)) (rl_buffer out) =
       t ++ take (Z.to_nat idx) (drop (length data) buf1).
Proof.
  intros Hne Hidx Hfit. cbv zeta.
  rewrite (read_lines_closed_form size idx buf data Hne Hidx Hfit). cbv zeta.
  set (buf1 := write_at buf idx data).
  assert (Hl1 : length buf1 = length buf) by (by apply length_write_at).
  set (w := take (length data) buf1). set (t := (lf_split w).2).
  pose proof (lf_split_tail w) as [Htail HF]. fold t in Htail, HF.
  assert (Hwl : length w = length data) by (subst w; rewrite length_take; unfold zlen in Hfit; lia).
  pose proof (lf_split_tail_length w) as Htl. fold t in Htl.
  destruct (Z.eqb_spec (idx + zlen t) size); simpl; [done|].
  split; [done|]. split; [done|]. split; [done|].
  unfold memmove_front.
  replace (Z.to_nat (zlen w - zlen t)) with (length w - length t)%nat by (unfold zlen; lia).
  rewrite drop_app_le by (rewrite length_map; lia).
  rewrite map_drop_comm, Htail, map_nul_lf_id by done.
  assert (HD : (Z.to_nat idx <= length (drop (length data) buf1))%nat)
    by (rewrite length_drop, Hl1; unfold zlen in Hfit; lia).
  rewrite take_app_length'.
  - rewrite take_app, take_ge by (unfold zlen; lia). f_equal. f_equal. unfold zlen. lia.
  - rewrite length_take, length_app. unfold zlen. lia.
Qed.

(** C34: the exact behaviour of [read_lines] on a successful read.  The loop
    scans the first [len] bytes of the buffer ([w] below) whatever
    [*buffer_index] was; the handler receives the complete lines of [w];
    the new index is [*buffer_index] plus the length of the unterminated
    tail of [w]; and the bytes kept at the start of the buffer are that
    tail followed by the [*buffer_index] bytes after [w]. *)
Theorem read_lines_data (size idx : Z) (buf data : list Z) :
  data <> [] -> 0 <= idx -> idx + zlen data <= zlen buf ->
  let buf1 := write_at buf idx data in
  let w := take (length data) buf1 in
  let t := (lf_split w).2 in
  let out := read_lines size (ReadData data) buf idx in
  rl_lines out = map cstr (lf_split w).1 /\
  if idx + zlen t =? size
  then rl_result out = RL_OVERFLOW /\ rl_index out = 0
  else rl_result out = RL_OK /\ rl_index out = idx + zlen t /\
       take (Z.to_nat (idx + zlen t)) (rl_buffer out) =
       t ++ take (Z.to_nat idx) (drop (length data) buf1).
Proof. apply read_lines_window. Qed.

(** Witness: a line completed by a second read at index 2. *)
Lemma read_lines_data_witness :
  (bytes "C" ++ [LF] <> [] /\ 0 <= 2 /\ 2 + zlen (bytes "C" ++ [LF]) <= zlen (bytes "AB" ++ repeat 0 6)) /\
  rl_lines (read_lines 8 (ReadData (bytes "C" ++ [LF])) (bytes "AB" ++ repeat 0 6) 2) =
  map cstr (lf_split (take (length (bytes "C" ++ [LF])) (write_at (bytes "AB" ++ repeat 0 6) 2 (bytes "C" ++ [LF])))).1.
Proof.
  split; [split; [discriminate|split; [lia|vm_compute; discriminate]]|].
  apply (read_lines_data 8 2 (bytes "AB" ++ repeat 0 6) (bytes "C" ++ [LF]));
    [discriminate | lia | vm_compute; discriminate].
Defined.


(** ** Line framing when the buffer starts empty *)

Lemma window_at_zero buf data :
  zlen data <= zlen buf -> take (length data) (write_at buf 0 data) = data.
Proof. intros. unfold write_at. simpl. by rewrite take_app_length. Qed.

(** A piece without a newline is all tail. *)
Lemma lf_split_no_lf l : Forall (fun c => c <> LF) l -> lf_split l = ([], l).
Proof.
  intros Hl. induction l as [|c l IH] using rev_ind; [done|].
  apply Forall_app in Hl as [Hl Hc]. rewrite lf_split_snoc, IH by done. simpl.
  apply Forall_cons_1 in Hc as [Hc _]. by rewrite (proj2 (Z.eqb_neq c LF) Hc).
Qed.

(** One line with its newline, read into an empty buffer: the handler
    gets the line, nothing is left over. *)
Lemma read_lines_one_line size buf line :
  Forall (fun c => c <> LF) line -> zlen line + 1 <= zlen buf -> size <> 0 ->
  let out := read_lines size (ReadData (line ++ [LF])) buf 0 in
  rl_lines out = [cstr line] /\ rl_result out = RL_OK /\ rl_index out = 0.
Proof.
  intros Hl Hfit Hs. cbv zeta.
  assert (Hz : zlen (line ++ [LF]) = zlen line + 1) by (unfold zlen; rewrite length_app; simpl; lia).
  pose proof (read_lines_window size 0 buf (line ++ [LF]) ltac:(by destruct line) ltac:(lia) ltac:(lia)) as H.
  cbv zeta in H. rewrite window_at_zero in H by lia.
  rewrite lf_split_snoc, lf_split_no_lf in H by done. unfold lf_step in H. rewrite Z.eqb_refl in H.
  cbn [fst snd app map] in H. change (zlen (@nil Z)) with 0 in H. rewrite Z.add_0_l in H.
  destruct H as [Hlines H]. rewrite Hlines.
  destruct (Z.eqb_spec 0 size); [lia|]. destruct H as (Hr & Hi & _). done.
Qed.

(** Spec property "line framing" for a read into an empty buffer: the
    handler is called once per ['\n'] of the bytes read, with the bytes
    between newlines (up to an embedded NUL, as a C string), in order; the
    tail after the last newline stays at the start of the buffer and the
    index is its length, unless the tail fills the buffer (overflow: the
    tail is dropped and the index reset). *)
Theorem read_lines_framing (size : Z) (buf data : list Z) :
  data <> [] -> zlen data <= zlen buf ->
  let out := read_lines size (ReadData data) buf 0 in
  rl_lines out = map cstr (lf_split data).1 /\
  if zlen (lf_split data).2 =? size
  then rl_result out = RL_OVERFLOW /\ rl_index out = 0
  else rl_result out = RL_OK /\ rl_index out = zlen (lf_split data).2 /\
       take (length (lf_split data).2) (rl_buffer out) = (lf_split data).2.
Proof.
  intros Hne Hfit. cbv zeta.
  pose proof (read_lines_window size 0 buf data Hne ltac:(lia) ltac:(lia)) as H.
  cbv zeta in H. rewrite window_at_zero in H by done.
  destruct H as [Hl H]. split; [done|].
  destruct (Z.eqb_spec (0 + zlen (lf_split data).2) size);
    destruct (Z.eqb_spec (zlen (lf_split data).2) size); try lia; [done|].
  destruct H as (Hr & Hi & Hb). rewrite Hr, Hi. split; [done|]. split; [done|].
  rewrite Z.add_0_l in Hb. unfold zlen in Hb. rewrite Nat2Z.id, app_nil_r in Hb. done.
Qed.

(** Framing witness: two lines and a tail in one read. *)
Lemma read_lines_framing_witness :
  let data := bytes "ab" ++ [LF] ++ bytes "cd" ++ [LF] ++ bytes "e" in
  (data <> [] /\ zlen data <= zlen (repeat 0 8)) /\
  rl_lines (read_lines 8 (ReadData data) (repeat 0 8) 0) = map cstr (lf_split data).1.
Proof.
  cbv zeta. split; [split; [discriminate | vm_compute; discriminate] |].
  apply (read_lines_framing 8 (repeat 0 8)); [discriminate | vm_compute; discriminate].
Defined.

(** C35: the framing of spec property 6 fails as soon as a line arrives in
    two reads.  The stream ["AB"], then ["C\n"] contains one newline, but
    the second call scans [buffer[0..2)] (the old bytes ["AB"]) instead of
    the two bytes just read at [buffer[2..4)]: the handler is never called
    and the newline is buried inside the kept prefix. *)
Theorem read_lines_split_line_not_delivered :
  let o1 := read_lines 256 (ReadData (bytes "AB")) (repeat 0 256) 0 in
  let o2 := read_lines 256 (ReadData (bytes "C" ++ [LF])) (rl_buffer o1) (rl_index o1) in
  lf_split (bytes "AB" ++ bytes "C" ++ [LF]) = ([bytes "ABC"], []) /\
  rl_lines o1 = [] /\ rl_lines o2 = [] /\ rl_result o2 = RL_OK /\ rl_index o2 = 4 /\
  take 4 (rl_buffer o2) = bytes "ABC" ++ [LF].
Proof. vm_compute. repeat split. Qed.

Lemma length_memmove_front buf ms rem :
  0 <= ms -> 0 <= rem -> ms + rem <= zlen buf -> length (memmove_front buf ms rem) = length buf.
Proof.
  unfold memmove_front, zlen. intros. rewrite length_app, length_take, length_drop, length_drop. lia.
Qed.

(** The buffer invariant of a connection: whatever [read(2)] returns
    (at most the free space, as the call asks), the index stays in
    [[0, buffer_size)] and the buffer keeps its size. *)
Theorem read_lines_index_bounds (size idx : Z) (rd : read_ret) (buf : list Z) :
  0 <= idx < size -> zlen buf = size ->
  (forall data, rd = ReadData data -> idx + zlen data <= size) ->
  let out := read_lines size rd buf idx in
  0 <= rl_index out < size /\ zlen (rl_buffer out) = size.
Proof.
  intros Hidx Hlen Hrd. cbv zeta.
  destruct rd as [|data]; [done|].
  destruct data as [|d ds] eqn:Ed; [simpl; lia|]. rewrite <- Ed in *.
  specialize (Hrd data eq_refl).
  assert (Hne : data <> []) by (subst; discriminate).
  rewrite (read_lines_closed_form size idx buf data Hne ltac:(lia) ltac:(lia)). cbv zeta.
  set (buf1 := write_at buf idx data).
  assert (Hl1 : length buf1 = length buf) by (apply length_write_at; lia).
  set (w := take (length data) buf1).
  assert (Hwl : length w = length data) by (subst w; rewrite length_take; unfold zlen in *; lia).
  pose proof (lf_split_tail_length w) as Htl.
  assert (Hb2 : length (map nul_lf w ++ drop (length data) buf1) = length buf)
    by (rewrite length_app, length_map, length_drop; unfold zlen in *; lia).
  destruct (Z.eqb_spec (idx + zlen (lf_split w).2) size); simpl.
  - unfold zlen in *. lia.
  - split; [unfold zlen in *; lia|].
    unfold zlen at 1. rewrite length_memmove_front; unfold zlen in *; rewrite ?Hb2; lia.
Qed.

(** Witness: the invariant at a concrete partial read. *)
Lemma read_lines_index_bounds_witness :
  (0 <= 2 < 8 /\ zlen (repeat 0 8) = 8) /\
  0 <= rl_index (read_lines 8 (ReadData (bytes "xy")) (repeat 0 8) 2) < 8.
Proof.
  split; [split; [lia | reflexivity]|].
  apply (read_lines_index_bounds 8 2 (ReadData (bytes "xy")) (repeat 0 8));
    [lia | reflexivity | intros d Hd; injection Hd as <-; vm_compute; discriminate].
Defined.
