(* ===== verification/Scanf.v ===== *)
(** * Scanf: the [sscanf] conversions of the protocol and command parsers

    The handlers of [src/ring.c], [src/main.c] and [src/node-server.c]
    parse every line with [sscanf] and test the number of conversions it
    reports.  This file gives the C library function the meaning the code
    relies on (glibc's): [sscanf input format] interprets the format string
    as written in the source, directive by directive:

    - white space in the format skips any amount of white space (none
      included) in the input;
    - any other ordinary character must match the next input byte, else the
      scan stops;
    - [%hhd] skips white space, reads an optional sign and at least one
      decimal digit, and stores the value converted by [strtol] (saturated
      at the bounds of [long]) and then to [signed char];
    - [%Ns] skips white space and stores at most [N] non-white-space bytes
      ([%s] without a width is unbounded); [%*s] reads the same way and
      stores nothing;
    - [%n] stores the number of bytes consumed so far and is not counted.

    The result is the return value of [sscanf] (the number of stored
    conversions, or [-1] when the input ends before the first conversion)
    with the stored values in order. *)

From S2P Require Import Prelude.

Inductive directive :=
| DLit (c : Z)
| DSpace
| DInt
| DStr (width : option nat)
| DSkipStr
| DCount.

Inductive value := VInt (v : Z) | VStr (s : list Z) | VCount (n : Z).

Definition is_space (c : Z) : bool := (c =? 32) || ((9 <=? c) && (c <=? 13)).

Fixpoint span_digits (l : list Z) : list Z * list Z :=
  match l with
  | c :: l' => if is_digit c then let '(ds, r) := span_digits l' in (c :: ds, r) else ([], l)
  | [] => ([], [])
  end.

Definition decimal (ds : list Z) : Z := fold_left (fun acc d => 10 * acc + (d - 48)) ds 0.

Definition has_prefix (p l : list Z) : bool := bool_decide (take (length p) l = p).

(** The format string of the source, as a list of directives (every step
    consumes at least one byte, so [length l] is enough fuel). *)
Fixpoint parse_format_fuel (fuel : nat) (l : list Z) : list directive :=
  match fuel, l with
  | O, _ | _, [] => []
  | S f, c :: l' =>
      if is_space c then DSpace :: parse_format_fuel f l'
      else if negb (c =? 37) then DLit c :: parse_format_fuel f l'
      else if has_prefix [104; 104; 100] l' then DInt :: parse_format_fuel f (drop 3 l')
      else if has_prefix [110] l' then DCount :: parse_format_fuel f (drop 1 l')
      else if has_prefix [42; 115] l' then DSkipStr :: parse_format_fuel f (drop 2 l')
      else if has_prefix [115] l' then DStr None :: parse_format_fuel f (drop 1 l')
      else
        let '(ds, r) := span_digits l' in
        if negb (bool_decide (ds = [])) && has_prefix [115] r
        then DStr (Some (Z.to_nat (decimal ds))) :: parse_format_fuel f (drop 1 r)
        else DLit c :: parse_format_fuel f l'
  end.

Definition parse_format (l : list Z) : list directive := parse_format_fuel (length l) l.

Fixpoint skip_space (l : list Z) : list Z :=
  match l with
  | c :: l' => if is_space c then skip_space l' else l
  | [] => []
  end.

Fixpoint span_word (w : option nat) (l : list Z) : list Z * list Z :=
  match l with
  | c :: l' =>
      if is_space c then ([], l)
      else match w with
           | Some O => ([], l)
           | Some (S k) => let '(s, r) := span_word (Some k) l' in (c :: s, r)
           | None => let '(s, r) := span_word None l' in (c :: s, r)
           end
  | [] => ([], [])
  end.

Definition LONG_MIN : Z := - 2 ^ 63.
Definition LONG_MAX : Z := 2 ^ 63 - 1.

(** [%hhd] on input that does not start with white space. *)
Definition scan_int (l : list Z) : option (Z * list Z) :=
  let '(sign, l1) := match l with
                     | c :: l' => if c =? 45 then (-1, l') else if c =? 43 then (1, l') else (1, l)
                     | [] => (1, l)
                     end in
  let '(ds, rest) := span_digits l1 in
  match ds with
  | [] => None
  | _ => Some (schar (Z.max LONG_MIN (Z.min LONG_MAX (sign * decimal ds))), rest)
  end.

(** The scan: [pos] bytes consumed, [n] conversions stored. *)
Fixpoint scan (fmt : list directive) (inp : list Z) (pos n : Z) (acc : list value) : Z * list value :=
  let stop := (n, rev acc) in
  let eof := (if n =? 0 then -1 else n, rev acc) in
  match fmt with
  | [] => stop
  | DLit c :: f =>
      match inp with
      | [] => eof
      | x :: inp' => if x =? c then scan f inp' (pos + 1) n acc else stop
      end
  | DSpace :: f =>
      let inp' := skip_space inp in scan f inp' (pos + zlen inp - zlen inp') n acc
  | DInt :: f =>
      let inp1 := skip_space inp in
      match inp1 with
      | [] => eof
      | _ => match scan_int inp1 with
             | None => stop
             | Some (v, inp2) => scan f inp2 (pos + zlen inp - zlen inp2) (n + 1) (VInt v :: acc)
             end
      end
  | DStr w :: f =>
      let inp1 := skip_space inp in
      match inp1 with
      | [] => eof
      | _ => let '(s, inp2) := span_word w inp1 in
             scan f inp2 (pos + zlen inp - zlen inp2) (n + 1) (VStr s :: acc)
      end
  | DSkipStr :: f =>
      let inp1 := skip_space inp in
      match inp1 with
      | [] => eof
      | _ => let '(_, inp2) := span_word None inp1 in scan f inp2 (pos + zlen inp - zlen inp2) n acc
      end
  | DCount :: f => scan f inp pos n (VCount pos :: acc)
  end.

(** [sscanf(input, format, ...)] on the C string [input]. *)
Definition sscanf (input : list Z) (format : string) : Z * list value :=
  scan (parse_format (bytes format)) (cstr input) 0 0 [].
Arguments sscanf input format%_string.

(** [s[i]] of a C string with [0 <= i <= strlen(s)] ([NUL] at the end). *)
Definition char_at (s : list Z) (i : Z) : Z :=
  if (0 <=? i) && (i <? zlen s) then s.[i] else NUL.

(** [strncmp(s, prefix, strlen(prefix)) == 0] *)
Definition starts_with (s : list Z) (prefix : string) : bool :=
  bool_decide (take (length (bytes prefix)) (cstr s) = bytes prefix).
Arguments starts_with s prefix%_string.

(** ** What a conversion stores *)

(** The directives that store a value, in order. *)
Definition stored (fmt : list directive) : list directive :=
  List.filter (fun d => match d with DInt | DStr _ | DCount => true | _ => false end) fmt.

(** A value fits the object its directive names: [%hhd] a [signed char],
    [%Ns] at most [N] bytes (a [char[N+1]] with its [NUL]), [%n] an
    [int]. *)
Inductive value_fits : directive -> value -> Prop :=
| fits_int x : -128 <= x <= 127 -> value_fits DInt (VInt x)
| fits_str w s : (forall k, w = Some k -> (length s <= k)%nat) -> value_fits (DStr w) (VStr s)
| fits_count k : value_fits DCount (VCount k).

Example sscanf_route :
  sscanf (bytes "ROUTE 10 30 10-20-30") "ROUTE %hhd %hhd %47s" =
    (3, [VInt 10; VInt 30; VStr (bytes "10-20-30")]) /\
  sscanf (bytes "ROUTE 10 30") "ROUTE %hhd %hhd %47s" = (2, [VInt 10; VInt 30]) /\
  sscanf (bytes "ROUTE") "ROUTE %hhd %hhd" = (-1, []) /\
  sscanf (bytes "ROUTE 10 30") "ROUTE %hhd %hhd" = (2, [VInt 10; VInt 30]) /\
  sscanf (bytes "CHAT 10 20 hi there") "CHAT %hhd %hhd%n" = (2, [VInt 10; VInt 20; VCount 10]) /\
  sscanf (bytes "PRED 300") "PRED %hhd" = (1, [VInt 44]) /\
  sscanf (bytes "PRED x") "PRED %hhd" = (0, []).
Proof. vm_compute. repeat split. Qed.

Lemma schar_range z : -128 <= schar z <= 127.
Proof. unfold schar. pose proof (Z.mod_pos_bound (z + 128) 256). lia. Qed.

Lemma span_word_width w l s r : span_word w l = (s, r) -> forall k, w = Some k -> (length s <= k)%nat.
Proof.
  revert w s r. induction l as [|c l IH]; intros w s r E k ->; cbn in E; [by injection E as <- <-; simpl; lia|].
  destruct (is_space c); [injection E as <- <-; simpl; lia|].
  destruct k as [|k]; [by injection E as <- <-|].
  destruct (span_word (Some k) l) as [s' r'] eqn:E'. injection E as <- <-. simpl.
  specialize (IH _ _ _ E' k eq_refl). lia.
Qed.

Lemma scan_int_range l v r : scan_int l = Some (v, r) -> -128 <= v <= 127.
Proof.
  assert (Hd : forall sign l1, match span_digits l1 with
      | ([], _) => None
      | (ds, rest) => Some (schar (Z.max LONG_MIN (Z.min LONG_MAX (sign * decimal ds))), rest)
      end = Some (v, r) -> -128 <= v <= 127).
  { intros sign l1. destruct (span_digits l1) as [[|d ds] rest]; [done|]. intros [= <- _]. apply schar_range. }
  unfold scan_int. destruct l as [|c l]; [apply Hd|].
  destruct (c =? 45); [apply Hd|]. destruct (c =? 43); apply Hd.
Qed.

(** Every value [scan] stores, after those of [acc], fits the stored
    directive in its position. *)
Lemma scan_fits fmt inp pos n acc n' vs :
  scan fmt inp pos n acc = (n', vs) ->
  exists vs', vs = rev acc ++ vs' /\ Forall2 value_fits (take (length vs') (stored fmt)) vs'.
Proof.
  revert inp pos n acc. induction fmt as [|d fmt IH]; intros inp pos n acc E;
    [cbn in E; injection E as _ <-; exists []; rewrite app_nil_r; split; [done|constructor]|].
  assert (Hstop : vs = rev acc -> exists vs', vs = rev acc ++ vs' /\
            Forall2 value_fits (take (length vs') (stored (d :: fmt))) vs').
  { intros ->. exists []. rewrite app_nil_r. split; [done|constructor]. }
  assert (Hcons : forall x inp' pos' n'', value_fits d x -> scan fmt inp' pos' n'' (x :: acc) = (n', vs) ->
            stored (d :: fmt) = d :: stored fmt ->
            exists vs', vs = rev acc ++ vs' /\
            Forall2 value_fits (take (length vs') (stored (d :: fmt))) vs').
  { intros x inp' pos' n'' Hx E' Hs. destruct (IH _ _ _ _ E') as (vs' & -> & F).
    exists (x :: vs'). rewrite Hs. cbn. split; [by rewrite <- app_assoc|by constructor]. }
  destruct d as [c| | |w| |]; cbn [scan] in E.
  - destruct inp as [|x inp']; [destruct (n =? 0); injection E as _ <-; by apply Hstop|].
    destruct (x =? c); [|injection E as _ <-; by apply Hstop]. by apply IH in E.
  - by apply IH in E.
  - destruct (skip_space inp) as [|c l] eqn:Es; [destruct (n =? 0); injection E as _ <-; by apply Hstop|].
    rewrite <- Es in E. destruct (scan_int (skip_space inp)) as [[v inp2]|] eqn:Ei; [|injection E as _ <-; by apply Hstop].
    eapply Hcons; [constructor; eapply scan_int_range; exact Ei|exact E|done].
  - destruct (skip_space inp) as [|c l] eqn:Es; [destruct (n =? 0); injection E as _ <-; by apply Hstop|].
    destruct (span_word w (c :: l)) as [s inp2] eqn:Ew.
    eapply Hcons; [constructor; eapply span_word_width; exact Ew|exact E|done].
  - destruct (skip_space inp) as [|c l]; [destruct (n =? 0); injection E as _ <-; by apply Hstop|].
    destruct (span_word None (c :: l)) as [s inp2]. by apply IH in E.
  - eapply Hcons; [constructor|exact E|done].
Qed.

(** The values [sscanf] stores fit the objects of its format, in order. *)
Lemma sscanf_fits input format n vs :
  sscanf input format = (n, vs) ->
  Forall2 value_fits (take (length vs) (stored (parse_format (bytes format)))) vs.
Proof. unfold sscanf. intros E. by destruct (scan_fits _ _ _ _ _ _ _ E) as (vs' & -> & F). Qed.
