(* ===== verification/Path.v ===== *)
(** * Path: routing paths and their wire format

    The [Path] struct of [src/routing.h], the helpers [are_paths_equal] and
    [copy_path] of [src/routing.c], the printer [path_to_string] and
    [get_route_message] of [src/routing.c], the [%02hhd] format used for
    every node id on the wire, and the path-string parser of
    [handle_message_from_any_node] ([src/ring.c]).

    A stored path with [hop_count = h >= 0] means: this node, then
    [nodes[0..h-1]] (the neighbor first), then the recipient. *)

From S2P Require Import Prelude.

Record Path := mkPath { hop_count : Z; nodes : list Z }.

Definition INVALID_PATH : Z := -2.
Definition NO_NODE_INDEX : Z := -1.
Definition NO_NODE_ID : Z := -1.

(** A zero-initialised [Path] (the C globals start zeroed). *)
#[export] Instance Path_inhabited : Inhabited Path :=
  populate (mkPath 0 (repeat 0 (Z.to_nat MAX_NODES))).

Definition invalid_path : Path := mkPath INVALID_PATH [].

Definition is_valid (p : Path) : bool := negb (hop_count p =? INVALID_PATH).

(** [are_paths_equal]: same hop count and, when it is positive, the same
    first [hop_count] node ids ([memcmp]). *)
Definition are_paths_equal (p1 p2 : Path) : bool :=
  (hop_count p1 =? hop_count p2) &&
  ((hop_count p1 <=? 0) ||
   bool_decide (take (Z.to_nat (hop_count p1)) (nodes p1) =
                take (Z.to_nat (hop_count p1)) (nodes p2))).

(** [copy_path(dest, src)]: copies the hop count and, when it is positive,
    the first [hop_count] node ids ([memcpy]); the rest of [dest->nodes]
    is left as it was. *)
Definition copy_path (dest src : Path) : Path :=
  mkPath (hop_count src)
    (if 0 <? hop_count src
     then take (Z.to_nat (hop_count src)) (nodes src) ++ drop (Z.to_nat (hop_count src)) (nodes dest)
     else nodes dest).

(** What a path means: [None] when invalid, otherwise its hop count and
    the ids it goes through. *)
Definition path_view (p : Path) : option (Z * list Z) :=
  if is_valid p then Some (hop_count p, take (Z.to_nat (hop_count p)) (nodes p)) else None.

(** ** The [%02hhd] format *)

(** Decimal digits of a non-negative number below [10^fuel]. *)
Fixpoint dec_digits (fuel : nat) (n : Z) : list Z :=
  match fuel with
  | O => []
  | S f => if n <? 10 then [48 + n] else dec_digits f (n / 10) ++ [48 + n mod 10]
  end.

(** [printf("%02hhd", v)]: the value is converted to [signed char], then
    printed in decimal, zero-padded to two characters (the sign counts). *)
Definition fmt_id (v : Z) : list Z :=
  let c := schar v in
  if c <? 0 then DASH :: dec_digits 3 (- c)
  else if c <? 10 then 48 :: dec_digits 3 c
  else dec_digits 3 c.

(** [path_to_string(str, recipient_id, path)] *)
Definition path_to_string (self_id recipient_id : Z) (p : Path) : outcome (list Z) :=
  if hop_count p =? INVALID_PATH then Ok []
  else if hop_count p =? -1 then Exit "Assertion (path->hop_count != -1) failed!"
  else Ok (fmt_id self_id ++ [DASH] ++
           concat (map (fun n => fmt_id n ++ [DASH]) (take (Z.to_nat (hop_count p)) (nodes p))) ++
           fmt_id recipient_id).

(** The [route_msg] buffer of [announce_new_path] and
    [send_shortest_paths]: [char route_msg[14+MAX_PATH_STR_LENGTH]]. *)
Definition ROUTE_MSG_SIZE : Z := 14 + MAX_PATH_STR_LENGTH.

(** [sprintf] into [route_msg]: the line and its NUL must fit. *)
Definition sprintf_route_msg (msg : list Z) : outcome (list Z) :=
  if zlen msg + 1 <=? ROUTE_MSG_SIZE then Ok msg else Undefined "sprintf past route_msg".

(** [get_route_message(msg, recipient_id, path)]: the [ROUTE] line that
    announces [path] ([None] is the NULL pointer), written into the
    caller's [route_msg]. *)
Definition get_route_message (self_id recipient_id : Z) (path : option Path) : outcome (list Z) :=
  let head := bytes "ROUTE " ++ fmt_id self_id ++ [SPACE] ++ fmt_id recipient_id in
  match path with
  | Some p =>
      if hop_count p =? INVALID_PATH then sprintf_route_msg (head ++ [LF])
      else let! s := path_to_string self_id recipient_id p in
           sprintf_route_msg (head ++ [SPACE] ++ s ++ [LF])
  | None => sprintf_route_msg (head ++ [LF])
  end.

(** ** The path parser of [handle_message_from_any_node]

    [path_str] is what [%47s] stored.  The loop reads one character per
    iteration: a ['-'] or the terminating NUL ends an id, which [atoi]
    converts and stores in [path.nodes[i++]]; any other character must be a
    digit and at most the second of its id.  [path.nodes] has [MAX_NODES]
    entries and the bound check is disabled ([false && i >= MAX_NODES]):
    storing a seventeenth id writes past the array. *)

(** [atoi] of a run of decimal digits (an empty run gives [0]). *)
Definition atoi_digits (ds : list Z) : Z := fold_left (fun acc d => 10 * acc + (d - 48)) ds 0.

Definition store_id (ids : list Z) (seg : list Z) : outcome (list Z) :=
  if zlen ids <? MAX_NODES then Ok (ids ++ [atoi_digits seg])
  else Undefined "write past path.nodes[MAX_NODES]".

Fixpoint parse_path_loop (rest : list Z) (c id_start : Z) (seg ids : list Z) : outcome (option (list Z)) :=
  match rest with
  | [] => let! ids' := store_id ids seg in Ok (Some ids')
  | ch :: rest' =>
      if ch =? DASH then
        let! ids' := store_id ids seg in parse_path_loop rest' (c + 1) (c + 1) [] ids'
      else if negb (is_digit ch) || (id_start + 1 <? c) then Ok None
      else parse_path_loop rest' (c + 1) id_start (seg ++ [ch]) ids
  end.

(** The parsed [struct Path]: [hop_count = i - 1], [nodes] the ids read.
    [Ok None] is the "invalid path string" warning (message ignored). *)
Definition parse_path (path_str : list Z) : outcome (option Path) :=
  let! r := parse_path_loop path_str 0 0 [] [] in
  match r with
  | Some ids => Ok (Some (mkPath (zlen ids - 1) ids))
  | None => Ok None
  end.

Example fmt_id_samples :
  fmt_id 7 = bytes "07" /\ fmt_id 42 = bytes "42" /\ fmt_id (-1) = bytes "-1" /\
  fmt_id 120 = bytes "120" /\ fmt_id 200 = bytes "-56".
Proof. vm_compute. repeat split. Qed.

Example parse_path_sample :
  parse_path (bytes "10-20-30") = Ok (Some (mkPath 2 [10; 20; 30])).
Proof. vm_compute. reflexivity. Qed.

(** ** Properties *)

Definition id_in_range (v : Z) : Prop := 0 <= v <= MAX_NODE_ID.

Lemma schar_small v : -128 <= v <= 127 -> schar v = v.
Proof. intros. unfold schar. rewrite Z.mod_small by lia. lia. Qed.

(** A node id of the protocol prints as two digits. *)
Lemma fmt_id_in_range v : id_in_range v -> fmt_id v = [48 + v / 10; 48 + v mod 10].
Proof.
  unfold id_in_range, MAX_NODE_ID. intros Hv. unfold fmt_id.
  rewrite schar_small by lia.
  destruct (Z.ltb_spec v 0); [lia|].
  destruct (Z.ltb_spec v 10).
  - simpl. destruct (Z.ltb_spec v 10); [|lia].
    rewrite Z.div_small, Z.mod_small by lia. by rewrite Z.add_0_r.
  - simpl. destruct (Z.ltb_spec v 10); [lia|].
    destruct (Z.ltb_spec (v / 10) 10); [done|].
    assert (v / 10 < 10) by (apply Z.div_lt_upper_bound; lia). lia.
Qed.

Lemma atoi_two_digits v : id_in_range v -> atoi_digits [48 + v / 10; 48 + v mod 10] = v.
Proof.
  unfold id_in_range. intros Hv. unfold atoi_digits. simpl.
  pose proof (Z.div_mod v 10). lia.
Qed.

Lemma is_digit_of v : 0 <= v <= 9 -> is_digit (48 + v) = true.
Proof. intros. unfold is_digit. apply andb_true_intro. split; apply Z.leb_le; lia. Qed.

(** Parsing one printed id, then a ['-'] or the end of the string. *)
Lemma parse_loop_id v rest c ids :
  id_in_range v -> zlen ids < MAX_NODES ->
  (rest = [] \/ exists rest', rest = DASH :: rest') ->
  parse_path_loop (fmt_id v ++ rest) c c [] ids =
  match rest with
  | [] => Ok (Some (ids ++ [v]))
  | _ :: rest' => parse_path_loop rest' (c + 3) (c + 3) [] (ids ++ [v])
  end.
Proof.
  intros Hv Hn Hrest. rewrite fmt_id_in_range by done.
  assert (Hd := atoi_two_digits v Hv). unfold id_in_range, MAX_NODE_ID in Hv.
  assert (H1 : is_digit (48 + v / 10) = true).
  { apply is_digit_of. split; [apply Z.div_pos; lia | apply Z.lt_succ_r, Z.div_lt_upper_bound; lia]. }
  assert (H2 : is_digit (48 + v mod 10) = true).
  { apply is_digit_of. pose proof (Z.mod_pos_bound v 10). lia. }
  assert (0 <= v / 10) by (apply Z.div_pos; lia). pose proof (Z.mod_pos_bound v 10).
  simpl. rewrite H1, H2.
  destruct (Z.eqb_spec (48 + v / 10) DASH); [unfold DASH in *; lia|].
  destruct (Z.eqb_spec (48 + v mod 10) DASH); [unfold DASH in *; lia|].
  destruct (Z.ltb_spec (c + 1) c); [lia|]. destruct (Z.ltb_spec (c + 1) (c + 1)); [lia|].
  simpl. destruct Hrest as [->|[rest' ->]]; simpl; unfold store_id;
    destruct (Z.ltb_spec (zlen ids) MAX_NODES); try lia; rewrite Hd; [done|].
  by replace (c + 1 + 1 + 1) with (c + 3) by lia.
Qed.

Lemma parse_loop_ids (l : list Z) (last c : Z) (ids : list Z) :
  Forall id_in_range l -> id_in_range last -> zlen ids + zlen l + 1 <= MAX_NODES ->
  parse_path_loop (concat (map (fun n => fmt_id n ++ [DASH]) l) ++ fmt_id last) c c [] ids =
  Ok (Some (ids ++ l ++ [last])).
Proof.
  intros Hl. revert c ids. induction Hl as [|x l Hx Hl IH]; intros c ids Hlast Hn; simpl.
  - rewrite <- (app_nil_r (fmt_id last)), parse_loop_id by (unfold zlen in *; simpl in *; auto; lia).
    done.
  - rewrite <- !app_assoc. simpl.
    rewrite parse_loop_id by (unfold zlen in *; simpl in *; eauto; lia).
    rewrite IH by (unfold zlen in *; rewrite ?length_app; simpl in *; auto; lia).
    by rewrite <- app_assoc.
Qed.

Lemma length_fmt_in_range v : id_in_range v -> length (fmt_id v) = 2%nat.
Proof. intros. by rewrite fmt_id_in_range. Qed.

Lemma length_concat_fmt (l : list Z) :
  Forall id_in_range l -> length (concat (map (fun n => fmt_id n ++ [DASH]) l)) = (3 * length l)%nat.
Proof.
  induction 1 as [|x l Hx _ IH]; simpl; [done|].
  rewrite length_app, length_app, length_fmt_in_range by done. simpl. lia.
Qed.

(** Printing a path and parsing the string back (the lemma behind the
    round-trip property below). *)
Lemma path_string_parse_back (self rid : Z) (p : Path) :
  id_in_range self -> id_in_range rid ->
  0 <= hop_count p <= MAX_NODES - 2 ->
  (Z.to_nat (hop_count p) <= length (nodes p))%nat ->
  Forall id_in_range (take (Z.to_nat (hop_count p)) (nodes p)) ->
  exists s, path_to_string self rid p = Ok s /\ zlen s <= MAX_PATH_STR_LENGTH /\
    parse_path s = Ok (Some (mkPath (hop_count p + 1)
                                    (self :: take (Z.to_nat (hop_count p)) (nodes p) ++ [rid]))).
Proof.
  intros Hs Hr Hh Hlen Hf. unfold path_to_string.
  destruct (Z.eqb_spec (hop_count p) INVALID_PATH); [unfold INVALID_PATH in *; lia|].
  destruct (Z.eqb_spec (hop_count p) (-1)); [lia|].
  eexists. split; [reflexivity|].
  set (l := take (Z.to_nat (hop_count p)) (nodes p)).
  assert (Hl : length l = Z.to_nat (hop_count p)) by (subst l; rewrite length_take; lia).
  split.
  - unfold zlen. rewrite !length_app, length_concat_fmt, !length_fmt_in_range by done.
    simpl. unfold MAX_PATH_STR_LENGTH, MAX_NODES in *. lia.
  - unfold parse_path.
    replace (fmt_id self ++ [DASH] ++ concat (map (fun n => fmt_id n ++ [DASH]) l) ++ fmt_id rid)
      with (concat (map (fun n => fmt_id n ++ [DASH]) (self :: l)) ++ fmt_id rid)
      by (simpl; by rewrite <- !app_assoc).
    rewrite parse_loop_ids; [| by constructor | done |].
    2: { unfold zlen, MAX_NODES in *. simpl. lia. }
    simpl. do 3 f_equal. unfold zlen. simpl. rewrite length_app. simpl. lia.
Qed.
(** A path string that fits [MAX_PATH_STR_LENGTH] is announced whole:
    the [ROUTE] line and its [NUL] fit [route_msg]. *)
Lemma get_route_message_path (a rid : Z) (p : Path) (s : list Z) :
  id_in_range a -> id_in_range rid -> hop_count p <> INVALID_PATH ->
  path_to_string a rid p = Ok s -> zlen s <= MAX_PATH_STR_LENGTH ->
  get_route_message a rid (Some p) =
    Ok (bytes "ROUTE " ++ fmt_id a ++ [SPACE] ++ fmt_id rid ++ [SPACE] ++ s ++ [LF]).
Proof.
  intros Ha Hr Hinv Hs Hlen. unfold get_route_message.
  destruct (Z.eqb_spec (hop_count p) INVALID_PATH); [done|]. rewrite Hs. unfold sprintf_route_msg.
  assert (Hz : zlen ((bytes "ROUTE " ++ fmt_id a ++ [SPACE] ++ fmt_id rid) ++ [SPACE] ++ s ++ [LF]) + 1
               <= ROUTE_MSG_SIZE).
  { unfold zlen in *. rewrite !length_app, !length_fmt_in_range by done.
    unfold ROUTE_MSG_SIZE. simpl. lia. }
  apply Z.leb_le in Hz. rewrite Hz. by rewrite <- !app_assoc.
Qed.

(** Spec property "round-trip parsing".  A path whose ids are node ids
    of the protocol and which has at most [MAX_NODES - 2] intermediate
    hops prints as a string of at most [MAX_PATH_STR_LENGTH] characters
    (so [%47s] reads it whole), and the receiver's parser reads back this
    node, the stored ids and the recipient, with one more hop: the hop
    count as seen from the receiver. *)
Theorem path_string_roundtrip (self rid : Z) (p : Path) :
  id_in_range self -> id_in_range rid ->
  0 <= hop_count p <= MAX_NODES - 2 ->
  (Z.to_nat (hop_count p) <= length (nodes p))%nat ->
  Forall id_in_range (take (Z.to_nat (hop_count p)) (nodes p)) ->
  exists s, path_to_string self rid p = Ok s /\ zlen s <= MAX_PATH_STR_LENGTH /\
    parse_path s = Ok (Some (mkPath (hop_count p + 1)
                                    (self :: take (Z.to_nat (hop_count p)) (nodes p) ++ [rid]))).
Proof. apply path_string_parse_back. Qed.


(** Witness: a three-hop path from node 10 to node 30. *)
Lemma path_string_roundtrip_witness :
  exists s, path_to_string 10 30 (mkPath 2 [15; 20]) = Ok s /\ zlen s <= MAX_PATH_STR_LENGTH /\
    parse_path s = Ok (Some (mkPath 3 [10; 15; 20; 30])).
Proof.
  apply (path_string_roundtrip 10 30 (mkPath 2 [15; 20]));
    simpl; try (unfold id_in_range, MAX_NODE_ID, MAX_NODES; lia).
  repeat constructor; unfold id_in_range, MAX_NODE_ID; lia.
Defined.

(** C36: the disabled bound check ([false && i >= MAX_NODES]) of the path
    parser: a [ROUTE] path of seventeen one-digit ids, 33 characters, which
    [%47s] reads whole, makes the loop store a seventeenth id past
    [path.nodes[MAX_NODES - 1]]. *)
Theorem parse_path_overflows :
  let s := concat (repeat (bytes "1-") 16) ++ bytes "1" in
  zlen s <= MAX_PATH_STR_LENGTH /\
  parse_path s = Undefined "write past path.nodes[MAX_NODES]".
Proof. vm_compute. split; [discriminate | reflexivity]. Qed.

(** [are_paths_equal] decides equality of what the two paths mean. *)
Lemma are_paths_equal_view (p1 p2 : Path) :
  is_valid p1 = true -> is_valid p2 = true -> 0 <= hop_count p1 -> 0 <= hop_count p2 ->
  are_paths_equal p1 p2 = bool_decide (path_view p1 = path_view p2).
Proof.
  intros V1 V2 H1 H2. unfold are_paths_equal, path_view. rewrite V1, V2.
  destruct (Z.eqb_spec (hop_count p1) (hop_count p2)) as [E|E]; simpl.
  - rewrite <- E. destruct (Z.leb_spec (hop_count p1) 0); simpl.
    + replace (Z.to_nat (hop_count p1)) with 0%nat by lia. simpl.
      by rewrite bool_decide_eq_true_2.
    + apply bool_decide_ext. split; [by intros ->|congruence].
  - symmetry. apply bool_decide_eq_false_2. congruence.
Qed.

Lemma copy_path_take (dest src : Path) :
  (Z.to_nat (hop_count src) <= length (nodes src))%nat ->
  take (Z.to_nat (hop_count src)) (nodes (copy_path dest src)) = take (Z.to_nat (hop_count src)) (nodes src).
Proof.
  intros Hl. unfold copy_path. simpl. destruct (Z.ltb_spec 0 (hop_count src)).
  - by rewrite take_app_le, take_take, Nat.min_id by (rewrite length_take; lia).
  - by replace (Z.to_nat (hop_count src)) with 0%nat by lia.
Qed.

(** What [copy_path] stores means what its source meant. *)
Lemma copy_path_view (dest src : Path) :
  (Z.to_nat (hop_count src) <= length (nodes src))%nat ->
  path_view (copy_path dest src) = path_view src.
Proof.
  intros Hl. unfold path_view, copy_path, is_valid. simpl.
  destruct (hop_count src =? INVALID_PATH); [done|]. simpl.
  destruct (Z.ltb_spec 0 (hop_count src)).
  - by rewrite take_app_le, take_take, Nat.min_id by (rewrite length_take; lia).
  - by replace (Z.to_nat (hop_count src)) with 0%nat by lia.
Qed.

Lemma copy_path_length (dest src : Path) :
  (Z.to_nat (hop_count src) <= length (nodes src))%nat ->
  (Z.to_nat (hop_count src) <= length (nodes (copy_path dest src)))%nat.
Proof.
  intros Hl. unfold copy_path. simpl. destruct (Z.ltb_spec 0 (hop_count src)); [|lia].
  rewrite length_app, length_take. lia.
Qed.
