(* ===== verification/Connections.v ===== *)
(** * Connections: the connection registry of [src/connections.c]

    [connections[MAX_CONNECTIONS]] is a list of [Connection] records; a
    free slot has [socket = -1].  The four role pointers [new_node_conn],
    [pred_conn], [succ_conn] and [outbound_chord_conn] are slot indices
    ([None] is [NULL]).  [select_inputs], the [fd_set] that [add_connection]
    and [close_connection] update, is a finite set of descriptors.

    The class [ConnTable] at the end is what the routing engine uses of the
    registry (the live sockets, and the socket of a node); the registry
    is its instance. *)

From S2P Require Import Prelude.

Record Connection := mkConn {
  socket : Z;
  node_id : Z;
  buffer : list Z;
  buffer_index : Z;
  ip_addr : list Z;   (** the C string's contents, up to its NUL *)
  tcp_port : list Z
}.

#[export] Instance Connection_inhabited : Inhabited Connection :=
  populate (mkConn 0 0 (repeat 0 (Z.to_nat MAX_NODE_MESSAGE_SIZE)) 0 [] []).

Record Registry := mkReg {
  connections : list Connection;
  new_node_conn : option Z;
  pred_conn : option Z;
  succ_conn : option Z;
  outbound_chord_conn : option Z;
  select_inputs : gset Z
}.

Definition set_connections (r : Registry) (cs : list Connection) : Registry :=
  mkReg cs (new_node_conn r) (pred_conn r) (succ_conn r) (outbound_chord_conn r) (select_inputs r).
Definition set_select_inputs (r : Registry) (s : gset Z) : Registry :=
  mkReg (connections r) (new_node_conn r) (pred_conn r) (succ_conn r) (outbound_chord_conn r) s.

Definition conn_set_socket (c : Connection) (s : Z) : Connection :=
  mkConn s (node_id c) (buffer c) (buffer_index c) (ip_addr c) (tcp_port c).
Definition conn_set_node_id (c : Connection) (id : Z) : Connection :=
  mkConn (socket c) id (buffer c) (buffer_index c) (ip_addr c) (tcp_port c).

Definition is_free (c : Connection) : bool := socket c =? -1.

(** The registry as the zeroed C globals start ([socket = 0] in every
    slot until [init_connections_array] runs). *)
Definition registry_zero : Registry :=
  mkReg (replicate (Z.to_nat MAX_CONNECTIONS) inhabitant) None None None None ∅.

(** [init_connections_array]: every slot free. *)
Definition init_connections_array (r : Registry) : Registry :=
  set_connections r (map (fun c => conn_set_socket c (-1)) (connections r)).

(** [add_connection(socket)]: [FD_SET], then the first free slot gets the
    socket, node id [-1], an empty buffer and empty address strings; no
    free slot is a fatal error. *)
Definition add_connection (sock : Z) (r : Registry) : outcome (Z * Registry) :=
  let r1 := set_select_inputs r ({[sock]} ∪ select_inputs r) in
  let i := find_index is_free (connections r1) in
  if i =? -1 then Exit "add_connection(): no space left!"
  else
    let c := (connections r1).[i] in
    let c' := mkConn sock (-1) (buffer c) 0 [] [] in
    Ok (i, set_connections r1 (zset (connections r1) i c')).

Definition clear_ptr (i : Z) (p : option Z) : option Z :=
  if decide (p = Some i) then None else p.

(** [close_connection(connection)]: a NULL or free slot is left alone;
    otherwise the descriptor is closed and cleared from [select_inputs],
    the slot is freed and every role pointer to it becomes NULL.  The
    return value of [close(2)] is the environment's: callers ignore it. *)
Definition close_connection (conn : option Z) (r : Registry) : Registry :=
  match conn with
  | None => r
  | Some i =>
      let c := (connections r).[i] in
      if socket c =? -1 then r
      else mkReg (zset (connections r) i (conn_set_socket c (-1)))
                 (clear_ptr i (new_node_conn r)) (clear_ptr i (pred_conn r))
                 (clear_ptr i (succ_conn r)) (clear_ptr i (outbound_chord_conn r))
                 (select_inputs r ∖ {[socket c]})
  end.

(** [find_connection_by_socket(socket)] *)
Definition find_connection_by_socket (sock : Z) (r : Registry) : option Z :=
  find_slot (fun c => socket c =? sock) (connections r).

(** [find_connection_by_node_id(node_id)]: only live slots. *)
Definition find_connection_by_node_id (id : Z) (r : Registry) : option Z :=
  find_slot (fun c => negb (socket c =? -1) && (node_id c =? id)) (connections r).

(** [is_inbound_chord(conn)]: no role pointer designates the slot. *)
Definition is_inbound_chord (i : Z) (r : Registry) : bool :=
  bool_decide (new_node_conn r <> Some i /\ pred_conn r <> Some i /\
               succ_conn r <> Some i /\ outbound_chord_conn r <> Some i).

(** The live sockets in slot order: the targets of a broadcast loop
    [for (i...) if (connections[i].socket != -1) ...]. *)
Definition live_sockets (r : Registry) : list Z :=
  map socket (List.filter (fun c => negb (is_free c)) (connections r)).

(** [conn_printf] formats into [char message[MAX_NODE_MESSAGE_SIZE]] with
    [vsnprintf], which keeps at most [MAX_NODE_MESSAGE_SIZE - 1] bytes, and
    writes that string. *)
Definition conn_printf_bytes (line : list Z) : list Z :=
  take (Z.to_nat (MAX_NODE_MESSAGE_SIZE - 1)) line.

(** ** The interface the routing engine uses *)

Class ConnTable (R : Type) := {
  ct_live_sockets : R -> list Z;
  ct_socket_of_node : R -> Z -> option Z
}.

Class ConnTableLaws (R : Type) `{ConnTable R} := {
  ct_socket_of_node_live : forall r id s,
    ct_socket_of_node r id = Some s -> In s (ct_live_sockets r)
}.

Definition socket_of_node (r : Registry) (id : Z) : option Z :=
  match find_connection_by_node_id id r with
  | Some i => Some (socket (connections r).[i])
  | None => None
  end.

#[export] Instance Registry_ConnTable : ConnTable Registry := {
  ct_live_sockets := live_sockets;
  ct_socket_of_node := socket_of_node
}.

(** ** Well-formedness of the registry *)

Definition roles (r : Registry) : list (option Z) :=
  [new_node_conn r; pred_conn r; succ_conn r; outbound_chord_conn r].

(** The slots the role pointers designate. *)
Definition opt_list (p : option Z) : list Z := match p with Some i => [i] | None => [] end.
Definition role_slots (r : Registry) : list Z := concat (map opt_list (roles r)).

Lemma opt_list_clear i p : opt_list (clear_ptr i p) = List.filter (fun j => negb (j =? i)) (opt_list p).
Proof.
  unfold clear_ptr. destruct p as [a|]; simpl; [|done].
  case_decide as H; [injection H as ->; by rewrite Z.eqb_refl|].
  destruct (Z.eqb_spec a i); [congruence|done].
Qed.

Definition live (r : Registry) (i : Z) : Prop :=
  0 <= i < zlen (connections r) /\ socket (connections r).[i] <> -1.

(** A role pointer is NULL or designates a live slot; no slot holds two
    roles (spec property "role exclusivity"); live slots have distinct,
    non-negative descriptors; the table has [MAX_CONNECTIONS] slots. *)
Record reg_wf (r : Registry) : Prop := {
  wf_size : zlen (connections r) = MAX_CONNECTIONS;
  wf_roles_live : forall i, In i (role_slots r) -> live r i;
  wf_roles_nodup : List.NoDup (role_slots r);
  wf_socket_nonneg : forall i, live r i -> 0 <= socket (connections r).[i];
  wf_sockets_distinct : forall i j, live r i -> live r j ->
    socket (connections r).[i] = socket (connections r).[j] -> i = j
}.

Lemma In_role_slots r i :
  In i (role_slots r) <->
  new_node_conn r = Some i \/ pred_conn r = Some i \/ succ_conn r = Some i \/
  outbound_chord_conn r = Some i.
Proof.
  unfold role_slots, roles.
  destruct (new_node_conn r), (pred_conn r), (succ_conn r), (outbound_chord_conn r);
    simpl; intuition congruence.
Qed.

Lemma is_inbound_chord_spec r i : is_inbound_chord i r = true <-> ~ In i (role_slots r).
Proof.
  unfold is_inbound_chord. rewrite bool_decide_eq_true, In_role_slots. tauto.
Qed.

Lemma live_socket_in (r : Registry) i : live r i -> In (socket (connections r).[i]) (live_sockets r).
Proof.
  intros [Hi Hs]. unfold live_sockets. apply in_map. apply filter_In. split.
  - by apply zget_In.
  - unfold is_free. by destruct (Z.eqb_spec (socket (connections r).[i]) (-1)).
Qed.

#[export] Instance Registry_ConnTableLaws : ConnTableLaws Registry.
Proof.
  constructor. simpl. intros r id s. unfold socket_of_node.
  destruct (find_connection_by_node_id id r) as [i|] eqn:E; [|done].
  intros [= <-]. apply find_slot_Some in E as (Hi & Hp & _).
  apply live_socket_in. split; [done|].
  apply andb_true_iff in Hp as [Hp _]. by destruct (Z.eqb_spec (socket (connections r).[i]) (-1)).
Qed.

(** ** An executable check of the invariant *)

Definition liveb (r : Registry) (i : Z) : bool :=
  (0 <=? i) && (i <? zlen (connections r)) && negb (socket (connections r).[i] =? -1).

Fixpoint nodupb (l : list Z) : bool :=
  match l with
  | [] => true
  | x :: l' => negb (existsb (Z.eqb x) l') && nodupb l'
  end.

Definition reg_wfb (r : Registry) : bool :=
  let n := zlen (connections r) in
  (n =? MAX_CONNECTIONS) && forallb (liveb r) (role_slots r) && nodupb (role_slots r) &&
  forall_range n (fun i => negb (liveb r i) || (0 <=? socket (connections r).[i])) &&
  forall_range n (fun i => forall_range n (fun j =>
    negb (liveb r i && liveb r j && (socket (connections r).[i] =? socket (connections r).[j])) || (i =? j))).

Lemma liveb_live r i : liveb r i = true <-> live r i.
Proof.
  unfold liveb, live. rewrite !andb_true_iff, Z.leb_le, Z.ltb_lt, negb_true_iff.
  destruct (Z.eqb_spec (socket (connections r).[i]) (-1)); intuition (try congruence; lia).
Qed.

Lemma nodupb_sound l : nodupb l = true -> List.NoDup l.
Proof.
  induction l as [|x l IH]; simpl; [constructor|].
  rewrite andb_true_iff, negb_true_iff. intros [Hx Hl]. constructor; [|by apply IH].
  intros Hin. apply not_true_iff_false in Hx. apply Hx, existsb_exists. exists x. by rewrite Z.eqb_refl.
Qed.

Lemma reg_wfb_sound r : reg_wfb r = true -> reg_wf r.
Proof.
  unfold reg_wfb. rewrite !andb_true_iff. intros ((((Hn & Hroles) & Hnd) & Hnn) & Hd).
  apply Z.eqb_eq in Hn. constructor.
  - done.
  - intros i Hi. apply liveb_live. rewrite forallb_forall in Hroles. by apply Hroles.
  - by apply nodupb_sound.
  - intros i Hi. pose proof (forall_range_spec _ _ Hnn i (proj1 Hi)) as H. cbv beta in H.
    apply liveb_live in Hi. rewrite Hi in H. simpl in H. by apply Z.leb_le.
  - intros i j Hi Hj E. pose proof (forall_range_spec _ _ (forall_range_spec _ _ Hd i (proj1 Hi)) j (proj1 Hj)) as H.
    cbv beta in H. apply liveb_live in Hi, Hj. rewrite Hi, Hj, E, Z.eqb_refl in H. simpl in H. by apply Z.eqb_eq.
Qed.

(** No live slot holds the descriptor [s]. *)
Definition fresh_socketb (r : Registry) (s : Z) : bool :=
  forall_range (zlen (connections r)) (fun i => negb (liveb r i) || negb (socket (connections r).[i] =? s)).

Lemma fresh_socketb_sound r s :
  fresh_socketb r s = true -> forall i, live r i -> socket (connections r).[i] <> s.
Proof.
  intros H i Hi. pose proof (forall_range_spec _ _ H i (proj1 Hi)) as Hs. cbv beta in Hs.
  apply liveb_live in Hi. rewrite Hi in Hs. simpl in Hs. apply negb_true_iff in Hs. by apply Z.eqb_neq.
Qed.

(** ** Concrete registries *)

(** After [init_connections_array]. *)
Definition registry_init : Registry := init_connections_array registry_zero.

(** One connection, to node 20 on socket 5. *)
Definition registry_node20 : Registry :=
  let r := (ok_or (0, registry_zero) (add_connection 5 registry_init)).2 in
  set_connections r (zset (connections r) 0 (conn_set_node_id (connections r).[0] 20)).

(** ** Adding and closing connections *)

(** What [add_connection] changes: one free slot gets the socket, the
    descriptor joins [select_inputs]; nothing else moves. *)
Lemma add_connection_frame s r i r' :
  add_connection s r = Ok (i, r') ->
  0 <= i < zlen (connections r) /\ ~ live r i /\ socket (connections r').[i] = s /\
  zlen (connections r') = zlen (connections r) /\
  (forall j, 0 <= j -> j <> i -> (connections r').[j] = (connections r).[j]) /\
  roles r' = roles r /\ select_inputs r' = {[s]} ∪ select_inputs r.
Proof.
  unfold add_connection. simpl.
  destruct (find_index_spec is_free (connections r)) as [[-> _]|[Hr [Hp _]]]; [done|].
  destruct (Z.eqb_spec (find_index is_free (connections r)) (-1)); [lia|].
  intros [= <- <-]. simpl.
  change (socket (connections r).[find_index is_free (connections r)] =? -1 = true) in Hp.
  apply Z.eqb_eq in Hp.
  rewrite zlen_zset. split; [done|]. split; [unfold live; intros [_ ?]; congruence|].
  split; [by rewrite zget_zset_eq|]. split; [done|]. split; [|done].
  intros j Hj Hne. apply zget_zset_ne; lia.
Qed.


Section Registry_ops.
  Context (r : Registry) (Hwf : reg_wf r).

Lemma role_slot_live i : In i (role_slots r) -> live r i.
  Proof. apply (wf_roles_live r Hwf). Qed.

Lemma add_connection_correct (s : Z) :
    0 <= s -> (forall i, live r i -> socket (connections r).[i] <> s) ->
    match add_connection s r with
    | Ok (i, r') =>
        reg_wf r' /\ find_connection_by_socket s r' = Some i /\
        node_id (connections r').[i] = -1 /\ roles r' = roles r /\
        (forall j, 0 <= j < i -> live r j) /\ s ∈ select_inputs r'
    | Exit _ => forall j, 0 <= j < zlen (connections r) -> live r j
    | Undefined _ => False
    end.
  Proof.
    intros Hs Hfresh. unfold add_connection. simpl.
    destruct (find_index_spec is_free (connections r)) as [[-> Hall]|[Hr [Hp Hb]]].
    { simpl. intros j Hj. split; [done|]. specialize (Hall j Hj). unfold is_free in Hall.
      by destruct (Z.eqb_spec (socket (connections r).[j]) (-1)). }
    set (i := find_index is_free (connections r)) in *.
    destruct (Z.eqb_spec i (-1)); [lia|].
    unfold is_free in Hp. apply Z.eqb_eq in Hp.
    set (c' := mkConn s (-1) (buffer (connections r).[i]) 0 [] []).
    assert (Hget : forall j, 0 <= j -> (zset (connections r) i c').[j] =
                             if decide (i = j) then c' else (connections r).[j])
      by (intros; apply zget_zset; lia).
    assert (Hlive : forall j, live (set_connections (set_select_inputs r ({[s]} ∪ select_inputs r))
                                    (zset (connections r) i c')) j <-> j = i \/ live r j).
    { intros j. unfold live. simpl. rewrite zlen_zset. split.
      - intros [Hj Hsj]. rewrite Hget in Hsj by lia. case_decide; [by left|]. right. done.
      - intros [->|[Hj Hsj]]; (split; [lia|]); rewrite Hget by lia; case_decide; simpl; try lia.
        }
    assert (Hnotrole : ~ In i (role_slots r)).
    { intros Hin. apply role_slot_live in Hin as [_ Hl]. congruence. }
    assert (Hbefore : forall j, 0 <= j < i -> live r j).
    { intros j Hj. split; [lia|]. specialize (Hb j Hj). unfold is_free in Hb.
      by destruct (Z.eqb_spec (socket (connections r).[j]) (-1)). }
    split; [|split; [|split; [|split; [|split]]]].
    - constructor; simpl.
      + rewrite zlen_zset. apply (wf_size r Hwf).
      + intros j Hj. apply Hlive. right. by apply role_slot_live.
      + apply (wf_roles_nodup r Hwf).
      + intros j Hj. apply Hlive in Hj. rewrite Hget by (destruct Hj as [->|[? _]]; lia).
        case_decide; simpl; [lia|]. destruct Hj as [->|Hj]; [done|]. by apply (wf_socket_nonneg r Hwf).
      + intros j k Hj Hk. apply Hlive in Hj, Hk.
        rewrite !Hget by (destruct Hj as [->|[? _]]; destruct Hk as [->|[? _]]; lia).
        repeat case_decide; simpl; subst; try done.
        * intros Heq. destruct Hk as [->|Hk]; [done|]. by apply Hfresh in Hk.
        * intros Heq. destruct Hj as [->|Hj]; [done|]. symmetry in Heq. by apply Hfresh in Hj.
        * destruct Hj as [->|Hj]; [done|]. destruct Hk as [->|Hk]; [done|].
          by apply (wf_sockets_distinct r Hwf).
    - unfold find_connection_by_socket. apply find_slot_Some. simpl. rewrite zlen_zset.
      split; [lia|]. rewrite Hget by lia. case_decide; [|done]. split; [simpl; lia|].
      intros j Hj. rewrite Hget by lia. case_decide; [lia|].
      destruct (Z.eqb_spec (socket (connections r).[j]) s); [|done].
      exfalso. by apply (Hfresh j (Hbefore j Hj)).
    - simpl. rewrite Hget by lia. by case_decide.
    - done.
    - done.
    - simpl. set_solver.
  Qed.

  (** C38: [add_connection] on a descriptor the kernel just handed out
      takes the first free slot: the slot it returns is a slot of the
      table that was free ([socket == -1]) and every slot before it is
      live; the other slots are unchanged; the registry stays well
      formed, the new slot is found by its socket, its peer is unknown
      ([-1]) and no role pointer moved.  It fails only when every slot is
      live. *)
Theorem add_connection_spec (s : Z) :
    0 <= s -> (forall i, live r i -> socket (connections r).[i] <> s) ->
    match add_connection s r with
    | Ok (i, r') =>
        0 <= i < zlen (connections r) /\ ~ live r i /\ (forall j, 0 <= j < i -> live r j) /\
        (forall j, 0 <= j -> j <> i -> (connections r').[j] = (connections r).[j]) /\
        reg_wf r' /\ find_connection_by_socket s r' = Some i /\
        node_id (connections r').[i] = -1 /\ roles r' = roles r /\ s ∈ select_inputs r'
    | Exit _ => forall j, 0 <= j < zlen (connections r) -> live r j
    | Undefined _ => False
    end.
  Proof.
    intros Hs Hfresh. pose proof (add_connection_correct s Hs Hfresh) as Hc.
    destruct (add_connection s r) as [[i r']| |] eqn:E; [|done|done].
    destruct (add_connection_frame s r i r' E) as (Hi & Hfree & _ & _ & Hsame & _).
    destruct Hc as (Hwf' & Hfind & Hid & Hroles & Hbefore & Hsel).
    do 8 (split; [done|]). done.
  Qed.

Lemma role_slots_close_ptrs i cs sel :
    role_slots (mkReg cs (clear_ptr i (new_node_conn r)) (clear_ptr i (pred_conn r))
                 (clear_ptr i (succ_conn r)) (clear_ptr i (outbound_chord_conn r)) sel) =
    List.filter (fun j => negb (j =? i)) (role_slots r).
  Proof.
    unfold role_slots, roles. simpl. rewrite !opt_list_clear, !app_nil_r, !List.filter_app. done.
  Qed.

Lemma close_connection_correct (i : Z) :
    0 <= i < zlen (connections r) ->
    let r' := close_connection (Some i) r in
    reg_wf r' /\ ~ live r' i /\ role_slots r' = List.filter (fun j => negb (j =? i)) (role_slots r) /\
    (forall j, 0 <= j -> j <> i -> (connections r').[j] = (connections r).[j]) /\
    (live r i -> find_connection_by_socket (socket (connections r).[i]) r' = None).
  Proof.
    intros Hi. cbv zeta. unfold close_connection.
    destruct (Z.eqb_spec (socket (connections r).[i]) (-1)) as [Hfree|Hlive].
    { split; [done|]. split; [by intros [_ ?]|]. split.
      - symmetry. apply List.forallb_filter_id, forallb_forall. intros j Hj.
        destruct (Z.eqb_spec j i) as [->|]; [|done].
        apply role_slot_live in Hj as [_ ?]. congruence.
      - split; [done|]. by intros [_ ?]. }
    set (c := conn_set_socket (connections r).[i] (-1)).
    assert (Hget : forall j, 0 <= j -> (zset (connections r) i c).[j] =
                             if decide (i = j) then c else (connections r).[j])
      by (intros; apply zget_zset; lia).
    rewrite role_slots_close_ptrs.
    assert (Hlive' : forall j, live (mkReg (zset (connections r) i c) (clear_ptr i (new_node_conn r))
              (clear_ptr i (pred_conn r)) (clear_ptr i (succ_conn r))
              (clear_ptr i (outbound_chord_conn r)) (select_inputs r ∖ {[socket (connections r).[i]]})) j
              <-> j <> i /\ live r j).
    { intros j. unfold live. simpl. rewrite zlen_zset. split.
      - intros [Hj Hs]. rewrite Hget in Hs by lia. case_decide; subst; simpl in *; [done|]. auto.
      - intros [Hne [Hj Hs]]. split; [done|]. rewrite Hget by lia. case_decide; [congruence|done]. }
    split; [|split; [|split; [done|split]]].
    - constructor.
      + simpl. rewrite zlen_zset. apply (wf_size r Hwf).
      + rewrite role_slots_close_ptrs. intros j Hj. apply List.filter_In in Hj as [Hj Hne].
        apply Hlive'. split; [by destruct (Z.eqb_spec j i)|]. by apply role_slot_live.
      + rewrite role_slots_close_ptrs. apply List.NoDup_filter. apply (wf_roles_nodup r Hwf).
      + intros j Hj. apply Hlive' in Hj as [Hne Hj]. simpl. rewrite Hget by (destruct Hj; lia).
        case_decide; [congruence|]. by apply (wf_socket_nonneg r Hwf).
      + intros j k Hj Hk. apply Hlive' in Hj as [Hj' Hj], Hk as [Hk' Hk]. simpl.
        rewrite !Hget by (destruct Hj, Hk; lia). repeat case_decide; try congruence.
        by apply (wf_sockets_distinct r Hwf).
    - intros Hl. apply Hlive' in Hl as [? _]. done.
    - intros j Hj Hne. simpl. rewrite Hget by done. by case_decide.
    - intros Hl. unfold find_connection_by_socket. apply find_slot_None. simpl.
      intros j Hj. rewrite zlen_zset in Hj. rewrite Hget by lia.
      case_decide as Hij.
      + subst. change (socket c) with (-1). pose proof (wf_socket_nonneg r Hwf j Hl).
        destruct (Z.eqb_spec (-1) (socket (connections r).[j])); [lia|done].
      + destruct (Z.eqb_spec (socket (connections r).[j]) (socket (connections r).[i])) as [E|]; [|done].
        destruct (Z.eqb_spec (socket (connections r).[j]) (-1)) as [F|F].
        * pose proof (wf_socket_nonneg r Hwf i Hl). lia.
        * exfalso. apply Hij. symmetry. apply (wf_sockets_distinct r Hwf); [done| |done].
          split; [lia|done].
  Qed.

  (** C39: [close_connection] frees the slot and clears every role pointer
      to it, leaving the other slots as they were: the registry stays well
      formed and the closed socket is no longer found. *)
Theorem close_connection_spec (i : Z) :
    0 <= i < zlen (connections r) ->
    let r' := close_connection (Some i) r in
    reg_wf r' /\ ~ live r' i /\ role_slots r' = List.filter (fun j => negb (j =? i)) (role_slots r) /\
    (forall j, 0 <= j -> j <> i -> (connections r').[j] = (connections r).[j]) /\
    (live r i -> find_connection_by_socket (socket (connections r).[i]) r' = None).
  Proof. apply close_connection_correct. Qed.
End Registry_ops.

(** ** Closing every slot ([leave_ring]) *)

(** The loop [for (i = 0; i < k; i++) close_connection(&connections[i])]
    on the registry. *)
Definition close_slots (k : Z) (r : Registry) : Registry :=
  fold_left (fun r i => close_connection (Some i) r) (zrange k) r.

(** After the first [k] slots are closed: the registry is well formed,
    those slots are free, and every role pointer designates a later
    slot. *)
Lemma close_slots_spec r k :
  reg_wf r -> 0 <= k <= MAX_CONNECTIONS ->
  reg_wf (close_slots k r) /\ (forall j, 0 <= j < k -> ~ live (close_slots k r) j) /\
  (forall j, In j (role_slots (close_slots k r)) -> k <= j).
Proof.
  intros Hwf Hk. rewrite <- (Z2Nat.id k) in * by lia. induction (Z.to_nat k) as [|m IH].
  - split; [done|]. split; [intros; lia|]. intros j Hj. apply (wf_roles_live _ Hwf) in Hj as [? _]. lia.
  - unfold close_slots in *. rewrite Nat2Z.inj_succ, <- Z.add_1_r, zrange_succ, fold_left_app by lia.
    cbn [fold_left].
    destruct IH as (Hwf1 & Hfree & Hrole); [lia|].
    set (r1 := fold_left (fun r i => close_connection (Some i) r) (zrange (Z.of_nat m)) r) in *.
    pose proof (wf_size _ Hwf1) as Hl.
    destruct (close_connection_correct r1 Hwf1 (Z.of_nat m) ltac:(lia)) as (Hwf2 & Hm & Hroles & Hsame & _).
    split; [done|]. split.
    + intros j Hj. destruct (decide (j = Z.of_nat m)) as [->|Hne]; [done|].
      intros [Hj' Hs]. apply (Hfree j); [lia|]. rewrite (wf_size _ Hwf2) in Hj'.
      split; [lia|]. by rewrite <- Hsame by lia.
    + intros j Hj. rewrite Hroles in Hj. apply List.filter_In in Hj as [Hj Hne].
      apply Hrole in Hj. destruct (Z.eqb_spec j (Z.of_nat m)); [done|lia].
Qed.

(** Closing all [MAX_CONNECTIONS] slots leaves no live slot and no role. *)
Lemma close_slots_all r :
  reg_wf r ->
  reg_wf (close_slots MAX_CONNECTIONS r) /\
  (forall j, 0 <= j < MAX_CONNECTIONS -> ~ live (close_slots MAX_CONNECTIONS r) j) /\
  role_slots (close_slots MAX_CONNECTIONS r) = [].
Proof.
  intros Hwf.
  destruct (close_slots_spec r MAX_CONNECTIONS Hwf) as (Hwf' & Hfree & Hrole);
    [unfold MAX_CONNECTIONS, MAX_INBOUND_CHORDS, MAX_NODES; lia|].
  generalize dependent (close_slots MAX_CONNECTIONS r). intros r' Hwf' Hfree Hrole.
  split; [done|]. split; [done|].
  destruct (role_slots r') as [|j l] eqn:E; [done|].
  assert (Hj : In j (role_slots r')) by (rewrite E; left; done).
  pose proof (Hrole j ltac:(by left)). apply (wf_roles_live _ Hwf') in Hj as [Hj _].
  rewrite (wf_size _ Hwf') in Hj. lia.
Qed.

Lemma add_connection_spec_witness :
  reg_wf registry_node20 /\ 0 <= 6 /\ (forall i, live registry_node20 i -> socket (connections registry_node20).[i] <> 6) /\
  match add_connection 6 registry_node20 with
  | Ok (i, r') =>
      0 <= i < zlen (connections registry_node20) /\ ~ live registry_node20 i /\
      (forall j, 0 <= j < i -> live registry_node20 j) /\
      (forall j, 0 <= j -> j <> i -> (connections r').[j] = (connections registry_node20).[j]) /\
      reg_wf r' /\ find_connection_by_socket 6 r' = Some i /\
      node_id (connections r').[i] = -1 /\ roles r' = roles registry_node20 /\ 6 ∈ select_inputs r'
  | Exit _ => forall j, 0 <= j < zlen (connections registry_node20) -> live registry_node20 j
  | Undefined _ => False
  end.
Proof.
  assert (Hwf : reg_wf registry_node20) by (apply reg_wfb_sound; vm_compute; reflexivity).
  assert (Hfresh : forall i, live registry_node20 i -> socket (connections registry_node20).[i] <> 6)
    by (apply fresh_socketb_sound; vm_compute; reflexivity).
  split; [done|]. split; [lia|]. split; [done|].
  apply (add_connection_spec registry_node20 Hwf 6); [lia|done].
Defined.

Lemma close_connection_spec_witness :
  reg_wf registry_node20 /\ 0 <= 0 < zlen (connections registry_node20) /\
  (let r' := close_connection (Some 0) registry_node20 in
   reg_wf r' /\ ~ live r' 0 /\
   role_slots r' = List.filter (fun j => negb (j =? 0)) (role_slots registry_node20) /\
   (forall j, 0 <= j -> j <> 0 -> (connections r').[j] = (connections registry_node20).[j]) /\
   (live registry_node20 0 -> find_connection_by_socket (socket (connections registry_node20).[0]) r' = None)).
Proof.
  assert (Hwf : reg_wf registry_node20) by (apply reg_wfb_sound; vm_compute; reflexivity).
  split; [done|]. split; [vm_compute; split; congruence|].
  apply (close_connection_spec registry_node20 Hwf 0). vm_compute. split; congruence.
Defined.

