(* ===== verification/Routing.v ===== *)
(** * Routing: the distance-vector routing engine of [src/routing.c]

    State: [recipient_ids] and [neighbor_ids] (which node each row and
    column of the table is allocated to, [-1] when free), the
    [MAX_RECIPIENTS x MAX_NEIGHBORS] [routing_table] of paths (entry [r][n]:
    the path neighbor [n] offers to recipient [r]) and the
    [forwarding_table] (per row, the column of the chosen path, or [-1]).

    [self.id] (a global of [src/ring.c]) is the section variable
    [self_id]; the connection registry is read through the [ConnTable]
    interface of [Connections].  Every [conn_printf] of an announcement is
    an output [(socket, bytes)]; a failed write (which the C code turns
    into a re-entrant [handle_broken_socket]) is not modelled here: the
    routing engine is verified for writes that succeed. *)

From S2P Require Import Prelude Path Connections.

Record RoutingState := mkRS {
  recipient_ids : list Z;
  neighbor_ids : list Z;
  routing_table : list (list Path);
  forwarding_table : list Z
}.

Definition N_SLOTS : nat := Z.to_nat MAX_RECIPIENTS.

(** The tables as the zeroed C globals start. *)
Definition routing_zero : RoutingState :=
  mkRS (replicate N_SLOTS 0) (replicate N_SLOTS 0) (replicate N_SLOTS (replicate N_SLOTS inhabitant))
       (replicate N_SLOTS 0).

(** [init_routing]: every row and column free; the tables keep their
    contents. *)
Definition init_routing (s : RoutingState) : RoutingState :=
  mkRS (replicate N_SLOTS (-1)) (replicate N_SLOTS (-1)) (routing_table s) (forwarding_table s).

Definition invalidate (p : Path) : Path := mkPath INVALID_PATH (nodes p).

(** The first loops of [get_recipient_index] / [get_neighbor_index]. *)
Definition recipient_index (rid : Z) (s : RoutingState) : Z := find_index (Z.eqb rid) (recipient_ids s).
Definition neighbor_index (nid : Z) (s : RoutingState) : Z := find_index (Z.eqb nid) (neighbor_ids s).

(** [get_recipient_index(recipient_id, add_if_missing)] *)
Definition get_recipient_index (rid : Z) (add_if_missing : bool) (s : RoutingState)
  : outcome (Z * RoutingState) :=
  let i := recipient_index rid s in
  if negb (i =? -1) then Ok (i, s)
  else if negb add_if_missing then Ok (-1, s)
  else
    let j := find_index (Z.eqb (-1)) (recipient_ids s) in
    if j =? -1 then Exit "Ran out of space for recipients in the routing tables!"
    else Ok (j, mkRS (zset (recipient_ids s) j rid) (neighbor_ids s)
                     (zset (routing_table s) j (map invalidate (routing_table s).[j]))
                     (zset (forwarding_table s) j (-1))).

(** [get_neighbor_index(neighbor_id, add_if_missing)] *)
Definition get_neighbor_index (nid : Z) (add_if_missing : bool) (s : RoutingState)
  : outcome (Z * RoutingState) :=
  let i := neighbor_index nid s in
  if negb (i =? -1) then Ok (i, s)
  else if negb add_if_missing then Ok (-1, s)
  else
    let j := find_index (Z.eqb (-1)) (neighbor_ids s) in
    if j =? -1 then Exit "Ran out of space for nodes in the routing tables!"
    else Ok (j, mkRS (recipient_ids s) (zset (neighbor_ids s) j nid)
                     (map (fun row => zset row j (invalidate row.[j])) (routing_table s))
                     (forwarding_table s)).

(** One iteration of the search for the shortest path in row [row]. *)
Definition closest_step (row : list Path) (nids : list Z) (closest ni : Z) : Z :=
  if negb (nids.[ni] =? -1) && negb (hop_count row.[ni] =? INVALID_PATH) &&
     ((closest =? -1) || (hop_count row.[ni] <? hop_count row.[closest]))
  then ni else closest.

Definition select_closest (row : list Path) (nids : list Z) : Z :=
  fold_left (closest_step row nids) (zrange MAX_NEIGHBORS) (-1).

(** The search followed by the tie rule: the previously chosen column
    [old] is kept when its hop count equals the minimum. *)
Definition choose_closest (old : Z) (row : list Path) (nids : list Z) : Z :=
  let closest0 := select_closest row nids in
  if negb (old =? -1) && negb (closest0 =? -1) && (hop_count row.[old] =? hop_count row.[closest0])
  then old else closest0.

Section WithSelf.
  Variable self_id : Z.

  (** The path [update_routing_given_new_path] stores: NULL, an invalid
      path, or a path through this node become [INVALID_PATH]. *)
Definition sanitize_path (path_in : option Path) : Path :=
    match path_in with
    | None => invalid_path
    | Some p =>
        if hop_count p =? INVALID_PATH then invalid_path
        else if existsb (Z.eqb self_id) (take (Z.to_nat (hop_count p)) (nodes p)) then invalid_path
        else copy_path invalid_path p
    end.

  (** The second half of [update_routing_given_new_path], once the column
      [neighbor] and the row [recipient] are allocated: store the path,
      search the shortest one, keep the previous choice on a tie, free the
      row when no valid path is left, and report whether the chosen
      (neighbor, path) changed.  [old_shortest_path] is a local copy of
      the previously chosen entry. *)
Definition update_row (recipient neighbor : Z) (path : Path) (s2 : RoutingState)
    : bool * RoutingState :=
    let old := (forwarding_table s2).[recipient] in
    let row := (routing_table s2).[recipient] in
    let old_path := if old =? -1 then invalid_path else copy_path invalid_path row.[old] in
    let row' := zset row neighbor (copy_path row.[neighbor] path) in
    let closest := choose_closest old row' (neighbor_ids s2) in
    let rids := if closest =? -1 then zset (recipient_ids s2) recipient (-1) else recipient_ids s2 in
    let changed :=
      negb (old =? closest) || (negb (closest =? -1) && negb (are_paths_equal old_path row'.[closest])) in
    (changed, mkRS rids (neighbor_ids s2) (zset (routing_table s2) recipient row')
                   (zset (forwarding_table s2) recipient closest)).

  (** [update_routing_given_new_path(neighbor_id, recipient_id, path_in)];
      the boolean is its return value ("the shortest path changed"). *)
Definition update_routing_given_new_path (nid rid : Z) (path_in : option Path)
      (s : RoutingState) : outcome (bool * RoutingState) :=
    if rid =? self_id then Ok (false, s) else
    if nid =? self_id then Ok (false, s) else
    let! (neighbor, s1) := get_neighbor_index nid true s in
    let! (recipient, s2) := get_recipient_index rid true s1 in
    Ok (update_row recipient neighbor (sanitize_path path_in) s2).

  Context {R : Type} `{ConnTable R}.

  (** The chosen path to a node, as [announce_new_path] looks it up. *)
Definition chosen_path (rid : Z) (s : RoutingState) : outcome (option Path) :=
    let r := recipient_index rid s in
    if r =? -1 then Ok None
    else let n := (forwarding_table s).[r] in
         if n =? -1 then Undefined "routing_table[recipient][-1]"
         else Ok (Some ((routing_table s).[r]).[n]).

  (** [announce_new_path(recipient_id)]: the [ROUTE] line, written to every
      live connection. *)
Definition announce_new_path (conns : R) (rid : Z) (s : RoutingState)
    : outcome (list (Z * list Z)) :=
    let! path := chosen_path rid s in
    let! msg := get_route_message self_id rid path in
    Ok (map (fun sock => (sock, conn_printf_bytes msg)) (ct_live_sockets conns)).

  (** [update_routing_and_announce_given_new_path] *)
Definition update_routing_and_announce (conns : R) (nid rid : Z) (path : option Path)
      (s : RoutingState) : outcome (list (Z * list Z) * RoutingState) :=
    let! (changed, s') := update_routing_given_new_path nid rid path s in
    if changed then let! out := announce_new_path conns rid s' in Ok (out, s')
    else Ok ([], s').

  (** [remove_routing_neighbor(neighbor_id)]: every allocated row hears
      "no path" from the neighbor, then its column is freed. *)
Definition remove_step (conns : R) (nid : Z) (acc : list (Z * list Z) * RoutingState) (r : Z)
    : outcome (list (Z * list Z) * RoutingState) :=
    let '(out, s) := acc in
    let rid := (recipient_ids s).[r] in
    if rid =? -1 then Ok acc
    else let! (o, s') := update_routing_and_announce conns nid rid None s in Ok (out ++ o, s').

Definition remove_routing_neighbor (conns : R) (nid : Z) (s : RoutingState)
    : outcome (list (Z * list Z) * RoutingState) :=
    let nb := neighbor_index nid s in
    if nb =? -1 then Ok ([], s)
    else
      let! (out, s') := foldM (remove_step conns nid) (zrange MAX_RECIPIENTS) ([], s) in
      Ok (out, mkRS (recipient_ids s') (zset (neighbor_ids s') nb (-1))
                    (routing_table s') (forwarding_table s')).

  (** [send_shortest_paths(conn)]: this node's own line, then one line per
      allocated row, in slot order. *)
Definition shortest_path_line (s : RoutingState) (r : Z) : outcome (list (list Z)) :=
    let rid := (recipient_ids s).[r] in
    if rid =? -1 then Ok []
    else
      let n := (forwarding_table s).[r] in
      let! msg := get_route_message self_id rid
                    (if n =? -1 then None else Some ((routing_table s).[r]).[n]) in
      Ok [msg].

Definition send_shortest_paths (sock : Z) (s : RoutingState) : outcome (list (Z * list Z)) :=
    let first := bytes "ROUTE " ++ fmt_id self_id ++ [SPACE] ++ fmt_id self_id ++ [SPACE] ++
                 fmt_id self_id ++ [LF] in
    let! rest := foldM (fun acc r => let! l := shortest_path_line s r in Ok (acc ++ l))
                       (zrange MAX_RECIPIENTS) [] in
    Ok (map (fun m => (sock, conn_printf_bytes m)) (first :: rest)).

  (** The [CHAT] line [forward_message] writes. *)
Definition chat_line (sender rid : Z) (text : list Z) : list Z :=
    bytes "CHAT " ++ fmt_id sender ++ [SPACE] ++ fmt_id rid ++ [SPACE] ++ text ++ [LF].

  (** [forward_message(sender_id, recipient_id, chat_message)]: [None] is
      the dropped message ([false]).  When the chosen neighbor has no
      connection the C code warns and then dereferences the NULL pointer. *)
Definition forward_message (conns : R) (sender rid : Z) (text : list Z) (s : RoutingState)
    : outcome (option (Z * list Z)) :=
    let r := recipient_index rid s in
    if r =? -1 then Ok None
    else
      let n := (forwarding_table s).[r] in
      if n =? -1 then Undefined "neighbor_ids[-1]"
      else
        let nid := (neighbor_ids s).[n] in
        match ct_socket_of_node conns nid with
        | None => Undefined "neighbor_conn->socket with neighbor_conn == NULL"
        | Some sock =>
            Ok (Some (sock, conn_printf_bytes (chat_line sender rid text)))
        end.
End WithSelf.

(** ** The shortest-path search *)

Definition is_alloc (nids : list Z) (n : Z) : Prop := 0 <= n < MAX_NEIGHBORS /\ nids.[n] <> -1.
Definition valid (p : Path) : Prop := hop_count p <> INVALID_PATH.

(** The reference specification of the search: [c] is the first allocated
    column with a valid path of minimal hop count, or [-1] when the row
    has no valid path through an allocated neighbor. *)
Definition first_min (row : list Path) (nids : list Z) (c : Z) : Prop :=
  (c = -1 /\ forall n, is_alloc nids n -> ~ valid row.[n]) \/
  (is_alloc nids c /\ valid row.[c] /\
   (forall n, is_alloc nids n -> valid row.[n] -> hop_count row.[c] <= hop_count row.[n]) /\
   (forall n, 0 <= n < c -> is_alloc nids n -> valid row.[n] -> hop_count row.[c] < hop_count row.[n])).

Lemma closest_loop_invariant (row : list Path) (nids : list Z) (k : nat) :
  Z.of_nat k <= MAX_NEIGHBORS ->
  let c := fold_left (closest_step row nids) (zrange (Z.of_nat k)) (-1) in
  (c = -1 /\ forall n, 0 <= n < Z.of_nat k -> is_alloc nids n -> ~ valid row.[n]) \/
  (0 <= c < Z.of_nat k /\ is_alloc nids c /\ valid row.[c] /\
   (forall n, 0 <= n < Z.of_nat k -> is_alloc nids n -> valid row.[n] ->
              hop_count row.[c] <= hop_count row.[n]) /\
   (forall n, 0 <= n < c -> is_alloc nids n -> valid row.[n] -> hop_count row.[c] < hop_count row.[n])).
Proof.
  cbv zeta. induction k as [|k IHk]; intros Hk; [left; split; [done | intros; lia]|].
  rewrite Nat2Z.inj_succ, <- Z.add_1_r, zrange_succ, fold_left_app by lia. simpl.
  set (K := Z.of_nat k) in *.
  destruct (IHk ltac:(lia)) as [[Hc Hnone]|(Hr & Ha & Hv & Hmin & Hfirst)];
    set (c := fold_left _ _ _) in *; unfold closest_step; rewrite ?Hc;
    unfold is_alloc, valid in *;
    destruct (Z.eqb_spec nids.[K] (-1)); destruct (Z.eqb_spec (hop_count row.[K]) INVALID_PATH);
    simpl.
  all: try (left; split; [done|]; intros m Hn Han; destruct (Z.eq_dec m K) as [->|]; [tauto|];
            apply (Hnone m); [lia|exact Han]).
  all: try (right; split; [lia|]; split; [unfold MAX_NEIGHBORS, MAX_NODES in *; lia|];
            split; [done|]; split;
            [intros m Hn Han Hvn; destruct (Z.eq_dec m K) as [->|]; [lia|];
             exfalso; eapply Hnone; [|exact Han|exact Hvn]; lia
            |intros m Hn Han Hvn; exfalso; eapply Hnone; [|exact Han|exact Hvn]; lia]).
  all: try (right; split; [lia|]; split; [done|]; split; [done|]; split; [|done];
            intros m Hn Han Hvn; destruct (Z.eq_dec m K) as [->|]; [tauto|]; apply Hmin; auto; lia).
  destruct (Z.eqb_spec c (-1)); [lia|]. simpl.
  destruct (Z.ltb_spec (hop_count row.[K]) (hop_count row.[c])); simpl.
  - right. split; [lia|]. split; [unfold MAX_NEIGHBORS, MAX_NODES in *; lia|]. split; [done|].
    split.
    + intros m Hm Ham Hvm. destruct (Z.eq_dec m K) as [->|]; [lia|].
      specialize (Hmin m ltac:(lia) Ham Hvm). lia.
    + intros m Hm Ham Hvm. destruct (Z.lt_ge_cases m c); [specialize (Hfirst m ltac:(lia) Ham Hvm); lia|].
      specialize (Hmin m ltac:(lia) Ham Hvm). lia.
  - right. split; [lia|]. split; [done|]. split; [done|]. split; [|done].
    intros m Hm Ham Hvm. destruct (Z.eq_dec m K) as [->|]; [lia|]. apply Hmin; auto; lia.
Qed.

(** The search loop against its reference specification. *)
Lemma select_closest_spec (row : list Path) (nids : list Z) :
  first_min row nids (select_closest row nids).
Proof.
  unfold select_closest, first_min.
  destruct (closest_loop_invariant row nids (Z.to_nat MAX_NEIGHBORS)
              ltac:(unfold MAX_NEIGHBORS, MAX_NODES; lia))
    as [[Hc Hn]|(Hr & Ha & Hv & Hmin & Hfirst)];
    rewrite Z2Nat.id in * by (unfold MAX_NEIGHBORS, MAX_NODES; lia).
  - left. split; [done|]. intros n Han. apply Hn; [apply Han|done].
  - right. split; [done|]. split; [done|]. split; [|done].
    intros n Han Hvn. apply Hmin; [apply Han|done|done].
Qed.

(** C33: the search loop of [update_routing_given_new_path] computes the
    reference [first_min]: the first allocated neighbor whose path is
    valid and of minimal hop count, or [-1]. *)
Theorem select_closest_first_min (row : list Path) (nids : list Z) :
  first_min row nids (select_closest row nids).
Proof. apply select_closest_spec. Qed.

(** ** The routing invariant *)

Definition alloc_r (s : RoutingState) (r : Z) : Prop :=
  0 <= r < MAX_RECIPIENTS /\ (recipient_ids s).[r] <> -1.
Definition alloc_n (s : RoutingState) (n : Z) : Prop := is_alloc (neighbor_ids s) n.
Definition entry (s : RoutingState) (r n : Z) : Path := ((routing_table s).[r]).[n].

(** A stored path: a non-negative hop count, that many ids, none of them
    this node. *)
Definition path_ok (self : Z) (p : Path) : Prop :=
  0 <= hop_count p /\ (Z.to_nat (hop_count p) <= length (nodes p))%nat /\
  ~ In self (take (Z.to_nat (hop_count p)) (nodes p)).

(** The chosen entry of an allocated row: an allocated neighbor with a
    valid path of minimal hop count (spec property "forwarding
    agreement"). *)
Definition fwd_ok (s : RoutingState) (r : Z) : Prop :=
  let n := (forwarding_table s).[r] in
  alloc_n s n /\ valid (entry s r n) /\
  forall n', alloc_n s n' -> valid (entry s r n') -> hop_count (entry s r n) <= hop_count (entry s r n').

Record routing_shape (self : Z) (s : RoutingState) : Prop := {
  rw_len_r : zlen (recipient_ids s) = MAX_RECIPIENTS;
  rw_len_n : zlen (neighbor_ids s) = MAX_NEIGHBORS;
  rw_len_t : zlen (routing_table s) = MAX_RECIPIENTS;
  rw_len_row : forall r, 0 <= r < MAX_RECIPIENTS -> zlen (routing_table s).[r] = MAX_NEIGHBORS;
  rw_len_f : zlen (forwarding_table s) = MAX_RECIPIENTS;
  rw_r_unique : forall r1 r2, alloc_r s r1 -> 0 <= r2 < MAX_RECIPIENTS ->
    (recipient_ids s).[r1] = (recipient_ids s).[r2] -> r1 = r2;
  rw_n_unique : forall n1 n2, alloc_n s n1 -> 0 <= n2 < MAX_NEIGHBORS ->
    (neighbor_ids s).[n1] = (neighbor_ids s).[n2] -> n1 = n2;
  rw_r_not_self : forall r, alloc_r s r -> (recipient_ids s).[r] <> self;
  rw_paths : forall r n, alloc_r s r -> 0 <= n < MAX_NEIGHBORS -> valid (entry s r n) ->
    path_ok self (entry s r n)
}.

(** The invariant of the routing engine: the shape above, and every
    allocated row forwards along a minimal valid path. *)
Definition routing_wf (self : Z) (s : RoutingState) : Prop :=
  routing_shape self s /\ forall r, alloc_r s r -> fwd_ok s r.

(** What [update_routing_given_new_path] may be given: NULL, an invalid
    path, or a path with a non-negative hop count and that many ids (the
    parser of [ROUTE] always produces one more id than the hop count). *)
Definition input_ok (p : option Path) : Prop :=
  match p with
  | None => True
  | Some p => hop_count p = INVALID_PATH \/
              (0 <= hop_count p /\ (Z.to_nat (hop_count p) <= length (nodes p))%nat)
  end.

Lemma slots_eq : MAX_RECIPIENTS = MAX_NEIGHBORS.
Proof. done. Qed.

Lemma zlen_replicate {A} (x : A) n : zlen (replicate n x) = Z.of_nat n.
Proof. unfold zlen. by rewrite length_replicate. Qed.

Lemma zget_replicate {A} `{Inhabited A} (x : A) n i : 0 <= i < Z.of_nat n -> (replicate n x).[i] = x.
Proof. intros Hi. unfold zget. apply list_lookup_total_correct, lookup_replicate_2. lia. Qed.

(** [init_routing] establishes the invariant on tables of the right
    shape (every row and column free). *)
Lemma init_routing_wf (self : Z) (s : RoutingState) :
  zlen (routing_table s) = MAX_RECIPIENTS ->
  (forall r, 0 <= r < MAX_RECIPIENTS -> zlen (routing_table s).[r] = MAX_NEIGHBORS) ->
  zlen (forwarding_table s) = MAX_RECIPIENTS ->
  routing_wf self (init_routing s).
Proof.
  intros Ht Hr Hf. unfold init_routing, N_SLOTS.
  assert (Hfree : forall r, 0 <= r < MAX_RECIPIENTS -> (replicate (Z.to_nat MAX_RECIPIENTS) (-1)).[r] = -1)
    by (intros; apply zget_replicate; unfold MAX_RECIPIENTS, MAX_NODES in *; lia).
  split; [constructor|]; simpl; try done;
    try (rewrite zlen_replicate; unfold MAX_RECIPIENTS, MAX_NEIGHBORS, MAX_NODES; lia);
    unfold alloc_r, alloc_n, is_alloc; simpl; intros r; intros; exfalso;
    match goal with H : _ /\ _ <> -1 |- _ => destruct H as [? Hne]; apply Hne, Hfree end;
    unfold MAX_NEIGHBORS, MAX_RECIPIENTS in *; lia.
Qed.

(** ** An executable check of the invariant

    [routing_wfb] decides [routing_wf] on concrete tables by running
    every bounded quantifier as a loop; [routing_wfb_sound] lets the
    statements about concrete runs discharge the invariant by
    computation. *)
Definition alloc_nb (nids : list Z) (n : Z) : bool := (0 <=? n) && (n <? MAX_NEIGHBORS) && negb (nids.[n] =? -1).
Definition validb (p : Path) : bool := negb (hop_count p =? INVALID_PATH).
Definition path_okb (self : Z) (p : Path) : bool :=
  (0 <=? hop_count p) && (Z.to_nat (hop_count p) <=? length (nodes p))%nat &&
  negb (existsb (Z.eqb self) (take (Z.to_nat (hop_count p)) (nodes p))).
Definition fwd_okb (s : RoutingState) (r : Z) : bool :=
  let n := (forwarding_table s).[r] in
  alloc_nb (neighbor_ids s) n && validb (entry s r n) &&
  forall_range MAX_NEIGHBORS (fun n' =>
    negb (alloc_nb (neighbor_ids s) n' && validb (entry s r n')) ||
    (hop_count (entry s r n) <=? hop_count (entry s r n'))).
Definition unique_b (l : list Z) : bool :=
  forall_range (zlen l) (fun i => forall_range (zlen l) (fun j =>
    (l.[i] =? -1) || negb (l.[i] =? l.[j]) || (i =? j))).

Definition routing_wfb (self : Z) (s : RoutingState) : bool :=
  (zlen (recipient_ids s) =? MAX_RECIPIENTS) && (zlen (neighbor_ids s) =? MAX_NEIGHBORS) &&
  (zlen (routing_table s) =? MAX_RECIPIENTS) &&
  forall_range MAX_RECIPIENTS (fun r => zlen (routing_table s).[r] =? MAX_NEIGHBORS) &&
  (zlen (forwarding_table s) =? MAX_RECIPIENTS) &&
  unique_b (recipient_ids s) && unique_b (neighbor_ids s) &&
  forall_range MAX_RECIPIENTS (fun r =>
    ((recipient_ids s).[r] =? -1) ||
    (negb ((recipient_ids s).[r] =? self) && fwd_okb s r &&
     forall_range MAX_NEIGHBORS (fun n => negb (validb (entry s r n)) || path_okb self (entry s r n)))).

Ltac bool_facts :=
  repeat match goal with
  | H : (fun _ => _) _ = true |- _ => cbv beta in H
  | H : (_ && _) = true |- _ => apply andb_true_iff in H as [? ?]
  | H : (_ || _) = true |- _ => apply orb_true_iff in H as [H|H]
  | H : negb _ = true |- _ => apply negb_true_iff in H
  | H : (_ =? _) = true |- _ => apply Z.eqb_eq in H
  | H : (_ =? _) = false |- _ => apply Z.eqb_neq in H
  | H : (_ <=? _) = true |- _ => apply Z.leb_le in H
  | H : (_ <? _) = true |- _ => apply Z.ltb_lt in H
  | H : Nat.leb _ _ = true |- _ => apply Nat.leb_le in H
  end.

Lemma alloc_nb_sound nids n : alloc_nb nids n = true -> is_alloc nids n.
Proof. unfold alloc_nb, is_alloc. intros. bool_facts. lia. Qed.

Lemma validb_sound p : validb p = true -> valid p.
Proof. unfold validb, valid. intros. by bool_facts. Qed.

Lemma path_okb_sound self p : path_okb self p = true -> path_ok self p.
Proof.
  unfold path_okb, path_ok. intros H. bool_facts. split; [done|]. split; [done|].
  intros Hin. apply not_true_iff_false in H0. apply H0, existsb_exists.
  exists self. split; [done|apply Z.eqb_refl].
Qed.

Lemma unique_b_sound l : unique_b l = true ->
  forall i j, 0 <= i < zlen l -> l.[i] <> -1 -> 0 <= j < zlen l -> l.[i] = l.[j] -> i = j.
Proof.
  intros H i j Hi Hni Hj E. pose proof (forall_range_spec _ _ (forall_range_spec _ _ H i Hi) j Hj) as Hij.
  bool_facts; lia.
Qed.

Lemma routing_wfb_sound self s : routing_wfb self s = true -> routing_wf self s.
Proof.
  unfold routing_wfb. intros H.
  apply andb_true_iff in H as [H Hrows]. apply andb_true_iff in H as [H Hun_n].
  apply andb_true_iff in H as [H Hun_r]. apply andb_true_iff in H as [H Hlf].
  apply andb_true_iff in H as [H Hlrow]. apply andb_true_iff in H as [H Hlt].
  apply andb_true_iff in H as [Hlr Hln]. bool_facts.
  assert (Hall : forall r, alloc_r s r ->
            (recipient_ids s).[r] <> self /\ fwd_okb s r = true /\
            forall n, 0 <= n < MAX_NEIGHBORS -> validb (entry s r n) = false \/ path_okb self (entry s r n) = true).
  { intros r [Hr0 Ha]. pose proof (forall_range_spec _ _ Hrows r Hr0) as Hr. cbv beta in Hr.
    apply orb_true_iff in Hr as [Hr|Hr]; [apply Z.eqb_eq in Hr; congruence|].
    apply andb_true_iff in Hr as [Hr Hp]. apply andb_true_iff in Hr as [Hself Hf].
    bool_facts. split; [done|]. split; [done|].
    intros n Hn. pose proof (forall_range_spec _ _ Hp n Hn) as Hpn. cbv beta in Hpn.
    apply orb_true_iff in Hpn as [Hpn|Hpn]; [left; by apply negb_true_iff|by right]. }
  split; [constructor|].
  - done.
  - done.
  - done.
  - intros r Hr0. pose proof (forall_range_spec _ _ Hlrow r Hr0). by bool_facts.
  - done.
  - intros r1 r2 [H1 Ha] H2. apply unique_b_sound; [done|congruence|done|congruence].
  - intros n1 n2 [H1 Ha] H2. apply unique_b_sound; [done|congruence|done|congruence].
  - intros r Hr0. apply Hall, Hr0.
  - intros r n Hr0 Hn Hv. destruct (Hall r Hr0) as (_ & _ & Hp).
    destruct (Hp n Hn) as [Hf|]; [|by apply path_okb_sound].
    unfold validb, valid in *. apply negb_false_iff, Z.eqb_eq in Hf. congruence.
  - intros r Hr0. destruct (Hall r Hr0) as (_ & Hf & _). unfold fwd_okb in Hf.
    apply andb_true_iff in Hf as [Hf Hmin]. apply andb_true_iff in Hf as [Ha Hv].
    split; [by apply alloc_nb_sound|]. split; [by apply validb_sound|].
    intros n' Hn' Hv'. pose proof (forall_range_spec _ _ Hmin n' ltac:(destruct Hn'; lia)) as Hm.
    cbv beta in Hm. apply orb_true_iff in Hm as [Hm|Hm]; [|by apply Z.leb_le].
    exfalso. apply negb_true_iff, andb_false_iff in Hm as [Hm|Hm].
    + destruct Hn' as [? Hn']. unfold alloc_nb in Hm.
      apply andb_false_iff in Hm as [Hm|Hm]; [apply andb_false_iff in Hm as [Hm|Hm]|].
      * apply Z.leb_nle in Hm. lia.
      * apply Z.ltb_nlt in Hm. lia.
      * apply negb_false_iff, Z.eqb_eq in Hm. congruence.
    + unfold validb, valid in *. apply negb_false_iff, Z.eqb_eq in Hm. congruence.
Qed.

Section Invariant.
  Context (self : Z).

Ltac unfold_slots := unfold MAX_RECIPIENTS, MAX_NEIGHBORS, MAX_NODES in *.

  (** *** Allocating a neighbor column *)

Lemma get_neighbor_index_cases nid s nb s1 :
    get_neighbor_index nid true s = Ok (nb, s1) ->
    (s1 = s /\ nb = neighbor_index nid s /\ 0 <= nb < zlen (neighbor_ids s) /\
     (neighbor_ids s).[nb] = nid) \/
    (neighbor_index nid s = -1 /\ 0 <= nb < zlen (neighbor_ids s) /\ (neighbor_ids s).[nb] = -1 /\
     s1 = mkRS (recipient_ids s) (zset (neighbor_ids s) nb nid)
               (map (fun row => zset row nb (invalidate row.[nb])) (routing_table s))
               (forwarding_table s)).
  Proof.
    unfold get_neighbor_index, neighbor_index.
    destruct (find_index_spec (Z.eqb nid) (neighbor_ids s)) as [[-> _]|[Hr [Hp _]]]; simpl.
    - destruct (find_index_spec (Z.eqb (-1)) (neighbor_ids s)) as [[-> _]|[Hr [Hp _]]]; [done|].
      destruct (Z.eqb_spec (find_index (Z.eqb (-1)) (neighbor_ids s)) (-1)); [lia|].
      intros [= <- <-]. right. apply Z.eqb_eq in Hp. auto.
    - destruct (Z.eqb_spec (find_index (Z.eqb nid) (neighbor_ids s)) (-1)); [lia|]. simpl.
      intros [= <- <-]. left. apply Z.eqb_eq in Hp. auto.
  Qed.

Lemma add_column_entry s nb nid r n :
    routing_shape self s -> 0 <= r < MAX_RECIPIENTS -> 0 <= nb < MAX_NEIGHBORS -> 0 <= n ->
    entry (mkRS (recipient_ids s) (zset (neighbor_ids s) nb nid)
             (map (fun row => zset row nb (invalidate row.[nb])) (routing_table s))
             (forwarding_table s)) r n =
    if decide (nb = n) then invalidate (entry s r nb) else entry s r n.
  Proof.
    intros Hs Hr Hnb Hn. unfold entry. simpl.
    rewrite zget_map by (rewrite (rw_len_t _ _ Hs); lia).
    rewrite zget_zset by (try rewrite (rw_len_row _ _ Hs) by lia; lia). done.
  Qed.

  (** A fresh column keeps the invariant: its entries are all invalid. *)
Lemma add_column_wf s nb nid :
    routing_wf self s -> neighbor_index nid s = -1 ->
    0 <= nb < MAX_NEIGHBORS -> (neighbor_ids s).[nb] = -1 ->
    routing_wf self (mkRS (recipient_ids s) (zset (neighbor_ids s) nb nid)
                       (map (fun row => zset row nb (invalidate row.[nb])) (routing_table s))
                       (forwarding_table s)).
  Proof.
    intros [Hs Hf] Hnone Hnb Hfree.
    assert (Hnot : forall j, 0 <= j < MAX_NEIGHBORS -> (neighbor_ids s).[j] <> nid).
    { unfold neighbor_index in Hnone.
      destruct (find_index_spec (Z.eqb nid) (neighbor_ids s)) as [[_ Hall]|[Hr _]]; [|lia].
      intros j Hj E. specialize (Hall j). rewrite (rw_len_n _ _ Hs), E, Z.eqb_refl in Hall. 
      exact (Bool.diff_true_false (Hall Hj)). }
    assert (Hn_nb : forall j, 0 <= j -> (zset (neighbor_ids s) nb nid).[j] =
                              if decide (nb = j) then nid else (neighbor_ids s).[j])
      by (intros; apply zget_zset; [rewrite (rw_len_n _ _ Hs) | ]; lia).
    assert (Hnid : nid <> -1) by (intros ->; apply (Hnot nb Hnb Hfree)).
    assert (Halloc : forall n, alloc_n s n -> n <> nb) by (intros n [_ Hn] ->; congruence).
    split; [constructor|]; simpl.
    - apply (rw_len_r _ _ Hs).
    - rewrite zlen_zset. apply (rw_len_n _ _ Hs).
    - unfold zlen. rewrite length_map. apply (rw_len_t _ _ Hs).
    - intros r Hr. rewrite zget_map by (rewrite (rw_len_t _ _ Hs); lia).
      rewrite zlen_zset. by apply (rw_len_row _ _ Hs).
    - apply (rw_len_f _ _ Hs).
    - apply (rw_r_unique _ _ Hs).
    - intros n1 n2 [Hn1 Ha1] Hn2. unfold alloc_n, is_alloc. simpl in *.
      rewrite !Hn_nb in * by lia. repeat case_decide; subst; try done.
      + intros E. by destruct (Hnot n2 Hn2).
      + intros E. by destruct (Hnot n1 Hn1).
      + apply (rw_n_unique _ _ Hs). split; done. done.
    - apply (rw_r_not_self _ _ Hs).
    - intros r n [Hr Hra] Hn Hv. rewrite add_column_entry in Hv |- * by (done || lia).
      case_decide; [by unfold valid, invalidate in Hv|]. by apply (rw_paths _ _ Hs).
    - intros r Hr. destruct (Hf r Hr) as ([Hn Ha] & Hv & Hmin). unfold fwd_ok, alloc_n, is_alloc. simpl.
      assert (Hfr : (forwarding_table s).[r] <> nb) by (intros E; rewrite E in Ha; congruence).
      rewrite !add_column_entry by (destruct Hr; done || lia).
      rewrite Hn_nb by lia. case_decide; [congruence|].
      split; [done|]. split; [done|].
      intros n' [Hn' Ha'] Hv'. rewrite Hn_nb in Ha' by lia.
      rewrite add_column_entry in Hv' |- * by (destruct Hr; done || lia).
      destruct (decide (nb = n')) as [<-|]; [by unfold valid, invalidate in Hv'|].
      apply Hmin; [split|]; done.
  Qed.

  (** *** Updating one row *)

Lemma path_ok_copy d p : path_ok self p -> path_ok self (copy_path d p).
  Proof.
    intros (H0 & Hl & Hs). unfold path_ok. change (hop_count (copy_path d p)) with (hop_count p).
    split; [done|]. split; [by apply copy_path_length|]. by rewrite copy_path_take.
  Qed.

Lemma update_row_entry s2 r nb path r' n :
    routing_shape self s2 -> 0 <= r < MAX_RECIPIENTS -> 0 <= nb < MAX_NEIGHBORS ->
    0 <= r' -> 0 <= n ->
    entry (update_row r nb path s2).2 r' n =
    if decide (r = r') then
      if decide (nb = n) then copy_path (entry s2 r nb) path else entry s2 r n
    else entry s2 r' n.
  Proof.
    intros Hs Hr Hnb Hr' Hn. unfold update_row, entry. simpl.
    rewrite zget_zset by (rewrite ?(rw_len_t _ _ Hs); lia).
    case_decide; [subst|done].
    rewrite zget_zset by (rewrite ?(rw_len_row _ _ Hs) by lia; lia). done.
  Qed.

  (** Setting one row's id to [-1] keeps the ids of the other rows unique. *)
Lemma free_row_unique (rids : list Z) r :
    0 <= r < zlen rids ->
    (forall r1 r2, 0 <= r1 < MAX_RECIPIENTS -> rids.[r1] <> -1 -> 0 <= r2 < MAX_RECIPIENTS ->
                   rids.[r1] = rids.[r2] -> r1 = r2) ->
    forall r1 r2, 0 <= r1 < MAX_RECIPIENTS -> (zset rids r (-1)).[r1] <> -1 ->
      0 <= r2 < MAX_RECIPIENTS -> (zset rids r (-1)).[r1] = (zset rids r (-1)).[r2] -> r1 = r2.
  Proof.
    intros Hr Hu r1 r2 H1 Ha H2. rewrite !zget_zset in * by lia.
    repeat case_decide; subst; try done; intros E; first [congruence | by apply Hu].
  Qed.

  (** The tie rule keeps a minimal choice. *)
Lemma choose_closest_spec old row nids :
    (old = -1 \/ is_alloc nids old) ->
    let c := choose_closest old row nids in
    (c = -1 /\ forall n, is_alloc nids n -> ~ valid row.[n]) \/
    (is_alloc nids c /\ valid row.[c] /\
     forall n, is_alloc nids n -> valid row.[n] -> hop_count row.[c] <= hop_count row.[n]).
  Proof.
    intros Hold. cbv zeta. unfold choose_closest.
    pose proof (select_closest_spec row nids) as Hfm.
    set (c0 := select_closest row nids) in *.
    destruct Hfm as [[-> Hnone]|(Ha & Hv & Hmin & _)].
    - rewrite Z.eqb_refl, andb_false_r. by left.
    - assert (c0 <> -1) by (destruct Ha; lia). destruct (Z.eqb_spec c0 (-1)); [done|].
      rewrite andb_true_r. right.
      destruct (Z.eqb_spec old (-1)); simpl; [auto|].
      destruct (Z.eqb_spec (hop_count row.[old]) (hop_count row.[c0])) as [E|]; [|auto].
      destruct Hold as [|Ho]; [done|]. unfold valid in *.
      split; [done|]. split; [congruence|]. intros m Hm Hvm. rewrite E. by apply Hmin.
  Qed.

  (** The fields [update_row] writes. *)
Lemma update_row_fields s2 r nb path :
    routing_shape self s2 -> 0 <= r < MAX_RECIPIENTS ->
    let row' := zset (routing_table s2).[r] nb (copy_path (routing_table s2).[r].[nb] path) in
    let c := choose_closest (forwarding_table s2).[r] row' (neighbor_ids s2) in
    let s3 := (update_row r nb path s2).2 in
    neighbor_ids s3 = neighbor_ids s2 /\
    (forall r', 0 <= r' ->
       (forwarding_table s3).[r'] = if decide (r = r') then c else (forwarding_table s2).[r']) /\
    (forall r', 0 <= r' ->
       (recipient_ids s3).[r'] =
       if decide (r = r') then (if c =? -1 then -1 else (recipient_ids s2).[r])
       else (recipient_ids s2).[r']).
  Proof.
    intros Hs Hr. cbv zeta. unfold update_row. cbv zeta. simpl.
    split; [done|]. split; intros r' Hr'.
    - apply zget_zset; [rewrite (rw_len_f _ _ Hs)|]; lia.
    - case_decide as E.
      + subst r'. case_match; [apply zget_zset_eq; rewrite (rw_len_r _ _ Hs); lia|done].
      + case_match; [|done]. apply zget_zset_ne; lia.
  Qed.

Lemma update_row_row s2 r nb path n :
    routing_shape self s2 -> 0 <= r < MAX_RECIPIENTS -> 0 <= nb < MAX_NEIGHBORS -> 0 <= n ->
    entry (update_row r nb path s2).2 r n =
    (zset (routing_table s2).[r] nb (copy_path (routing_table s2).[r].[nb] path)).[n].
  Proof.
    intros Hs Hr Hnb Hn. rewrite update_row_entry by (done || lia). rewrite decide_True by done.
    rewrite zget_zset by (rewrite ?(rw_len_row _ _ Hs) by lia; lia). done.
  Qed.

  (** The row [r] after [update_row]: freed with no valid path left, or
      kept with a minimal valid choice. *)
Lemma update_row_choice s2 r nb path :
    routing_shape self s2 -> 0 <= r < MAX_RECIPIENTS -> 0 <= nb < MAX_NEIGHBORS ->
    (fwd_ok s2 r \/ (forwarding_table s2).[r] = -1) ->
    let s3 := (update_row r nb path s2).2 in
    let c := (forwarding_table s3).[r] in
    (c = -1 /\ (recipient_ids s3).[r] = -1 /\
     forall n, alloc_n s2 n -> ~ valid (entry s3 r n)) \/
    ((recipient_ids s3).[r] = (recipient_ids s2).[r] /\ alloc_n s2 c /\ valid (entry s3 r c) /\
     forall n, alloc_n s2 n -> valid (entry s3 r n) -> hop_count (entry s3 r c) <= hop_count (entry s3 r n)).
  Proof.
    intros Hs Hr Hnb Hold. cbv zeta.
    destruct (update_row_fields s2 r nb path Hs Hr) as (_ & Hfw & Hrid). cbv zeta in Hfw, Hrid.
    rewrite Hfw, Hrid, !decide_True by (done || lia).
    assert (Hc := choose_closest_spec (forwarding_table s2).[r]
                   (zset (routing_table s2).[r] nb (copy_path (routing_table s2).[r].[nb] path))
                   (neighbor_ids s2)).
    cbv zeta in Hc. unfold alloc_n in *.
    destruct Hc as [[Hc Hnone]|(Ha & Hv & Hmin)].
    { destruct Hold as [(? & _)|]; [by right|by left]. }
    - rewrite Hc, Z.eqb_refl. left. split; [done|]. split; [done|].
      intros n Hn. rewrite update_row_row by (done || destruct Hn; lia). by apply Hnone.
    - assert (Hne : choose_closest (forwarding_table s2).[r]
                      (zset (routing_table s2).[r] nb (copy_path (routing_table s2).[r].[nb] path))
                      (neighbor_ids s2) <> -1) by (destruct Ha; lia).
      apply Z.eqb_neq in Hne. rewrite Hne. right. split; [done|]. split; [done|].
      rewrite !update_row_row by (done || destruct Ha; lia). split; [done|].
      intros n Hn Hvn. rewrite update_row_row in Hvn |- * by (done || destruct Hn; lia).
      by apply Hmin.
  Qed.
  (** A row update keeps the invariant: the chosen path is minimal, the
      stored path is loop-free, the other rows are untouched. *)
Lemma update_row_wf s2 r nb path :
    routing_shape self s2 -> 0 <= r < MAX_RECIPIENTS -> 0 <= nb < MAX_NEIGHBORS ->
    (forall r', r' <> r -> alloc_r s2 r' -> fwd_ok s2 r') ->
    ((recipient_ids s2).[r] <> -1 -> fwd_ok s2 r \/ (forwarding_table s2).[r] = -1) ->
    (valid path -> path_ok self path) ->
    routing_wf self (update_row r nb path s2).2.
  Proof.
    intros Hs Hr Hnb Hfo Hfr Hp.
    destruct (update_row_fields s2 r nb path Hs Hr) as (Hn3 & Hfw & Hrid). cbv zeta in Hfw, Hrid.
    set (s3 := (update_row r nb path s2).2) in *.
    assert (Hrid' : forall x, 0 <= x -> (recipient_ids s3).[x] = (recipient_ids s2).[x] \/
                                       (x = r /\ (recipient_ids s3).[x] = -1)).
    { intros x Hx. rewrite Hrid by done. case_decide; [subst; case_match; auto|auto]. }
    assert (Halloc : forall x, alloc_r s3 x -> alloc_r s2 x /\ (recipient_ids s3).[x] = (recipient_ids s2).[x]).
    { intros x [Hx Ha]. destruct (Hrid' x ltac:(lia)) as [E|[_ E]]; [|done].
      split; [split; [done|congruence]|done]. }
    assert (Hent : forall r' n, 0 <= r' -> 0 <= n -> entry s3 r' n =
              if decide (r = r') then if decide (nb = n) then copy_path (entry s2 r nb) path
                                      else entry s2 r n
              else entry s2 r' n) by (intros; by apply update_row_entry).
    assert (Hlen : zlen (routing_table s3) = MAX_RECIPIENTS /\
                   (forall x, 0 <= x < MAX_RECIPIENTS -> zlen (routing_table s3).[x] = MAX_NEIGHBORS) /\
                   zlen (recipient_ids s3) = MAX_RECIPIENTS /\ zlen (forwarding_table s3) = MAX_RECIPIENTS).
    { subst s3. unfold update_row. cbv zeta. simpl. rewrite !zlen_zset.
      split; [apply (rw_len_t _ _ Hs)|]. split; [|split; [case_match; rewrite ?zlen_zset; apply (rw_len_r _ _ Hs)|apply (rw_len_f _ _ Hs)]].
      intros x Hx. rewrite zget_zset by (rewrite ?(rw_len_t _ _ Hs); lia).
      case_decide; [rewrite zlen_zset|]; apply (rw_len_row _ _ Hs); lia. }
    destruct Hlen as (Hlt & Hlrow & Hlr & Hlf).
    split; [constructor|]; try done.
    - rewrite Hn3. apply (rw_len_n _ _ Hs).
    - intros r1 r2 H1 H2. destruct (Halloc r1 H1) as [H1' E1].
      destruct (Hrid' r2 ltac:(lia)) as [E2|[-> E2]]; rewrite E1; [rewrite E2|].
      + by apply (rw_r_unique _ _ Hs).
      + intros E. destruct H1 as [_ H1]. congruence.
    - unfold alloc_n. rewrite Hn3. apply (rw_n_unique _ _ Hs).
    - intros x Hx. destruct (Halloc x Hx) as [Hx' ->]. by apply (rw_r_not_self _ _ Hs).
    - intros r' n Hr' Hn Hv. destruct (Halloc r' Hr') as [Hr'' _].
      rewrite Hent in Hv |- * by (destruct Hr'; lia).
      case_decide; [subst r'; case_decide; [subst n|]|]; try by apply (rw_paths _ _ Hs).
      apply path_ok_copy, Hp. done.
    - intros r' Hr'. destruct (Halloc r' Hr') as [Hr'' Eid].
      destruct (decide (r' = r)) as [->|Hne].
      + destruct (update_row_choice s2 r nb path Hs Hr Hnb (Hfr (proj2 Hr''))) as [(_ & E & _)|(_ & Ha & Hv & Hmin)].
        * destruct Hr' as [_ Hr']. by fold s3 in E.
        * unfold fwd_ok, alloc_n. rewrite Hn3. fold s3 in Ha, Hv, Hmin. done.
      + destruct (Hfo r' Hne Hr'') as (Ha & Hv & Hmin). unfold fwd_ok, alloc_n.
        rewrite Hn3, Hfw, decide_False by (destruct Hr'; lia).
        rewrite Hent, decide_False by (destruct Hr'; lia || destruct Ha; lia).
        split; [done|]. split; [done|]. intros n' Hn' Hv'.
        rewrite Hent, decide_False in Hv' |- * by (destruct Hr'; lia || destruct Hn'; lia).
        by apply Hmin.
  Qed.
  (** *** Allocating a recipient row *)

Lemma get_recipient_index_cases rid s r s2 :
    get_recipient_index rid true s = Ok (r, s2) ->
    (s2 = s /\ r = recipient_index rid s /\ 0 <= r < zlen (recipient_ids s) /\
     (recipient_ids s).[r] = rid) \/
    (recipient_index rid s = -1 /\ 0 <= r < zlen (recipient_ids s) /\ (recipient_ids s).[r] = -1 /\
     s2 = mkRS (zset (recipient_ids s) r rid) (neighbor_ids s)
               (zset (routing_table s) r (map invalidate (routing_table s).[r]))
               (zset (forwarding_table s) r (-1))).
  Proof.
    unfold get_recipient_index, recipient_index.
    destruct (find_index_spec (Z.eqb rid) (recipient_ids s)) as [[-> _]|[Hr [Hp _]]]; simpl.
    - destruct (find_index_spec (Z.eqb (-1)) (recipient_ids s)) as [[-> _]|[Hr [Hp _]]]; [done|].
      destruct (Z.eqb_spec (find_index (Z.eqb (-1)) (recipient_ids s)) (-1)); [lia|].
      intros [= <- <-]. right. apply Z.eqb_eq in Hp. auto.
    - destruct (Z.eqb_spec (find_index (Z.eqb rid) (recipient_ids s)) (-1)); [lia|]. simpl.
      intros [= <- <-]. left. apply Z.eqb_eq in Hp. auto.
  Qed.

Lemma index_none_not_in (p : list Z) x :
    find_index (Z.eqb x) p = -1 -> forall j, 0 <= j < zlen p -> p.[j] <> x.
  Proof.
    intros Hn j Hj E. destruct (find_index_spec (Z.eqb x) p) as [[_ Hall]|[Hr _]]; [|lia].
    specialize (Hall j Hj). rewrite E, Z.eqb_refl in Hall. done.
  Qed.

  (** A fresh row: all its entries invalid, no forwarding yet; the other
      rows keep their forwarding. *)
Lemma add_row_pre s rid r :
    routing_wf self s -> recipient_index rid s = -1 -> rid <> self ->
    0 <= r < MAX_RECIPIENTS -> (recipient_ids s).[r] = -1 ->
    let s2 := mkRS (zset (recipient_ids s) r rid) (neighbor_ids s)
                   (zset (routing_table s) r (map invalidate (routing_table s).[r]))
                   (zset (forwarding_table s) r (-1)) in
    routing_shape self s2 /\ (forall r', r' <> r -> alloc_r s2 r' -> fwd_ok s2 r') /\
    (forwarding_table s2).[r] = -1.
  Proof.
    intros [Hs Hf] Hnone Hself Hr Hfree. cbv zeta.
    pose proof (index_none_not_in _ _ Hnone) as Hnot. rewrite (rw_len_r _ _ Hs) in Hnot.
    assert (Hrid : rid <> -1) by (intros ->; by apply (Hnot r Hr)).
    assert (Hri : forall x, 0 <= x -> (zset (recipient_ids s) r rid).[x] =
                                      if decide (r = x) then rid else (recipient_ids s).[x])
      by (intros; apply zget_zset; [rewrite (rw_len_r _ _ Hs)|]; lia).
    assert (Hent : forall x n, 0 <= x -> 0 <= n < MAX_NEIGHBORS ->
              entry (mkRS (zset (recipient_ids s) r rid) (neighbor_ids s)
                   (zset (routing_table s) r (map invalidate (routing_table s).[r]))
                   (zset (forwarding_table s) r (-1))) x n =
              if decide (r = x) then invalidate (entry s r n) else entry s x n).
    { intros x n Hx Hn. unfold entry. simpl. rewrite zget_zset by (rewrite ?(rw_len_t _ _ Hs); lia).
      case_decide; [subst|done]. apply zget_map. rewrite (rw_len_row _ _ Hs); lia. }
    split; [constructor|split]; simpl.
    - rewrite zlen_zset. apply (rw_len_r _ _ Hs).
    - apply (rw_len_n _ _ Hs).
    - rewrite zlen_zset. apply (rw_len_t _ _ Hs).
    - intros x Hx. rewrite zget_zset by (rewrite ?(rw_len_t _ _ Hs); lia).
      case_decide; [subst; unfold zlen; rewrite length_map; apply (rw_len_row _ _ Hs); lia|].
      by apply (rw_len_row _ _ Hs).
    - rewrite zlen_zset. apply (rw_len_f _ _ Hs).
    - intros r1 r2 [H1 Ha] H2. rewrite !Hri in * by lia.
      repeat case_decide; subst; try done; intros E.
      + by destruct (Hnot r2 H2).
      + by destruct (Hnot r1 H1).
      + apply (rw_r_unique _ _ Hs); [split|..]; done.
    - apply (rw_n_unique _ _ Hs).
    - intros x [Hx Ha]. rewrite Hri in * by lia. case_decide; [done|].
      apply (rw_r_not_self _ _ Hs). by split.
    - intros x n [Hx Ha] Hn Hv. rewrite Hent in Hv |- * by lia. rewrite Hri in Ha by lia.
      case_decide; [by unfold valid, invalidate in Hv|]. apply (rw_paths _ _ Hs); [split|..]; done.
    - intros x Hne [Hx Ha]. rewrite Hri, decide_False in Ha by lia.
      destruct (Hf x (conj Hx Ha)) as (Han & Hv & Hmin). unfold fwd_ok, alloc_n in *. simpl.
      rewrite zget_zset_ne by lia. rewrite !Hent, !decide_False by (lia || destruct Han; lia).
      split; [done|]. split; [done|]. intros n' Hn' Hv'.
      rewrite Hent, decide_False in Hv' |- * by (lia || destruct Hn'; lia). by apply Hmin.
    - apply zget_zset_eq. rewrite (rw_len_f _ _ Hs). lia.
  Qed.

  (** The path stored by [update_routing_given_new_path] is loop-free. *)
Lemma sanitize_path_ok p : input_ok p -> valid (sanitize_path self p) -> path_ok self (sanitize_path self p).
  Proof.
    unfold sanitize_path, valid. destruct p as [p|]; [|done]. simpl.
    intros Hin. destruct (Z.eqb_spec (hop_count p) INVALID_PATH); [done|].
    destruct (existsb (Z.eqb self) (take (Z.to_nat (hop_count p)) (nodes p))) eqn:E; [done|].
    intros _. destruct Hin as [|[H0 Hl]]; [done|]. apply path_ok_copy. split; [done|]. split; [done|].
    intros Hin. assert (existsb (Z.eqb self) (take (Z.to_nat (hop_count p)) (nodes p)) = true)
      by (apply existsb_exists; exists self; split; [done|apply Z.eqb_refl]). congruence.
  Qed.
  (** *** The whole update *)

Lemma get_neighbor_index_wf nid s nb s1 :
    routing_wf self s -> get_neighbor_index nid true s = Ok (nb, s1) ->
    routing_wf self s1 /\ 0 <= nb < MAX_NEIGHBORS /\ (neighbor_ids s1).[nb] = nid /\
    recipient_ids s1 = recipient_ids s /\
    (forall n, alloc_n s n -> alloc_n s1 n /\ (neighbor_ids s1).[n] = (neighbor_ids s).[n]) /\
    (forall r n, 0 <= r < MAX_RECIPIENTS -> alloc_n s n -> entry s1 r n = entry s r n) /\
    forwarding_table s1 = forwarding_table s.
  Proof.
    intros Hwf Hg. pose proof (rw_len_n _ _ (proj1 Hwf)) as Hl.
    destruct (get_neighbor_index_cases _ _ _ _ Hg) as [(-> & _ & Hnb & E)|(Hnone & Hnb & Hfree & ->)].
    { rewrite Hl in Hnb. split; [done|]. split; [lia|]. split; [done|]. split; [done|].
      split; [by intros|]. split; [by intros|]. done. }
    rewrite Hl in Hnb. split; [by apply add_column_wf|]. simpl.
    split; [done|]. split; [apply zget_zset_eq; lia|]. split; [done|].
    assert (Hne : forall n, alloc_n s n -> n <> nb) by (intros n [_ Ha] ->; congruence).
    split; [|split; [|done]].
    - intros n Hn. specialize (Hne n Hn). unfold alloc_n, is_alloc in *. simpl.
      rewrite zget_zset_ne by (destruct Hn; lia). done.
    - intros r n Hr Hn. specialize (Hne n Hn).
      rewrite add_column_entry by (apply Hwf || destruct Hn; lia). by rewrite decide_False.
  Qed.

  (** Every update keeps the invariant. *)
Lemma update_routing_given_new_path_wf (s : RoutingState) (nid rid : Z) (p : option Path) (b : bool) (s' : RoutingState) :
    routing_wf self s -> input_ok p ->
    update_routing_given_new_path self nid rid p s = Ok (b, s') ->
    routing_wf self s'.
  Proof.
    intros Hwf Hin. unfold update_routing_given_new_path.
    destruct (Z.eqb_spec rid self) as [|Hrs]; [congruence|].
    destruct (Z.eqb_spec nid self); [congruence|].
    destruct (get_neighbor_index nid true s) as [[nb s1]| |] eqn:Eg; [|done|done].
    destruct (get_neighbor_index_wf _ _ _ _ Hwf Eg) as (Hwf1 & Hnb & _).
    destruct (get_recipient_index rid true s1) as [[r s2]| |] eqn:Er; [|done|done].
    intros [= _ <-]. pose proof (rw_len_r _ _ (proj1 Hwf1)) as Hlr.
    destruct (get_recipient_index_cases _ _ _ _ Er) as [(-> & _ & Hr & _)|(Hnone & Hr & Hfree & ->)];
      rewrite Hlr in Hr.
    - destruct Hwf1 as [Hs1 Hf1]. apply update_row_wf; try assumption.
      + intros r' _ Hr'. by apply Hf1.
      + intros Ha. left. apply Hf1. by split.
      + by apply sanitize_path_ok.
    - destruct (add_row_pre s1 rid r Hwf1 Hnone Hrs Hr Hfree) as (Hs2 & Hf2 & Hfw2).
      apply update_row_wf; try assumption; [by right | by apply sanitize_path_ok].
  Qed.
  (** C3: spec properties "loop freedom" and "forwarding agreement" are
      invariants of [update_routing_given_new_path]: from tables where
      every allocated row forwards along a minimal valid path that does
      not go through this node, any update with a well-formed path (as the
      [ROUTE] parser produces, or NULL) leads, if it does not exit on a
      full table, to tables with the same properties. *)
Theorem update_routing_wf (s : RoutingState) (nid rid : Z) (p : option Path) (b : bool) (s' : RoutingState) :
    routing_wf self s -> input_ok p ->
    update_routing_given_new_path self nid rid p s = Ok (b, s') ->
    routing_wf self s'.
  Proof. apply update_routing_given_new_path_wf. Qed.

  (** *** What the return value reports *)

  (** The (neighbor, path) chosen for a recipient, [None] when it has no
      row. *)
Definition chosen (s : RoutingState) (rid : Z) : option (Z * option (Z * list Z)) :=
    let r := recipient_index rid s in
    if r =? -1 then None
    else let n := (forwarding_table s).[r] in Some ((neighbor_ids s).[n], path_view (entry s r n)).

Lemma recipient_index_at s r rid :
    zlen (recipient_ids s) = MAX_RECIPIENTS -> 0 <= r < MAX_RECIPIENTS -> (recipient_ids s).[r] = rid ->
    (forall j, 0 <= j < MAX_RECIPIENTS -> j <> r -> (recipient_ids s).[j] <> rid) ->
    recipient_index rid s = r.
  Proof. intros Hl. rewrite <- Hl. apply find_index_at. Qed.

Lemma recipient_index_absent s rid :
    zlen (recipient_ids s) = MAX_RECIPIENTS ->
    (forall j, 0 <= j < MAX_RECIPIENTS -> (recipient_ids s).[j] <> rid) ->
    recipient_index rid s = -1.
  Proof.
    intros Hl Hu. unfold recipient_index.
    destruct (find_index_spec (Z.eqb rid) (recipient_ids s)) as [[-> _]|[Hi [Hp _]]]; [done|].
    rewrite Hl in Hi. apply Z.eqb_eq in Hp. exfalso. refine (Hu _ _ (eq_sym Hp)). clia.
  Qed.

  (** After [update_row] on the row [r] of [rid]: the chosen entry of
      [rid] is the new choice, or none when the row was freed. *)
Lemma chosen_update_row s2 r nb path rid :
    routing_shape self s2 -> 0 <= r < MAX_RECIPIENTS -> (recipient_ids s2).[r] = rid -> rid <> -1 ->
    (forall j, 0 <= j < MAX_RECIPIENTS -> j <> r -> (recipient_ids s2).[j] <> rid) ->
    let s3 := (update_row r nb path s2).2 in
    let c := (forwarding_table s3).[r] in
    chosen s3 rid = if c =? -1 then None else Some ((neighbor_ids s2).[c], path_view (entry s3 r c)).
  Proof.
    intros Hs Hr E Hrid Hu. cbv zeta.
    destruct (update_row_fields s2 r nb path Hs Hr) as (Hn3 & Hfw & Hrids). cbv zeta in Hfw, Hrids.
    assert (Hlr : zlen (recipient_ids (update_row r nb path s2).2) = MAX_RECIPIENTS).
    { unfold update_row. cbv zeta. simpl. case_match; rewrite ?zlen_zset; apply (rw_len_r _ _ Hs). }
    unfold chosen. rewrite Hn3.
    destruct (Z.eqb_spec (forwarding_table (update_row r nb path s2).2).[r] (-1)) as [Hc|Hc].
    - rewrite recipient_index_absent; [done|done|]. intros j Hj.
      rewrite Hrids by lia. case_decide; [subst j|by apply Hu].
      rewrite Hfw, decide_True in Hc by (done || lia). rewrite Hc, Z.eqb_refl. done.
    - rewrite (recipient_index_at _ r); [| done | done | |].
      + by destruct (Z.eqb_spec r (-1)); [lia|].
      + rewrite Hrids, decide_True by (done || lia).
        rewrite Hfw, decide_True in Hc by (done || lia). apply Z.eqb_neq in Hc. by rewrite Hc.
      + intros j Hj Hne. rewrite Hrids, decide_False by lia. by apply Hu.
  Qed.

  (** [are_paths_equal] of the saved copy of a stored path and a stored
      path compares what they mean. *)
Lemma are_paths_equal_stored d p q :
    valid p -> path_ok self p -> valid q -> path_ok self q ->
    are_paths_equal (copy_path d p) q = bool_decide (path_view p = path_view q).
  Proof.
    intros Vp [Hp0 [Hpl _]] Vq [Hq0 _].
    rewrite are_paths_equal_view; cycle 1.
    - unfold is_valid, valid in *. simpl. by apply negb_true_iff, Z.eqb_neq.
    - unfold is_valid, valid in *. by apply negb_true_iff, Z.eqb_neq.
    - done.
    - done.
    - by rewrite copy_path_view.
  Qed.

  (** The boolean [update_row] returns is "the (neighbor, path) chosen for
      the row changed". *)
Lemma update_row_changed s2 r nb path :
    routing_shape self s2 -> 0 <= r < MAX_RECIPIENTS -> 0 <= nb < MAX_NEIGHBORS ->
    (recipient_ids s2).[r] <> -1 ->
    (fwd_ok s2 r \/ (forwarding_table s2).[r] = -1) -> (valid path -> path_ok self path) ->
    let s3 := (update_row r nb path s2).2 in
    let old := (forwarding_table s2).[r] in
    let c := (forwarding_table s3).[r] in
    (update_row r nb path s2).1 =
    negb (bool_decide
      ((if old =? -1 then None else Some ((neighbor_ids s2).[old], path_view (entry s2 r old))) =
       (if c =? -1 then None else Some ((neighbor_ids s2).[c], path_view (entry s3 r c))))).
  Proof.
    intros Hs Hr Hnb Hra Hold Hp. cbv zeta.
    destruct (update_row_fields s2 r nb path Hs Hr) as (_ & Hfw & _). cbv zeta in Hfw.
    rewrite Hfw, decide_True by (done || lia).
    assert (Hrow : forall n, 0 <= n -> entry (update_row r nb path s2).2 r n =
              (zset (routing_table s2).[r] nb (copy_path (routing_table s2).[r].[nb] path)).[n])
      by (intros; by apply update_row_row).
    assert (Hok : forall n, 0 <= n < MAX_NEIGHBORS -> valid (entry (update_row r nb path s2).2 r n) ->
                            path_ok self (entry (update_row r nb path s2).2 r n)).
    { intros n Hn Hvn. rewrite update_row_entry, decide_True in Hvn |- * by (done || lia).
      case_decide; subst; [apply path_ok_copy, Hp; exact Hvn|].
      by apply (rw_paths _ _ Hs); [split|..]. }
    set (row' := zset (routing_table s2).[r] nb (copy_path (routing_table s2).[r].[nb] path)) in *.
    set (c := choose_closest (forwarding_table s2).[r] row' (neighbor_ids s2)).
    change ((update_row r nb path s2).1) with
      (negb ((forwarding_table s2).[r] =? c) ||
       (negb (c =? -1) && negb (are_paths_equal
          (if (forwarding_table s2).[r] =? -1 then invalid_path
           else copy_path invalid_path (routing_table s2).[r].[(forwarding_table s2).[r]]) row'.[c]))).
    assert (Hc := choose_closest_spec (forwarding_table s2).[r] row' (neighbor_ids s2)
                    ltac:(destruct Hold as [(? & _)|]; auto)).
    fold c in Hc. cbv zeta in Hc.
    destruct Hc as [[Hc _]|(Ha & Hv & _)].
    { rewrite Hc. destruct Hold as [(Hao & _)|Ho].
      - by rewrite (proj2 (Z.eqb_neq _ (-1))) by (destruct Hao; lia).
      - by rewrite Ho. }
    assert (Hc0 : 0 <= c < MAX_NEIGHBORS) by (destruct Ha; lia).
    rewrite (proj2 (Z.eqb_neq c (-1))) by lia. rewrite Hrow by lia.
    destruct Hold as [(Hao & Hvo & _)|Ho].
    - assert (Ho0 : 0 <= (forwarding_table s2).[r] < MAX_NEIGHBORS) by (destruct Hao; lia).
      rewrite (proj2 (Z.eqb_neq _ (-1))) by lia.
      destruct (Z.eqb_spec (forwarding_table s2).[r] c) as [E|Hne]; simpl.
      + rewrite <- E in *. rewrite are_paths_equal_stored; cycle 1.
        * exact Hvo.
        * by apply (rw_paths _ _ Hs); [split|..].
        * exact Hv.
        * rewrite <- Hrow by lia. apply Hok; [lia|]. by rewrite Hrow by lia.
        * f_equal. apply bool_decide_ext. unfold entry. split; [by intros ->|by intros [= ?]].
      + rewrite bool_decide_false; [done|]. intros [= E _]. apply Hne.
        exact (rw_n_unique _ _ Hs _ _ Hao Hc0 E).
    - rewrite Ho. by rewrite (proj2 (Z.eqb_neq (-1) c)) by lia.
  Qed.

  (** C4: spec property "announcement minimality": the return value of
      [update_routing_given_new_path], on which [update_and_announce]
      decides to send [ROUTE] messages, is true exactly when the
      neighbor or the path chosen for the recipient changed (or the
      recipient became reachable or unreachable). *)
Theorem update_routing_announces (s : RoutingState) (nid rid : Z) (p : option Path) (b : bool) (s' : RoutingState) :
    routing_wf self s -> input_ok p -> rid <> -1 ->
    update_routing_given_new_path self nid rid p s = Ok (b, s') ->
    b = negb (bool_decide (chosen s rid = chosen s' rid)).
  Proof.
    intros Hwf Hin Hrid. unfold update_routing_given_new_path.
    destruct (Z.eqb_spec rid self) as [|Hrs]; [intros [= <- <-]; by rewrite bool_decide_true|].
    destruct (Z.eqb_spec nid self); [intros [= <- <-]; by rewrite bool_decide_true|].
    destruct (get_neighbor_index nid true s) as [[nb s1]| |] eqn:Eg; [|done|done].
    destruct (get_neighbor_index_wf _ _ _ _ Hwf Eg) as (Hwf1 & Hnb & _ & Hrids1 & Hkeep & Hent1 & Hfw1).
    destruct (get_recipient_index rid true s1) as [[r s2]| |] eqn:Er; [|done|done].
    intros E. assert (Eu : update_row r nb (sanitize_path self p) s2 = (b, s')) by congruence.
    clear E. rename Eu into E.
    replace b with (update_row r nb (sanitize_path self p) s2).1 by (by rewrite E).
    replace s' with (update_row r nb (sanitize_path self p) s2).2 by (by rewrite E).
    pose proof (rw_len_r _ _ (proj1 Hwf1)) as Hlr.
    assert (Hri : recipient_index rid s = recipient_index rid s1) by (unfold recipient_index; by rewrite Hrids1).
    destruct (get_recipient_index_cases _ _ _ _ Er) as [(-> & Er' & Hr & Hid)|(Hnone & Hr & Hfree & ->)];
      rewrite Hlr in Hr.
    - destruct Hwf1 as [Hs1 Hf1]. assert (Ha : alloc_r s1 r) by (split; [done|congruence]).
      rewrite chosen_update_row, update_row_changed; try done.
      + unfold chosen. rewrite Hri, <- Er'. rewrite (proj2 (Z.eqb_neq r (-1))) by lia.
        assert (Ha0 : alloc_r s r) by (unfold alloc_r; by rewrite <- Hrids1).
        destruct (proj2 Hwf r Ha0) as (Hao & _). rewrite Hfw1.
        rewrite (proj2 (Z.eqb_neq _ (-1))) by (destruct Hao; lia).
        destruct (Hkeep _ Hao) as [_ ->]. by rewrite Hent1.
      + congruence.
      + left. by apply Hf1.
      + by apply sanitize_path_ok.
      + intros j Hj Hne E'. apply Hne. symmetry. apply (rw_r_unique _ _ Hs1); [done|done|congruence].
    - destruct (add_row_pre s1 rid r Hwf1 Hnone Hrs Hr Hfree) as (Hs2 & _ & Hfw2).
      assert (Hid : (zset (recipient_ids s1) r rid).[r] = rid) by (apply zget_zset_eq; lia).
      rewrite chosen_update_row, update_row_changed; try done.
      + unfold chosen. rewrite Hri, Hnone, Z.eqb_refl. simpl in Hfw2 |- *. by rewrite Hfw2.
      + simpl. by rewrite Hid.
      + by right.
      + by apply sanitize_path_ok.
      + intros j Hj Hne. simpl. rewrite zget_zset_ne by lia.
        apply (index_none_not_in _ _ Hnone). lia.
  Qed.

  (** *** Removing a neighbor *)

  (** An update for an allocated row through an allocated column touches
      nothing else: it is [update_row] on them. *)
Lemma update_existing s nb r nid p :
    routing_wf self s -> nid <> self -> alloc_n s nb -> (neighbor_ids s).[nb] = nid -> alloc_r s r ->
    update_routing_given_new_path self nid (recipient_ids s).[r] p s =
    Ok (update_row r nb (sanitize_path self p) s).
  Proof.
    intros [Hs _] Hns Hnb Enb Hr. unfold update_routing_given_new_path.
    rewrite (proj2 (Z.eqb_neq _ self)) by (by apply (rw_r_not_self _ _ Hs)).
    rewrite (proj2 (Z.eqb_neq nid self)) by done.
    assert (En : neighbor_index nid s = nb).
    { unfold neighbor_index. apply find_index_at; rewrite ?(rw_len_n _ _ Hs); [destruct Hnb; lia|done|].
      intros j Hj Hne E. apply Hne. symmetry. apply (rw_n_unique _ _ Hs); [done|lia|congruence]. }
    assert (Er : recipient_index (recipient_ids s).[r] s = r).
    { apply recipient_index_at; [apply Hs|destruct Hr; lia|done|].
      intros j Hj Hne E. apply Hne. symmetry. apply (rw_r_unique _ _ Hs); [done|lia|congruence]. }
    unfold get_neighbor_index, get_recipient_index. cbv zeta. rewrite En.
    rewrite (proj2 (Z.eqb_neq nb (-1))) by (destruct Hnb; lia). cbn [negb].
    rewrite Er, (proj2 (Z.eqb_neq r (-1))) by (destruct Hr; lia). reflexivity.
  Qed.

  (** The loop of [remove_routing_neighbor] after [k] iterations: the
      invariant holds, the columns are those of the start, and the rows
      already visited that are still allocated have no valid path through
      the column [nb]. *)
Definition remove_inv (s0 : RoutingState) (nb k : Z) (acc : list (Z * list Z) * RoutingState) : Prop :=
    routing_wf self acc.2 /\ neighbor_ids acc.2 = neighbor_ids s0 /\
    forall r, 0 <= r < k -> alloc_r acc.2 r -> ~ valid (entry acc.2 r nb).

Lemma remove_row_inv s0 nb nid k out out' s s3 :
    nid <> self -> alloc_n s0 nb -> (neighbor_ids s0).[nb] = nid ->
    remove_inv s0 nb k (out, s) -> alloc_r s k ->
    s3 = (update_row k nb (sanitize_path self None) s).2 ->
    remove_inv s0 nb (k + 1) (out', s3).
  Proof.
    intros Hns Hnb Enb (Hwf & Hn & Hold) Hk Es3. simpl in Hwf, Hn, Hold.
    assert (Hnb' : alloc_n s nb) by (unfold alloc_n; by rewrite Hn).
    pose proof (update_existing s nb k nid None Hwf Hns Hnb' ltac:(by rewrite Hn) Hk) as E.
    destruct (update_row_fields s k nb invalid_path (proj1 Hwf) ltac:(destruct Hk; lia)) as (Hn3 & _ & Hrid).
    cbv zeta in Hrid. change (sanitize_path self None) with invalid_path in *.
    unfold remove_inv. simpl. split; [|split].
    - apply (update_routing_given_new_path_wf s nid (recipient_ids s).[k] None
               (update_row k nb invalid_path s).1 _ Hwf I).
      by rewrite E, Es3, <- surjective_pairing.
    - by rewrite Es3, Hn3.
    - intros r Hr [Hr0 Ha]. rewrite Es3 in Ha |- *.
      rewrite update_row_entry by (apply Hwf || destruct Hk, Hnb'; lia).
      destruct (decide (k = r)) as [<-|Hne].
      + rewrite decide_True by done. unfold valid. simpl. intros Hv. by apply Hv.
      + rewrite Hrid, decide_False in Ha by lia. apply Hold; [lia|by split].
  Qed.

  Context {R : Type} `{ConnTable R}.

Lemma remove_step_inv conns s0 nid nb k acc acc' :
    nid <> self -> alloc_n s0 nb -> (neighbor_ids s0).[nb] = nid -> 0 <= k < MAX_RECIPIENTS ->
    remove_inv s0 nb k acc -> remove_step self conns nid acc k = Ok acc' ->
    remove_inv s0 nb (k + 1) acc'.
  Proof.
    destruct acc as [out s]. intros Hns Hnb Enb Hk Hinv. unfold remove_step.
    destruct (Z.eqb_spec (recipient_ids s).[k] (-1)) as [Hfree|Hk'].
    - intros [= <-]. destruct Hinv as (Hwf & Hn & Hold). split; [done|]. split; [done|].
      intros r Hr Ha. destruct (decide (r = k)) as [->|]; [destruct Ha; simpl in *; congruence|].
      apply Hold; [lia|done].
    - assert (Hak : alloc_r s k) by (split; [lia|done]).
      destruct Hinv as (Hwf & Hn & Hold).
      assert (Hnb' : alloc_n s nb) by (unfold alloc_n; simpl in Hn; by rewrite Hn).
      unfold update_routing_and_announce.
      rewrite (update_existing s nb k nid None Hwf Hns Hnb' ltac:(simpl in Hn; by rewrite Hn) Hak).
      assert (Hinv' := remove_row_inv s0 nb nid k out out s _ Hns Hnb Enb (conj Hwf (conj Hn Hold)) Hak eq_refl).
      destruct (update_row k nb (sanitize_path self None) s) as [b s3] eqn:Eu.
      simpl in Hinv'.
      destruct b; [destruct (announce_new_path self conns (recipient_ids s).[k] s3) as [o| |]|];
        simpl; try done; intros [= <-]; exact Hinv'.
  Qed.

  (** Freeing a column that no allocated row uses keeps the invariant. *)
Lemma free_column_wf s nb :
    routing_wf self s -> 0 <= nb < MAX_NEIGHBORS ->
    (forall r, alloc_r s r -> ~ valid (entry s r nb)) ->
    routing_wf self (mkRS (recipient_ids s) (zset (neighbor_ids s) nb (-1)) (routing_table s) (forwarding_table s)).
  Proof.
    intros [Hs Hf] Hnb Hcol.
    assert (Hn' : forall j, 0 <= j -> (zset (neighbor_ids s) nb (-1)).[j] =
                              if decide (nb = j) then -1 else (neighbor_ids s).[j])
      by (intros; apply zget_zset; [rewrite (rw_len_n _ _ Hs)|]; lia).
    assert (Ha' : forall n, alloc_n (mkRS (recipient_ids s) (zset (neighbor_ids s) nb (-1))
                                        (routing_table s) (forwarding_table s)) n -> n <> nb /\ alloc_n s n).
    { intros n [Hn Ha]. simpl in Ha. rewrite Hn' in Ha by lia. case_decide; [done|]. split; [done|by split]. }
    split; [constructor|]; simpl.
    - apply (rw_len_r _ _ Hs).
    - rewrite zlen_zset. apply (rw_len_n _ _ Hs).
    - apply (rw_len_t _ _ Hs).
    - apply (rw_len_row _ _ Hs).
    - apply (rw_len_f _ _ Hs).
    - apply (rw_r_unique _ _ Hs).
    - intros n1 n2 H1 H2. destruct (Ha' n1 H1) as [Hne1 Ha1]. simpl. rewrite !Hn' by (destruct Ha1; lia).
      rewrite decide_False by congruence. case_decide; [subst; destruct Ha1; congruence|].
      by apply (rw_n_unique _ _ Hs).
    - apply (rw_r_not_self _ _ Hs).
    - apply (rw_paths _ _ Hs).
    - intros r Hr. destruct (Hf r Hr) as (Ha & Hv & Hmin).
      assert (Hne : (forwarding_table s).[r] <> nb) by (intros E; apply (Hcol r Hr); by rewrite <- E).
      unfold fwd_ok, alloc_n, is_alloc, entry in *. simpl. rewrite Hn' by (destruct Ha; lia).
      rewrite decide_False by congruence. split; [done|]. split; [done|].
      intros n' Hn'' Hv'. apply Hmin; [|done]. by apply Ha'.
  Qed.

  (** C5: [remove_routing_neighbor] (called when the last connection to
      a neighbor closes) keeps the invariant and forgets the neighbor: no
      column carries its id any more, so no allocated row forwards through
      it (every row it served was re-routed through another neighbor or
      freed). *)
Theorem remove_routing_neighbor_wf (conns : R) (nid : Z) (s : RoutingState) out s' :
    routing_wf self s -> nid <> self -> nid <> -1 ->
    remove_routing_neighbor self conns nid s = Ok (out, s') ->
    routing_wf self s' /\ forall n, 0 <= n < MAX_NEIGHBORS -> (neighbor_ids s').[n] <> nid.
  Proof.
    intros Hwf Hns Hnid. pose proof (rw_len_n _ _ (proj1 Hwf)) as Hl. unfold remove_routing_neighbor.
    destruct (Z.eqb_spec (neighbor_index nid s) (-1)) as [Hnone|Hfound].
    { intros [= <- <-]. split; [done|]. intros n Hn.
      apply (index_none_not_in _ _ Hnone). rewrite Hl. done. }
    destruct (find_index_spec (Z.eqb nid) (neighbor_ids s)) as [[? _]|(Hr & Hp & _)]; [done|].
    fold (neighbor_index nid s) in *. set (nb := neighbor_index nid s) in *.
    apply Z.eqb_eq in Hp. rewrite Hl in Hr.
    assert (Hnb : alloc_n s nb) by (split; [done|congruence]).
    destruct (foldM (remove_step self conns nid) (zrange MAX_RECIPIENTS) ([], s)) as [[out1 s1]| |] eqn:Ef;
      [|done|done].
    intros [= <- <-].
    assert (Hinv0 : remove_inv s nb 0 ([], s)) by (split; [done|split; [done|intros; lia]]).
    destruct (foldM_zrange_inv (remove_inv s nb) (remove_step self conns nid) MAX_RECIPIENTS ([], s) (out1, s1)
                ltac:(clia) Hinv0
                (fun k acc acc' Hk => remove_step_inv conns s nid nb k acc acc' Hns Hnb (eq_sym Hp) Hk) Ef)
      as (Hwf1 & Hn1 & Hrows).
    simpl in Hwf1, Hn1, Hrows. split.
    - apply free_column_wf; [done|lia|]. intros r Hr'. apply Hrows; [destruct Hr'; lia|done].
    - intros n Hn. simpl. rewrite zget_zset by (try rewrite Hn1; lia). case_decide as Hne; [done|].
      rewrite Hn1. intros E. apply Hne. apply (rw_n_unique _ _ (proj1 Hwf)); [done|lia|congruence].
  Qed.

  (** *** Forwarding a chat message *)

  Context `{!ConnTableLaws R}.

  (** C24: [forward_message] follows the forwarding table: a message to a
      node with no row is dropped; otherwise it is written, on a live
      socket, to the connection of the neighbor chosen for the recipient,
      which has a valid path to it.  When that neighbor has no open
      connection the C code dereferences NULL ([Undefined]). *)
Theorem forward_message_next_hop (conns : R) (sender rid : Z) (text : list Z) (s : RoutingState) :
    routing_wf self s -> rid <> -1 ->
    (chosen s rid = None /\ forward_message conns sender rid text s = Ok None) \/
    (exists nid v, chosen s rid = Some (nid, v) /\ nid <> -1 /\ v <> None /\
       match ct_socket_of_node conns nid with
       | Some sock => In sock (ct_live_sockets conns) /\
           forward_message conns sender rid text s =
           Ok (Some (sock, conn_printf_bytes (chat_line sender rid text)))
       | None => forward_message conns sender rid text s =
           Undefined "neighbor_conn->socket with neighbor_conn == NULL"
       end).
  Proof.
    intros [Hs Hf] Hrid. unfold chosen, forward_message. cbv zeta.
    destruct (Z.eqb_spec (recipient_index rid s) (-1)) as [|Hr]; [by left|right].
    destruct (find_index_spec (Z.eqb rid) (recipient_ids s)) as [[? _]|(Hr0 & Hp & _)]; [done|].
    fold (recipient_index rid s) in *. apply Z.eqb_eq in Hp. rewrite (rw_len_r _ _ Hs) in Hr0.
    destruct (Hf (recipient_index rid s) ltac:(split; [done|congruence])) as ([Hn Ha] & Hv & _).
    rewrite (proj2 (Z.eqb_neq _ (-1))) by lia.
    eexists _, _. split; [reflexivity|]. split; [done|]. split.
    { unfold path_view, is_valid. unfold valid in Hv. by rewrite (proj2 (Z.eqb_neq _ _) Hv). }
    destruct (ct_socket_of_node conns _) as [sock|] eqn:Es; [|done].
    split; [by eapply ct_socket_of_node_live|done].
  Qed.
End Invariant.

(** ** Concrete runs

    Node 10 starts with empty tables, learns from its neighbor 20 the path
    [20-30], then loses the neighbor. *)

(** The tables of node 10 after [ROUTE 20 30 20-30]. *)
Definition run_learn_30 : RoutingState :=
  (ok_or (false, routing_zero)
     (update_routing_given_new_path 10 20 30 (Some (mkPath 1 [20; 30])) (init_routing routing_zero))).2.

Lemma update_routing_wf_witness :
  routing_wf 10 (init_routing routing_zero) /\ input_ok (Some (mkPath 1 [20; 30])) /\
  routing_wf 10 (ok_or (false, routing_zero)
    (update_routing_given_new_path 10 20 30 (Some (mkPath 1 [20; 30])) (init_routing routing_zero))).2.
Proof.
  assert (H0 : routing_wf 10 (init_routing routing_zero)) by (apply routing_wfb_sound; vm_compute; reflexivity).
  assert (Hin : input_ok (Some (mkPath 1 [20; 30]))) by (right; simpl; lia).
  split; [done|]. split; [done|].
  apply (update_routing_wf 10 (init_routing routing_zero) 20 30 (Some (mkPath 1 [20; 30]))
           (ok_or (false, routing_zero)
              (update_routing_given_new_path 10 20 30 (Some (mkPath 1 [20; 30])) (init_routing routing_zero))).1);
    [exact H0|exact Hin|vm_compute; reflexivity].
Defined.

Lemma update_routing_announces_witness :
  routing_wf 10 run_learn_30 /\ input_ok (Some (mkPath 2 [40; 50; 30])) /\ 30 <> -1 /\
  (ok_or (true, routing_zero) (update_routing_given_new_path 10 40 30 (Some (mkPath 2 [40; 50; 30])) run_learn_30)).1 =
  negb (bool_decide (chosen run_learn_30 30 =
    chosen (ok_or (true, routing_zero)
              (update_routing_given_new_path 10 40 30 (Some (mkPath 2 [40; 50; 30])) run_learn_30)).2 30)).
Proof.
  assert (H0 : routing_wf 10 run_learn_30) by (apply routing_wfb_sound; vm_compute; reflexivity).
  assert (Hin : input_ok (Some (mkPath 2 [40; 50; 30]))) by (right; simpl; lia).
  split; [done|]. split; [done|]. split; [lia|].
  apply (update_routing_announces 10 run_learn_30 40 30 (Some (mkPath 2 [40; 50; 30])));
    [exact H0|exact Hin|lia|vm_compute; reflexivity].
Defined.

Lemma remove_routing_neighbor_wf_witness :
  routing_wf 10 run_learn_30 /\ 20 <> 10 /\ 20 <> -1 /\
  (routing_wf 10 (ok_or ([], routing_zero) (remove_routing_neighbor 10 registry_node20 20 run_learn_30)).2 /\
   forall n, 0 <= n < MAX_NEIGHBORS ->
     (neighbor_ids (ok_or ([], routing_zero) (remove_routing_neighbor 10 registry_node20 20 run_learn_30)).2).[n] <> 20).
Proof.
  assert (H0 : routing_wf 10 run_learn_30) by (apply routing_wfb_sound; vm_compute; reflexivity).
  split; [done|]. split; [lia|]. split; [lia|].
  apply (remove_routing_neighbor_wf 10 registry_node20 20 run_learn_30
           (ok_or ([], routing_zero) (remove_routing_neighbor 10 registry_node20 20 run_learn_30)).1);
    [exact H0|lia|lia|vm_compute; reflexivity].
Defined.

Lemma forward_message_next_hop_witness :
  routing_wf 10 run_learn_30 /\ 30 <> -1 /\
  ((chosen run_learn_30 30 = None /\ forward_message registry_node20 10 30 (bytes "hi") run_learn_30 = Ok None) \/
   (exists nid v, chosen run_learn_30 30 = Some (nid, v) /\ nid <> -1 /\ v <> None /\
      match ct_socket_of_node registry_node20 nid with
      | Some sock => In sock (ct_live_sockets registry_node20) /\
          forward_message registry_node20 10 30 (bytes "hi") run_learn_30 =
          Ok (Some (sock, conn_printf_bytes (chat_line 10 30 (bytes "hi"))))
      | None => forward_message registry_node20 10 30 (bytes "hi") run_learn_30 =
          Undefined "neighbor_conn->socket with neighbor_conn == NULL"
      end)).
Proof.
  assert (H0 : routing_wf 10 run_learn_30) by (apply routing_wfb_sound; vm_compute; reflexivity).
  split; [done|]. split; [lia|]. apply (forward_message_next_hop 10); [exact H0|lia].
Defined.


(** C37: a path the [ROUTE] parser accepts overflows the announcement
    buffer.  Sixteen ids fit in [path.nodes]; stored as the path to node 35
    through neighbor 20, it is announced as [ROUTE 10 35 10-20-...-35]:
    63 characters and a NUL, written by [sprintf] into
    [char route_msg[14+MAX_PATH_STR_LENGTH]] (61 bytes). *)
Theorem announce_long_path_overflows :
  parse_path (bytes "20-21-22-23-24-25-26-27-28-29-30-31-32-33-34-35") =
    Ok (Some (mkPath 15 [20; 21; 22; 23; 24; 25; 26; 27; 28; 29; 30; 31; 32; 33; 34; 35])) /\
  update_routing_and_announce 10 registry_node20 20 35
    (Some (mkPath 15 [20; 21; 22; 23; 24; 25; 26; 27; 28; 29; 30; 31; 32; 33; 34; 35]))
    (init_routing routing_zero) = Undefined "sprintf past route_msg".
Proof. split; vm_compute; reflexivity. Qed.
