(* ===== verification/RoutingSpec.v ===== *)
(** * RoutingSpec: what the routing tables of [src/routing.c] mean

    The routing engine promises a distance-vector table: for each
    neighbor and each recipient, the path the neighbor last announced
    (when it is usable), and for each recipient a route of minimal hop
    count among them.  [table] is that abstract state.  [learn] is the
    abstract effect of one announcement, [forget] the one of a neighbor
    leaving, and [best] the choice a recipient's route must be.

    [view] is the abstraction function: it reads the C tables (rows and
    columns found by id with the lookups of [routing.c], the stored
    [Path]s) as a [table].  The refinement theorems show that
    [update_routing_given_new_path] implements [learn],
    [remove_routing_neighbor] implements [forget], and, on tables that
    satisfy [routing_wf], the [forwarding_table] entry of a recipient
    is a [best] route of the view. *)

From S2P Require Import Prelude Path Connections Routing.

(** ** The abstract specification *)

(** For a neighbor id and a recipient id: the hop count and the ids of
    the path the neighbor offers, [None] when it offers none. *)
Definition table := Z -> Z -> option (Z * list Z).

(** The announcement a node keeps: a valid path that does not go through
    the node itself. *)
Definition accepted (self : Z) (p : option Path) : option (Z * list Z) :=
  match p with
  | Some p =>
      match path_view p with
      | Some (h, ns) => if existsb (Z.eqb self) ns then None else Some (h, ns)
      | None => None
      end
  | None => None
  end.

(** Neighbor [nid] announces [p] for [rid]; announcements about this node
    or from it are ignored. *)
Definition learn (self nid rid : Z) (p : option Path) (T : table) : table :=
  if (rid =? self) || (nid =? self) then T
  else fun n r => if (n =? nid) && (r =? rid) then accepted self p else T n r.

(** Neighbor [nid] is gone: it offers nothing. *)
Definition forget (nid : Z) (T : table) : table :=
  fun n r => if n =? nid then None else T n r.

(** [(n, v)] is a best route to [rid] in [T]: [n] offers [v], and no
    neighbor offers fewer hops. *)
Definition best (T : table) (rid n : Z) (v : Z * list Z) : Prop :=
  T n rid = Some v /\ forall n' v', T n' rid = Some v' -> v.1 <= v'.1.

(** ** The abstraction function *)

(** The table the C arrays hold: the row and the column are those the
    lookups of [get_recipient_index] and [get_neighbor_index] find;
    [-1] is the free-slot marker, not an id. *)
Definition view (s : RoutingState) : table := fun nid rid =>
  if (nid =? -1) || (rid =? -1) then None
  else
    let r := recipient_index rid s in
    let n := neighbor_index nid s in
    if (r =? -1) || (n =? -1) then None else path_view (entry s r n).

(** The route [forwarding_table] gives a recipient, read through [view]:
    none when the recipient has no row, otherwise a best route of the
    view. *)
Definition routes_best (s : RoutingState) (rid : Z) : Prop :=
  match chosen s rid with
  | None => forall n, view s n rid = None
  | Some (n, Some v) => best (view s) rid n v
  | Some (_, None) => False
  end.

(** ** Paths *)

Lemma path_view_invalid p : ~ valid p -> path_view p = None.
Proof.
  unfold valid, path_view, is_valid. intros Hv.
  by destruct (Z.eqb_spec (hop_count p) INVALID_PATH).
Qed.

Lemma path_view_valid p : valid p -> path_view p = Some (hop_count p, take (Z.to_nat (hop_count p)) (nodes p)).
Proof.
  unfold valid, path_view, is_valid. intros Hv.
  by destruct (Z.eqb_spec (hop_count p) INVALID_PATH).
Qed.

Lemma path_view_invalidate p : path_view (invalidate p) = None.
Proof. apply path_view_invalid. unfold valid. simpl. by intros Hv. Qed.

Lemma path_view_Some p v : path_view p = Some v -> valid p /\ v.1 = hop_count p.
Proof. unfold path_view, is_valid, valid. destruct (Z.eqb_spec (hop_count p) INVALID_PATH); by intros [= <-]. Qed.

(** What [copy_path] stores means what its source meant, valid or not. *)
Lemma path_view_copy d p :
  (valid p -> (Z.to_nat (hop_count p) <= length (nodes p))%nat) ->
  path_view (copy_path d p) = path_view p.
Proof.
  intros Hl. destruct (decide (valid p)) as [Hv|Hv]; [by apply copy_path_view, Hl|].
  rewrite !path_view_invalid; [done|done|]. unfold valid in *. by simpl.
Qed.

(** [sanitize_path] keeps exactly the announcements [accepted] keeps. *)
Lemma path_view_sanitize self p :
  input_ok p -> path_view (sanitize_path self p) = accepted self p.
Proof.
  destruct p as [p|]; [|done]. unfold sanitize_path, accepted. intros Hin.
  destruct (Z.eqb_spec (hop_count p) INVALID_PATH) as [Hi|Hi].
  { by rewrite (path_view_invalid p) by (unfold valid; congruence). }
  rewrite (path_view_valid p Hi).
  destruct (existsb (Z.eqb self) (take (Z.to_nat (hop_count p)) (nodes p))); [done|].
  destruct Hin as [|[_ Hl]]; [done|]. rewrite copy_path_view by done. by apply path_view_valid.
Qed.

(** ** Lookups in a well-shaped state *)

Section Lookups.
  Context (self : Z) (s : RoutingState) (Hs : routing_shape self s).

Lemma recipient_index_hit rid :
    recipient_index rid s <> -1 ->
    alloc_r s (recipient_index rid s) \/ rid = -1.
  Proof.
    intros Hn. destruct (find_index_hit (recipient_ids s) rid Hn) as [Hr E].
    rewrite (rw_len_r _ _ Hs) in Hr. fold (recipient_index rid s) in *.
    destruct (Z.eqb_spec rid (-1)); [by right|]. left. split; [done|congruence].
  Qed.

Lemma neighbor_index_hit nid :
    neighbor_index nid s <> -1 ->
    (alloc_n s (neighbor_index nid s) /\ (neighbor_ids s).[neighbor_index nid s] = nid) \/ nid = -1.
  Proof.
    intros Hn. destruct (find_index_hit (neighbor_ids s) nid Hn) as [Hr E].
    rewrite (rw_len_n _ _ Hs) in Hr. fold (neighbor_index nid s) in *.
    destruct (Z.eqb_spec nid (-1)); [by right|]. left. split; [split; [done|congruence]|done].
  Qed.

Lemma recipient_index_range rid : -1 <= recipient_index rid s < MAX_RECIPIENTS.
  Proof. rewrite <- (rw_len_r _ _ Hs). apply find_index_range. Qed.

Lemma neighbor_index_range nid : -1 <= neighbor_index nid s < MAX_NEIGHBORS.
  Proof. rewrite <- (rw_len_n _ _ Hs). apply find_index_range. Qed.

  (** The row of an allocated recipient is found by its id. *)
Lemma recipient_index_alloc r :
    alloc_r s r -> recipient_index (recipient_ids s).[r] s = r.
  Proof.
    intros Hr. apply recipient_index_at; [apply Hs|apply Hr|done|].
    intros j Hj Hne E. apply Hne. symmetry. apply (rw_r_unique _ _ Hs); [done|lia|congruence].
  Qed.

Lemma neighbor_index_alloc n :
    alloc_n s n -> neighbor_index (neighbor_ids s).[n] s = n.
  Proof.
    intros Hn. unfold neighbor_index. apply find_index_at; [rewrite (rw_len_n _ _ Hs); apply Hn|done|].
    rewrite (rw_len_n _ _ Hs). intros j Hj Hne E. apply Hne. symmetry.
    apply (rw_n_unique _ _ Hs); [done|lia|congruence].
  Qed.
  (** Testing an id against an allocated slot is testing where the
      lookup of that id lands. *)
Lemma recipient_index_is r rr :
    alloc_r s rr -> r <> -1 -> (r =? (recipient_ids s).[rr]) = (recipient_index r s =? rr).
  Proof.
    intros Hrr Hr. destruct (Z.eqb_spec r (recipient_ids s).[rr]) as [->|Hne].
    - by rewrite recipient_index_alloc, Z.eqb_refl.
    - symmetry. apply Z.eqb_neq. intros E. apply Hne.
      destruct (find_index_hit (recipient_ids s) r) as [_ Er];
        [fold (recipient_index r s); destruct Hrr; lia|].
      fold (recipient_index r s) in Er. congruence.
  Qed.

Lemma neighbor_index_is n nb :
    alloc_n s nb -> n <> -1 -> (n =? (neighbor_ids s).[nb]) = (neighbor_index n s =? nb).
  Proof.
    intros Hnb Hn. destruct (Z.eqb_spec n (neighbor_ids s).[nb]) as [->|Hne].
    - by rewrite neighbor_index_alloc, Z.eqb_refl.
    - symmetry. apply Z.eqb_neq. intros E. apply Hne.
      destruct (find_index_hit (neighbor_ids s) n) as [_ En];
        [fold (neighbor_index n s); destruct Hnb; lia|].
      fold (neighbor_index n s) in En. congruence.
  Qed.
End Lookups.

(** ** The steps of [update_routing_given_new_path] on the view *)

Section Steps.
  Context (self : Z).

  (** Unfolding [view] at ids that are not the free-slot marker. *)
Lemma view_ids s n r :
    n <> -1 -> r <> -1 ->
    view s n r = if (recipient_index r s =? -1) || (neighbor_index n s =? -1) then None
                 else path_view (entry s (recipient_index r s) (neighbor_index n s)).
  Proof. intros Hn Hr. unfold view. by rewrite (proj2 (Z.eqb_neq n _) Hn), (proj2 (Z.eqb_neq r _) Hr). Qed.

Lemma view_marker_n s r : view s (-1) r = None.
  Proof. done. Qed.

Lemma view_marker_r s n : view s n (-1) = None.
  Proof. unfold view. by rewrite Z.eqb_refl, orb_true_r. Qed.

  (** Allocating a column for a new neighbor changes nothing the view
      shows: the column is invalidated. *)
Lemma view_add_column s nb nid n r :
    routing_shape self s -> nid <> -1 -> neighbor_index nid s = -1 ->
    0 <= nb < MAX_NEIGHBORS -> (neighbor_ids s).[nb] = -1 ->
    view (mkRS (recipient_ids s) (zset (neighbor_ids s) nb nid)
            (map (fun row => zset row nb (invalidate row.[nb])) (routing_table s))
            (forwarding_table s)) n r = view s n r.
  Proof.
    intros Hs Hnid Hnone Hnb Hfree.
    destruct (Z.eqb_spec n (-1)) as [->|Hn]; [done|].
    destruct (Z.eqb_spec r (-1)) as [->|Hr]; [by rewrite !view_marker_r|].
    rewrite !view_ids by done. unfold neighbor_index in *. unfold recipient_index.
    cbn [recipient_ids neighbor_ids routing_table forwarding_table].
    fold (recipient_index r s).
    pose proof (recipient_index_range self s Hs r) as Hrr. pose proof (rw_len_n _ _ Hs) as Hln.
    destruct (Z.eqb_spec (recipient_index r s) (-1)) as [|Hrf]; [done|]. simpl.
    destruct (decide (n = nid)) as [->|Hne].
    - rewrite find_index_zset_fresh by (done || lia). rewrite Hnone.
      rewrite (add_column_entry self) by (done || lia). rewrite decide_True by done.
      rewrite Z.eqb_refl. destruct (Z.eqb_spec nb (-1)); [lia|]. apply path_view_invalidate.
    - rewrite find_index_zset_other by (lia || congruence). fold (neighbor_index n s).
      destruct (Z.eqb_spec (neighbor_index n s) (-1)) as [|Hnf]; [done|].
      destruct (neighbor_index_hit self s Hs n Hnf) as [[[Hk Ha] E]|]; [|done].
      rewrite (add_column_entry self) by (done || lia). rewrite decide_False by congruence. done.
  Qed.

  (** Allocating a row for a new recipient: the row is invalidated. *)
Lemma view_add_row s rr rid n r :
    routing_shape self s -> rid <> -1 -> recipient_index rid s = -1 ->
    0 <= rr < MAX_RECIPIENTS -> (recipient_ids s).[rr] = -1 ->
    view (mkRS (zset (recipient_ids s) rr rid) (neighbor_ids s)
            (zset (routing_table s) rr (map invalidate (routing_table s).[rr]))
            (zset (forwarding_table s) rr (-1))) n r = view s n r.
  Proof.
    intros Hs Hrid Hnone Hrr Hfree.
    destruct (Z.eqb_spec n (-1)) as [->|Hn]; [done|].
    destruct (Z.eqb_spec r (-1)) as [->|Hr]; [by rewrite !view_marker_r|].
    rewrite !view_ids by done. unfold recipient_index in *. unfold neighbor_index.
    cbn [recipient_ids neighbor_ids routing_table forwarding_table].
    fold (neighbor_index n s).
    pose proof (neighbor_index_range self s Hs n) as Hnr. pose proof (rw_len_r _ _ Hs) as Hlr.
    destruct (Z.eqb_spec (neighbor_index n s) (-1)) as [|Hnf]; [by rewrite !orb_true_r|].
    rewrite !orb_false_r.
    assert (Hent : forall r', 0 <= r' < MAX_RECIPIENTS ->
              entry (mkRS (zset (recipient_ids s) rr rid) (neighbor_ids s)
                       (zset (routing_table s) rr (map invalidate (routing_table s).[rr]))
                       (zset (forwarding_table s) rr (-1))) r' (neighbor_index n s) =
              if decide (rr = r') then invalidate (entry s rr (neighbor_index n s))
              else entry s r' (neighbor_index n s)).
    { intros r' Hr'. unfold entry. simpl. rewrite zget_zset by (rewrite ?(rw_len_t _ _ Hs); lia).
      case_decide; [subst|done]. rewrite zget_map by (rewrite (rw_len_row _ _ Hs) by lia; lia). done. }
    destruct (decide (r = rid)) as [->|Hne].
    - rewrite find_index_zset_fresh by (done || lia). rewrite Hnone.
      rewrite Z.eqb_refl. destruct (Z.eqb_spec rr (-1)); [lia|].
      rewrite Hent, decide_True by (done || lia). apply path_view_invalidate.
    - rewrite find_index_zset_other by (lia || congruence). fold (recipient_index r s).
      destruct (Z.eqb_spec (recipient_index r s) (-1)) as [|Hrf]; [done|].
      destruct (recipient_index_hit self s Hs r Hrf) as [[Hk Ha]|]; [|done].
      pose proof (find_index_hit _ _ Hrf) as [_ E]. fold (recipient_index r s) in E.
      rewrite Hent by done. rewrite decide_False by congruence. done.
  Qed.
  (** The row ids after [update_row]: the row is freed when no valid
      path is left in it. *)
Lemma update_row_rids s2 rr nb path :
    routing_shape self s2 -> 0 <= rr < MAX_RECIPIENTS ->
    recipient_ids (update_row rr nb path s2).2 =
    if (forwarding_table (update_row rr nb path s2).2).[rr] =? -1
    then zset (recipient_ids s2) rr (-1) else recipient_ids s2.
  Proof.
    intros Hs Hr. unfold update_row. cbv zeta. cbn [snd recipient_ids forwarding_table].
    rewrite zget_zset_eq by (rewrite (rw_len_f _ _ Hs); lia). done.
  Qed.

Lemma update_row_recipient_index s2 rr nb path r :
    routing_shape self s2 -> alloc_r s2 rr -> r <> -1 ->
    recipient_index r (update_row rr nb path s2).2 =
    if (r =? (recipient_ids s2).[rr]) && ((forwarding_table (update_row rr nb path s2).2).[rr] =? -1)
    then -1 else recipient_index r s2.
  Proof.
    intros Hs [Hr Ha] Hr1. pose proof (rw_len_r _ _ Hs) as Hl.
    unfold recipient_index at 1. rewrite update_row_rids by done.
    destruct (Z.eqb_spec (forwarding_table (update_row rr nb path s2).2).[rr] (-1));
      rewrite ?andb_true_r, ?andb_false_r; [|done].
    destruct (Z.eqb_spec r (recipient_ids s2).[rr]) as [->|Hne].
    - apply find_index_zset_clear; [lia|done|]. intros i Hi Hne E.
      apply Hne. symmetry. apply (rw_r_unique _ _ Hs); [by split|lia|congruence].
    - apply find_index_zset_other; [lia|done|congruence].
  Qed.

  (** [update_row] on the allocated row [rr] and column [nb]: the view
      changes at (neighbor of [nb], recipient of [rr]) only, to what
      [path] means. *)
Lemma view_update_row s2 rr nb path n r :
    routing_shape self s2 -> alloc_r s2 rr -> alloc_n s2 nb ->
    (fwd_ok s2 rr \/ (forwarding_table s2).[rr] = -1) ->
    (valid path -> (Z.to_nat (hop_count path) <= length (nodes path))%nat) ->
    view (update_row rr nb path s2).2 n r =
    if (n =? (neighbor_ids s2).[nb]) && (r =? (recipient_ids s2).[rr]) then path_view path
    else view s2 n r.
  Proof.
    intros Hs Hrr Hnb Hold Hlen.
    destruct Hrr as [Hrr Har], Hnb as [Hnb Han].
    destruct (Z.eqb_spec n (-1)) as [->|Hn].
    { rewrite (proj2 (Z.eqb_neq (-1) _)) by congruence. done. }
    destruct (Z.eqb_spec r (-1)) as [->|Hr].
    { rewrite (proj2 (Z.eqb_neq (-1) _)) by congruence. rewrite andb_false_r. by rewrite !view_marker_r. }
    destruct (update_row_fields self s2 rr nb path Hs Hrr) as (Hn3 & _ & _).
    assert (En : neighbor_index n (update_row rr nb path s2).2 = neighbor_index n s2) by (unfold neighbor_index; by rewrite Hn3).
    rewrite !view_ids, En, update_row_recipient_index by (done || by split).
    rewrite (neighbor_index_is self s2 Hs n nb), !(recipient_index_is self s2 Hs r rr) by (done || by split).
    assert (Hka : neighbor_index n s2 <> -1 -> alloc_n s2 (neighbor_index n s2)).
    { intros Hk. by destruct (neighbor_index_hit self s2 Hs n Hk) as [[? _]|]. }
    pose proof (neighbor_index_range self s2 Hs n) as Hkr. pose proof (recipient_index_range self s2 Hs r) as Hqr.
    assert (Hent : forall q k, 0 <= q -> 0 <= k ->
              entry (update_row rr nb path s2).2 q k =
              if decide (rr = q) then if decide (nb = k) then copy_path (entry s2 rr nb) path
                                      else entry s2 rr k else entry s2 q k)
      by (intros; apply (update_row_entry self); (done || lia)).
    assert (Hcopy : path_view (copy_path (entry s2 rr nb) path) = path_view path) by (by apply path_view_copy).
    destruct (update_row_choice self s2 rr nb path Hs Hrr Hnb Hold) as [(Hc & _ & Hnone)|(_ & Hac & _)];
      cbv zeta in *; set (q := recipient_index r s2) in *; set (k := neighbor_index n s2) in *.
    - rewrite Hc, Z.eqb_refl, andb_true_r.
      destruct (Z.eqb_spec q rr) as [Eq|Hq].
      + rewrite Eq, Z.eqb_refl, andb_true_r. simpl.
        destruct (Z.eqb_spec rr (-1)); [lia|].
        destruct (Z.eqb_spec k nb) as [->|Hkn].
        * rewrite <- Hcopy. symmetry. apply path_view_invalid.
          specialize (Hnone nb (conj Hnb Han)). by rewrite Hent, !decide_True in Hnone by (done || lia).
        * destruct (Z.eqb_spec k (-1)) as [|Hk]; [done|]. simpl. symmetry. apply path_view_invalid.
          specialize (Hnone k (Hka Hk)). by rewrite Hent, decide_True, decide_False in Hnone by (congruence || lia).
      + rewrite andb_false_r.
        destruct (Z.eqb_spec q (-1)), (Z.eqb_spec k (-1)); simpl; try done.
        rewrite Hent, decide_False by (congruence || lia). done.
    - assert (Hc : (forwarding_table (update_row rr nb path s2).2).[rr] <> -1) by (destruct Hac; lia).
      rewrite (proj2 (Z.eqb_neq _ _) Hc), andb_false_r.
      destruct (Z.eqb_spec q (-1)) as [Hq1|Hq1].
      { rewrite Hq1, (proj2 (Z.eqb_neq (-1) rr)) by lia. by rewrite andb_false_r. }
      destruct (Z.eqb_spec k (-1)) as [Hk1|Hk1].
      { rewrite Hk1, (proj2 (Z.eqb_neq (-1) nb)) by lia. by rewrite andb_false_l, !orb_true_r. }
      simpl. rewrite Hent by lia.
      destruct (Z.eqb_spec k nb) as [<-|Hkn], (Z.eqb_spec q rr) as [<-|Hqn]; simpl;
        rewrite ?decide_True, ?decide_False by (done || congruence); done.
  Qed.
End Steps.

(** ** Refinement *)

Section Refinement.
  Context (self : Z).

  (** The view through the two allocations of
      [update_routing_given_new_path], with what [update_row] needs of
      the row and the column it is given. *)
Lemma update_routing_slots s nid rid nb s1 rr s2 :
    routing_wf self s -> nid <> -1 -> rid <> -1 -> rid <> self ->
    get_neighbor_index nid true s = Ok (nb, s1) -> get_recipient_index rid true s1 = Ok (rr, s2) ->
    routing_shape self s2 /\ alloc_r s2 rr /\ alloc_n s2 nb /\
    (recipient_ids s2).[rr] = rid /\ (neighbor_ids s2).[nb] = nid /\
    (fwd_ok s2 rr \/ (forwarding_table s2).[rr] = -1) /\
    forall n r, view s2 n r = view s n r.
  Proof.
    intros Hwf Hnid Hrid Hrs Eg Er.
    destruct (get_neighbor_index_wf self _ _ _ _ Hwf Eg) as (Hwf1 & Hnb & Enb & _).
    assert (Hv1 : forall n r, view s1 n r = view s n r).
    { destruct (get_neighbor_index_cases _ _ _ _ Eg) as [(-> & _)|(Hnone & Hr & Hfree & ->)]; [done|].
      intros n r. apply (view_add_column self); [apply Hwf|done|done| |done].
      by rewrite (rw_len_n _ _ (proj1 Hwf)) in Hr. }
    pose proof (rw_len_r _ _ (proj1 Hwf1)) as Hlr.
    destruct (get_recipient_index_cases _ _ _ _ Er) as [(-> & _ & Hr & Err)|(Hnone & Hr & Hfree & ->)];
      rewrite Hlr in Hr.
    - split; [apply Hwf1|]. split; [split; [done|congruence]|]. split; [split; [done|congruence]|].
      split; [done|]. split; [done|]. split; [|done]. left. apply (proj2 Hwf1). split; [done|congruence].
    - destruct (add_row_pre self s1 rid rr Hwf1 Hnone Hrs Hr Hfree) as (Hs2 & _ & Hfw2).
      assert (Err : (zset (recipient_ids s1) rr rid).[rr] = rid) by (apply zget_zset_eq; lia).
      split; [done|]. split; [split; [done|simpl; congruence]|].
      split; [split; [done|simpl; congruence]|]. split; [done|]. split; [done|]. split; [by right|].
      intros n r. rewrite (view_add_row self); [apply Hv1|apply (proj1 Hwf1)|done|done|lia|done].
  Qed.

  (** The update of the tables seen through [view] is [learn]. *)
Lemma update_routing_view s nid rid p b s' :
    routing_wf self s -> input_ok p -> nid <> -1 -> rid <> -1 ->
    update_routing_given_new_path self nid rid p s = Ok (b, s') ->
    forall n r, view s' n r = learn self nid rid p (view s) n r.
  Proof.
    intros Hwf Hin Hnid Hrid. unfold update_routing_given_new_path, learn.
    destruct (Z.eqb_spec rid self) as [|Hrs]; [by intros [= _ <-]|].
    destruct (Z.eqb_spec nid self) as [|Hns]; [by intros [= _ <-]|]. simpl.
    destruct (get_neighbor_index nid true s) as [[nb s1]| |] eqn:Eg; [|done|done].
    destruct (get_recipient_index rid true s1) as [[rr s2]| |] eqn:Er; [|done|done].
    intros E n r. assert (Es' : (update_row rr nb (sanitize_path self p) s2).2 = s')
      by (by rewrite (Ok_inj _ _ E)).
    rewrite <- Es'.
    destruct (update_routing_slots s nid rid nb s1 rr s2 Hwf Hnid Hrid Hrs Eg Er)
      as (Hs2 & Hrr & Hnb & Err & Enb & Hold & Hv).
    rewrite (view_update_row self) by (done || intros Hv'; by apply (sanitize_path_ok self p Hin Hv')).
    by rewrite Err, Enb, path_view_sanitize, Hv.
  Qed.

  (** On tables that satisfy [routing_wf], every recipient's entry of
      [forwarding_table] is a best route of the view. *)
Lemma chosen_best s rid : routing_wf self s -> rid <> -1 -> routes_best s rid.
  Proof.
    intros [Hs Hf] Hrid. unfold routes_best, chosen.
    destruct (Z.eqb_spec (recipient_index rid s) (-1)) as [Hq|Hq].
    { intros n. destruct (Z.eqb_spec n (-1)) as [->|Hn]; [done|]. by rewrite view_ids, Hq. }
    destruct (recipient_index_hit self s Hs rid Hq) as [Ha|]; [|done].
    destruct (Hf _ Ha) as ([Hc Hca] & Hv & Hmin).
    rewrite path_view_valid by done. split.
    - rewrite view_ids, (neighbor_index_alloc self s Hs) by (done || by split).
      rewrite (proj2 (Z.eqb_neq _ _) Hq), (proj2 (Z.eqb_neq _ (-1))) by lia.
      by rewrite path_view_valid.
    - intros n' v' Hv'. destruct (Z.eqb_spec n' (-1)) as [->|Hn']; [done|].
      rewrite view_ids, (proj2 (Z.eqb_neq _ _) Hq) in Hv' by done.
      destruct (Z.eqb_spec (neighbor_index n' s) (-1)) as [|Hk]; [done|].
      destruct (neighbor_index_hit self s Hs n' Hk) as [[Hka _]|]; [|done].
      destruct (path_view_Some _ _ Hv') as [Hvk ->]. simpl. by apply Hmin.
  Qed.

  (** Neighbor [nid]'s announcement changes nothing another neighbor
      offers. *)
Lemma learn_other nid rid p T n r : n <> nid -> learn self nid rid p T n r = T n r.
  Proof.
    intros Hn. unfold learn. destruct ((rid =? self) || (nid =? self)); [done|].
    by rewrite (proj2 (Z.eqb_neq n nid) Hn).
  Qed.

Lemma update_and_announce_update {R} `{ConnTable R} conns nid rid p s o s' :
    update_routing_and_announce self conns nid rid p s = Ok (o, s') ->
    exists b, update_routing_given_new_path self nid rid p s = Ok (b, s').
  Proof.
    unfold update_routing_and_announce.
    destruct (update_routing_given_new_path self nid rid p s) as [[b s1]| |]; [|done|done].
    intros E. exists b. destruct b; [|by injection E as _ ->].
    destruct (announce_new_path self conns rid s1); [by injection E as _ ->|done|done].
  Qed.

  (** Freeing the column [nb] of neighbor [nid]: [nid] offers nothing,
      the other neighbors are seen as before. *)
Lemma view_free_column s nb nid n r :
    routing_shape self s -> alloc_n s nb -> (neighbor_ids s).[nb] = nid ->
    view (mkRS (recipient_ids s) (zset (neighbor_ids s) nb (-1)) (routing_table s) (forwarding_table s)) n r =
    forget nid (view s) n r.
  Proof.
    intros Hs [Hnb Ha] Enb. unfold forget.
    destruct (Z.eqb_spec n (-1)) as [->|Hn]; [by case_match|].
    destruct (Z.eqb_spec r (-1)) as [->|Hr]; [by rewrite !view_marker_r; case_match|].
    pose proof (rw_len_n _ _ Hs) as Hl.
    rewrite !view_ids by done. unfold recipient_index, neighbor_index, entry.
    cbn [recipient_ids neighbor_ids routing_table forwarding_table]. fold (recipient_index r s).
    destruct (Z.eqb_spec n nid) as [->|Hne].
    - rewrite find_index_zset_clear; [by rewrite orb_true_r|lia|done|].
      intros i Hi Hne E. apply Hne. symmetry. apply (rw_n_unique _ _ Hs); [by split|lia|congruence].
    - rewrite find_index_zset_other by (lia || congruence). done.
  Qed.

  Context {R : Type} `{ConnTable R}.

  (** The loop of [remove_routing_neighbor] keeps what the other
      neighbors offer. *)
Lemma remove_step_view conns s0 nid nb k acc acc' :
    nid <> self -> nid <> -1 -> alloc_n s0 nb -> (neighbor_ids s0).[nb] = nid -> 0 <= k < MAX_RECIPIENTS ->
    remove_inv self s0 nb k acc /\ (forall n r, n <> nid -> view acc.2 n r = view s0 n r) ->
    remove_step self conns nid acc k = Ok acc' ->
    remove_inv self s0 nb (k + 1) acc' /\ (forall n r, n <> nid -> view acc'.2 n r = view s0 n r).
  Proof.
    intros Hns Hnid Hnb Enb Hk [Hinv Hv] Hstep.
    split; [by apply (remove_step_inv self conns s0 nid nb k acc acc')|].
    destruct acc as [out s1]. unfold remove_step in Hstep.
    destruct (Z.eqb_spec (recipient_ids s1).[k] (-1)) as [|Hrid]; [by injection Hstep as <-|].
    destruct (update_routing_and_announce self conns nid (recipient_ids s1).[k] None s1) as [[o s2]| |] eqn:Eu;
      [|done|done].
    injection Hstep as <-. destruct (update_and_announce_update conns _ _ _ _ _ _ Eu) as [b Eb].
    intros n r Hn. simpl. rewrite (update_routing_view s1 nid _ None b s2 (proj1 Hinv) I Hnid Hrid Eb).
    rewrite learn_other by done. by apply Hv.
  Qed.

  (** [remove_routing_neighbor] keeps the invariant and, seen through
      [view], is [forget]. *)
Lemma remove_routing_neighbor_view conns nid s out s' :
    routing_wf self s -> nid <> self -> nid <> -1 ->
    remove_routing_neighbor self conns nid s = Ok (out, s') ->
    routing_wf self s' /\ forall n r, view s' n r = forget nid (view s) n r.
  Proof.
    intros Hwf Hns Hnid. pose proof (rw_len_n _ _ (proj1 Hwf)) as Hl. unfold remove_routing_neighbor.
    destruct (Z.eqb_spec (neighbor_index nid s) (-1)) as [Hnone|Hfound].
    { intros [= <- <-]. split; [done|]. intros n r. unfold forget.
      destruct (Z.eqb_spec n nid) as [->|]; [|done].
      destruct (Z.eqb_spec r (-1)) as [->|Hr]; [by rewrite view_marker_r|].
      by rewrite view_ids, Hnone, orb_true_r. }
    destruct (neighbor_index_hit self s (proj1 Hwf) nid Hfound) as [[Hnb Enb]|]; [|done].
    set (nb := neighbor_index nid s) in *.
    destruct (foldM (remove_step self conns nid) (zrange MAX_RECIPIENTS) ([], s)) as [[out1 s1]| |] eqn:Ef;
      [|done|done].
    intros [= <- <-].
    destruct (foldM_zrange_inv (fun k acc => remove_inv self s nb k acc /\
                                   forall n r, n <> nid -> view acc.2 n r = view s n r)
                (remove_step self conns nid) MAX_RECIPIENTS ([], s) (out1, s1) ltac:(clia)
                ltac:(split; [split; [done|split; [done|intros; lia]]|done])
                (fun k acc acc' Hk => remove_step_view conns s nid nb k acc acc' Hns Hnid Hnb Enb Hk) Ef)
      as [(Hwf1 & Hn1 & Hrows) Hv1].
    simpl in Hwf1, Hn1, Hrows, Hv1.
    assert (Hnb1 : alloc_n s1 nb) by (unfold alloc_n; by rewrite Hn1).
    split.
    - apply free_column_wf; [done|apply Hnb1|]. intros r Hr. apply Hrows; [destruct Hr; lia|done].
    - intros n r. rewrite (view_free_column s1 nb nid); [|apply Hwf1|done|by rewrite Hn1].
      unfold forget. destruct (Z.eqb_spec n nid); [done|]. by apply Hv1.
  Qed.
End Refinement.

(** ** The refinement theorems *)

(** C7: [update_routing_given_new_path] refines the abstract table.  On
    tables that satisfy [routing_wf], an update from neighbor [nid] about
    recipient [rid] (ids, not the free-slot marker) that does not exit on
    full tables changes the table [view] shows exactly as [learn] does:
    the entry ([nid], [rid]) becomes the path if it is valid and avoids
    this node, and [None] otherwise; every other entry is unchanged.
    Afterwards the forwarding entry of every recipient is a best route of
    the new view (spec properties "loop freedom" and "forwarding
    agreement", stated on the abstract table). *)
Theorem update_routing_refines (self : Z) (s : RoutingState) (nid rid : Z) (p : option Path)
    (b : bool) (s' : RoutingState) :
  routing_wf self s -> input_ok p -> nid <> -1 -> rid <> -1 ->
  update_routing_given_new_path self nid rid p s = Ok (b, s') ->
  (forall n r, view s' n r = learn self nid rid p (view s) n r) /\
  (forall r, r <> -1 -> routes_best s' r).
Proof.
  intros Hwf Hin Hn Hr E. split; [by apply (update_routing_view self s nid rid p b s')|].
  intros r' Hr'. apply (chosen_best self); [|done]. by apply (update_routing_given_new_path_wf self s nid rid p b).
Qed.

(** Node 10, which reaches 30 through 20, hears from 40 a two-hop path
    to 30. *)
Lemma update_routing_refines_witness :
  routing_wf 10 run_learn_30 /\ input_ok (Some (mkPath 2 [40; 50; 30])) /\ 40 <> -1 /\ 30 <> -1 /\
  (forall n r,
     view (ok_or (false, routing_zero)
             (update_routing_given_new_path 10 40 30 (Some (mkPath 2 [40; 50; 30])) run_learn_30)).2 n r =
     learn 10 40 30 (Some (mkPath 2 [40; 50; 30])) (view run_learn_30) n r) /\
  (forall r, r <> -1 ->
     routes_best (ok_or (false, routing_zero)
             (update_routing_given_new_path 10 40 30 (Some (mkPath 2 [40; 50; 30])) run_learn_30)).2 r).
Proof.
  assert (H0 : routing_wf 10 run_learn_30) by (apply routing_wfb_sound; vm_compute; reflexivity).
  assert (Hin : input_ok (Some (mkPath 2 [40; 50; 30]))) by (right; simpl; lia).
  split; [done|]. split; [done|]. split; [lia|]. split; [lia|].
  apply (update_routing_refines 10 run_learn_30 40 30 (Some (mkPath 2 [40; 50; 30]))
           (ok_or (false, routing_zero)
              (update_routing_given_new_path 10 40 30 (Some (mkPath 2 [40; 50; 30])) run_learn_30)).1);
    [exact H0|exact Hin|lia|lia|vm_compute; reflexivity].
Defined.

(** C8: [remove_routing_neighbor] refines [forget].  On tables that
    satisfy [routing_wf], removing neighbor [nid] (not this node, not the
    marker) leaves the table [view] shows with nothing offered by [nid]
    and everything else unchanged, and every recipient's forwarding entry
    is a best route of what is left. *)
Theorem remove_routing_neighbor_refines {R : Type} `{ConnTable R} (self : Z) (conns : R) (nid : Z)
    (s : RoutingState) out s' :
  routing_wf self s -> nid <> self -> nid <> -1 ->
  remove_routing_neighbor self conns nid s = Ok (out, s') ->
  (forall n r, view s' n r = forget nid (view s) n r) /\ (forall r, r <> -1 -> routes_best s' r).
Proof.
  intros Hwf Hns Hn E. destruct (remove_routing_neighbor_view self conns nid s out s' Hwf Hns Hn E) as [Hwf' Hv].
  split; [done|]. intros r Hr. by apply (chosen_best self).
Qed.

(** Node 10 loses its neighbor 20, through which it reached 30. *)
Lemma remove_routing_neighbor_refines_witness :
  routing_wf 10 run_learn_30 /\ 20 <> 10 /\ 20 <> -1 /\
  (forall n r,
     view (ok_or ([], routing_zero) (remove_routing_neighbor 10 registry_node20 20 run_learn_30)).2 n r =
     forget 20 (view run_learn_30) n r) /\
  (forall r, r <> -1 ->
     routes_best (ok_or ([], routing_zero) (remove_routing_neighbor 10 registry_node20 20 run_learn_30)).2 r).
Proof.
  assert (H0 : routing_wf 10 run_learn_30) by (apply routing_wfb_sound; vm_compute; reflexivity).
  split; [done|]. split; [lia|]. split; [lia|].
  apply (remove_routing_neighbor_refines 10 registry_node20 20 run_learn_30
           (ok_or ([], routing_zero) (remove_routing_neighbor 10 registry_node20 20 run_learn_30)).1);
    [exact H0|lia|lia|vm_compute; reflexivity].
Defined.
