(* ===== verification/State.v ===== *)
(** * State: the global variables of the program and the monad of its handlers

    The C program keeps its state in globals spread over [src/ring.c]
    ([connection_state], [self], [succ], [second_succ], [awaiting_succ],
    [awaiting_pred], [ring_id_str]), [src/connections.c] (the registry),
    [src/routing.c] (the tables), [src/main.c] ([input_state],
    [select_inputs], [public_socket], [should_exit], the stdin buffer, the
    timer) and [src/node-server.c] ([ns_socket], [node_arr],
    [node_list_action]).  [Globals] gathers them in one record, and the
    handlers are functions in the monad [M]: they read and write the
    record and end in [Ok], in a fatal [error()] ([Exit]) or in undefined
    behaviour ([Undefined]).

    What the process does to the outside world is appended to [trace]:
    lines written to TCP sockets, datagrams to the node server, descriptors
    closed, chat messages printed for the user.  The rest of the
    environment is an instance of [Net]: whether [socket(2)],
    [getaddrinfo(3)] and [connect(2)] succeed for a given node.  Descriptors
    follow POSIX: [socket(2)] and [accept(2)] return the lowest descriptor
    not open ([lowest_fd]). *)

From S2P Require Import Prelude Path Connections Routing.

Inductive ConnectionState :=
| DISCONNECTED | AWAITING_NODE_LIST | AWAITING_USER_SELECTION | CONNECTING | CONNECTED.

#[export] Instance ConnectionState_eq_dec : EqDecision ConnectionState.
Proof. solve_decision. Defined.

Inductive InputState := COMMAND | JOIN_NODE_SELECTION | CHORD_NODE_SELECTION.

#[export] Instance InputState_eq_dec : EqDecision InputState.
Proof. solve_decision. Defined.

Inductive NodeListAction := UNEXPECTED_NODE_LIST | JOIN_ACTION | CHORD_ACTION.

#[export] Instance NodeListAction_eq_dec : EqDecision NodeListAction.
Proof. solve_decision. Defined.

(** [struct Node] of [src/main.h]. *)
Module Node.
Record t := mk { id : Z; ip_addr : list Z; tcp_port : list Z }.
End Node.

#[export] Instance Node_inhabited : Inhabited Node.t := populate (Node.mk 0 [] []).

(** The handlers [set_timeout] is called with ([pred_timeout] only). *)
Inductive TimeoutHandler := PRED_TIMEOUT.

Record timespec := mkTime { tv_sec : Z; tv_nsec : Z }.

(** What a node does that others see: a line written to a peer socket,
    a datagram to the node server, a closed socket, a chat message shown
    to the user ([Node %d said: ...]), and text printed on stdout by the
    reports of [Show.v]. *)
Inductive event :=
| Sent (sock : Z) (line : list Z)
| NsSent (msg : list Z)
| Closed (sock : Z)
| Delivered (sender : Z) (text : list Z)
| Printed (text : list Z).

#[export] Instance event_eq_dec : EqDecision event.
Proof. solve_decision. Defined.

Record Globals := mkG {
  connection_state : ConnectionState;
  self : Node.t;
  succ : Node.t;
  second_succ : Node.t;
  awaiting_succ : bool;
  awaiting_pred : bool;
  ring_id_str : list Z;
  reg : Registry;
  rt : RoutingState;
  input_state : InputState;
  node_arr : list Node.t;
  node_list_action : NodeListAction;
  timeout_instant : timespec;
  timeout_handler : option TimeoutHandler;
  should_exit : bool;
  stdin_buffer : list Z;
  stdin_buffer_index : Z;
  public_socket : Z;
  ns_socket : Z;
  clock : timespec;
  trace : list event
}.

(** The globals as the zero-initialised C program starts ([public_socket]
    is initialised to [-1] in [src/main.c]). *)
Definition globals_zero : Globals :=
  mkG DISCONNECTED inhabitant inhabitant inhabitant false false [] registry_zero routing_zero
      COMMAND [] UNEXPECTED_NODE_LIST (mkTime 0 0) None false
      (replicate (Z.to_nat USER_COMMAND_BUF_SIZE) 0) 0 (-1) 0 (mkTime 0 0) [].

(** ** Field updates *)

Definition set_connection_state (x : ConnectionState) (g : Globals) : Globals :=
  mkG x (self g) (succ g) (second_succ g) (awaiting_succ g) (awaiting_pred g) (ring_id_str g)
      (reg g) (rt g) (input_state g) (node_arr g) (node_list_action g) (timeout_instant g)
      (timeout_handler g) (should_exit g) (stdin_buffer g) (stdin_buffer_index g)
      (public_socket g) (ns_socket g) (clock g) (trace g).
Definition set_self (x : Node.t) (g : Globals) : Globals :=
  mkG (connection_state g) x (succ g) (second_succ g) (awaiting_succ g) (awaiting_pred g) (ring_id_str g)
      (reg g) (rt g) (input_state g) (node_arr g) (node_list_action g) (timeout_instant g)
      (timeout_handler g) (should_exit g) (stdin_buffer g) (stdin_buffer_index g)
      (public_socket g) (ns_socket g) (clock g) (trace g).
Definition set_succ (x : Node.t) (g : Globals) : Globals :=
  mkG (connection_state g) (self g) x (second_succ g) (awaiting_succ g) (awaiting_pred g) (ring_id_str g)
      (reg g) (rt g) (input_state g) (node_arr g) (node_list_action g) (timeout_instant g)
      (timeout_handler g) (should_exit g) (stdin_buffer g) (stdin_buffer_index g)
      (public_socket g) (ns_socket g) (clock g) (trace g).
Definition set_second_succ (x : Node.t) (g : Globals) : Globals :=
  mkG (connection_state g) (self g) (succ g) x (awaiting_succ g) (awaiting_pred g) (ring_id_str g)
      (reg g) (rt g) (input_state g) (node_arr g) (node_list_action g) (timeout_instant g)
      (timeout_handler g) (should_exit g) (stdin_buffer g) (stdin_buffer_index g)
      (public_socket g) (ns_socket g) (clock g) (trace g).
Definition set_awaiting_succ (x : bool) (g : Globals) : Globals :=
  mkG (connection_state g) (self g) (succ g) (second_succ g) x (awaiting_pred g) (ring_id_str g)
      (reg g) (rt g) (input_state g) (node_arr g) (node_list_action g) (timeout_instant g)
      (timeout_handler g) (should_exit g) (stdin_buffer g) (stdin_buffer_index g)
      (public_socket g) (ns_socket g) (clock g) (trace g).
Definition set_awaiting_pred (x : bool) (g : Globals) : Globals :=
  mkG (connection_state g) (self g) (succ g) (second_succ g) (awaiting_succ g) x (ring_id_str g)
      (reg g) (rt g) (input_state g) (node_arr g) (node_list_action g) (timeout_instant g)
      (timeout_handler g) (should_exit g) (stdin_buffer g) (stdin_buffer_index g)
      (public_socket g) (ns_socket g) (clock g) (trace g).
Definition set_ring_id_str (x : list Z) (g : Globals) : Globals :=
  mkG (connection_state g) (self g) (succ g) (second_succ g) (awaiting_succ g) (awaiting_pred g) x
      (reg g) (rt g) (input_state g) (node_arr g) (node_list_action g) (timeout_instant g)
      (timeout_handler g) (should_exit g) (stdin_buffer g) (stdin_buffer_index g)
      (public_socket g) (ns_socket g) (clock g) (trace g).
Definition set_reg (x : Registry) (g : Globals) : Globals :=
  mkG (connection_state g) (self g) (succ g) (second_succ g) (awaiting_succ g) (awaiting_pred g)
      (ring_id_str g) x (rt g) (input_state g) (node_arr g) (node_list_action g) (timeout_instant g)
      (timeout_handler g) (should_exit g) (stdin_buffer g) (stdin_buffer_index g)
      (public_socket g) (ns_socket g) (clock g) (trace g).
Definition set_rt (x : RoutingState) (g : Globals) : Globals :=
  mkG (connection_state g) (self g) (succ g) (second_succ g) (awaiting_succ g) (awaiting_pred g)
      (ring_id_str g) (reg g) x (input_state g) (node_arr g) (node_list_action g) (timeout_instant g)
      (timeout_handler g) (should_exit g) (stdin_buffer g) (stdin_buffer_index g)
      (public_socket g) (ns_socket g) (clock g) (trace g).
Definition set_input_state (x : InputState) (g : Globals) : Globals :=
  mkG (connection_state g) (self g) (succ g) (second_succ g) (awaiting_succ g) (awaiting_pred g)
      (ring_id_str g) (reg g) (rt g) x (node_arr g) (node_list_action g) (timeout_instant g)
      (timeout_handler g) (should_exit g) (stdin_buffer g) (stdin_buffer_index g)
      (public_socket g) (ns_socket g) (clock g) (trace g).
Definition set_node_arr (x : list Node.t) (g : Globals) : Globals :=
  mkG (connection_state g) (self g) (succ g) (second_succ g) (awaiting_succ g) (awaiting_pred g)
      (ring_id_str g) (reg g) (rt g) (input_state g) x (node_list_action g) (timeout_instant g)
      (timeout_handler g) (should_exit g) (stdin_buffer g) (stdin_buffer_index g)
      (public_socket g) (ns_socket g) (clock g) (trace g).
Definition set_node_list_action (x : NodeListAction) (g : Globals) : Globals :=
  mkG (connection_state g) (self g) (succ g) (second_succ g) (awaiting_succ g) (awaiting_pred g)
      (ring_id_str g) (reg g) (rt g) (input_state g) (node_arr g) x (timeout_instant g)
      (timeout_handler g) (should_exit g) (stdin_buffer g) (stdin_buffer_index g)
      (public_socket g) (ns_socket g) (clock g) (trace g).
Definition set_timer (t : timespec) (h : option TimeoutHandler) (g : Globals) : Globals :=
  mkG (connection_state g) (self g) (succ g) (second_succ g) (awaiting_succ g) (awaiting_pred g)
      (ring_id_str g) (reg g) (rt g) (input_state g) (node_arr g) (node_list_action g) t h
      (should_exit g) (stdin_buffer g) (stdin_buffer_index g)
      (public_socket g) (ns_socket g) (clock g) (trace g).
Definition set_should_exit (x : bool) (g : Globals) : Globals :=
  mkG (connection_state g) (self g) (succ g) (second_succ g) (awaiting_succ g) (awaiting_pred g)
      (ring_id_str g) (reg g) (rt g) (input_state g) (node_arr g) (node_list_action g)
      (timeout_instant g) (timeout_handler g) x (stdin_buffer g) (stdin_buffer_index g)
      (public_socket g) (ns_socket g) (clock g) (trace g).
Definition set_stdin (b : list Z) (i : Z) (g : Globals) : Globals :=
  mkG (connection_state g) (self g) (succ g) (second_succ g) (awaiting_succ g) (awaiting_pred g)
      (ring_id_str g) (reg g) (rt g) (input_state g) (node_arr g) (node_list_action g)
      (timeout_instant g) (timeout_handler g) (should_exit g) b i
      (public_socket g) (ns_socket g) (clock g) (trace g).
Definition set_sockets (pub ns : Z) (g : Globals) : Globals :=
  mkG (connection_state g) (self g) (succ g) (second_succ g) (awaiting_succ g) (awaiting_pred g)
      (ring_id_str g) (reg g) (rt g) (input_state g) (node_arr g) (node_list_action g)
      (timeout_instant g) (timeout_handler g) (should_exit g) (stdin_buffer g) (stdin_buffer_index g)
      pub ns (clock g) (trace g).
Definition set_clock (x : timespec) (g : Globals) : Globals :=
  mkG (connection_state g) (self g) (succ g) (second_succ g) (awaiting_succ g) (awaiting_pred g)
      (ring_id_str g) (reg g) (rt g) (input_state g) (node_arr g) (node_list_action g)
      (timeout_instant g) (timeout_handler g) (should_exit g) (stdin_buffer g) (stdin_buffer_index g)
      (public_socket g) (ns_socket g) x (trace g).
Definition emit (e : event) (g : Globals) : Globals :=
  mkG (connection_state g) (self g) (succ g) (second_succ g) (awaiting_succ g) (awaiting_pred g)
      (ring_id_str g) (reg g) (rt g) (input_state g) (node_arr g) (node_list_action g)
      (timeout_instant g) (timeout_handler g) (should_exit g) (stdin_buffer g) (stdin_buffer_index g)
      (public_socket g) (ns_socket g) (clock g) (trace g ++ [e]).

(** ** The handler monad *)

Definition M (A : Type) : Type := Globals -> outcome (A * Globals).

Definition ret {A} (a : A) : M A := fun g => Ok (a, g).
Definition bind {A B} (m : M A) (k : A -> M B) : M B :=
  fun g => let! (a, g') := m g in k a g'.
Definition get : M Globals := fun g => Ok (g, g).
Definition modify (f : Globals -> Globals) : M unit := fun g => Ok (tt, f g).
Definition lift {A} (o : outcome A) : M A := fun g => let! a := o in Ok (a, g).
Definition gets {A} (f : Globals -> A) : M A := fun g => Ok (f g, g).

Notation "'let*' x ':=' m 'in' k" := (bind m (fun x => k))
  (at level 10, x name, m at level 100, k at level 200) : rci_scope.
Notation "m ;; k" := (bind m (fun _ => k)) (at level 100, right associativity) : rci_scope.

(** [for (i = 0; i < n; i++) body(i);] *)
Fixpoint for_each (l : list Z) (body : Z -> M unit) : M unit :=
  match l with
  | [] => ret tt
  | i :: l' => body i ;; for_each l' body
  end.

(** Running an operation of [Routing.v] (given this node's id) on the
    tables: its [conn_printf] writes go to the trace in order. *)
Definition sends (out : list (Z * list Z)) : list event := map (fun '(s, l) => Sent s l) out.

Definition emit_all (es : list event) (g : Globals) : Globals := fold_left (fun g e => emit e g) es g.

Definition routing_op (f : Z -> Registry -> RoutingState -> outcome (list (Z * list Z) * RoutingState)) : M unit :=
  fun g => let! (out, rt') := f (Node.id (self g)) (reg g) (rt g) in Ok (tt, emit_all (sends out) (set_rt rt' g)).

(** [conn_printf(socket, ...)]: the formatted line, cut by [vsnprintf], is
    written to the socket (a write never fails in this model). *)
Definition conn_printf (sock : Z) (line : list Z) : M unit :=
  modify (emit (Sent sock (conn_printf_bytes line))).

(** ** The environment *)

(** The outcome of [socket(2)], [getaddrinfo(3)] and [connect(2)] when
    this node connects to a peer. *)
Inductive ConnectResult := NET_NO_SOCKET | NET_BAD_ADDRESS | NET_REFUSED | NET_CONNECTED.

(** The environment of a run: how [socket(2)], [getaddrinfo(3)] and
    [connect(2)] answer for a node, and the node server's answer to
    [NODES <ring>] within the one-second wait of [request_node_list]
    ([None]: no answer, [select] timed out).  At start-up,
    [net_resolve host service] is whether [getaddrinfo(3)] finds an
    address ([None] is the NULL host of the listening socket), and
    [net_bind port] whether [bind(2)] and [listen(2)] on the port
    succeed. *)
Class Net := {
  net_connect : Node.t -> ConnectResult;
  net_nodes_reply : list Z -> option (list Z);
  net_resolve : option (list Z) -> list Z -> bool;
  net_bind : list Z -> bool
}.

(** The lowest descriptor not in [open]: what [socket(2)] and [accept(2)]
    return.  [open] has [size open] elements, so one of the first
    [size open + 1] candidates is free. *)
Fixpoint lowest_from (fuel : nat) (open : gset Z) (n : Z) : Z :=
  match fuel with
  | O => n
  | S f => if bool_decide (n ∈ open) then lowest_from f open (n + 1) else n
  end.

Definition lowest_fd (open : gset Z) : Z := lowest_from (S (size open)) open 0.

(** The descriptors open in the process: the standard streams, the
    node server's UDP socket, the listening socket, and those [select]
    watches (every peer socket). *)
Definition open_fds (g : Globals) : gset Z :=
  select_inputs (reg g) ∪ {[0; 1; 2; ns_socket g; public_socket g]}.

Lemma lowest_from_spec fuel open n :
  let r := lowest_from fuel open n in
  n <= r <= n + Z.of_nat fuel /\ (forall k, n <= k < r -> k ∈ open) /\
  (r ∉ open \/ r = n + Z.of_nat fuel).
Proof.
  revert n. induction fuel as [|f IH]; intros n; simpl.
  - split; [lia|]. split; [intros; lia|]. right; lia.
  - case_bool_decide as Hn.
    + destruct (IH (n + 1)) as (Hb & Hall & Hr). split; [lia|]. split; [|destruct Hr; [by left|right; lia]].
      intros k Hk. destruct (decide (k = n)) as [->|]; [done|]. apply Hall. lia.
    + split; [lia|]. split; [intros; lia|]. by left.
Qed.

Lemma lowest_fd_spec open : 0 <= lowest_fd open /\ lowest_fd open ∉ open.
Proof.
  unfold lowest_fd. destruct (lowest_from_spec (S (size open)) open 0) as (Hb & Hall & [Hr|Hr]).
  { split; [lia|done]. }
  split; [lia|]. exfalso.
  assert (Hsub : list_to_set (C := gset Z) (zrange (Z.of_nat (S (size open)))) ⊆ open).
  { intros k Hk. apply elem_of_list_to_set, list_elem_of_In, In_zrange in Hk. apply Hall. lia. }
  apply subseteq_size in Hsub. rewrite size_list_to_set in Hsub.
  - unfold zrange in Hsub. rewrite length_map, length_seq in Hsub. lia.
  - unfold zrange. apply NoDup_fmap_2; [intros ?? ?; lia|]. apply NoDup_seq.
Qed.

(** ** Services of [src/main.c] and [src/node-server.c] the handlers call *)

(** [set_timeout(ms, handler)]: the deadline is the current time plus
    [ms / 1000] seconds and [ms * 10^6] nanoseconds, normalised once. *)
Definition set_timeout (ms : Z) (h : TimeoutHandler) : M unit :=
  modify (fun g =>
    let now := clock g in
    let sec := tv_sec now + ms / 1000 in
    let nsec := tv_nsec now + ms * 1000000 in
    let t := if 1000000000 <? nsec then mkTime (sec + 1) (nsec - 1000000000) else mkTime sec nsec in
    set_timer t (Some h) g).

(** [cancel_timeout()] *)
Definition cancel_timeout : M unit :=
  modify (fun g => set_timer (timeout_instant g) None g).

(** [send_ns_message(message, length)]: [length] bytes of the buffer go
    to the node server ([sendto] failing is fatal). *)
Definition send_ns_message (msg : list Z) (length : Z) : M unit :=
  modify (emit (NsSent (take (Z.to_nat length) msg))).

(** [printf("%2d", id)]: the decimal value, right-justified in two
    columns. *)
Definition fmt_2d (v : Z) : list Z :=
  let d := if v <? 0 then DASH :: dec_digits 3 (- v) else dec_digits 3 v in
  if (length d <? 2)%nat then SPACE :: d else d.

(** [sprintf] into a buffer of [size] bytes: the string and its NUL must
    fit. *)
Definition sprintf_into (size : Z) (s : list Z) (what : string) : M (list Z) :=
  if zlen s + 1 <=? size then ret s else lift (Undefined what).

(** [strcpy(dest, src)] into a buffer of [size] bytes: the string and its
    [NUL] must fit, else the copy writes past the buffer. *)
Definition strcpy_into (size : Z) (s : list Z) (what : string) : M unit :=
  if zlen s + 1 <=? size then ret tt else lift (Undefined what).

(** [copy_node(dest, src)]: the id, and [strcpy] of the address and the
    port into [dest]'s arrays; [dest] is the global node that [set]
    writes. *)
Definition copy_node (set : Node.t -> Globals -> Globals) (src : Node.t) : M unit :=
  strcpy_into IPV4_ADDR_STR_SIZE (Node.ip_addr src) "strcpy past dest->ip_addr" ;;
  strcpy_into TCP_PORT_STR_SIZE (Node.tcp_port src) "strcpy past dest->tcp_port" ;;
  modify (set src).

(** ** Running a bind *)

(** A step that returns runs its continuation from the state it left. *)
Lemma bind_run {A B} (m : M A) (k : A -> M B) g a g' :
  m g = Ok (a, g') -> bind m k g = k a g'.
Proof. intros E. unfold bind. by rewrite E. Qed.

(** ** Invariants of handlers

    [keeps I m R]: run from a state satisfying [I], the computation [m]
    either stops ([Exit], [Undefined]) or returns a value satisfying [R]
    in a state satisfying [I].  [R] is a property of the value alone, such
    as "a slot index in range", which the rest of the handler uses. *)
Definition keeps {A} (I : Globals -> Prop) (m : M A) (R : A -> Prop) : Prop :=
  forall g, I g -> match m g with Ok (a, g') => I g' /\ R a | _ => True end.

Definition preserves {A} (I : Globals -> Prop) (m : M A) : Prop := keeps I m (fun _ => True).

(** [P] holds in the state an outcome ends in, when it ends normally. *)
Definition holds_after {A} (P : Globals -> Prop) (o : outcome (A * Globals)) : Prop :=
  match o with Ok (_, g') => P g' | _ => True end.

Create HintDb keeps discriminated.

Section Keeps.
Context (I : Globals -> Prop).

Lemma keeps_holds_after {A} (m : M A) R g : keeps I m R -> I g -> holds_after I (m g).
Proof. intros Hm Hg. specialize (Hm g Hg). unfold holds_after. destruct (m g) as [[a g']| |]; intuition. Qed.

Lemma keeps_ret {A} (a : A) (R : A -> Prop) : R a -> keeps I (ret a) R.
Proof. intros HR g Hg. simpl. auto. Qed.

Lemma keeps_bind {A B} (m : M A) (k : A -> M B) (R1 : A -> Prop) (R : B -> Prop) :
  keeps I m R1 -> (forall a, R1 a -> keeps I (k a) R) -> keeps I (bind m k) R.
Proof.
  intros Hm Hk g Hg. unfold bind. specialize (Hm g Hg).
  destruct (m g) as [[a g']| |]; [|done|done]. destruct Hm as [Hg' Ha]. by apply Hk.
Qed.

Lemma keeps_bind_get {B} (k : Globals -> M B) (R : B -> Prop) :
  (forall g0, I g0 -> keeps I (k g0) R) -> keeps I (bind get k) R.
Proof. intros Hk g Hg. by apply Hk. Qed.

Lemma keeps_gets {A} (f : Globals -> A) (R : A -> Prop) :
  (forall g, I g -> R (f g)) -> keeps I (gets f) R.
Proof. intros Hf g Hg. simpl. auto. Qed.

Lemma keeps_lift {A} (o : outcome A) : keeps I (lift o) (fun _ => True).
Proof. intros g Hg. unfold lift. by destruct o. Qed.

Lemma keeps_modify (f : Globals -> Globals) : (forall g, I g -> I (f g)) -> keeps I (modify f) (fun _ => True).
Proof. intros Hf g Hg. simpl. auto. Qed.

Lemma keeps_weaken {A} (m : M A) (R R' : A -> Prop) :
  keeps I m R -> (forall a, R a -> R' a) -> keeps I m R'.
Proof. intros Hm HR g Hg. specialize (Hm g Hg). destruct (m g) as [[a g']| |]; intuition. Qed.

Lemma keeps_for_each (l : list Z) (body : Z -> M unit) :
  (forall i, In i l -> preserves I (body i)) -> preserves I (for_each l body).
Proof.
  induction l as [|i l IH]; intros Hb; simpl.
  - by apply keeps_ret.
  - eapply keeps_bind; [apply Hb; by left|]. intros _ _. apply IH. intros j Hj. apply Hb. by right.
Qed.
End Keeps.

(** Symbolic execution of a handler for [keeps]: through every bind and
    every branch ([split x] splits on the scrutinee [x]), each primitive
    step closed by [close]. *)
Ltac keep_with close split :=
  repeat (cbv beta iota zeta; match goal with
  | |- keeps _ (bind get _) _ => apply keeps_bind_get; intros ?g ?Hg
  | |- keeps _ (bind _ _) _ => eapply keeps_bind; [solve [close] | intros ?a ?Ha]
  | |- keeps _ (bind _ _) _ => eapply (keeps_bind _ _ _ (fun _ => True)); [ | intros ?a _]
  | |- keeps _ (match ?x with _ => _ end) _ => split x
  | |- keeps _ (copy_node _ _) _ => unfold copy_node
  | |- keeps _ _ _ => solve [close]
  end).

(** ** Framed invariants

    An invariant that reads only a part [proj g] of the globals, a part
    that writing to a socket (the trace), the routing tables and the timer
    leave alone, is kept by the services that touch nothing else. *)
Class Frame {T} (proj : Globals -> T) := {
  frame_emit e g : proj (emit e g) = proj g;
  frame_set_rt r g : proj (set_rt r g) = proj g;
  frame_set_timer t h g : proj (set_timer t h g) = proj g
}.

(** The node fields: the node's own identity, its successor and second
    successor, the last node list and the ring id. *)
Record NodeFields := mkNF {
  nf_self : Node.t;
  nf_succ : Node.t;
  nf_second_succ : Node.t;
  nf_node_arr : list Node.t;
  nf_ring_id : list Z
}.

Definition node_fields (g : Globals) : NodeFields :=
  mkNF (self g) (succ g) (second_succ g) (node_arr g) (ring_id_str g).

#[export] Instance frame_reg : Frame reg.
Proof. by split. Qed.
#[export] Instance frame_node_fields : Frame node_fields.
Proof. by split. Qed.

Section Framed.
Context {T} (proj : Globals -> T) `{!Frame proj} (I : T -> Prop).

Lemma keeps_modify_frame (f : Globals -> Globals) :
  (forall g, proj (f g) = proj g) -> preserves (fun g => I (proj g)) (modify f).
Proof. intros Hf. apply keeps_modify. intros g. by rewrite Hf. Qed.

Lemma emit_all_frame es g : proj (emit_all es g) = proj g.
Proof. revert g. induction es as [|e es IH]; intros g; simpl; [done|]. by rewrite IH, frame_emit. Qed.

Lemma keeps_routing_op f : preserves (fun g => I (proj g)) (routing_op f).
Proof.
  intros g Hg. unfold routing_op. destruct (f _ _ _) as [[out rt']| |]; [|done|done].
  split; [|done]. by rewrite emit_all_frame, frame_set_rt.
Qed.

Lemma keeps_conn_printf sock line : preserves (fun g => I (proj g)) (conn_printf sock line).
Proof. apply keeps_modify_frame. intros. apply frame_emit. Qed.

Lemma keeps_set_timeout ms h : preserves (fun g => I (proj g)) (set_timeout ms h).
Proof. apply keeps_modify_frame. intros. apply frame_set_timer. Qed.

Lemma keeps_cancel_timeout : preserves (fun g => I (proj g)) cancel_timeout.
Proof. apply keeps_modify_frame. intros. apply frame_set_timer. Qed.

Lemma keeps_send_ns_message msg n : preserves (fun g => I (proj g)) (send_ns_message msg n).
Proof. apply keeps_modify_frame. intros. apply frame_emit. Qed.

Lemma keeps_sprintf_into size s what : preserves (fun g => I (proj g)) (sprintf_into size s what).
Proof. unfold sprintf_into. destruct (_ <=? _); [by apply keeps_ret|apply keeps_lift]. Qed.

Lemma keeps_strcpy_into size s what : preserves (fun g => I (proj g)) (strcpy_into size s what).
Proof. unfold strcpy_into. destruct (_ <=? _); [by apply keeps_ret|apply keeps_lift]. Qed.
End Framed.

(** ** Properties of the timer *)

(** C40: [set_timeout(1000, handler)], the one-second timeout of
    [join_ring] and [handle_broken_pred_socket], arms a deadline two
    seconds away: [ms / 1000] adds one second and [ms * 10^6] adds another
    10^9 nanoseconds, which the normalisation turns into a second second.
    (The spec: "arm a 1-second predecessor-connect timeout".) *)
Theorem set_timeout_two_seconds (g : Globals) :
  0 < tv_nsec (clock g) < 1000000000 ->
  set_timeout 1000 PRED_TIMEOUT g =
  Ok (tt, set_timer (mkTime (tv_sec (clock g) + 2) (tv_nsec (clock g))) (Some PRED_TIMEOUT) g).
Proof.
  intros Hn. unfold set_timeout, modify. cbv zeta.
  destruct (Z.ltb_spec 1000000000 (tv_nsec (clock g) + 1000 * 1000000)) as [_|]; [|lia].
  do 3 f_equal. change (1000 / 1000) with 1. f_equal; lia.
Qed.

Lemma set_timeout_two_seconds_witness :
  0 < tv_nsec (clock (set_clock (mkTime 100 5) globals_zero)) < 1000000000 /\
  set_timeout 1000 PRED_TIMEOUT (set_clock (mkTime 100 5) globals_zero) =
  Ok (tt, set_timer (mkTime 102 5) (Some PRED_TIMEOUT) (set_clock (mkTime 100 5) globals_zero)).
Proof.
  split; [simpl; lia|].
  apply (set_timeout_two_seconds (set_clock (mkTime 100 5) globals_zero)). simpl. lia.
Defined.

