(* ===== verification/Show.v ===== *)
(** * Show: the reports the user asks for

    The [show topology], [show routing] and [show path] commands of
    [handle_user_input] ([src/main.c]) and [print_node_table] of
    [src/node-server.c] print reports on the standard output.  Each
    [printf] call is one [Printed] event holding the text it prints:
    [NODE_ID_OUT] is [fmt_id], [%-15s] and [%-5s] are [pad_right].
    The paths are printed by [path_to_string] into [path_str], a buffer
    of [MAX_PATH_STR_SIZE] bytes; a longer path writes past it
    ([Undefined]).  [show path] reads [routing_table[r][forwarding_table[r]]]
    without looking at the forwarding entry, which is [-1] for a node
    whose paths are all gone: that read is [Undefined] as well. *)

From S2P Require Import Prelude Scanf Path Connections Routing State.

(** [printf(...)]: the text reaches the standard output. *)
Definition print (s : list Z) : M unit := modify (emit (Printed s)).

(** One [printf] per element, in order. *)
Fixpoint print_all (ls : list (list Z)) : M unit :=
  match ls with
  | [] => ret tt
  | l :: ls' => print l ;; print_all ls'
  end.

(** [%-<w>s]: the string, then spaces up to [w] columns (nothing is cut). *)
Definition pad_right (w : nat) (s : list Z) : list Z := s ++ repeat SPACE (w - length s).

(** ** [print_node_table()] *)

Definition NODE_TABLE_BORDER : list Z := bytes "+------------------------------+" ++ [LF].

(** [printf("| "NODE_ID_OUT" | %-15s | %-5s |\n", ...)] *)
Definition node_row (n : Node.t) : list Z :=
  bytes "| " ++ fmt_id (Node.id n) ++ bytes " | " ++ pad_right 15 (Node.ip_addr n) ++
  bytes " | " ++ pad_right 5 (Node.tcp_port n) ++ bytes " |" ++ [LF].

Definition print_node_table : M unit :=
  let* g := get in
  print (NODE_TABLE_BORDER ++ bytes "| ID | IP address      | Port  |" ++ [LF] ++ NODE_TABLE_BORDER) ;;
  print_all (map node_row (node_arr g)) ;;
  print NODE_TABLE_BORDER.

(** ** [show topology] *)

Definition TOPOLOGY_BORDER : list Z := bytes "+----------------+----+-----------------+-------+" ++ [LF].

(** A row of the table: [head] is the literal up to the id; a row
    without a port ([None]) prints [   -   ] in its column. *)
Definition topology_row (head : string) (id : Z) (ip : list Z) (port : option (list Z)) : list Z :=
  bytes head ++ fmt_id id ++ bytes " | " ++ pad_right 15 ip ++ bytes " | " ++
  match port with Some p => pad_right 5 p | None => bytes "  -  " end ++ bytes " |" ++ [LF].

Definition node_topology_row (head : string) (n : Node.t) : list Z :=
  topology_row head (Node.id n) (Node.ip_addr n) (Some (Node.tcp_port n)).

Definition cmd_show_topology : M unit :=
  let* g := get in
  if bool_decide (connection_state g = CONNECTED) then
    let cs := connections (reg g) in
    print (TOPOLOGY_BORDER ++ bytes "| Node           | ID | IP address      | Port  |" ++ [LF] ++ TOPOLOGY_BORDER) ;;
    (match pred_conn (reg g) with
     | Some i => if node_id cs.[i] =? -1 then ret tt
                 else print (topology_row "| Predecessor    | " (node_id cs.[i]) (ip_addr cs.[i]) None)
     | None => ret tt
     end) ;;
    print (node_topology_row "| This node      | " (self g)) ;;
    print (node_topology_row "| Successor      | " (succ g)) ;;
    print (node_topology_row "| Second succ.   | " (second_succ g)) ;;
    (match outbound_chord_conn (reg g) with
     | Some i => print (topology_row "| Outbound chord | " (node_id cs.[i]) (ip_addr cs.[i]) (Some (tcp_port cs.[i])))
     | None => ret tt
     end) ;;
    for_each (zrange MAX_CONNECTIONS) (fun i =>
      if negb (socket cs.[i] =? -1) && is_inbound_chord i (reg g)
      then print (topology_row "| Inbound chord  | " (node_id cs.[i]) (ip_addr cs.[i]) None)
      else ret tt) ;;
    print TOPOLOGY_BORDER
  else print (bytes "The node isn't connected." ++ [LF]).

(** ** [show routing] and [show path] *)

(** The [sscanf] format of the two commands: the short name is one word,
    the long one two. *)
Definition show_format (short : bool) : string := if short then "%*s %hhd" else "%*s %*s %hhd".

(** [path_to_string(path_str, recipient_id, path)] into
    [char path_str[MAX_PATH_STR_SIZE]]. *)
Definition path_str_of (self_id rid : Z) (p : Path) : M (list Z) :=
  let* s := lift (path_to_string self_id rid p) in
  sprintf_into MAX_PATH_STR_SIZE s "path_to_string past path_str".

Definition no_known_path (rid : Z) : list Z :=
  bytes "There are no known valid paths to the node " ++ fmt_id rid ++
  bytes ". It might not be in the ring." ++ [LF].

(** One turn of the loop over the neighbor slots of [show routing]. *)
Definition show_routing_via (self_id rid r : Z) (s : RoutingState) (n : Z) : M unit :=
  let nid := (neighbor_ids s).[n] in
  if nid =? -1 then ret tt
  else
    print (bytes "    Via " ++ fmt_id nid ++ bytes ": ") ;;
    let p := ((routing_table s).[r]).[n] in
    if hop_count p =? INVALID_PATH then print (bytes "(no valid path)" ++ [LF])
    else let* str := path_str_of self_id rid p in print (str ++ [LF]).

Definition cmd_show_routing (short : bool) (input : list Z) : M unit :=
  match sscanf input (show_format short) with
  | (1, [VInt rid]) =>
      let* g := get in
      let self_id := Node.id (self g) in
      if rid =? self_id then
        print (bytes "There's no need for routing when you're sending messages to yourself." ++ [LF])
      else
        let* ri := lift (get_recipient_index rid false (rt g)) in
        let r := fst ri in
        if r =? -1 then print (no_known_path rid)
        else
          print (bytes "Possible paths from the node " ++ fmt_id self_id ++ bytes " to the node " ++
                 fmt_id rid ++ bytes ":" ++ [LF]) ;;
          for_each (zrange MAX_NEIGHBORS) (show_routing_via self_id rid r (rt g))
  | _ => print (bytes "Missing parameters for the show routing command." ++ [LF])
  end.

(** [routing_table[recipient][neighbor]] with [neighbor =
    forwarding_table[recipient]]: no check on [neighbor]. *)
Definition table_entry (s : RoutingState) (r n : Z) : outcome Path :=
  if (0 <=? n) && (n <? MAX_NEIGHBORS) then Ok ((routing_table s).[r]).[n]
  else Undefined "routing_table[recipient][neighbor] outside the row".

Definition cmd_show_path (short : bool) (input : list Z) : M unit :=
  match sscanf input (show_format short) with
  | (1, [VInt rid]) =>
      let* g := get in
      let* ri := lift (get_recipient_index rid false (rt g)) in
      let r := fst ri in
      if r =? -1 then print (no_known_path rid)
      else
        let* p := lift (table_entry (rt g) r (forwarding_table (rt g)).[r]) in
        let* str := path_str_of (Node.id (self g)) rid p in
        print (bytes "Shortest path to " ++ fmt_id rid ++ bytes ": " ++ str ++ [LF])
  | _ => print (bytes "Missing parameters for the show routing command." ++ [LF])
  end.

(** ** The reports change nothing but the output

    An invariant that writing an event keeps is kept by every report:
    they read the state, print, or stop ([Undefined] past [path_str] or
    outside the routing table). *)
Section Printing.
Context (I : Globals -> Prop) (HI : forall e g, I g -> I (emit e g)).
Local Notation "'kept' m" := (keeps I m (fun _ => True)) (at level 10, m at level 9).

Lemma keeps_print s : kept (print s).
Proof. apply keeps_modify. intros. by apply HI. Qed.

Lemma keeps_print_all ls : kept (print_all ls).
Proof.
  induction ls as [|l ls IH]; simpl; [by apply keeps_ret|].
  eapply keeps_bind; [apply keeps_print|]. by intros.
Qed.

Lemma keeps_path_str_of self_id rid p : kept (path_str_of self_id rid p).
Proof.
  unfold path_str_of. eapply keeps_bind; [apply keeps_lift|]. intros s _.
  unfold sprintf_into. destruct (_ <=? _); [by apply keeps_ret|apply keeps_lift].
Qed.

Create HintDb printing discriminated.
Local Hint Resolve keeps_print keeps_print_all keeps_path_str_of keeps_lift : printing.
Local Hint Extern 1 (keeps _ (ret _) _) => apply keeps_ret; exact Logic.I : printing.

Local Ltac keep_print := keep_with ltac:(eauto with printing) ltac:(fun x => destruct x).
Local Hint Extern 2 (keeps _ (for_each _ _) _) =>
  apply keeps_for_each; intros ? _; unfold preserves; keep_print : printing.

Lemma keeps_print_node_table : kept print_node_table.
Proof. unfold print_node_table. keep_print. Qed.

Lemma keeps_show_routing_via self_id rid r s n : kept (show_routing_via self_id rid r s n).
Proof. unfold show_routing_via. keep_print. Qed.
Local Hint Resolve keeps_show_routing_via : printing.

Lemma keeps_cmd_show_topology : kept cmd_show_topology.
Proof. unfold cmd_show_topology. keep_print. Qed.

Lemma keeps_cmd_show_routing short input : kept (cmd_show_routing short input).
Proof. unfold cmd_show_routing. destruct (sscanf _ _) as [n vs]. keep_print. Qed.

Lemma keeps_cmd_show_path short input : kept (cmd_show_path short input).
Proof. unfold cmd_show_path. destruct (sscanf _ _) as [n vs]. keep_print. Qed.
End Printing.

(** Framed invariants ([State.Frame]) are kept by writing an event. *)
Lemma frame_emit_keeps {T} (proj : Globals -> T) `{!Frame proj} (J : T -> Prop) e g :
  J (proj g) -> J (proj (emit e g)).
Proof. by rewrite frame_emit. Qed.

(** ** Widths of the rows *)

Lemma length_pad_right w s : (length s <= w)%nat -> length (pad_right w s) = w.
Proof. intros Hs. unfold pad_right. rewrite length_app, repeat_length. lia. Qed.

(** [NODE_ID_OUT] prints two characters exactly for the ids from [-9] to
    [99]; the other values of a [signed char] take three or four. *)
Lemma fmt_id_width v : -128 <= v <= 127 -> (length (fmt_id v) = 2%nat <-> -9 <= v <= 99).
Proof.
  intros Hv.
  assert (Hall : forall_range 256 (fun i => Bool.eqb (Nat.eqb (length (fmt_id (i - 128))) 2)
                                                    ((-9 <=? i - 128) && (i - 128 <=? 99))) = true)
    by (vm_compute; reflexivity).
  pose proof (forall_range_spec _ _ Hall (v + 128) ltac:(lia)) as H. cbv beta in H.
  replace (v + 128 - 128) with v in H by lia. apply Bool.eqb_prop in H.
  destruct (Nat.eqb_spec (length (fmt_id v)) 2) as [E|E]; symmetry in H;
    [apply andb_true_iff in H as [H1 H2]; apply Z.leb_le in H1, H2; tauto|].
  split; [done|]. intros [H1 H2]. apply Z.leb_le in H1, H2. by rewrite H1, H2 in H.
Qed.

(** A row of the node table is 31 bytes and the id, when the address
    and the port fit their columns. *)
Lemma length_node_row n :
  (length (Node.ip_addr n) <= 15)%nat -> (length (Node.tcp_port n) <= 5)%nat ->
  length (node_row n) = (31 + length (fmt_id (Node.id n)))%nat.
Proof.
  intros Hip Hport. unfold node_row. rewrite !length_app, !length_pad_right by done.
  set (k := length (fmt_id _)). simpl. lia.
Qed.

Lemma length_node_topology_row head n :
  (length (Node.ip_addr n) <= 15)%nat -> (length (Node.tcp_port n) <= 5)%nat ->
  length (node_topology_row head n) = (length (bytes head) + 29 + length (fmt_id (Node.id n)))%nat.
Proof.
  intros Hip Hport. unfold node_topology_row, topology_row.
  rewrite !length_app, !length_pad_right by done. set (k := length (fmt_id _)). simpl. lia.
Qed.

(** ** [show path] *)

(** [get_recipient_index(recipient_id, false)] only looks the row up. *)
Lemma get_recipient_index_lookup rid s : get_recipient_index rid false s = Ok (recipient_index rid s, s).
Proof. unfold get_recipient_index. by destruct (Z.eqb_spec (recipient_index rid s) (-1)) as [->|]. Qed.

(** The row found for an id other than the free-slot marker is
    allocated to that id. *)
Lemma recipient_index_row self s rid :
  routing_shape self s -> rid <> -1 -> recipient_index rid s <> -1 ->
  alloc_r s (recipient_index rid s) /\ (recipient_ids s).[recipient_index rid s] = rid.
Proof.
  intros Hs Hrid Hr. unfold recipient_index in *.
  destruct (find_index_spec (Z.eqb rid) (recipient_ids s)) as [[E _]|(Hb & Hp & _)]; [done|].
  apply Z.eqb_eq in Hp. rewrite (rw_len_r _ _ Hs) in Hb. split; [split; [lia|congruence]|done].
Qed.

(** A step of [show path] once [sscanf] has read the id. *)
Lemma cmd_show_path_unfold short input rid g :
  sscanf input (show_format short) = (1, [VInt rid]) ->
  cmd_show_path short input g =
    let r := recipient_index rid (rt g) in
    if r =? -1 then print (no_known_path rid) g
    else (let* p := lift (table_entry (rt g) r (forwarding_table (rt g)).[r]) in
          let* str := path_str_of (Node.id (self g)) rid p in
          print (bytes "Shortest path to " ++ fmt_id rid ++ bytes ": " ++ str ++ [LF])) g.
Proof.
  intros E. unfold cmd_show_path. rewrite E. cbn [bind get lift].
  rewrite get_recipient_index_lookup. cbn [bind lift fst]. by destruct (_ =? -1).
Qed.

(** C21: [show path] to a node whose routing row has no forwarding entry
    reads outside the row.  When the id the user typed has a row (found
    by [get_recipient_index]) whose forwarding entry is [-1] (the row of
    a node whose last path was removed, now a free slot: the id [-1],
    which [%hhd] also reads from [255], finds it), [show path] reads
    [routing_table[recipient][-1]]: undefined behaviour. *)
Theorem show_path_unrouted_row_undefined short input rid g :
  sscanf input (show_format short) = (1, [VInt rid]) ->
  recipient_index rid (rt g) <> -1 ->
  (forwarding_table (rt g)).[recipient_index rid (rt g)] = -1 ->
  cmd_show_path short input g = Undefined "routing_table[recipient][neighbor] outside the row".
Proof.
  intros E Hr Hf. rewrite (cmd_show_path_unfold _ _ _ _ E). cbv zeta.
  rewrite (proj2 (Z.eqb_neq _ _) Hr), Hf. reflexivity.
Qed.

(** The tables once every row has been freed: no recipient, and every
    forwarding entry [-1]. *)
Definition freed_tables : RoutingState :=
  mkRS (replicate N_SLOTS (-1)) (replicate N_SLOTS (-1)) (routing_table routing_zero) (replicate N_SLOTS (-1)).

Lemma show_path_unrouted_row_undefined_witness :
  cmd_show_path true (bytes "sp 255") (set_rt freed_tables globals_zero) =
  Undefined "routing_table[recipient][neighbor] outside the row".
Proof. apply (show_path_unrouted_row_undefined true (bytes "sp 255") (-1)); vm_compute; congruence. Defined.

(** C22: [show path] prints the path the node announces.  For a node with
    a row in tables that satisfy the routing invariant, with node ids of
    the protocol and at most [MAX_NODES - 2] stored hops, [show path]
    prints one line, [Shortest path to <id>: <s>], where [s] is the path
    string of the [ROUTE] line this node sends its neighbors for that
    node, and which the neighbors' parser reads back as the path through
    this node. *)
Theorem show_path_prints_announced_path short input rid g :
  let s := rt g in let me := Node.id (self g) in
  let r := recipient_index rid s in
  let p := entry s r (forwarding_table s).[r] in
  sscanf input (show_format short) = (1, [VInt rid]) ->
  routing_wf me s -> r <> -1 -> id_in_range me -> id_in_range rid ->
  hop_count p <= MAX_NODES - 2 -> Forall id_in_range (take (Z.to_nat (hop_count p)) (nodes p)) ->
  exists str,
    cmd_show_path short input g =
      Ok (tt, emit (Printed (bytes "Shortest path to " ++ fmt_id rid ++ bytes ": " ++ str ++ [LF])) g) /\
    get_route_message me rid (Some p) =
      Ok (bytes "ROUTE " ++ fmt_id me ++ [SPACE] ++ fmt_id rid ++ [SPACE] ++ str ++ [LF]) /\
    parse_path str = Ok (Some (mkPath (hop_count p + 1) (me :: take (Z.to_nat (hop_count p)) (nodes p) ++ [rid]))).
Proof.
  intros s me r p E [Hsh Hfwd] Hr Hme Hrid Hh Hids.
  destruct (recipient_index_row me s rid Hsh) as [Ha _]; [unfold id_in_range in Hrid; lia|done|].
  destruct (Hfwd r Ha) as ([Hn _] & Hv & _).
  destruct (rw_paths _ _ Hsh r _ Ha Hn Hv) as (H0 & Hlen & _).
  destruct (path_string_parse_back me rid p Hme Hrid (conj H0 Hh) Hlen Hids) as (str & Hs & Hl & Hparse).
  exists str. split; [|split; [apply get_route_message_path; done|done]].
  rewrite (cmd_show_path_unfold _ _ _ _ E). cbv zeta. fold s r.
  rewrite (proj2 (Z.eqb_neq _ _) Hr). unfold table_entry.
  destruct Hn as [Hn0 Hn1]. apply Z.leb_le in Hn0. apply Z.ltb_lt in Hn1. rewrite Hn0, Hn1. cbn [andb bind lift].
  change ((routing_table s).[r].[(forwarding_table s).[r]]) with p.
  unfold path_str_of. change (Node.id (self g)) with me. rewrite Hs. unfold sprintf_into. cbv [bind lift].
  destruct (Z.leb_spec (zlen str + 1) MAX_PATH_STR_SIZE); [done|unfold MAX_PATH_STR_SIZE in *; lia].
Qed.

(** Node 10 after learning the path [20-30] from its neighbor 20. *)
Definition node10_learnt : Globals := set_rt run_learn_30 (set_self (Node.mk 10 [] []) globals_zero).

Lemma show_path_prints_announced_path_witness :
  exists str,
    cmd_show_path false (bytes "show path 30") node10_learnt =
      Ok (tt, emit (Printed (bytes "Shortest path to " ++ fmt_id 30 ++ bytes ": " ++ str ++ [LF])) node10_learnt) /\
    get_route_message 10 30 (Some (mkPath 1 [20; 30])) =
      Ok (bytes "ROUTE " ++ fmt_id 10 ++ [SPACE] ++ fmt_id 30 ++ [SPACE] ++ str ++ [LF]) /\
    parse_path str = Ok (Some (mkPath 2 [10; 20; 30])).
Proof.
  apply (show_path_prints_announced_path false (bytes "show path 30") 30 node10_learnt).
  - vm_compute. reflexivity.
  - apply routing_wfb_sound. vm_compute. reflexivity.
  - vm_compute. congruence.
  - unfold id_in_range, MAX_NODE_ID. simpl. lia.
  - unfold id_in_range, MAX_NODE_ID. lia.
  - vm_compute. congruence.
  - cbn. constructor; [unfold id_in_range, MAX_NODE_ID; lia|constructor].
Defined.
