(* ===== verification/Ring.v ===== *)
(** * Ring: the ring state machine and the protocol handlers of [src/ring.c]

    Every function of [src/ring.c] is a computation in the monad [M] of
    [State.v], written in the order of the C statements: the joins and the
    departure ([connect_to_node], [leave_ring], [join_ring],
    [on_join_end], [create_outbound_chord]), the message handlers of each
    role ([handle_message_from_any_node] with the [ROUTE] path parser of
    [Path.v], [..._from_succ], [..._from_pred], [..._from_new_node],
    [..._from_chord]) with their dispatcher [handle_message], and the
    handlers of a connection the peer closed ([handle_broken_socket] and
    its four cases).

    A role pointer is a slot index ([None] is [NULL]); a dereference of a
    [NULL] pointer is [Undefined].  Writes to sockets always succeed (the
    [conn_printf(...) < 0] branches, and the [handle_broken_socket] call
    inside [conn_printf], are not modelled). *)

From S2P Require Import Prelude Scanf Path Connections Routing State.

(** ** The registry inside the globals *)

Definition set_role_ptrs (nn pc sc oc : option Z) (r : Registry) : Registry :=
  mkReg (connections r) nn pc sc oc (select_inputs r).

Definition set_new_node_conn (p : option Z) : M unit :=
  modify (fun g => let r := reg g in
    set_reg (set_role_ptrs p (pred_conn r) (succ_conn r) (outbound_chord_conn r) r) g).
Definition set_pred_conn (p : option Z) : M unit :=
  modify (fun g => let r := reg g in
    set_reg (set_role_ptrs (new_node_conn r) p (succ_conn r) (outbound_chord_conn r) r) g).
Definition set_succ_conn (p : option Z) : M unit :=
  modify (fun g => let r := reg g in
    set_reg (set_role_ptrs (new_node_conn r) (pred_conn r) p (outbound_chord_conn r) r) g).
Definition set_outbound_chord_conn (p : option Z) : M unit :=
  modify (fun g => let r := reg g in
    set_reg (set_role_ptrs (new_node_conn r) (pred_conn r) (succ_conn r) p r) g).

(** [conn->field] for a pointer [conn]: reading through [NULL] is
    undefined. *)
Definition deref (p : option Z) (what : string) : M Connection :=
  match p with
  | None => lift (Undefined what)
  | Some i => gets (fun g => (connections (reg g)).[i])
  end.

(** [conn->node_id = id] *)
Definition set_node_id (p : option Z) (id : Z) (what : string) : M unit :=
  match p with
  | None => lift (Undefined what)
  | Some i => modify (fun g => let r := reg g in
                set_reg (set_connections r (zset (connections r) i (conn_set_node_id (connections r).[i] id))) g)
  end.

(** [add_connection(socket)] on the registry of the globals. *)
Definition add_connection_m (s : Z) : M Z :=
  fun g => let! (i, r') := add_connection s (reg g) in Ok (i, set_reg r' g).

(** [close_connection(conn)]: the [close(2)] is recorded in the trace. *)
Definition close_connection_m (p : option Z) : M unit :=
  fun g =>
    let r := reg g in
    match p with
    | Some i => if socket (connections r).[i] =? -1 then Ok (tt, g)
                else Ok (tt, set_reg (close_connection p r) (emit (Closed (socket (connections r).[i])) g))
    | None => Ok (tt, g)
    end.

Definition find_connection_by_node_id_m (id : Z) : M (option Z) :=
  gets (fun g => find_connection_by_node_id id (reg g)).

(** [send_shortest_paths(conn)] *)
Definition send_shortest_paths_m (p : option Z) : M unit :=
  let* c := deref p "conn->socket with conn == NULL" in
  fun g => let! out := send_shortest_paths (Node.id (self g)) (socket c) (rt g) in
           Ok (tt, emit_all (sends out) g).

(** [update_routing_and_announce_given_new_path(neighbor_id, recipient_id, path)] *)
Definition update_routing_and_announce_m (nid rid : Z) (path : option Path) : M unit :=
  routing_op (fun self_id conns s => update_routing_and_announce self_id conns nid rid path s).

(** [remove_neighbor_connection(node_id)]: the neighbor leaves the routing
    tables when no connection to it is left. *)
Definition remove_neighbor_connection (node_id : Z) : M unit :=
  let* c := find_connection_by_node_id_m node_id in
  if negb (node_id =? -1) && bool_decide (c = None)
  then routing_op (fun self_id conns s => remove_routing_neighbor self_id conns node_id s)
  else ret tt.

(** [forward_message(sender_id, recipient_id, chat_message)] *)
Definition forward_message_m (sender rid : Z) (text : list Z) : M unit :=
  fun g => let! r := forward_message (reg g) sender rid text (rt g) in
           match r with
           | Some (sock, line) => Ok (tt, emit (Sent sock line) g)
           | None => Ok (tt, g)
           end.

(** ** Joining and leaving *)

Section Ring.
  Context `{Net}.

  (** [connect_to_node(node)]: [socket(2)], then a registry slot for it
      (with the node's id and address), then [getaddrinfo] and [connect].
      When one of the last two fails the function returns [NULL] and the
      slot stays in the registry, live. *)
Definition connect_to_node (node : Node.t) : M (option Z) :=
    match net_connect node with
    | NET_NO_SOCKET => ret None
    | res =>
        let* s := gets (fun g => lowest_fd (open_fds g)) in
        let* i := add_connection_m s in
        modify (fun g => let r := reg g in
          let c := (connections r).[i] in
          set_reg (set_connections r (zset (connections r) i
            (mkConn (socket c) (Node.id node) (buffer c) (buffer_index c) (Node.ip_addr node) (Node.tcp_port node)))) g) ;;
        match res with
        | NET_CONNECTED => ret (Some i)
        | _ => ret None
        end
    end.

  (** [succ_conn = connect_to_node(node);] *)
Definition connect_succ (node : Node.t) : M (option Z) :=
  let* sc := connect_to_node node in set_succ_conn sc ;; ret sc.

(** [outbound_chord_conn = connect_to_node(node);] *)
Definition connect_outbound_chord (node : Node.t) : M (option Z) :=
  let* oc := connect_to_node node in set_outbound_chord_conn oc ;; ret oc.

(** [pred_conn = new_node_conn; new_node_conn = NULL;] *)
Definition new_node_becomes_pred : M unit :=
  let* g := get in set_pred_conn (new_node_conn (reg g)) ;; set_new_node_conn None.

(** [leave_ring()]: [UNREG] when registered, every connection closed. *)
Definition leave_ring : M unit :=
    let* g := get in
    (if bool_decide (connection_state g = CONNECTED) && negb (bool_decide (ring_id_str g = []))
     then let* msg := sprintf_into 13 (bytes "UNREG " ++ ring_id_str g ++ [SPACE] ++ fmt_id (Node.id (self g)))
                                   "sprintf past unreg_msg" in
          send_ns_message (msg ++ [NUL]) 12
     else ret tt) ;;
    for_each (zrange MAX_CONNECTIONS) (fun i => close_connection_m (Some i)) ;;
    modify (set_connection_state DISCONNECTED).

  (** [pred_timeout()] *)
Definition pred_timeout : M unit := leave_ring.

  (** [join_ring()]: connect to [succ], send [ENTRY] and the table, and
      wait at most a second for the predecessor. *)
Definition join_ring : M unit :=
    modify (fun g => set_rt (init_routing (rt g)) g) ;;
    modify (set_connection_state CONNECTING) ;;
    modify (set_awaiting_succ true) ;;
    modify (set_awaiting_pred true) ;;
    set_pred_conn None ;;
    set_outbound_chord_conn None ;;
    set_new_node_conn None ;;
    let* g := get in
    let* sc := connect_succ (succ g) in
    match sc with
    | None => leave_ring
    | Some _ =>
        let* c := deref sc "succ_conn->socket" in
        let* g := get in
        conn_printf (socket c) (bytes "ENTRY " ++ fmt_id (Node.id (self g)) ++ [SPACE] ++
                                Node.ip_addr (self g) ++ [SPACE] ++ Node.tcp_port (self g) ++ [LF]) ;;
        send_shortest_paths_m sc ;;
        set_timeout 1000 PRED_TIMEOUT
    end.

  (** [on_join_end()]: [CONNECTED], and [REG] unless the join was direct. *)
Definition on_join_end : M unit :=
    modify (set_connection_state CONNECTED) ;;
    let* g := get in
    if negb (bool_decide (ring_id_str g = [])) then
      let* msg := sprintf_into 33 (bytes "REG " ++ ring_id_str g ++ [SPACE] ++ fmt_id (Node.id (self g)) ++
                                   [SPACE] ++ Node.ip_addr (self g) ++ [SPACE] ++ Node.tcp_port (self g))
                               "sprintf past reg_msg" in
      send_ns_message msg (zlen msg)
    else ret tt.

  (** [create_outbound_chord(node)]: the check for an existing connection
      to the node only prints (its [return] is commented out). *)
Definition create_outbound_chord (node : Node.t) : M unit :=
    let* oc := connect_outbound_chord node in
    match oc with
    | None => ret tt
    | Some _ =>
        let* c := deref oc "outbound_chord_conn->socket" in
        let* g := get in
        conn_printf (socket c) (bytes "CHORD " ++ fmt_id (Node.id (self g)) ++ [LF]) ;;
        send_shortest_paths_m oc
    end.

  (** ** The message handlers *)

  (** [handle_message_from_any_node(message, conn)]: [ROUTE] with and
      without a path, and [CHAT]; [false] when the line is none of them. *)
Definition handle_message_from_any_node (message : list Z) (conn : option Z) : M bool :=
    match sscanf message "ROUTE %hhd %hhd %47s" with
    | (3, [VInt nid; VInt rid; VStr path_str]) =>
        let* c := deref conn "conn->node_id with conn == NULL" in
        let* g := get in
        if negb (nid =? node_id c) then ret true
        else if nid =? Node.id (self g) then ret true
        else
          let* parsed := lift (parse_path path_str) in
          match parsed with
          | None => ret true
          | Some path =>
              if (nid =? rid) && negb (hop_count path =? 0) then ret true
              else if negb (nid =? rid) && (hop_count path =? 0) then ret true
              else update_routing_and_announce_m nid rid (Some path) ;; ret true
          end
    | _ =>
    match sscanf message "ROUTE %hhd %hhd" with
    | (2, [VInt nid; VInt rid]) =>
        let* g := get in
        if nid =? Node.id (self g) then ret true
        else
          let* c := deref conn "conn->node_id with conn == NULL" in
          if negb (nid =? node_id c) then ret true
          else if rid =? Node.id (self g) then ret true
          else update_routing_and_announce_m nid rid None ;; ret true
    | _ =>
    match sscanf message "CHAT %hhd %hhd%n" with
    | (2, [VInt sender; VInt rid; VCount start]) =>
        if negb (char_at (cstr message) start =? SPACE) then ret false
        else
          let chat_message := cstr (drop (Z.to_nat (start + 1)) message) in
          let* g := get in
          (if rid =? Node.id (self g) then modify (emit (Delivered sender chat_message))
           else forward_message_m sender rid chat_message) ;;
          ret true
    | _ => ret false
    end end end.

Definition node_of (id : Z) (ip port : list Z) : Node.t := Node.mk id ip port.

  (** [handle_message_from_succ(message)]: [SUCC] names the second
      successor; [ENTRY] announces a node entering between this node and
      its successor. *)
Definition handle_message_from_succ (message : list Z) : M unit :=
    match sscanf message "SUCC %hhd %15s %5s" with
    | (3, [VInt id; VStr ip; VStr port]) =>
        let* g := get in
        if id =? Node.id (succ g) then ret tt
        else
          modify (set_second_succ (node_of id ip port)) ;;
          modify (set_awaiting_succ false) ;;
          let* g := get in
          if bool_decide (connection_state g = CONNECTING) then
            (if negb (awaiting_pred g) then on_join_end else ret tt)
          else ret tt
    | _ =>
    match sscanf message "ENTRY %hhd %15s %5s" with
    | (3, [VInt id; VStr ip; VStr port]) =>
        let* g := get in
        let* known := find_connection_by_node_id_m id in
        if (id =? Node.id (self g)) || negb (bool_decide (known = None)) || (id =? Node.id (second_succ g))
        then leave_ring
        else
          let* pc := deref (pred_conn (reg g)) "pred_conn->socket with pred_conn == NULL" in
          conn_printf (socket pc) (bytes "SUCC " ++ fmt_2d id ++ [SPACE] ++ ip ++ [SPACE] ++ port ++ [LF]) ;;
          let* g := get in
          close_connection_m (succ_conn (reg g)) ;;
          remove_neighbor_connection (Node.id (succ g)) ;;
          let* g := get in
          copy_node set_second_succ (succ g) ;;
          modify (set_succ (node_of id ip port)) ;;
          let* sc := connect_succ (node_of id ip port) in
          match sc with
          | None => leave_ring
          | Some _ =>
              let* c := deref sc "succ_conn->socket" in
              conn_printf (socket c) (bytes "PRED " ++ fmt_id (Node.id (self g)) ++ [LF]) ;;
              send_shortest_paths_m sc
          end
    | _ =>
        let* g := get in
        let* _ := handle_message_from_any_node message (succ_conn (reg g)) in ret tt
    end end.

  (** [handle_message_from_pred(message)] *)
Definition handle_message_from_pred (message : list Z) : M unit :=
    let* g := get in
    if starts_with message "ENTRY " && bool_decide (connection_state g = CONNECTING) then leave_ring
    else let* _ := handle_message_from_any_node message (pred_conn (reg g)) in ret tt.

  (** [handle_message_from_chord(message, conn)] *)
Definition handle_message_from_chord (message : list Z) (conn : option Z) : M unit :=
    let* _ := handle_message_from_any_node message conn in ret tt.

  (** [handle_message_from_new_node(message)]: [ENTRY] (a node entering
      before this one), [PRED] (the predecessor of a join) or [CHORD]. *)
Definition handle_message_from_new_node (message : list Z) : M unit :=
    match sscanf message "ENTRY %hhd %15s %5s" with
    | (3, [VInt id; VStr ip; VStr port]) =>
        let* g := get in
        if bool_decide (connection_state g = DISCONNECTED) ||
           (bool_decide (connection_state g = CONNECTED) && (Node.id (succ g) =? Node.id (self g))) then
          set_node_id (new_node_conn (reg g)) id "new_node_conn->node_id with new_node_conn == NULL" ;;
          if bool_decide (connection_state g = DISCONNECTED) then close_connection_m (new_node_conn (reg g))
          else if id =? Node.id (self g) then close_connection_m (new_node_conn (reg g))
          else
            modify (set_succ (node_of id ip port)) ;;
            copy_node set_second_succ (self g) ;;
            let* nc := deref (new_node_conn (reg g)) "new_node_conn->socket" in
            conn_printf (socket nc) (bytes "SUCC " ++ fmt_id id ++ [SPACE] ++ ip ++ [SPACE] ++ port ++ [LF]) ;;
            let* sc := connect_succ (node_of id ip port) in
            match sc with
            | None => leave_ring
            | Some _ =>
                let* c := deref sc "succ_conn->socket" in
                conn_printf (socket c) (bytes "PRED " ++ fmt_id (Node.id (self g)) ++ [LF]) ;;
                send_shortest_paths_m sc ;;
                let* g' := get in
                if negb (bool_decide (pred_conn (reg g') = None)) then
                  lift (Exit "Assertion failed: (pred_conn == NULL) when alone and accepting an entry request.")
                else new_node_becomes_pred
            end
        else if bool_decide (connection_state g = CONNECTED) then
          set_node_id (new_node_conn (reg g)) id "new_node_conn->node_id with new_node_conn == NULL" ;;
          let* nc := deref (new_node_conn (reg g)) "new_node_conn->socket" in
          conn_printf (socket nc) (bytes "SUCC " ++ fmt_id (Node.id (succ g)) ++ [SPACE] ++
                                   Node.ip_addr (succ g) ++ [SPACE] ++ Node.tcp_port (succ g) ++ [LF]) ;;
          let* pc := deref (pred_conn (reg g)) "pred_conn->socket with pred_conn == NULL" in
          conn_printf (socket pc) (bytes "ENTRY " ++ fmt_id id ++ [SPACE] ++ ip ++ [SPACE] ++ port ++ [LF]) ;;
          send_shortest_paths_m (new_node_conn (reg g)) ;;
          let* pc := deref (pred_conn (reg g)) "pred_conn->node_id" in
          close_connection_m (pred_conn (reg g)) ;;
          remove_neighbor_connection (node_id pc) ;;
          new_node_becomes_pred
        else close_connection_m (new_node_conn (reg g))
    | _ =>
    match sscanf message "PRED %hhd" with
    | (1, [VInt id]) =>
        let* g := get in
        if bool_decide (connection_state g = DISCONNECTED) then close_connection_m (new_node_conn (reg g))
        else
          (if negb (bool_decide (pred_conn (reg g) = None)) then close_connection_m (pred_conn (reg g))
           else ret tt) ;;
          let* conn := find_connection_by_node_id_m id in
          let* g := get in
          (match conn with
           | Some j =>
               if bool_decide (outbound_chord_conn (reg g) = Some j) || is_inbound_chord j (reg g)
               then close_connection_m conn ;; remove_neighbor_connection id
               else ret tt
           | None => ret tt
           end) ;;
          let* g := get in
          set_node_id (new_node_conn (reg g)) id "new_node_conn->node_id with new_node_conn == NULL" ;;
          new_node_becomes_pred ;;
          cancel_timeout ;;
          let* g := get in
          let* pc := deref (pred_conn (reg g)) "pred_conn->socket" in
          conn_printf (socket pc) (bytes "SUCC " ++ fmt_id (Node.id (succ g)) ++ [SPACE] ++
                                   Node.ip_addr (succ g) ++ [SPACE] ++ Node.tcp_port (succ g) ++ [LF]) ;;
          send_shortest_paths_m (pred_conn (reg g)) ;;
          modify (set_awaiting_pred false) ;;
          let* g := get in
          if bool_decide (connection_state g = CONNECTING) && negb (awaiting_succ g) then on_join_end
          else ret tt
    | _ =>
    match sscanf message "CHORD %hhd" with
    | (1, [VInt id]) =>
        let* known := find_connection_by_node_id_m id in
        if negb (bool_decide (known = None)) then ret tt
        else
          let* g := get in
          set_node_id (new_node_conn (reg g)) id "new_node_conn->node_id with new_node_conn == NULL" ;;
          send_shortest_paths_m (new_node_conn (reg g)) ;;
          set_new_node_conn None
    | _ => ret tt
    end end end.

  (** [handle_message(socket, message)]: the handler of the connection's
      role. *)
Definition handle_message (sock : Z) (message : list Z) : M unit :=
    let* g := get in
    let conn := find_connection_by_socket sock (reg g) in
    if bool_decide (conn = new_node_conn (reg g)) then handle_message_from_new_node message
    else if bool_decide (conn = pred_conn (reg g)) then handle_message_from_pred message
    else if bool_decide (conn = succ_conn (reg g)) then handle_message_from_succ message
    else
      let* c := deref conn "conn->node_id with conn == NULL" in
      if node_id c =? -1 then
        lift (Exit "Assertion failed: (conn->node_id != -1) for a chord connection at handle_message()")
      else handle_message_from_chord message conn.

  (** ** Connections the peer closed *)

  (** [handle_broken_succ_socket()]: promote the second successor. *)
Definition handle_broken_succ_socket : M unit :=
    let* g := get in
    if negb (bool_decide (connection_state g = CONNECTED)) then leave_ring
    else
      modify (set_awaiting_succ true) ;;
      copy_node set_succ (second_succ g) ;;
      if Node.id (second_succ g) =? Node.id (self g) then ret tt
      else
        let* pc := match pred_conn (reg g) with
                   | None => ret None
                   | Some _ => let* c := deref (pred_conn (reg g)) "pred_conn->node_id" in ret (Some c)
                   end in
        match pc with
        | None => leave_ring
        | Some c =>
          if node_id c =? -1 then leave_ring
          else
            let sc := second_succ g in
            conn_printf (socket c) (bytes "SUCC " ++ fmt_id (Node.id sc) ++ [SPACE] ++
                                    Node.ip_addr sc ++ [SPACE] ++ Node.tcp_port sc ++ [LF]) ;;
            let* conn := find_connection_by_node_id_m (Node.id sc) in
            let* g := get in
            (match conn with
             | Some j =>
                 if bool_decide (outbound_chord_conn (reg g) = Some j) || is_inbound_chord j (reg g)
                 then close_connection_m conn ;; remove_neighbor_connection (Node.id sc)
                 else ret tt
             | None => ret tt
             end) ;;
            let* nsc := connect_succ sc in
            match nsc with
            | None => leave_ring
            | Some _ =>
                let* c := deref nsc "succ_conn->socket" in
                conn_printf (socket c) (bytes "PRED " ++ fmt_id (Node.id (self g)) ++ [LF]) ;;
                send_shortest_paths_m nsc
            end
        end.

  (** [handle_broken_pred_socket()] *)
Definition handle_broken_pred_socket : M unit :=
    let* g := get in
    if negb (bool_decide (connection_state g = CONNECTED)) then leave_ring
    else
      let* pc := deref (pred_conn (reg g)) "pred_conn->node_id with pred_conn == NULL" in
      remove_neighbor_connection (node_id pc) ;;
      set_pred_conn None ;;
      let* g := get in
      if Node.id (self g) =? Node.id (second_succ g) then ret tt
      else set_timeout 1000 PRED_TIMEOUT.

  (** [handle_broken_socket(socket)]: the role's handler, then the
      connection is closed and its node leaves the routing tables if no
      other connection to it is left.  The static helpers
      [handle_broken_new_node_socket] ([new_node_conn = NULL]) and
      [handle_broken_chord_socket] (it only prints) are written in
      place. *)
Definition handle_broken_socket (sock : Z) : M unit :=
    let* g := get in
    let conn := find_connection_by_socket sock (reg g) in
    (if bool_decide (conn = new_node_conn (reg g)) then set_new_node_conn None
     else if bool_decide (conn = pred_conn (reg g)) then handle_broken_pred_socket
     else if bool_decide (conn = succ_conn (reg g)) then handle_broken_succ_socket
     else
       let* c := deref conn "conn->node_id with conn == NULL" in
       if node_id c =? -1 then
         lift (Exit "Assertion failed: (conn->node_id != -1) for a chord connection at handle_broken_socket()")
       else ret tt) ;;
    let* c := deref conn "conn->node_id with conn == NULL" in
    close_connection_m conn ;;
    remove_neighbor_connection (node_id c).
End Ring.
