(* ===== verification/Protocol.v ===== *)
(** * Protocol: the lines a node writes, as its neighbor's handlers read them

    [get_route_message] (in [Path.v]) prints the [ROUTE] line a node
    announces; [handle_message_from_any_node] (in [Ring.v]) parses it with
    [sscanf] and the path parser.  This file composes the two, with
    [conn_printf] and the receiver's [read_lines] in between.  The line a
    node writes for a path reaches the neighbor's routing engine as the
    same path seen from the neighbor (one more hop, the sender first).
    The [sscanf] steps are lemmas about [scan] on the directives of the
    format, one per directive.  The file ends with a line the handler
    should reject and does not: a [ROUTE] about node [-1]. *)

From S2P Require Import Prelude ReadLines Scanf Path Connections Routing State Ring.

(** ** [scan], one directive at a time *)

Lemma cstr_id l : Forall (fun c => c <> NUL) l -> cstr l = l.
Proof.
  induction 1 as [|c l Hc _ IH]; [done|]. simpl.
  destruct (Z.eqb_spec c NUL); [done|]. by rewrite IH.
Qed.

Lemma zlen_cons {A} (x : A) l : zlen (x :: l) = zlen l + 1.
Proof. unfold zlen. simpl. lia. Qed.

Lemma digit_not_space d : 0 <= d <= 9 -> is_space (48 + d) = false.
Proof.
  intros Hd. unfold is_space.
  destruct (Z.eqb_spec (48 + d) 32); [lia|]. destruct (Z.leb_spec 9 (48 + d)); [|done].
  destruct (Z.leb_spec (48 + d) 13); [lia|done].
Qed.

Lemma scan_lit c l f pos n acc : scan (DLit c :: f) (c :: l) pos n acc = scan f l (pos + 1) n acc.
Proof. simpl. by rewrite Z.eqb_refl. Qed.

Lemma scan_space_one c l f pos n acc :
  is_space c = false -> scan (DSpace :: f) (SPACE :: c :: l) pos n acc = scan f (c :: l) (pos + 1) n acc.
Proof.
  intros Hc. simpl. rewrite Hc. f_equal. rewrite !zlen_cons. lia.
Qed.

(** [%hhd] on a two-digit id followed by a non-digit. *)
Lemma scan_id v rest f pos n acc :
  id_in_range v -> (forall c l, rest = c :: l -> is_digit c = false) ->
  scan (DInt :: f) ((48 + v / 10) :: (48 + v mod 10) :: rest) pos n acc =
  scan f rest (pos + 2) (n + 1) (VInt v :: acc).
Proof.
  unfold id_in_range, MAX_NODE_ID. intros Hv Hrest.
  assert (Hd1 : 0 <= v / 10 <= 9).
  { split; [apply Z.div_pos; lia|]. assert (v / 10 < 10) by (apply Z.div_lt_upper_bound; lia). lia. }
  assert (Hd2 : 0 <= v mod 10 <= 9) by (pose proof (Z.mod_pos_bound v 10); lia).
  simpl. rewrite (digit_not_space (v / 10)) by done. unfold scan_int.
  destruct (Z.eqb_spec (48 + v / 10) 45); [lia|]. destruct (Z.eqb_spec (48 + v / 10) 43); [lia|].
  simpl. rewrite !is_digit_of by done.
  assert (Hs : span_digits rest = ([], rest)).
  { destruct rest as [|c l]; [done|]. simpl. by rewrite (Hrest c l eq_refl). }
  rewrite Hs.
  assert (Hdec : decimal [48 + v / 10; 48 + v mod 10] = v) by (apply (atoi_two_digits v); unfold id_in_range, MAX_NODE_ID; lia).
  rewrite Hdec, schar_small by (unfold LONG_MIN, LONG_MAX; lia).
  replace (LONG_MIN `max` (LONG_MAX `min` (1 * v))) with v by (unfold LONG_MIN, LONG_MAX; lia).
  f_equal. rewrite !zlen_cons. lia.
Qed.

Lemma span_word_all w s :
  (forall c, In c s -> is_space c = false) -> (length s <= w)%nat -> span_word (Some w) s = (s, []).
Proof.
  revert w. induction s as [|c s IH]; intros w Hs Hw; [done|].
  simpl. rewrite Hs by (by left). destruct w as [|w]; [simpl in Hw; lia|].
  rewrite IH; [done| |simpl in Hw; lia]. intros c' Hc'. apply Hs. by right.
Qed.

(** [%Ns] on a word of at most [N] bytes that ends the input. *)
Lemma scan_word w s f pos n acc :
  s <> [] -> (forall c, In c s -> is_space c = false) -> (length s <= w)%nat ->
  scan (DStr (Some w) :: f) s pos n acc = scan f [] (pos + zlen s) (n + 1) (VStr s :: acc).
Proof.
  intros Hne Hs Hw. destruct s as [|c s']; [done|].
  simpl. rewrite Hs by (by left). rewrite span_word_all by done.
  f_equal. unfold zlen. simpl. lia.
Qed.

(** ** The characters of a printed path *)

Definition path_char (c : Z) : bool := is_digit c || (c =? DASH).

Lemma path_char_spec c : path_char c = true -> is_space c = false /\ c <> NUL /\ is_digit c || (c =? DASH) = true.
Proof.
  unfold path_char, is_digit, is_space, DASH, NUL. intros H. split; [|split; [|done]].
  - apply orb_true_iff in H as [H|H]; [apply andb_true_iff in H as [H1 H2]|apply Z.eqb_eq in H; subst; done].
    apply Z.leb_le in H1, H2. destruct (Z.eqb_spec c 32); [lia|].
    destruct (Z.leb_spec 9 c); [|done]. destruct (Z.leb_spec c 13); [lia|done].
  - apply orb_true_iff in H as [H|H]; [apply andb_true_iff in H as [H1 H2]; apply Z.leb_le in H1; lia|].
    apply Z.eqb_eq in H. lia.
Qed.

Lemma fmt_id_chars v c : id_in_range v -> In c (fmt_id v) -> path_char c = true.
Proof.
  intros Hv Hc. rewrite fmt_id_in_range in Hc by done. unfold id_in_range, MAX_NODE_ID in Hv.
  assert (v / 10 < 10) by (apply Z.div_lt_upper_bound; lia).
  pose proof (Z.div_pos v 10). pose proof (Z.mod_pos_bound v 10).
  unfold path_char. destruct Hc as [<-|[<-|[]]]; rewrite is_digit_of by lia; done.
Qed.

Lemma path_to_string_chars a rid p s :
  id_in_range a -> id_in_range rid -> Forall id_in_range (take (Z.to_nat (hop_count p)) (nodes p)) ->
  path_to_string a rid p = Ok s -> forall c, In c s -> path_char c = true.
Proof.
  intros Ha Hr Hf Hs c Hc. unfold path_to_string in Hs.
  destruct (_ =? INVALID_PATH); [injection Hs as <-; done|]. destruct (_ =? -1); [done|].
  injection Hs as <-. rewrite !in_app_iff in Hc.
  destruct Hc as [Hc|[<-|Hc]]; [by apply (fmt_id_chars a)|reflexivity|].
  apply in_app_iff in Hc as [Hc|Hc]; [|by apply (fmt_id_chars rid)].
  apply in_concat in Hc as (w & Hw & Hc). apply in_map_iff in Hw as (n & <- & Hn).
  apply in_app_iff in Hc as [Hc|Hc]; [|simpl in Hc; destruct Hc as [<-|[]]; reflexivity].
  apply (fmt_id_chars n); [|done]. rewrite List.Forall_forall in Hf. by apply Hf.
Qed.

(** ** The [ROUTE] line *)

(** [sscanf(message, "ROUTE %hhd %hhd %47s", ...)] on a line
    [ROUTE <a> <rid> <path>] reads the two ids and the whole path. *)
Lemma sscanf_route_line a rid s :
  id_in_range a -> id_in_range rid -> s <> [] -> (forall c, In c s -> path_char c = true) ->
  (length s <= 47)%nat ->
  sscanf (bytes "ROUTE " ++ fmt_id a ++ [SPACE] ++ fmt_id rid ++ [SPACE] ++ s) "ROUTE %hhd %hhd %47s" =
  (3, [VInt a; VInt rid; VStr s]).
Proof.
  intros Ha Hr Hne Hs Hlen. unfold sscanf.
  assert (Hsp : forall c, In c s -> is_space c = false) by (intros c Hc; by apply path_char_spec, Hs).
  rewrite cstr_id.
  2: { rewrite !Forall_app. repeat split.
       - repeat constructor; vm_compute; discriminate.
       - apply List.Forall_forall. intros c Hc. apply fmt_id_chars in Hc; [|done]. by apply path_char_spec.
       - repeat constructor. vm_compute. discriminate.
       - apply List.Forall_forall. intros c Hc. apply fmt_id_chars in Hc; [|done]. by apply path_char_spec.
       - repeat constructor. vm_compute. discriminate.
       - apply List.Forall_forall. intros c Hc. by apply path_char_spec, Hs. }
  replace (parse_format (bytes "ROUTE %hhd %hhd %47s"))
    with [DLit 82; DLit 79; DLit 85; DLit 84; DLit 69; DSpace; DInt; DSpace; DInt; DSpace; DStr (Some 47%nat)]
    by (vm_compute; reflexivity).
  rewrite !fmt_id_in_range by done.
  destruct s as [|c s']; [done|].
  change (bytes "ROUTE ") with [82; 79; 85; 84; 69; SPACE]. cbn [app].
  rewrite !scan_lit.
  unfold id_in_range, MAX_NODE_ID in Ha, Hr.
  assert (Ha1 : 0 <= a / 10 <= 9).
  { split; [apply Z.div_pos; lia|]. assert (a / 10 < 10) by (apply Z.div_lt_upper_bound; lia). lia. }
  assert (Hr1 : 0 <= rid / 10 <= 9).
  { split; [apply Z.div_pos; lia|]. assert (rid / 10 < 10) by (apply Z.div_lt_upper_bound; lia). lia. }
  rewrite scan_space_one by (apply digit_not_space; lia).
  rewrite scan_id by (unfold id_in_range, MAX_NODE_ID; try lia; by intros ?? [= <- _]).
  rewrite scan_space_one by (apply digit_not_space; lia).
  rewrite scan_id by (unfold id_in_range, MAX_NODE_ID; try lia; by intros ?? [= <- _]).
  rewrite scan_space_one by (apply Hsp; by left).
  rewrite scan_word by done.
  reflexivity.
Qed.

Lemma path_to_string_nonempty a rid p s :
  id_in_range a -> hop_count p <> INVALID_PATH -> path_to_string a rid p = Ok s -> s <> [].
Proof.
  intros Ha Hh Hs. unfold path_to_string in Hs.
  destruct (Z.eqb_spec (hop_count p) INVALID_PATH); [done|]. destruct (_ =? -1); [done|].
  injection Hs as <-. rewrite fmt_id_in_range by done. done.
Qed.

(** The [ROUTE] branch of [handle_message_from_any_node] on a line
    [ROUTE <a> <rid> <path>] from the connection of node [a]: the path
    goes to the routing engine. *)
Lemma any_node_route_line a rid s path g j :
  id_in_range a -> id_in_range rid -> s <> [] -> (forall c, In c s -> path_char c = true) ->
  (length s <= 47)%nat -> parse_path s = Ok (Some path) -> 1 <= hop_count path -> a <> rid ->
  node_id (connections (reg g)).[j] = a -> a <> Node.id (self g) ->
  handle_message_from_any_node (bytes "ROUTE " ++ fmt_id a ++ [SPACE] ++ fmt_id rid ++ [SPACE] ++ s) (Some j) g =
  (update_routing_and_announce_m a rid (Some path) ;; ret true) g.
Proof.
  intros Ha Hr Hne Hs Hlen Hp Hhop Hrid Hj Hself. unfold handle_message_from_any_node.
  rewrite sscanf_route_line by done.
  unfold bind at 1. unfold deref, gets. cbn [bind get]. rewrite Hj, Z.eqb_refl. cbn [negb].
  destruct (Z.eqb_spec a (Node.id (self g))); [done|].
  unfold bind at 1, lift. rewrite Hp. cbn.
  destruct (Z.eqb_spec a rid); [done|]. destruct (Z.eqb_spec (hop_count path) 0); [lia|]. done.
Qed.

(** ** The round trip of an announcement *)

(** The [ROUTE] line [get_route_message] writes for a path string. *)
Definition route_line (a rid : Z) (s : list Z) : list Z :=
  bytes "ROUTE " ++ fmt_id a ++ [SPACE] ++ fmt_id rid ++ [SPACE] ++ s.

(** The sender's side: the line fits [route_msg], and its path string is
    one the [ROUTE] parser reads back. *)
Lemma route_message_parts (a rid : Z) (p : Path) :
  id_in_range a -> id_in_range rid ->
  0 <= hop_count p <= MAX_NODES - 2 -> (Z.to_nat (hop_count p) <= length (nodes p))%nat ->
  Forall id_in_range (take (Z.to_nat (hop_count p)) (nodes p)) ->
  exists s, get_route_message a rid (Some p) = Ok (route_line a rid s ++ [LF]) /\
    s <> [] /\ (forall c, In c s -> path_char c = true) /\ (length s <= 47)%nat /\
    parse_path s = Ok (Some (mkPath (hop_count p + 1) (a :: take (Z.to_nat (hop_count p)) (nodes p) ++ [rid]))).
Proof.
  intros Ha Hr Hh Hl Hf.
  destruct (path_string_parse_back a rid p Ha Hr Hh Hl Hf) as (s & Hs & Hlen & Hparse).
  assert (Hinv : hop_count p <> INVALID_PATH) by (unfold INVALID_PATH; lia).
  exists s. split; [|split; [by apply (path_to_string_nonempty a rid p)|]].
  - rewrite (get_route_message_path a rid p s) by done. unfold route_line. by rewrite <- !app_assoc.
  - split; [by apply (path_to_string_chars a rid p)|]. split; [|done].
    unfold zlen, MAX_PATH_STR_LENGTH in Hlen. lia.
Qed.

(** The line holds no line feed and no NUL, and has at most 59 bytes. *)
Lemma route_line_bytes a rid s :
  id_in_range a -> id_in_range rid -> (forall c, In c s -> path_char c = true) -> (length s <= 47)%nat ->
  Forall (fun c => c <> LF /\ c <> NUL) (route_line a rid s) /\ (length (route_line a rid s) <= 59)%nat.
Proof.
  intros Ha Hr Hs Hl. unfold route_line. rewrite fmt_id_in_range, (fmt_id_in_range rid) by done.
  split; [|rewrite !length_app; simpl; lia].
  assert (Hd : forall v, id_in_range v -> Forall (fun c => c <> LF /\ c <> NUL) [48 + v / 10; 48 + v mod 10]).
  { intros v Hv. unfold id_in_range, MAX_NODE_ID in Hv.
    assert (0 <= v / 10 < 10) by (split; [apply Z.div_pos|apply Z.div_lt_upper_bound]; lia).
    assert (0 <= v mod 10 < 10) by (apply Z.mod_pos_bound; lia).
    repeat constructor; unfold LF, NUL; lia. }
  repeat apply Forall_app_2; try apply Hd; try done; try (repeat constructor; discriminate).
  apply List.Forall_forall. intros c Hc. apply Hs in Hc. unfold path_char, is_digit, DASH in Hc.
  unfold LF, NUL. apply orb_true_iff in Hc as [Hc|Hc];
    [apply andb_true_iff in Hc as [H1 H2]; apply Z.leb_le in H1, H2|apply Z.eqb_eq in Hc]; lia.
Qed.

(** C6: round trip of a routing announcement between two nodes (spec
    properties "announcement on link-up", "line framing" and "round-trip
    parsing").  Take node ids [a] and [rid] of the protocol and a path
    of at most [MAX_NODES - 2] stored hops.  [get_route_message] gives a
    line that fits [route_msg], and [conn_printf] writes it whole.  The
    neighbor's [read_lines] on a fresh connection buffer delivers exactly
    that line, without its line feed, and nothing is left over.  Handled
    on the neighbor's connection to [a], the line reaches its routing
    engine as [update_routing_and_announce_given_new_path(a, rid, path)],
    with the path as the neighbor sees it: [a], the stored hops, [rid]. *)
Theorem route_announcement_roundtrip (a rid : Z) (p : Path) (buf : list Z) :
  id_in_range a -> id_in_range rid -> a <> rid ->
  0 <= hop_count p <= MAX_NODES - 2 -> (Z.to_nat (hop_count p) <= length (nodes p))%nat ->
  Forall id_in_range (take (Z.to_nat (hop_count p)) (nodes p)) ->
  zlen buf = MAX_NODE_MESSAGE_SIZE ->
  exists s, let line := route_line a rid s in
    get_route_message a rid (Some p) = Ok (line ++ [LF]) /\
    (let out := read_lines MAX_NODE_MESSAGE_SIZE (ReadData (conn_printf_bytes (line ++ [LF]))) buf 0 in
     rl_lines out = [line] /\ rl_result out = RL_OK /\ rl_index out = 0) /\
    forall g j, node_id (connections (reg g)).[j] = a -> a <> Node.id (self g) ->
      handle_message_from_any_node line (Some j) g =
      (update_routing_and_announce_m a rid
         (Some (mkPath (hop_count p + 1) (a :: take (Z.to_nat (hop_count p)) (nodes p) ++ [rid]))) ;;
       ret true) g.
Proof.
  intros Ha Hr Hne Hh Hl Hf Hbuf.
  destruct (route_message_parts a rid p Ha Hr Hh Hl Hf) as (s & Hm & Hs0 & Hs & Hlen & Hparse).
  destruct (route_line_bytes a rid s Ha Hr Hs Hlen) as [Hbytes Hll].
  exists s. cbv zeta. split; [done|]. split.
  - assert (Hw : conn_printf_bytes (route_line a rid s ++ [LF]) = route_line a rid s ++ [LF]).
    { unfold conn_printf_bytes. apply take_ge. rewrite length_app.
      change (length [LF]) with 1%nat. unfold MAX_NODE_MESSAGE_SIZE. lia. }
    rewrite Hw. cbv zeta.
    destruct (read_lines_one_line MAX_NODE_MESSAGE_SIZE buf (route_line a rid s)) as (-> & -> & ->).
    + eapply Forall_impl; [exact Hbytes|]. by intros c [? _].
    + rewrite Hbuf. unfold zlen, MAX_NODE_MESSAGE_SIZE. lia.
    + unfold MAX_NODE_MESSAGE_SIZE. lia.
    + rewrite cstr_id; [done|]. eapply Forall_impl; [exact Hbytes|]. by intros c [_ ?].
  - intros g j Hj Hself. apply any_node_route_line; (done || simpl; lia).
Qed.

(** Node 20 announces its one-hop path to 40 via 30 to node 10, whose
    slot 0 is the connection to 20: node 10 reads one line and its
    routing engine receives [20-30-40]. *)
Lemma route_announcement_roundtrip_witness :
  exists s, let line := route_line 20 40 s in
    get_route_message 20 40 (Some (mkPath 1 [30])) = Ok (line ++ [LF]) /\
    (let out := read_lines MAX_NODE_MESSAGE_SIZE (ReadData (conn_printf_bytes (line ++ [LF])))
                  (repeat 0 (Z.to_nat MAX_NODE_MESSAGE_SIZE)) 0 in
     rl_lines out = [line] /\ rl_result out = RL_OK /\ rl_index out = 0) /\
    forall g j, node_id (connections (reg g)).[j] = 20 -> 20 <> Node.id (self g) ->
      handle_message_from_any_node line (Some j) g =
      (update_routing_and_announce_m 20 40
         (Some (mkPath (1 + 1) (20 :: take (Z.to_nat 1) [30] ++ [40]))) ;; ret true) g.
Proof.
  apply (route_announcement_roundtrip 20 40 (mkPath 1 [30]));
    [unfold id_in_range, MAX_NODE_ID, MAX_NODES; simpl; repeat constructor; lia ..
    |vm_compute; reflexivity].
Defined.

(** ** The free-slot marker on the wire *)

(** Node 10 with its neighbor 20 on slot 0 (socket 5), through which it
    reaches 30. *)
Definition node10_via_20 : Globals :=
  set_rt run_learn_30 (set_reg registry_node20 (set_self (Node.mk 10 [] []) globals_zero)).

(** C30: the [ROUTE] handler does not range-check ids, and [-1] is the
    routing tables' free-slot marker.  Neighbor 20's line
    [ROUTE 20 -1 20-5] passes every check of
    [handle_message_from_any_node].  [get_recipient_index(-1)] then
    finds the first free row as if it were the row of node [-1], so the
    path is stored in a row that stays free.  The node announces
    [ROUTE 10 -1 10-20--1] to every neighbor.  The spec says
    announcements that fail the invariants are discarded. *)
Theorem route_to_free_marker_announced :
  match handle_message_from_any_node (bytes "ROUTE 20 -1 20-5") (Some 0) node10_via_20 with
  | Ok (true, g) =>
      trace g = [Sent 5 (bytes "ROUTE 10 -1 10-20--1" ++ [LF])] /\
      recipient_ids (rt g) = recipient_ids (rt node10_via_20)
  | _ => False
  end.
Proof. vm_compute. split; reflexivity. Qed.
