(* ===== verification/NodeServer.v ===== *)
(** * NodeServer: the directory client of [src/node-server.c]

    [init_ns] opens the UDP socket and resolves the directory's address
    (the environment's [net_resolve]; failure is fatal).

    [request_node_list] sends [NODES <ring>] and waits a second for the
    answer (the environment's [net_nodes_reply]); [parse_node_list] reads
    the [NODESLIST] datagram line by line into [node_arr].  The datagram is
    the list of the bytes [recvfrom] stored; a read outside them is
    [Undefined] (the buffer holds bytes of no earlier datagram we know).
    The parser's loop advances to the byte after the next line feed, so it
    runs at most [length] times: [parse_node_list_terminates] shows that
    this fuel is enough. *)

From S2P Require Import Prelude Scanf Path Connections Routing State Show Ring.

(** [message[k]] of the received datagram. *)
Definition msg_at (msg : list Z) (k : Z) : outcome Z :=
  if (0 <=? k) && (k <? zlen msg) then Ok msg.[k] else Undefined "read outside the received datagram".

(** [while (message[i] != '\n') i++; i++;] *)
Definition next_line (msg : list Z) (i : Z) : Z :=
  i + find_index (fun c => c =? LF) (drop (Z.to_nat i) msg) + 1.

(** One turn of the loop of [parse_node_list]: the line at [i] is
    scanned into [node_arr.nodes[n]] (whatever [n] is), and counted unless
    chord mode filters it out; [k] is the rest of the loop. *)
Definition node_line_step (k : Z -> list Node.t -> outcome (list Node.t)) (msg : list Z)
    (chord_mode : bool) (self_id : Z) (r : Registry) (i : Z) (nodes : list Node.t) : outcome (list Node.t) :=
  if i <? zlen msg then
    match sscanf (drop (Z.to_nat i) msg) "%hhd %15s %5s\n" with
    | (3, [VInt id; VStr ip; VStr port]) =>
        if MAX_NODES <=? zlen nodes then Undefined "node_arr.nodes[n] with n >= MAX_NODES"
        else
          let keep := negb chord_mode ||
                      (negb (self_id =? id) && bool_decide (find_connection_by_node_id id r = None)) in
          k (next_line msg i) (if keep then nodes ++ [Node.mk id ip port] else nodes)
    | _ => Exit "Failed to parse node list."
    end
  else Ok nodes.

(** The loop, run with [fuel] turns. *)
Fixpoint parse_node_lines (fuel : nat) (msg : list Z) (chord_mode : bool) (self_id : Z) (r : Registry)
    (i : Z) (nodes : list Node.t) : outcome (list Node.t) :=
  match fuel with
  | O => Ok nodes
  | S f => node_line_step (parse_node_lines f msg chord_mode self_id r) msg chord_mode self_id r i nodes
  end.

(** [parse_node_list(message, length, chord_mode)] *)
Definition parse_node_list (msg : list Z) (chord_mode : bool) (self_id : Z) (r : Registry)
    : outcome (list Node.t) :=
  let! c13 := msg_at msg 13 in
  if negb (c13 =? LF) then Exit "Malformed node list header."
  else
    let! cl := msg_at msg (zlen msg - 1) in
    if negb (cl =? LF) then Exit "Node list doesn't end with a line feed character."
    else parse_node_lines (length msg) msg chord_mode self_id r 14 [].

(** The first id in [0, 100) no listed node has, or [100]. *)
Definition first_unused_id (nodes : list Node.t) : Z :=
  let k := find_index (fun k => negb (existsb (fun n => Node.id n =? k) nodes)) (zrange 100) in
  if k =? -1 then 100 else k.

Section Client.
Context `{Net}.

(** [init_ns(ns_addr_str, ns_port_str)]: the UDP socket takes the lowest
    free descriptor; an address [getaddrinfo] cannot resolve is fatal. *)
Definition init_ns (ns_addr ns_port : list Z) : M unit :=
  let* g := get in
  modify (set_sockets (public_socket g) (lowest_fd (open_fds g))) ;;
  if net_resolve (Some ns_addr) ns_port then ret tt
  else lift (Exit "Couldn't get the node server address").

(** [printf("Please select a node ID to use as the %s: ", ...)] *)
Definition selection_prompt (a : NodeListAction) : list Z :=
  bytes "Please select a node ID to use as the " ++
  bytes (if bool_decide (a = JOIN_ACTION) then "successor" else "chord neighbor") ++ bytes ": ".

(** [request_node_list(ring_id_str)] *)
Definition request_node_list : M unit :=
  let* g := get in
  let* nodes_msg := sprintf_into 10 (bytes "NODES " ++ ring_id_str g) "sprintf past nodes_msg" in
  send_ns_message (nodes_msg ++ [NUL]) 10 ;;
  match net_nodes_reply (ring_id_str g) with
  | None =>
      print (bytes "Timeout while waiting for the node list response from the node server. Connection aborted." ++ [LF]) ;;
      leave_ring
  | Some resp =>
      if negb (starts_with resp "NODESLIST ") then ret tt
      else
        let* g := get in
        let* nodes := lift (parse_node_list resp (bool_decide (node_list_action g = CHORD_ACTION))
                                            (Node.id (self g)) (reg g)) in
        modify (set_node_arr nodes) ;;
        let prompt := print (selection_prompt (node_list_action g)) in
        if bool_decide (node_list_action g = JOIN_ACTION) then
          if bool_decide (nodes = []) then
            print (bytes "There are no nodes in node list for the ring " ++ ring_id_str g ++
                   bytes ". We are the only node in the ring." ++ [LF]) ;;
            copy_node set_succ (self g) ;;
            copy_node set_second_succ (self g) ;;
            modify (fun g => set_rt (init_routing (rt g)) g) ;;
            on_join_end
          else
            print (bytes "Nodes currently in the ring:" ++ [LF]) ;;
            print_node_table ;;
            (if existsb (fun n => Node.id n =? Node.id (self g)) nodes then
               let new_id := first_unused_id nodes in
               (if 100 <=? new_id then
                  print (bytes "No available node IDs left in the ring. Joining procedure aborted." ++ [LF]) ;;
                  modify (set_connection_state DISCONNECTED)
                else ret tt) ;;
               modify (fun g => set_self (Node.mk new_id (Node.ip_addr (self g)) (Node.tcp_port (self g))) g)
             else ret tt) ;;
            modify (set_connection_state AWAITING_USER_SELECTION) ;;
            modify (set_input_state JOIN_NODE_SELECTION) ;;
            prompt
        else if bool_decide (node_list_action g = CHORD_ACTION) then
          if bool_decide (nodes = []) then
            print (bytes "There are no nodes to which we can create a chord." ++ [LF])
          else
            print (bytes "Nodes you can create a chord to:" ++ [LF]) ;;
            print_node_table ;;
            modify (set_input_state CHORD_NODE_SELECTION) ;;
            prompt
        else prompt
  end.
End Client.

(** ** The loop of [parse_node_list] *)

(** [while (message[i] != '\n') i++; i++;] moves past [i] and stays in
    the datagram when it ends with a line feed. *)
Lemma next_line_progress msg i :
  0 <= i < zlen msg -> msg.[zlen msg - 1] = LF -> i < next_line msg i <= zlen msg.
Proof.
  intros Hi Hlf. unfold next_line.
  assert (Hd : 0 <= zlen msg - 1 - i < zlen (drop (Z.to_nat i) msg)) by (rewrite zlen_drop; lia).
  assert (Hp : (fun c => c =? LF) (drop (Z.to_nat i) msg).[zlen msg - 1 - i] = true).
  { rewrite zget_drop by lia. replace (i + (zlen msg - 1 - i)) with (zlen msg - 1) by lia.
    rewrite Hlf. reflexivity. }
  pose proof (find_index_found _ _ _ Hd Hp). lia.
Qed.

(** Fuel [length msg - i] is enough: more fuel gives the same result, so
    [parse_node_lines] computes the loop to its end. *)
Lemma parse_node_lines_enough_fuel msg cm sid r f i nodes :
  msg.[zlen msg - 1] = LF -> 0 <= i -> (Z.to_nat (zlen msg - i) <= f)%nat ->
  parse_node_lines (S f) msg cm sid r i nodes = parse_node_lines f msg cm sid r i nodes.
Proof.
  intros Hlf. revert i nodes. induction f as [|f IH]; intros i nodes Hi Hf.
  - simpl. unfold node_line_step. destruct (Z.ltb_spec i (zlen msg)); [lia|done].
  - change (node_line_step (parse_node_lines (S f) msg cm sid r) msg cm sid r i nodes =
            node_line_step (parse_node_lines f msg cm sid r) msg cm sid r i nodes).
    unfold node_line_step. destruct (Z.ltb_spec i (zlen msg)) as [Hlt|]; [|done].
    pose proof (next_line_progress msg i (conj Hi Hlt) Hlf).
    destruct (sscanf _ _) as [cnt vals]. repeat (case_match; try done); apply IH; lia.
Qed.

Lemma parse_node_lines_bound f msg cm sid r i nodes nodes' :
  zlen nodes <= MAX_NODES -> parse_node_lines f msg cm sid r i nodes = Ok nodes' -> zlen nodes' <= MAX_NODES.
Proof.
  revert i nodes. induction f as [|f IH]; intros i nodes Hn; simpl; [by intros [= <-]|].
  unfold node_line_step. destruct (_ <? _); [|by intros [= <-]].
  destruct (sscanf _ _) as [cnt vals]. repeat (case_match; try done).
  all: apply IH; unfold zlen in *; rewrite ?length_app; simpl; lia.
Qed.

(** The search of an unused id: the first id of [0, 100) no listed node
    has, when there are fewer than 100 nodes. *)
Lemma first_unused_id_spec nodes :
  (length nodes < 100)%nat ->
  0 <= first_unused_id nodes < 100 /\
  (forall n, In n nodes -> Node.id n <> first_unused_id nodes) /\
  (forall k, 0 <= k < first_unused_id nodes -> exists n, In n nodes /\ Node.id n = k).
Proof.
  intros Hlen. unfold first_unused_id.
  set (p := fun k => negb (existsb (fun n => Node.id n =? k) nodes)).
  assert (Hp : forall k, p k = false -> exists n, In n nodes /\ Node.id n = k).
  { intros k Hk. unfold p in Hk. apply negb_false_iff, existsb_exists in Hk as (n & Hn & E).
    exists n. split; [done|]. by apply Z.eqb_eq. }
  assert (H100 : zlen (zrange 100) = 100) by (apply zlen_zrange; lia).
  destruct (find_index_spec p (zrange 100)) as [[E Hall]|[Hr [Hfound Hbefore]]].
  - exfalso.
    assert (Hincl : incl (zrange 100) (map Node.id nodes)).
    { intros k Hk%In_zrange. destruct (Hp k) as (n & Hn & <-).
      { rewrite <- (zget_zrange 100 k) by lia. apply Hall. lia. }
      by apply in_map. }
    pose proof (NoDup_incl_length (NoDup_zrange 100) Hincl) as Hl.
    rewrite length_map in Hl. unfold zlen in H100. lia.
  - rewrite H100 in Hr. destruct (Z.eqb_spec (find_index p (zrange 100)) (-1)); [lia|].
    rewrite zget_zrange in Hfound by lia.
    split; [lia|]. split.
    + intros m Hm E.
      assert (Hx : existsb (fun n => Node.id n =? find_index p (zrange 100)) nodes = false)
        by (apply negb_true_iff; exact Hfound).
      assert (existsb (fun n => Node.id n =? find_index p (zrange 100)) nodes = true)
        by (apply existsb_exists; exists m; split; [done|]; by apply Z.eqb_eq).
      congruence.
    + intros k Hk. apply Hp. rewrite <- (zget_zrange 100 k) by lia. apply Hbefore. lia.
Qed.

(** A [NODESLIST abc] datagram listing the nodes [00] to [n - 1]. *)
Definition nodes_datagram (n : Z) : list Z :=
  bytes "NODESLIST abc" ++ [LF] ++
  concat (map (fun k => fmt_id k ++ bytes " 10.0.0.1 5000" ++ [LF]) (zrange n)).

(** ** Properties of the directory client *)

(** C25: termination of the loop of [parse_node_list]: every turn moves
    [i] past the next line feed, so once the datagram ends with one (which
    [parse_node_list] checks before the loop) [length] turns reach the end
    of the loop: any more fuel gives the same result. *)
Theorem parse_node_list_terminates msg cm sid r k :
  msg.[zlen msg - 1] = LF ->
  parse_node_lines (length msg + k) msg cm sid r 14 [] = parse_node_lines (length msg) msg cm sid r 14 [].
Proof.
  intros Hlf. induction k as [|k IH]; [by rewrite Nat.add_0_r|].
  rewrite Nat.add_succ_r, parse_node_lines_enough_fuel; [done|done|lia|]. unfold zlen. lia.
Qed.

Lemma parse_node_list_terminates_witness :
  (nodes_datagram 3).[zlen (nodes_datagram 3) - 1] = LF /\
  parse_node_lines (length (nodes_datagram 3) + 7) (nodes_datagram 3) false 10 registry_init 14 [] =
  parse_node_lines (length (nodes_datagram 3)) (nodes_datagram 3) false 10 registry_init 14 [].
Proof.
  split; [vm_compute; reflexivity|].
  apply parse_node_list_terminates. vm_compute. reflexivity.
Defined.

(** C26: a node list that parses has at most [MAX_NODES] entries, so the
    search of [request_node_list] for an unused id always finds one in
    [0, 100) that no listed node has: the "no available node IDs" branch,
    which sets [DISCONNECTED] and then goes on with the join, is never
    taken. *)
Theorem parse_node_list_unused_id msg cm sid r nodes :
  parse_node_list msg cm sid r = Ok nodes ->
  zlen nodes <= MAX_NODES /\ 0 <= first_unused_id nodes < 100 /\
  (forall n, In n nodes -> Node.id n <> first_unused_id nodes).
Proof.
  intros Hp. assert (Hb : zlen nodes <= MAX_NODES).
  { unfold parse_node_list in Hp. destruct (msg_at msg 13); [|done|done].
    destruct (negb _); [done|]. destruct (msg_at msg _); [|done|done]. destruct (negb _); [done|].
    eapply parse_node_lines_bound, Hp. done. }
  destruct (first_unused_id_spec nodes) as (? & ? & _); [unfold zlen, MAX_NODES in Hb; lia|].
  done.
Qed.

Lemma parse_node_list_unused_id_witness :
  parse_node_list (nodes_datagram 3) false 10 registry_init =
    Ok [Node.mk 0 (bytes "10.0.0.1") (bytes "5000"); Node.mk 1 (bytes "10.0.0.1") (bytes "5000");
        Node.mk 2 (bytes "10.0.0.1") (bytes "5000")] /\
  zlen [Node.mk 0 (bytes "10.0.0.1") (bytes "5000"); Node.mk 1 (bytes "10.0.0.1") (bytes "5000");
        Node.mk 2 (bytes "10.0.0.1") (bytes "5000")] <= MAX_NODES /\
  0 <= first_unused_id [Node.mk 0 (bytes "10.0.0.1") (bytes "5000"); Node.mk 1 (bytes "10.0.0.1") (bytes "5000");
        Node.mk 2 (bytes "10.0.0.1") (bytes "5000")] < 100 /\
  (forall n, In n [Node.mk 0 (bytes "10.0.0.1") (bytes "5000"); Node.mk 1 (bytes "10.0.0.1") (bytes "5000");
        Node.mk 2 (bytes "10.0.0.1") (bytes "5000")] ->
     Node.id n <> first_unused_id [Node.mk 0 (bytes "10.0.0.1") (bytes "5000");
        Node.mk 1 (bytes "10.0.0.1") (bytes "5000"); Node.mk 2 (bytes "10.0.0.1") (bytes "5000")]).
Proof.
  assert (Hp : parse_node_list (nodes_datagram 3) false 10 registry_init =
    Ok [Node.mk 0 (bytes "10.0.0.1") (bytes "5000"); Node.mk 1 (bytes "10.0.0.1") (bytes "5000");
        Node.mk 2 (bytes "10.0.0.1") (bytes "5000")]) by (vm_compute; reflexivity).
  split; [exact Hp|]. exact (parse_node_list_unused_id _ _ _ _ _ Hp).
Defined.

(** C27: [parse_node_list] has no bound on the number of lines: a list of
    sixteen nodes is read, a seventeenth line is scanned into
    [node_arr.nodes[16]], past the array of [MAX_NODES] entries. *)
Theorem parse_node_list_overflows :
  (exists nodes, parse_node_list (nodes_datagram 16) false 10 registry_init = Ok nodes /\ zlen nodes = 16) /\
  parse_node_list (nodes_datagram 17) false 10 registry_init =
    Undefined "node_arr.nodes[n] with n >= MAX_NODES".
Proof. split; [eexists; split; vm_compute; reflexivity|vm_compute; reflexivity]. Qed.
