(* ===== verification/RingInv.v ===== *)
(** * RingInv: the registry invariant every entry point of [src/ring.c] keeps

    [reg_inv] is [reg_wf] of [Connections.v] (role pointers NULL or on
    distinct live slots, live descriptors distinct and non-negative, the
    table of [MAX_CONNECTIONS] slots) together with [watched]: every live
    descriptor is in [select_inputs], so that the lowest descriptor not
    open, the one [socket(2)] returns in [connect_to_node], is fresh.

    Each operation of [Ring.v] gets a [keeps] lemma of [State.v]; the
    handlers are then proved by the tactic [keep], which walks through the
    binds and the branches of a handler and closes each primitive step
    with the hint database [keeps]. *)

From S2P Require Import Prelude Scanf Path Connections Routing State Ring.

Definition watched (r : Registry) : Prop :=
  forall i, live r i -> socket (connections r).[i] ∈ select_inputs r.

Definition reg_inv (r : Registry) : Prop := reg_wf r /\ watched r.

Definition ring_inv (g : Globals) : Prop := reg_inv (reg g).

(** A value that is NULL or a slot index of the table. *)
Definition slot_ok (p : option Z) : Prop := forall i, p = Some i -> 0 <= i < MAX_CONNECTIONS.

(** An executable check of [ring_inv]. *)
Definition ring_invb (g : Globals) : bool :=
  reg_wfb (reg g) &&
  forall_range MAX_CONNECTIONS (fun i =>
    negb (liveb (reg g) i) || bool_decide (socket (connections (reg g)).[i] ∈ select_inputs (reg g))).

(** ** The registry *)

Lemma ring_invb_sound g : ring_invb g = true -> ring_inv g.
Proof.
  unfold ring_invb. intros [Hwf Hw]%andb_true_iff. apply reg_wfb_sound in Hwf.
  split; [done|]. intros i Hi. pose proof Hi as [Hr _]. rewrite (wf_size _ Hwf) in Hr.
  pose proof (forall_range_spec _ _ Hw i Hr) as Hb. cbv beta in Hb. apply liveb_live in Hi. rewrite Hi in Hb.
  simpl in Hb. by apply bool_decide_eq_true in Hb.
Qed.

Lemma role_slots_set r nn pc sc oc :
  role_slots (set_role_ptrs nn pc sc oc r) = opt_list nn ++ opt_list pc ++ opt_list sc ++ opt_list oc.
Proof. unfold role_slots, roles. simpl. by rewrite app_nil_r. Qed.

Lemma role_slots_eq r :
  role_slots r = opt_list (new_node_conn r) ++ opt_list (pred_conn r) ++ opt_list (succ_conn r) ++
                 opt_list (outbound_chord_conn r).
Proof. unfold role_slots, roles. simpl. by rewrite app_nil_r. Qed.

(** A registry with the same descriptors, role slots and watched set. *)
Lemma reg_inv_frame r r' :
  reg_inv r -> zlen (connections r') = zlen (connections r) ->
  (forall j, 0 <= j < zlen (connections r) -> socket (connections r').[j] = socket (connections r).[j]) ->
  role_slots r' = role_slots r -> select_inputs r' = select_inputs r -> reg_inv r'.
Proof.
  intros [Hwf Hw] Hlen Hs Hroles Hsel.
  assert (Hlive : forall j, live r' j <-> live r j).
  { intros j. unfold live. rewrite Hlen. split; intros [Hj Hsj]; split; try done; [rewrite <- Hs|rewrite Hs]; done. }
  split; [constructor|].
  - rewrite Hlen. apply (wf_size r Hwf).
  - intros j Hj. apply Hlive. rewrite Hroles in Hj. by apply (wf_roles_live r Hwf).
  - rewrite Hroles. apply (wf_roles_nodup r Hwf).
  - intros j Hj. apply Hlive in Hj as Hj'. pose proof Hj' as [Hr _]. rewrite Hs by done.
    by apply (wf_socket_nonneg r Hwf).
  - intros j k Hj Hk. apply Hlive in Hj, Hk. pose proof Hj as [Hjr _]. pose proof Hk as [Hkr _].
    rewrite !Hs by done. by apply (wf_sockets_distinct r Hwf).
  - intros j Hj. apply Hlive in Hj as Hj'. pose proof Hj' as [Hr _]. rewrite Hs, Hsel by done. by apply Hw.
Qed.

(** Moving role pointers so that the new role slots are a sublist of the
    old ones (clearing a pointer, or [pred_conn = new_node_conn;
    new_node_conn = NULL;]). *)
Lemma reg_inv_roles_sublist r nn pc sc oc :
  reg_inv r -> role_slots (set_role_ptrs nn pc sc oc r) `sublist_of` role_slots r ->
  reg_inv (set_role_ptrs nn pc sc oc r).
Proof.
  intros [Hwf Hw] Hsub. split; [constructor|]; try apply Hwf; try done.
  - intros i Hi. apply (wf_roles_live r Hwf). apply list_elem_of_In.
    eapply elem_of_sublist; [|done]. by apply list_elem_of_In.
  - apply NoDup_ListNoDup. eapply sublist_NoDup; [|done]. apply NoDup_ListNoDup, Hwf.
Qed.

(** Giving a role to a live slot no role pointer designates: the new
    role slots are that slot and a sublist of the old ones. *)
Lemma reg_inv_roles_add r nn pc sc oc i l0 :
  reg_inv r -> live r i -> ~ In i (role_slots r) ->
  role_slots (set_role_ptrs nn pc sc oc r) ≡ₚ i :: l0 -> l0 `sublist_of` role_slots r ->
  reg_inv (set_role_ptrs nn pc sc oc r).
Proof.
  intros [Hwf Hw] Hi Hnot Hperm Hsub. split; [constructor|]; try apply Hwf; try done.
  - intros j Hj. apply list_elem_of_In in Hj. rewrite Hperm in Hj.
    apply elem_of_cons in Hj as [->|Hj]; [done|]. apply (wf_roles_live _ Hwf).
    apply list_elem_of_In. by eapply elem_of_sublist.
  - apply NoDup_ListNoDup. rewrite Hperm. apply NoDup_cons. split.
    + intros Hin. apply Hnot. apply list_elem_of_In. by eapply elem_of_sublist.
    + eapply sublist_NoDup; [|done]. apply NoDup_ListNoDup, Hwf.
Qed.

Lemma close_connection_inv r p : reg_inv r -> slot_ok p -> reg_inv (close_connection p r).
Proof.
  intros [Hwf Hw] Hp. destruct p as [i|]; [|by split].
  pose proof (Hp i eq_refl) as Hi. rewrite <- (wf_size r Hwf) in Hi.
  destruct (close_connection_correct r Hwf i Hi) as (Hwf' & Hnl & _ & Hsame & _).
  split; [done|]. intros j Hj.
  assert (Hne : j <> i) by (intros ->; done).
  pose proof Hj as [Hjr Hjs]. unfold close_connection in *.
  destruct (Z.eqb_spec (socket (connections r).[i]) (-1)) as [E|E]; [by apply Hw|].
  simpl in *. rewrite zlen_zset in Hjr. rewrite zget_zset_ne in * by lia.
  assert (Hlj : live r j) by (split; done).
  apply elem_of_difference. split; [by apply Hw|].
  intros Heq%elem_of_singleton. apply Hne, (wf_sockets_distinct r Hwf); [done|by split|done].
Qed.

Lemma add_connection_inv r s i r' :
  reg_inv r -> 0 <= s -> s ∉ select_inputs r -> add_connection s r = Ok (i, r') ->
  reg_inv r' /\ live r' i /\ ~ In i (role_slots r') /\ 0 <= i < MAX_CONNECTIONS.
Proof.
  intros [Hwf Hw] Hs Hfresh Hadd.
  assert (Hnot : forall j, live r j -> socket (connections r).[j] <> s).
  { intros j Hj E. apply Hfresh. rewrite <- E. by apply Hw. }
  pose proof (add_connection_correct r Hwf s Hs Hnot) as Hc. rewrite Hadd in Hc.
  destruct Hc as (Hwf' & _ & _ & Hroles & _ & _).
  destruct (add_connection_frame s r i r' Hadd) as (Hi & Hfree & Hsi & Hlen & Hsame & _ & Hsel).
  assert (Hli : live r' i) by (split; [lia|]; rewrite Hsi; lia).
  split; [split; [done|]|split; [done|split]].
  - intros j [Hj Hsj]. rewrite Hsel. destruct (decide (j = i)) as [->|Hne]; [rewrite Hsi; set_solver|].
    rewrite Hsame in * by lia. apply elem_of_union_r, Hw. split; [lia|done].
  - unfold role_slots. rewrite Hroles. fold (role_slots r). intros Hin.
    apply Hfree, (wf_roles_live r Hwf), Hin.
  - rewrite <- (wf_size r Hwf). lia.
Qed.

(** Rewriting one slot without changing its descriptor. *)
Lemma reg_inv_set_slot r i c :
  reg_inv r -> 0 <= i < zlen (connections r) -> socket c = socket (connections r).[i] ->
  reg_inv (set_connections r (zset (connections r) i c)) /\
  (forall j, live (set_connections r (zset (connections r) i c)) j <-> live r j).
Proof.
  intros Hinv Hi Hc.
  assert (Hs : forall j, 0 <= j -> socket (zset (connections r) i c).[j] = socket (connections r).[j]).
  { intros j Hj. rewrite zget_zset by lia. case_decide; subst; done. }
  split.
  - apply (reg_inv_frame r); simpl; try done; [apply zlen_zset|]. intros j Hj. apply Hs. lia.
  - intros j. unfold live. simpl. rewrite zlen_zset.
    split; intros [Hj Hsj]; (split; [done|]); [rewrite <- Hs|rewrite Hs]; try done; lia.
Qed.

(** [connect_to_node] keeps the invariant and returns, when it returns a
    slot, a live slot no role pointer designates. *)
Lemma connect_to_node_inv `{Net} n g :
  ring_inv g ->
  match connect_to_node n g with
  | Ok (p, g') => ring_inv g' /\
      (forall i, p = Some i -> live (reg g') i /\ ~ In i (role_slots (reg g')) /\ 0 <= i < MAX_CONNECTIONS)
  | _ => True
  end.
Proof.
  intros Hg. unfold connect_to_node.
  destruct (lowest_fd_spec (open_fds g)) as [Hs Hfresh].
  assert (Hfresh' : lowest_fd (open_fds g) ∉ select_inputs (reg g)) by (unfold open_fds in *; set_solver).
  destruct (net_connect n); [done| | |];
    (unfold bind, gets, add_connection_m, modify; simpl;
     destruct (add_connection _ (reg g)) as [[i r']| |] eqn:Hadd; [|done|done]; simpl;
     destruct (add_connection_inv (reg g) _ i r' Hg Hs Hfresh' Hadd) as (Hinv & Hli & Hnot & Hi);
     pose proof Hli as [Hir _];
     destruct (reg_inv_set_slot r' i (mkConn (socket (connections r').[i]) (Node.id n)
                 (buffer (connections r').[i]) (buffer_index (connections r').[i])
                 (Node.ip_addr n) (Node.tcp_port n)) Hinv Hir eq_refl) as [Hinv' Hlive];
     split; [done|]; intros j Hj;
     (discriminate || (injection Hj as <-; split; [by apply Hlive|]; split; [done|lia]))).
Qed.

(** ** The operations of [Ring.v] *)

Local Notation "'kept' m" := (keeps ring_inv m (fun _ => True)) (at level 10, m at level 9).

Lemma slot_ok_roles g : ring_inv g ->
  slot_ok (new_node_conn (reg g)) /\ slot_ok (pred_conn (reg g)) /\
  slot_ok (succ_conn (reg g)) /\ slot_ok (outbound_chord_conn (reg g)).
Proof.
  intros [Hwf _].
  assert (H : forall i, In i (role_slots (reg g)) -> 0 <= i < MAX_CONNECTIONS).
  { intros i Hi. apply (wf_roles_live _ Hwf) in Hi as [Hi _]. by rewrite (wf_size _ Hwf) in Hi. }
  split; [|split; [|split]]; intros k E; apply H, In_role_slots; tauto.
Qed.

Lemma slot_ok_new_node_conn g : ring_inv g -> slot_ok (new_node_conn (reg g)).
Proof. apply slot_ok_roles. Qed.
Lemma slot_ok_pred_conn g : ring_inv g -> slot_ok (pred_conn (reg g)).
Proof. apply slot_ok_roles. Qed.
Lemma slot_ok_succ_conn g : ring_inv g -> slot_ok (succ_conn (reg g)).
Proof. apply slot_ok_roles. Qed.
Lemma slot_ok_outbound_chord_conn g : ring_inv g -> slot_ok (outbound_chord_conn (reg g)).
Proof. apply slot_ok_roles. Qed.

Lemma slot_ok_find_socket g s : ring_inv g -> slot_ok (find_connection_by_socket s (reg g)).
Proof.
  intros [Hwf _] i Hi. unfold find_connection_by_socket in Hi. apply find_slot_Some in Hi.
  rewrite <- (wf_size _ Hwf). lia.
Qed.

Lemma slot_ok_Some i : 0 <= i < MAX_CONNECTIONS -> slot_ok (Some i).
Proof. by intros ? ? [= <-]. Qed.

Lemma keeps_modify_ring f : (forall g, reg (f g) = reg g) -> kept (modify f).
Proof. intros Hf. apply keeps_modify. intros g. unfold ring_inv. by rewrite Hf. Qed.

Lemma keeps_conn_printf_ring s l : kept (conn_printf s l).
Proof. apply (keeps_conn_printf reg reg_inv). Qed.
Lemma keeps_set_timeout_ring ms h : kept (set_timeout ms h).
Proof. apply (keeps_set_timeout reg reg_inv). Qed.
Lemma keeps_cancel_timeout_ring : kept cancel_timeout.
Proof. apply (keeps_cancel_timeout reg reg_inv). Qed.
Lemma keeps_send_ns_message_ring msg n : kept (send_ns_message msg n).
Proof. apply (keeps_send_ns_message reg reg_inv). Qed.
Lemma keeps_sprintf_into_ring size s what : keeps ring_inv (sprintf_into size s what) (fun _ => True).
Proof. apply (keeps_sprintf_into reg reg_inv). Qed.
Lemma keeps_strcpy_into_ring size s what : kept (strcpy_into size s what).
Proof. apply (keeps_strcpy_into reg reg_inv). Qed.

Lemma keeps_update_routing_and_announce_m nid rid p : kept (update_routing_and_announce_m nid rid p).
Proof. apply (keeps_routing_op reg reg_inv). Qed.

Lemma keeps_deref p what : kept (deref p what).
Proof. destruct p; [by apply keeps_gets|apply keeps_lift]. Qed.

Lemma keeps_set_node_id p id what : slot_ok p -> kept (set_node_id p id what).
Proof.
  intros Hp. destruct p as [i|]; [|apply keeps_lift]. apply keeps_modify. intros g [Hwf Hw].
  unfold ring_inv. simpl. apply reg_inv_set_slot; [by split| |done].
  rewrite (wf_size _ Hwf). by apply Hp.
Qed.

Lemma keeps_close_connection_m p : slot_ok p -> kept (close_connection_m p).
Proof.
  intros Hp g Hg. unfold close_connection_m. destruct p as [i|]; [|done].
  destruct (_ =? -1); [done|]. split; [|done]. by apply close_connection_inv.
Qed.

Lemma keeps_find_connection_by_node_id_m id : keeps ring_inv (find_connection_by_node_id_m id) slot_ok.
Proof.
  apply keeps_gets. intros g [Hwf _] i Hi. unfold find_connection_by_node_id in Hi.
  apply find_slot_Some in Hi. rewrite <- (wf_size _ Hwf). lia.
Qed.

Lemma keeps_set_roles_sublist nn pc sc oc :
  (forall r, role_slots (set_role_ptrs (nn r) (pc r) (sc r) (oc r) r) `sublist_of` role_slots r) ->
  kept (modify (fun g => set_reg (set_role_ptrs (nn (reg g)) (pc (reg g)) (sc (reg g)) (oc (reg g)) (reg g)) g)).
Proof. intros Hsub. apply keeps_modify. intros g Hg. by apply reg_inv_roles_sublist. Qed.

Ltac sublist_roles :=
  intros r; rewrite role_slots_set, role_slots_eq;
  repeat apply sublist_app; try apply sublist_nil_l; try apply sublist_inserts_l; done.

Lemma keeps_set_new_node_conn_None : kept (set_new_node_conn None).
Proof. apply (keeps_set_roles_sublist (fun _ => None)). sublist_roles. Qed.
Lemma keeps_set_pred_conn_None : kept (set_pred_conn None).
Proof. apply (keeps_set_roles_sublist new_node_conn (fun _ => None)). sublist_roles. Qed.
Lemma keeps_set_succ_conn_None : kept (set_succ_conn None).
Proof. apply (keeps_set_roles_sublist new_node_conn pred_conn (fun _ => None)). sublist_roles. Qed.
Lemma keeps_set_outbound_chord_conn_None : kept (set_outbound_chord_conn None).
Proof. apply (keeps_set_roles_sublist new_node_conn pred_conn succ_conn (fun _ => None)). sublist_roles. Qed.

Lemma keeps_new_node_becomes_pred : kept new_node_becomes_pred.
Proof.
  intros g Hg. split; [|done]. unfold ring_inv. simpl.
  change (reg_inv (set_role_ptrs None (new_node_conn (reg g)) (succ_conn (reg g))
                    (outbound_chord_conn (reg g)) (reg g))).
  apply reg_inv_roles_sublist; [done|]. rewrite role_slots_set, role_slots_eq.
  simpl. apply sublist_app; [done|]. apply sublist_inserts_l. done.
Qed.

Ltac role_sublist :=
  rewrite role_slots_set, role_slots_eq;
  repeat apply sublist_app; try apply sublist_nil_l; try apply sublist_inserts_l; done.

Section Connect.
Context `{Net}.

Lemma keeps_connect_succ n : keeps ring_inv (connect_succ n) slot_ok.
Proof.
  intros g Hg. pose proof (connect_to_node_inv n g Hg) as Hc. unfold connect_succ, bind at 1.
  destruct (connect_to_node n g) as [[p g']| |]; [|done|done]. destruct Hc as [Hg' Hp]. simpl.
  destruct p as [i|]; [|split; [apply reg_inv_roles_sublist; [done|role_sublist]|done]].
  destruct (Hp i eq_refl) as (Hli & Hnot & Hi). split; [|by apply slot_ok_Some].
  apply (reg_inv_roles_add _ _ _ _ _ i (role_slots (set_role_ptrs (new_node_conn (reg g'))
           (pred_conn (reg g')) None (outbound_chord_conn (reg g')) (reg g')))); try done; [|role_sublist].
  rewrite !role_slots_set. simpl. rewrite !app_assoc. symmetry. apply Permutation_middle.
Qed.

Lemma keeps_connect_outbound_chord n : keeps ring_inv (connect_outbound_chord n) slot_ok.
Proof.
  intros g Hg. pose proof (connect_to_node_inv n g Hg) as Hc. unfold connect_outbound_chord, bind at 1.
  destruct (connect_to_node n g) as [[p g']| |]; [|done|done]. destruct Hc as [Hg' Hp]. simpl.
  destruct p as [i|]; [|split; [apply reg_inv_roles_sublist; [done|role_sublist]|done]].
  destruct (Hp i eq_refl) as (Hli & Hnot & Hi). split; [|by apply slot_ok_Some].
  apply (reg_inv_roles_add _ _ _ _ _ i (role_slots (set_role_ptrs (new_node_conn (reg g'))
           (pred_conn (reg g')) (succ_conn (reg g')) None (reg g')))); try done; [|role_sublist].
  rewrite !role_slots_set. simpl. rewrite !app_assoc, app_nil_r. symmetry. apply Permutation_cons_append.
Qed.
End Connect.

Lemma keeps_send_shortest_paths_m p : kept (send_shortest_paths_m p).
Proof.
  eapply keeps_bind; [apply keeps_deref|]. intros c _ g Hg. cbv beta.
  destruct (send_shortest_paths _ _ _); [|done|done]. split; [|done]. unfold ring_inv. by rewrite (emit_all_frame reg).
Qed.

Lemma keeps_remove_neighbor_connection id : kept (remove_neighbor_connection id).
Proof.
  eapply keeps_bind; [apply keeps_find_connection_by_node_id_m|]. intros c _.
  destruct (_ && _); [apply (keeps_routing_op reg reg_inv)|by apply keeps_ret].
Qed.

Lemma keeps_forward_message_m sender rid text : kept (forward_message_m sender rid text).
Proof.
  intros g Hg. unfold forward_message_m.
  destruct (forward_message _ _ _ _ _) as [[[s l]|]| |]; simpl; done.
Qed.

Lemma keeps_close_all : kept (for_each (zrange MAX_CONNECTIONS) (fun i => close_connection_m (Some i))).
Proof.
  apply keeps_for_each. intros i Hi%In_zrange. apply keeps_close_connection_m, slot_ok_Some. lia.
Qed.

#[export] Hint Resolve keeps_conn_printf_ring keeps_set_timeout_ring keeps_cancel_timeout_ring
  keeps_send_ns_message_ring keeps_sprintf_into_ring keeps_strcpy_into_ring keeps_update_routing_and_announce_m
  keeps_deref keeps_set_node_id keeps_close_connection_m keeps_find_connection_by_node_id_m
  keeps_set_new_node_conn_None keeps_set_pred_conn_None keeps_set_succ_conn_None
  keeps_set_outbound_chord_conn_None keeps_new_node_becomes_pred keeps_connect_succ
  keeps_connect_outbound_chord keeps_send_shortest_paths_m keeps_remove_neighbor_connection
  keeps_forward_message_m keeps_close_all keeps_lift
  slot_ok_new_node_conn slot_ok_pred_conn slot_ok_succ_conn slot_ok_outbound_chord_conn
  slot_ok_find_socket : keeps.
#[export] Hint Constants Opaque : keeps.
#[export] Hint Extern 1 (keeps _ (ret _) _) => apply keeps_ret; exact I : keeps.
#[export] Hint Extern 1 (keeps ring_inv (modify _) _) => apply keeps_modify_ring; intros; reflexivity : keeps.
#[export] Hint Extern 1 (slot_ok None) => intros ? [=] : keeps.

(** Symbolic execution of a handler: through every bind and every branch,
    each primitive step closed by its lemma. *)
Ltac keep := keep_with ltac:(eauto with keeps) ltac:(fun x => destruct x).

(** ** The entry points *)

Section Handlers.
Context `{Net}.

Lemma keeps_leave_ring : kept leave_ring.
Proof. unfold leave_ring. keep. Qed.
#[local] Hint Resolve keeps_leave_ring : keeps.

Lemma keeps_on_join_end : kept on_join_end.
Proof. unfold on_join_end. keep. Qed.
#[local] Hint Resolve keeps_on_join_end : keeps.

Lemma keeps_join_ring : kept join_ring.
Proof. unfold join_ring. keep. Qed.

Lemma keeps_create_outbound_chord n : kept (create_outbound_chord n).
Proof. unfold create_outbound_chord. keep. Qed.

Lemma keeps_handle_message_from_any_node m conn : slot_ok conn -> kept (handle_message_from_any_node m conn).
Proof. intros Hc. unfold handle_message_from_any_node. keep. Qed.
#[local] Hint Resolve keeps_handle_message_from_any_node : keeps.

Lemma keeps_handle_message_from_succ m : kept (handle_message_from_succ m).
Proof. unfold handle_message_from_succ. keep. Qed.

Lemma keeps_handle_message_from_pred m : kept (handle_message_from_pred m).
Proof. unfold handle_message_from_pred. keep. Qed.

Lemma keeps_handle_message_from_chord m conn : slot_ok conn -> kept (handle_message_from_chord m conn).
Proof. intros Hc. unfold handle_message_from_chord. keep. Qed.

Lemma keeps_handle_message_from_new_node m : kept (handle_message_from_new_node m).
Proof. unfold handle_message_from_new_node. keep. Qed.
#[local] Hint Resolve keeps_handle_message_from_pred keeps_handle_message_from_chord
  keeps_handle_message_from_new_node keeps_handle_message_from_succ : keeps.

Lemma keeps_handle_message sock m : kept (handle_message sock m).
Proof. unfold handle_message. keep. Qed.

Lemma keeps_handle_broken_succ_socket : kept handle_broken_succ_socket.
Proof. unfold handle_broken_succ_socket. keep. Qed.

Lemma keeps_handle_broken_pred_socket : kept handle_broken_pred_socket.
Proof. unfold handle_broken_pred_socket. keep. Qed.
#[local] Hint Resolve keeps_handle_broken_succ_socket keeps_handle_broken_pred_socket : keeps.

Lemma keeps_handle_broken_socket sock : kept (handle_broken_socket sock).
Proof. unfold handle_broken_socket. keep. Qed.
End Handlers.

#[export] Hint Resolve keeps_leave_ring keeps_on_join_end keeps_handle_message_from_any_node
  keeps_handle_message_from_pred keeps_handle_message_from_chord keeps_handle_message_from_new_node
  keeps_handle_message_from_succ keeps_handle_broken_succ_socket keeps_handle_broken_pred_socket
  keeps_join_ring keeps_create_outbound_chord keeps_handle_message keeps_handle_broken_socket : keeps.

(** Every connection attempt succeeds. *)
Definition net_connected : Net := {| net_connect _ := NET_CONNECTED; net_nodes_reply _ := None;
     net_resolve _ _ := true; net_bind _ := true |}.

(** ** Leaving the ring *)

(** The condition under which [leave_ring]'s [sprintf] fits
    [unreg_msg[13]]: the line and its NUL are at most 13 bytes. *)
Definition unreg_fits (g : Globals) : Prop :=
  connection_state g = CONNECTED -> ring_id_str g <> [] ->
  zlen (bytes "UNREG " ++ ring_id_str g ++ [SPACE] ++ fmt_id (Node.id (self g))) + 1 <= 13.

(** The loop of [leave_ring] closes the slots in order. *)
Lemma for_each_close_slots l g :
  exists g', for_each l (fun i => close_connection_m (Some i)) g = Ok (tt, g') /\
    reg g' = fold_left (fun r i => close_connection (Some i) r) l (reg g) /\
    connection_state g' = connection_state g /\ timeout_handler g' = timeout_handler g.
Proof.
  revert g. induction l as [|i l IH]; intros g; [by exists g|]. cbn [for_each fold_left].
  unfold bind at 1. unfold close_connection_m at 1.
  destruct (Z.eqb_spec (socket (connections (reg g)).[i]) (-1)) as [Hf|Hf].
  - destruct (IH g) as (g' & E & Hr & Hc & Ht). exists g'. cbv beta iota. rewrite E. split; [done|].
    split; [|done]. rewrite Hr. f_equal. unfold close_connection. by rewrite Hf, Z.eqb_refl.
  - destruct (IH (set_reg (close_connection (Some i) (reg g)) (emit (Closed (socket (connections (reg g)).[i])) g)))
      as (g' & E & Hr & Hc & Ht).
    exists g'. cbv beta iota. rewrite E. split; [done|]. split; [done|]. by rewrite Hc, Ht.
Qed.

(** [leave_ring] on a well-formed registry, when its [UNREG] line fits:
    every slot is closed, no role is left, the node is [DISCONNECTED];
    the timer is not touched. *)
Lemma leave_ring_spec g :
  reg_wf (reg g) -> unreg_fits g ->
  exists g', leave_ring g = Ok (tt, g') /\ connection_state g' = DISCONNECTED /\
    reg_wf (reg g') /\ role_slots (reg g') = [] /\
    (forall j, 0 <= j < MAX_CONNECTIONS -> ~ live (reg g') j) /\
    timeout_handler g' = timeout_handler g.
Proof.
  intros Hwf Hfit.
  assert (Hunreg : exists g1,
    (if bool_decide (connection_state g = CONNECTED) && negb (bool_decide (ring_id_str g = []))
     then let* msg := sprintf_into 13 (bytes "UNREG " ++ ring_id_str g ++ [SPACE] ++ fmt_id (Node.id (self g)))
                                   "sprintf past unreg_msg" in
          send_ns_message (msg ++ [NUL]) 12
     else ret tt) g = Ok (tt, g1) /\ reg g1 = reg g /\ timeout_handler g1 = timeout_handler g).
  { destruct (bool_decide_reflect (connection_state g = CONNECTED)) as [Hc|];
      destruct (bool_decide_reflect (ring_id_str g = [])) as [|Hr]; cbn [andb negb];
      [by exists g| |by exists g|by exists g].
    unfold sprintf_into. rewrite (proj2 (Z.leb_le _ _) (Hfit Hc Hr)).
    eexists. split; [reflexivity|]. split; reflexivity. }
  destruct Hunreg as (g1 & E1 & Hr1 & Ht1).
  destruct (for_each_close_slots (zrange MAX_CONNECTIONS) g1) as (g2 & E2 & Hr2 & _ & Ht2).
  assert (Hr2' : reg g2 = close_slots MAX_CONNECTIONS (reg g)) by (unfold close_slots; by rewrite Hr2, Hr1).
  destruct (close_slots_all (reg g) Hwf) as (Hwf2 & Hfree & Hroles).
  exists (set_connection_state DISCONNECTED g2). unfold leave_ring, bind at 1, get.
  unfold bind at 1. rewrite E1. unfold bind at 1. rewrite E2.
  split; [done|]. cbn [reg timeout_handler set_connection_state]. rewrite Hr2'.
  split; [done|]. split; [done|]. split; [done|]. by rewrite Ht2.
Qed.
