(* ===== verification/Main.v ===== *)
(** * Main: the command interface and the event loop of [src/main.c]

    [handle_user_input] is the command interpreter: the node selection
    prompt after a node list, then the commands [join], [leave],
    [direct join], [chord], [remove chord], [exit], the three [show]
    commands (output only) and [message].  [sscanf] stores each conversion
    as it goes, so a command whose parameters are incomplete still
    overwrites the fields it did convert, as in the C code.

    The event loop ([loop_iteration]) is one turn of the [while] of
    [main]: the clock, the timer, then in order stdin, the node server's
    socket, the listening socket and every live peer socket that [select]
    reported readable.  What [select], [read(2)] and [accept(2)] return is
    the input [LoopInput] of the turn.  [main_init] is the start of [main]
    up to the loop; [reachable] is the set of states the loop reaches. *)

From S2P Require Import Prelude Scanf ReadLines Path Connections Routing State Show Ring NodeServer RingInv.

(** [tolower] in the C locale. *)
Definition tolower (c : Z) : Z := if (65 <=? c) && (c <=? 90) then c + 32 else c.

(** [COMPARE_COMMAND(cmd_name)] on [input_lowercase]. *)
Definition compare_command (lower : list Z) (cmd : string) : bool :=
  let n := length (bytes cmd) in
  bool_decide (take n lower = bytes cmd) &&
  (let c := char_at lower (Z.of_nat n) in (c =? NUL) || is_space c).
Arguments compare_command lower cmd%_string.

Definition node_set_id (n : Node.t) (id : Z) : Node.t := Node.mk id (Node.ip_addr n) (Node.tcp_port n).
Definition node_set_ip (n : Node.t) (ip : list Z) : Node.t := Node.mk (Node.id n) ip (Node.tcp_port n).
Definition node_set_port (n : Node.t) (p : list Z) : Node.t := Node.mk (Node.id n) (Node.ip_addr n) p.

Definition set_self_id (id : Z) : M unit := modify (fun g => set_self (node_set_id (self g) id) g).

Section Commands.
Context `{Net}.

(** The prompt after a node list: the id of a listed node selects the
    successor to join through, or the chord peer. *)
Definition handle_node_selection (input : list Z) : M unit :=
  let* g := get in
  let '(cnt, vals) := sscanf input "%hhd" in
  let id := match vals with [VInt v] => v | _ => -1 end in
  let invalid_id :=
    (if bool_decide (input_state g = JOIN_NODE_SELECTION) then modify (set_connection_state DISCONNECTED)
     else ret tt) ;;
    modify (set_input_state COMMAND) in
  if negb (cnt =? 1) && bool_decide (input_state g = JOIN_NODE_SELECTION) then invalid_id
  else if bool_decide (input_state g = CHORD_NODE_SELECTION) &&
          ((Node.id (self g) =? id) || negb (bool_decide (find_connection_by_node_id id (reg g) = None)))
  then invalid_id
  else
    match List.find (fun n => Node.id n =? id) (node_arr g) with
    | Some node =>
        (if bool_decide (input_state g = JOIN_NODE_SELECTION) then copy_node set_succ node ;; join_ring
         else if bool_decide (input_state g = CHORD_NODE_SELECTION) then create_outbound_chord node
         else ret tt) ;;
        modify (set_input_state COMMAND)
    | None => invalid_id
    end.

(** [join <ring> <id>]: [ring_id_str] and [self.id] are written by
    [sscanf] before any check. *)
Definition cmd_join (input : list Z) : M unit :=
  let '(cnt, vals) := sscanf input "%*s %3s %hhd" in
  (match vals with VStr s :: _ => modify (set_ring_id_str s) | _ => ret tt end) ;;
  (match vals with [_; VInt v] => set_self_id v | _ => ret tt end) ;;
  if negb (cnt =? 2) then ret tt
  else
    let* g := get in
    if negb (zlen (ring_id_str g) =? 3) then ret tt
    else if negb (bool_decide (connection_state g = DISCONNECTED)) then ret tt
    else
      modify (set_connection_state AWAITING_NODE_LIST) ;;
      modify (set_node_list_action JOIN_ACTION) ;;
      request_node_list.

(** [direct join <id> <succ id> <succ ip> <succ port>] (no check of the
    connection state). *)
Definition cmd_direct_join (is_dj : bool) (input : list Z) : M unit :=
  let '(cnt, vals) := sscanf input (if is_dj then "%*s %hhd %hhd %15s %5s" else "%*s %*s %hhd %hhd %15s %5s") in
  (match nth_error vals 0 with Some (VInt v) => set_self_id v | _ => ret tt end) ;;
  (match nth_error vals 1 with Some (VInt v) => modify (fun g => set_succ (node_set_id (succ g) v) g) | _ => ret tt end) ;;
  (match nth_error vals 2 with Some (VStr s) => modify (fun g => set_succ (node_set_ip (succ g) s) g) | _ => ret tt end) ;;
  (match nth_error vals 3 with Some (VStr s) => modify (fun g => set_succ (node_set_port (succ g) s) g) | _ => ret tt end) ;;
  if negb (cnt =? 4) then ret tt
  else
    let* g := get in
    if Node.id (succ g) =? Node.id (self g) then
      modify (set_ring_id_str []) ;;
      copy_node set_succ (self g) ;;
      copy_node set_second_succ (self g) ;;
      modify (set_connection_state CONNECTED) ;;
      modify (set_awaiting_pred false) ;;
      modify (set_awaiting_succ false)
    else
      modify (set_ring_id_str []) ;;
      join_ring.

(** [chord] *)
Definition cmd_chord : M unit :=
  let* g := get in
  if negb (bool_decide (connection_state g = CONNECTED)) then ret tt
  else if negb (bool_decide (outbound_chord_conn (reg g) = None)) then ret tt
  else modify (set_node_list_action CHORD_ACTION) ;; request_node_list.

(** [remove chord] *)
Definition cmd_remove_chord : M unit :=
  let* g := get in
  if negb (bool_decide (connection_state g = CONNECTED)) then ret tt
  else if bool_decide (outbound_chord_conn (reg g) = None) then ret tt
  else
    let* c := deref (outbound_chord_conn (reg g)) "outbound_chord_conn->node_id" in
    close_connection_m (outbound_chord_conn (reg g)) ;;
    let* found := find_connection_by_node_id_m (node_id c) in
    if bool_decide (found = None)
    then routing_op (fun self_id conns s => remove_routing_neighbor self_id conns (node_id c) s)
    else ret tt.

(** [message <id> <text>] *)
Definition cmd_message (input : list Z) : M unit :=
  match sscanf input "%*s %hhd%n" with
  | (1, [VInt rid; VCount start]) =>
      if negb (char_at (cstr input) start =? SPACE) then ret tt
      else
        let chat_message := cstr (drop (Z.to_nat (start + 1)) input) in
        let* g := get in
        if rid =? Node.id (self g) then modify (emit (Delivered (Node.id (self g)) chat_message))
        else forward_message_m (Node.id (self g)) rid chat_message
  | _ => ret tt
  end.

(** [handle_user_input(fd, input)]; the reports of the [show] commands
    are those of [Show.v]. *)
Definition handle_user_input (input : list Z) : M unit :=
  let* g := get in
  if bool_decide (input_state g = JOIN_NODE_SELECTION) || bool_decide (input_state g = CHORD_NODE_SELECTION)
  then handle_node_selection input
  else
    let lower := map tolower (cstr input) in
    if compare_command lower "join" || compare_command lower "j" then cmd_join input
    else if compare_command lower "leave" || compare_command lower "l" then
      (if bool_decide (connection_state g = DISCONNECTED) then ret tt else leave_ring)
    else if compare_command lower "direct join" || compare_command lower "dj" then
      cmd_direct_join (compare_command lower "dj") input
    else if compare_command lower "chord" || compare_command lower "c" then cmd_chord
    else if compare_command lower "remove chord" || compare_command lower "rc" then cmd_remove_chord
    else if compare_command lower "exit" || compare_command lower "x" then modify (set_should_exit true)
    else if compare_command lower "show topology" || compare_command lower "st" then cmd_show_topology
    else if compare_command lower "show routing" || compare_command lower "sr" then
      cmd_show_routing (compare_command lower "sr") input
    else if compare_command lower "show path" || compare_command lower "sp" then
      cmd_show_path (compare_command lower "sp") input
    else if compare_command lower "message" || compare_command lower "m" then cmd_message input
    else print (bytes "Unrecognized command: " ++ cstr input ++ [LF]).
End Commands.

(** ** The event loop *)

(** [for (each line) handler(fd, line);] as [read_lines] calls it. *)
Fixpoint for_lines (lines : list (list Z)) (f : list Z -> M unit) : M unit :=
  match lines with
  | [] => ret tt
  | l :: ls => f l ;; for_lines ls f
  end.

(** [now > timeout_instant] *)
Definition time_after (now t : timespec) : bool :=
  (tv_sec t <? tv_sec now) || ((tv_sec now =? tv_sec t) && (tv_nsec t <? tv_nsec now)).

(** The time left before [select] (the top of the loop in [main]): NULL
    ([None]) without a pending timer, zero once the deadline has passed,
    otherwise [timeout_instant - now] as a [struct timeval] (seconds,
    microseconds), rounded up by one microsecond.  C's [/] on [long]
    truncates toward zero ([Z.quot]).  [now] is the time read before
    [select]; a failing [clock_gettime] is not modelled. *)
Definition select_timeout (g : Globals) (now : timespec) : option (Z * Z) :=
  match timeout_handler g with
  | None => None
  | Some _ =>
      let t := timeout_instant g in
      if time_after now t then Some (0, 0)
      else
        let sec := tv_sec t - tv_sec now in
        let usec := Z.quot (tv_nsec t - tv_nsec now) 1000 + 1 in
        if usec <? 0 then Some (sec - 1, usec + 1000000) else Some (sec, usec)
  end.

(** A time in nanoseconds, and the range of [tv_nsec] in a valid
    [struct timespec]. *)
Definition ns_of (t : timespec) : Z := tv_sec t * 1000000000 + tv_nsec t.
Definition nsec_ok (t : timespec) : Prop := 0 <= tv_nsec t < 1000000000.

Section Loop.
Context `{Net}.

Definition run_timeout_handler (h : TimeoutHandler) : M unit :=
  match h with PRED_TIMEOUT => pred_timeout end.

(** The timer: a handler whose deadline passed is called, then unset. *)
Definition check_timeout : M unit :=
  let* g := get in
  match timeout_handler g with
  | Some h =>
      if time_after (clock g) (timeout_instant g) then
        run_timeout_handler h ;; modify (fun g => set_timer (timeout_instant g) None g)
      else ret tt
  | None => ret tt
  end.

(** Stdin readable: [read_lines(0, stdin_buffer, ..., handle_user_input)];
    [false] when stdin ended and the loop breaks. *)
Definition read_stdin (rd : read_ret) : M bool :=
  let* g := get in
  let out := read_lines USER_COMMAND_BUF_SIZE rd (stdin_buffer g) (stdin_buffer_index g) in
  for_lines (rl_lines out) handle_user_input ;;
  modify (set_stdin (rl_buffer out) (rl_index out)) ;;
  match rl_result out with
  | RL_END => ret false
  | RL_ERROR => lift (Exit "Couldn't read from stdin")
  | _ => ret true
  end.

(** [struct Connection *conn = add_connection(socket);
     strcpy(conn->ip_addr, src_ip_addr); new_node_conn = conn;] *)
Definition accept_new_node (s : Z) (ip : list Z) : M unit :=
  let* i := add_connection_m s in
  modify (fun g => let r := reg g in let c := (connections r).[i] in
    set_reg (set_connections r (zset (connections r) i
      (mkConn (socket c) (node_id c) (buffer c) (buffer_index c) ip (tcp_port c)))) g) ;;
  set_new_node_conn (Some i).

(** The listening socket readable: [accept(2)] gives the lowest free
    descriptor ([None]: it failed).  [false] is the [continue] that skips
    the peer sockets for this turn. *)
Definition accept_connection (peer : option (list Z)) : M bool :=
  match peer with
  | None => ret false
  | Some ip =>
      let* g := get in
      let s := lowest_fd (open_fds g) in
      if negb (bool_decide (connection_state g = CONNECTING) || bool_decide (connection_state g = CONNECTED))
      then modify (emit (Closed s)) ;; ret false
      else if negb (bool_decide (new_node_conn (reg g) = None)) then modify (emit (Closed s)) ;; ret false
      else accept_new_node s ip ;; ret true
  end.

(** Slot [i] in the peer loop: its lines go to [handle_message]; then
    [read_lines] stores the moved tail and the index through its pointers
    into [connections[i]], whatever the handlers did to the slot; a
    closed or failed socket goes to [handle_broken_socket]. *)
Definition peer_readable (rd : Z -> read_ret) (readable : list Z) (i : Z) : M unit :=
  let* g := get in
  let c := (connections (reg g)).[i] in
  let sock := socket c in
  if (sock =? -1) || negb (existsb (Z.eqb sock) readable) then ret tt
  else
    let out := read_lines MAX_NODE_MESSAGE_SIZE (rd sock) (buffer c) (buffer_index c) in
    for_lines (rl_lines out) (handle_message sock) ;;
    modify (fun g => let r := reg g in let c := (connections r).[i] in
      set_reg (set_connections r (zset (connections r) i
        (mkConn (socket c) (node_id c) (rl_buffer out) (rl_index out) (ip_addr c) (tcp_port c)))) g) ;;
    match rl_result out with
    | RL_END | RL_ERROR => handle_broken_socket sock
    | _ => ret tt
    end.
End Loop.

(** What the environment gives one turn of the loop: the time after
    [select], the descriptors [select] reported, what [read(2)] returns on
    each of them, and what [accept(2)] returns (the peer's address). *)
Record LoopInput := mkInput {
  li_now : timespec;
  li_readable : list Z;
  li_read : Z -> read_ret;
  li_accept : option (list Z)
}.

Section Main.
Context `{Net}.

(** One turn of [while (!should_exit)]; [false] when it breaks. *)
Definition loop_iteration (li : LoopInput) : M bool :=
  modify (set_clock (li_now li)) ;;
  check_timeout ;;
  let* go := if existsb (Z.eqb 0) (li_readable li) then read_stdin (li_read li 0) else ret true in
  if negb go then ret false
  else
    let* g := get in
    let* accepted := if existsb (Z.eqb (public_socket g)) (li_readable li)
                     then accept_connection (li_accept li) else ret true in
    if negb accepted then ret true
    else for_each (zrange MAX_CONNECTIONS) (peer_readable (li_read li) (li_readable li)) ;; ret true.

(** [main] up to the loop: the node's address (copied with [strcpy]
    into [self.ip_addr] and [self.tcp_port], which an address of more
    than 15 bytes or a port of more than 5 overflows), every slot free, the node
    server's socket and the listening socket (the lowest free
    descriptors), [select_inputs = {stdin, ns_socket, public_socket}], and
    the [-x] command if there is one. *)
Definition main_init (ip port ns_addr ns_port : list Z) (initial_command : option (list Z)) : M unit :=
  strcpy_into IPV4_ADDR_STR_SIZE ip "strcpy past self.ip_addr" ;;
  strcpy_into TCP_PORT_STR_SIZE port "strcpy past self.tcp_port" ;;
  modify (fun g => set_self (Node.mk (Node.id (self g)) ip port) g) ;;
  modify (fun g => set_reg (init_connections_array (reg g)) g) ;;
  init_ns ns_addr ns_port ;;
  let* g := get in
  modify (set_sockets (lowest_fd (open_fds g)) (ns_socket g)) ;;
  (if net_resolve None port then ret tt else lift (Exit "Couldn't get the node server address")) ;;
  (if net_bind port then ret tt else lift (Exit "Couldn't bind TCP server to port")) ;;
  modify (fun g => set_reg (set_select_inputs (reg g) {[0; ns_socket g; public_socket g]}) g) ;;
  match initial_command with
  | Some cmd => handle_user_input cmd
  | None => ret tt
  end.

(** The states of the loop: after [main_init], and after every turn that
    does not end the loop, while [should_exit] is false. *)
Inductive reachable : Globals -> Prop :=
| reach_init ip port ns_addr ns_port cmd g :
    main_init ip port ns_addr ns_port cmd globals_zero = Ok (tt, g) -> reachable g
| reach_turn g li g' :
    reachable g -> should_exit g = false -> loop_iteration li g = Ok (true, g') -> reachable g'.
End Main.

(** ** The registry invariant in every reachable state *)

Local Notation "'kept' m" := (keeps ring_inv m (fun _ => True)) (at level 10, m at level 9).

Lemma keeps_set_self_id id : kept (set_self_id id).
Proof. by apply keeps_modify_ring. Qed.

Lemma keeps_routing_op_ring f : kept (routing_op f).
Proof. apply (keeps_routing_op reg reg_inv). Qed.

Lemma keeps_for_lines (I : Globals -> Prop) lines f :
  (forall l, preserves I (f l)) -> preserves I (for_lines lines f).
Proof.
  intros Hf. induction lines as [|l ls IH]; simpl; [by apply keeps_ret|].
  eapply keeps_bind; [apply Hf|]. intros _ _. apply IH.
Qed.

Lemma ring_inv_emit e g : ring_inv g -> ring_inv (emit e g).
Proof. apply (frame_emit_keeps reg reg_inv). Qed.

Lemma keeps_print_ring s : kept (print s).
Proof. apply keeps_print, ring_inv_emit. Qed.
Lemma keeps_print_node_table_ring : kept print_node_table.
Proof. apply keeps_print_node_table, ring_inv_emit. Qed.
Lemma keeps_cmd_show_topology_ring : kept cmd_show_topology.
Proof. apply keeps_cmd_show_topology, ring_inv_emit. Qed.
Lemma keeps_cmd_show_routing_ring short input : kept (cmd_show_routing short input).
Proof. apply keeps_cmd_show_routing, ring_inv_emit. Qed.
Lemma keeps_cmd_show_path_ring short input : kept (cmd_show_path short input).
Proof. apply keeps_cmd_show_path, ring_inv_emit. Qed.

#[export] Hint Resolve keeps_set_self_id keeps_routing_op_ring keeps_print_ring keeps_print_node_table_ring
  keeps_cmd_show_topology_ring keeps_cmd_show_routing_ring keeps_cmd_show_path_ring : keeps.

Section Invariant.
Context `{Net}.

Lemma keeps_request_node_list : kept request_node_list.
Proof. unfold request_node_list. keep. Qed.
#[local] Hint Resolve keeps_request_node_list : keeps.

Lemma keeps_handle_user_input input : kept (handle_user_input input).
Proof.
  unfold handle_user_input, handle_node_selection, cmd_join, cmd_direct_join, cmd_chord,
    cmd_remove_chord, cmd_message. keep.
Qed.
#[local] Hint Resolve keeps_handle_user_input : keeps.

Lemma keeps_check_timeout : kept check_timeout.
Proof. unfold check_timeout, run_timeout_handler, pred_timeout. keep. Qed.

Lemma accept_new_node_inv g s ip :
  ring_inv g -> new_node_conn (reg g) = None -> 0 <= s -> s ∉ select_inputs (reg g) ->
  holds_after ring_inv (accept_new_node s ip g).
Proof.
  intros Hg Hnn Hs Hfresh. unfold accept_new_node, bind, add_connection_m, modify, set_new_node_conn.
  simpl. destruct (add_connection s (reg g)) as [[i r']| |] eqn:Hadd; [|done|done]. simpl.
  destruct (add_connection_inv (reg g) s i r' Hg Hs Hfresh Hadd) as (Hinv & Hli & Hnot & Hi).
  destruct (add_connection_frame s (reg g) i r' Hadd) as (_ & _ & _ & _ & _ & Hroles & _).
  pose proof Hli as [Hir _].
  set (c := (connections r').[i]).
  destruct (reg_inv_set_slot r' i (mkConn (socket c) (node_id c) (buffer c) (buffer_index c) ip (tcp_port c))
              Hinv Hir eq_refl) as [Hinv' Hlive].
  set (r'' := set_connections r' (zset (connections r') i
                (mkConn (socket c) (node_id c) (buffer c) (buffer_index c) ip (tcp_port c)))) in *.
  assert (Hnn'' : new_node_conn r'' = None) by (unfold r''; simpl; by injection Hroles as -> _ _ _).
  unfold holds_after, ring_inv. simpl.
  apply (reg_inv_roles_add _ _ _ _ _ i (role_slots r'')); [done|by apply Hlive|done| |done].
  rewrite role_slots_set, (role_slots_eq r''), Hnn''. done.
Qed.

Lemma keeps_accept_connection peer : kept (accept_connection peer).
Proof.
  intros g Hg. destruct peer as [ip|]; [|done]. unfold accept_connection. cbn [bind get].
  destruct (lowest_fd_spec (open_fds g)) as [Hs Hfresh].
  destruct (_ || _); cbn [negb]; [|done].
  destruct (bool_decide (new_node_conn (reg g) = None)) eqn:E; cbn [negb]; [|done].
  apply bool_decide_eq_true in E.
  assert (Hf : lowest_fd (open_fds g) ∉ select_inputs (reg g)) by (unfold open_fds in Hfresh; set_solver).
  pose proof (accept_new_node_inv g _ ip Hg E Hs Hf) as Ha. unfold holds_after in Ha.
  unfold bind at 1. destruct (accept_new_node _ ip g) as [[[] g']| |]; done.
Qed.

Lemma keeps_read_stdin rd : keeps ring_inv (read_stdin rd) (fun _ => True).
Proof.
  unfold read_stdin. keep. apply keeps_for_lines. intros. apply keeps_handle_user_input.
Qed.

(** [read_lines] storing the tail and the index into slot [i]. *)
Lemma keeps_store_buffer i buf idx : 0 <= i < MAX_CONNECTIONS ->
  kept (modify (fun g => set_reg (set_connections (reg g) (zset (connections (reg g)) i
    (mkConn (socket (connections (reg g)).[i]) (node_id (connections (reg g)).[i]) buf idx
            (ip_addr (connections (reg g)).[i]) (tcp_port (connections (reg g)).[i])))) g)).
Proof.
  intros Hi. apply keeps_modify. intros g [Hwf Hw]. apply reg_inv_set_slot; [by split| |done].
  rewrite (wf_size _ Hwf). lia.
Qed.

Lemma keeps_peer_readable rd readable i : 0 <= i < MAX_CONNECTIONS -> kept (peer_readable rd readable i).
Proof.
  intros Hi. unfold peer_readable. keep.
  - apply keeps_for_lines. intros. apply keeps_handle_message.
  - by apply keeps_store_buffer.
Qed.

Lemma keeps_loop_iteration li : kept (loop_iteration li).
Proof.
  unfold loop_iteration. keep.
  - apply keeps_check_timeout.
  - apply keeps_read_stdin.
  - apply keeps_accept_connection.
  - apply keeps_for_each. intros i Hi%In_zrange. by apply keeps_peer_readable.
Qed.

Lemma main_init_inv ip port nsa nsp cmd : holds_after ring_inv (main_init ip port nsa nsp cmd globals_zero).
Proof.
  unfold main_init, init_ns, strcpy_into. do 2 (destruct (_ <=? _); [|done]).
  repeat match goal with |- context [net_resolve ?h ?s] => destruct (net_resolve h s); [|done] end.
  destruct (net_bind _); [|done].
  cbn [bind modify get ret].
  match goal with |- holds_after _ (match _ with _ => _ end ?G) => assert (HG : ring_inv G) end.
  { apply ring_invb_sound. vm_compute. reflexivity. }
  destruct cmd as [c|]; [|done]. eapply keeps_holds_after; [apply keeps_handle_user_input|done].
Qed.
End Invariant.

Section Reachable.
Context `{Net}.

Lemma reachable_ring_inv g : reachable g -> ring_inv g.
Proof.
  induction 1 as [ip port nsa nsp cmd g Hinit|g li g' _ IH _ Hstep].
  - pose proof (main_init_inv ip port nsa nsp cmd) as Hi. rewrite Hinit in Hi. exact Hi.
  - pose proof (keeps_loop_iteration li g IH) as K. rewrite Hstep in K. by destruct K.
Qed.
End Reachable.

(** ** Runs *)

(** The state an outcome ends in ([globals_zero] when it stops). *)
Definition run_state {A} (o : outcome (A * Globals)) : Globals :=
  match o with Ok (_, g) => g | _ => globals_zero end.

(** A turn in which only the listening socket is readable. *)
Definition input_accept (t : Z) (ip : string) : LoopInput :=
  mkInput (mkTime t 0) [4] (fun _ => ReadFail) (Some (bytes ip)).

(** A turn in which only [sock] is readable, with [data] to read. *)
Definition input_peer (t sock : Z) (data : list Z) : LoopInput :=
  mkInput (mkTime t 0) [sock] (fun s => if s =? sock then ReadData data else ReadFail) None.

(** Node 10 started with [-x "dj 10 10 127.0.0.1 5000"] (a ring of its
    own), then a connection accepted from a node that is joining. *)
Definition node_a0 : Globals :=
  run_state (main_init (H := net_connected) (bytes "127.0.0.1") (bytes "5000") (bytes "127.0.0.1") (bytes "59000")
               (Some (bytes "dj 10 10 127.0.0.1 5000")) globals_zero).
Definition node_a1 : Globals :=
  run_state (loop_iteration (H := net_connected) (input_accept 1 "127.0.0.1") node_a0).

(** A turn in which only stdin is readable, with one command line. *)
Definition input_stdin (t : Z) (line : string) : LoopInput :=
  mkInput (mkTime t 0) [0] (fun s => if s =? 0 then ReadData (bytes line ++ [LF]) else ReadFail) None.

(** Then the joining node 20 sends [ENTRY]: node 10 takes it as its
    predecessor (slot 0) and connects to it as its successor (slot 1). *)
Definition node_a2 : Globals :=
  run_state (loop_iteration (H := net_connected)
               (input_peer 2 5 (bytes "ENTRY 20 127.0.0.1 5001" ++ [LF])) node_a1).

(** A node server that answers every [NODES] with an empty list: the
    joining node makes a ring of its own and registers. *)
Definition net_empty_ring : Net :=
  {| net_connect _ := NET_CONNECTED; net_nodes_reply _ := Some (bytes "NODESLIST 123" ++ [LF]);
     net_resolve _ _ := true; net_bind _ := true |}.

(** Node B starts with no command, then joins ring 123 as node 100. *)
Definition node_b0 : Globals :=
  run_state (main_init (H := net_empty_ring) (bytes "127.0.0.1") (bytes "5000") (bytes "127.0.0.1") (bytes "59000") None globals_zero).
Definition node_b1 : Globals :=
  run_state (loop_iteration (H := net_empty_ring) (input_stdin 1 "join 123 100") node_b0).
(** The same, as node 99. *)
Definition node_c1 : Globals :=
  run_state (loop_iteration (H := net_empty_ring) (input_stdin 1 "join 123 99") node_b0).

Lemma node_a0_reachable : reachable (H := net_connected) node_a0.
Proof.
  apply (reach_init (bytes "127.0.0.1") (bytes "5000") (bytes "127.0.0.1") (bytes "59000") (Some (bytes "dj 10 10 127.0.0.1 5000"))).
  vm_compute. reflexivity.
Qed.

Lemma node_a1_reachable : reachable (H := net_connected) node_a1.
Proof.
  apply (reach_turn node_a0 (input_accept 1 "127.0.0.1")); [apply node_a0_reachable|reflexivity|].
  vm_compute. reflexivity.
Qed.

Lemma node_a2_reachable : reachable (H := net_connected) node_a2.
Proof.
  apply (reach_turn node_a1 (input_peer 2 5 (bytes "ENTRY 20 127.0.0.1 5001" ++ [LF])));
    [apply node_a1_reachable|reflexivity|].
  vm_compute. reflexivity.
Qed.

Lemma node_b1_reachable : reachable (H := net_empty_ring) node_b1.
Proof.
  apply (reach_turn node_b0 (input_stdin 1 "join 123 100")); [|reflexivity|vm_compute; reflexivity].
  apply (reach_init (bytes "127.0.0.1") (bytes "5000") (bytes "127.0.0.1") (bytes "59000") None). vm_compute. reflexivity.
Qed.

(** ** The predecessor timer *)

(** A turn in which [select] returned because the timer expired: no
    descriptor is readable. *)
Definition input_timer (now : timespec) : LoopInput := mkInput now [] (fun _ => ReadFail) None.

(** [time_after] is the lexicographic order on (seconds, nanoseconds). *)
Lemma time_after_spec now t :
  tv_sec t < tv_sec now \/ (tv_sec t = tv_sec now /\ tv_nsec t < tv_nsec now) -> time_after now t = true.
Proof.
  unfold time_after. intros [Hs|[Hs Hn]].
  - by rewrite (proj2 (Z.ltb_lt _ _) Hs).
  - rewrite Hs, Z.eqb_refl, (proj2 (Z.ltb_lt _ _) Hn). apply orb_true_r.
Qed.

(** On valid times, [time_after] is the order of nanosecond counts. *)
Lemma time_after_ns now t :
  nsec_ok now -> nsec_ok t -> time_after now t = true <-> ns_of t < ns_of now.
Proof.
  unfold nsec_ok, time_after, ns_of. intros Hn Ht.
  destruct (Z.ltb_spec (tv_sec t) (tv_sec now)), (Z.eqb_spec (tv_sec now) (tv_sec t)),
    (Z.ltb_spec (tv_nsec t) (tv_nsec now)); simpl; split; intros; (done || lia).
Qed.

(** C's truncating division by 1000. *)
Lemma quot_1000 d :
  (0 <= d -> d - 999 <= 1000 * Z.quot d 1000 <= d) /\
  (d <= 0 -> d <= 1000 * Z.quot d 1000 <= d + 999).
Proof.
  pose proof (Z.quot_rem' d 1000). split; intros Hd.
  - pose proof (Z.rem_bound_pos d 1000 Hd ltac:(lia)). lia.
  - pose proof (Z.rem_bound_pos_neg d 1000 ltac:(lia) Hd). lia.
Qed.

(** What [select_timeout] computes: zero after the deadline; otherwise
    a non-negative [timeval] with [tv_usec] at most [10^6], which exceeds
    the time left by 1 ns to just under 2 us. *)
Lemma select_timeout_span g now s u :
  nsec_ok now -> nsec_ok (timeout_instant g) -> select_timeout g now = Some (s, u) ->
  (time_after now (timeout_instant g) = true /\ s = 0 /\ u = 0) \/
  (time_after now (timeout_instant g) = false /\ 0 <= s /\ 0 <= u <= 1000000 /\
   ns_of (timeout_instant g) - ns_of now < s * 1000000000 + u * 1000 <
   ns_of (timeout_instant g) - ns_of now + 2000).
Proof.
  intros Hn Ht E. unfold select_timeout in E.
  destruct (timeout_handler g); [|done].
  destruct (time_after now (timeout_instant g)) eqn:Ea; [injection E as <- <-; by left|].
  right. split; [done|].
  assert (Hle : ns_of (timeout_instant g) >= ns_of now).
  { destruct (Z.lt_ge_cases (ns_of (timeout_instant g)) (ns_of now)) as [Hlt|]; [|lia].
    apply (time_after_ns now (timeout_instant g) Hn Ht) in Hlt. congruence. }
  unfold nsec_ok, ns_of in *.
  set (d := tv_nsec (timeout_instant g) - tv_nsec now) in *.
  destruct (quot_1000 d) as [Hpos Hneg].
  destruct (Z.ltb_spec (Z.quot d 1000 + 1) 0); injection E as <- <-.
  - assert (d <= 0) by lia. specialize (Hneg ltac:(lia)). lia.
  - destruct (Z.le_gt_cases 0 d) as [Hd|Hd]; [specialize (Hpos Hd)|specialize (Hneg ltac:(lia))]; lia.
Qed.

(** With nothing readable, the loop over the peers does nothing. *)
Lemma peers_idle `{Net} rd l g : for_each l (peer_readable rd []) g = Ok (tt, g).
Proof.
  revert g. induction l as [|i l IH]; intros g; [done|]. cbn [for_each].
  rewrite (bind_run _ _ g tt g); [apply IH|]. unfold peer_readable, bind, get. cbv beta iota.
  by rewrite orb_true_r.
Qed.

(** ** Role exclusivity of the program *)

(** C1: role exclusivity (spec property 2) in every state the program
    reaches: after [main] starts and after every turn of its event loop
    (commands, timer, accepted connections, peer lines and closed
    sockets), whatever the network and the user do, each role pointer is
    NULL or designates a live slot, no two role pointers designate the
    same slot, live descriptors are distinct, non-negative and watched by
    [select]. *)
Theorem reachable_roles_exclusive `{Net} (g : Globals) :
  reachable g ->
  reg_wf (reg g) /\ (forall i, live (reg g) i -> socket (connections (reg g)).[i] ∈ select_inputs (reg g)).
Proof. intros Hr. exact (reachable_ring_inv g Hr). Qed.

Lemma reachable_roles_exclusive_witness :
  reachable (H := net_connected) node_a1 /\
  reg_wf (reg node_a1) /\
  (forall i, live (reg node_a1) i -> socket (connections (reg node_a1)).[i] ∈ select_inputs (reg node_a1)).
Proof.
  split; [exact node_a1_reachable|].
  exact (reachable_roles_exclusive (H := net_connected) node_a1 node_a1_reachable).
Defined.

(** C2: a ring of one node made with [direct join] never initialises the
    routing tables ([init_routing] runs only in [join_ring] and for an
    empty node list), so they keep their zeroed contents: node 00 fills
    every recipient and neighbor slot.  When a node joins, the entry
    succeeds but the table sent to it announces node 00 fifteen times, and
    the first [ROUTE] line of the joining node exits the program in
    [get_neighbor_index] ("Ran out of space").  The spec's two-node
    scenario ("dj 10 10 ..." then "dj 20 10 ...") expects both nodes
    CONNECTED. *)
Theorem solo_direct_join_first_route_exits :
  reachable (H := net_connected) node_a1 /\
  connection_state node_a1 = CONNECTED /\
  (exists g, loop_iteration (H := net_connected)
               (input_peer 2 5 (bytes "ENTRY 20 127.0.0.1 5001" ++ [LF])) node_a1 = Ok (true, g) /\
             Sent 6 (bytes "ROUTE 10 00 10-00" ++ [LF]) ∈ trace g) /\
  loop_iteration (H := net_connected)
    (input_peer 2 5 (bytes "ENTRY 20 127.0.0.1 5001" ++ [LF] ++ bytes "ROUTE 20 20 20" ++ [LF])) node_a1
  = Exit "Ran out of space for nodes in the routing tables!".
Proof.
  split; [exact node_a1_reachable|]. split; [vm_compute; reflexivity|]. split; [|vm_compute; reflexivity].
  eexists. split; [vm_compute; reflexivity|].
  match goal with |- ?P => apply (bool_decide_unpack P) end. vm_compute. exact I.
Qed.

(** C28: [join] is refused while the node is in a ring, but its [sscanf]
    has already stored the ring id and the node id: the node stays
    [CONNECTED] under a new id its neighbors do not know.  The spec says
    a command refused for the ring state leaves the state unchanged. *)
Theorem join_while_connected_changes_id :
  reachable (H := net_connected) node_a0 /\
  connection_state node_a0 = CONNECTED /\ Node.id (self node_a0) = 10 /\
  (exists g, loop_iteration (H := net_connected) (input_stdin 3 "join abc 42") node_a0 = Ok (true, g) /\
             connection_state g = CONNECTED /\ Node.id (self g) = 42 /\ ring_id_str g = bytes "abc").
Proof.
  split; [exact node_a0_reachable|]. split; [vm_compute; reflexivity|]. split; [vm_compute; reflexivity|].
  eexists. split; [vm_compute; reflexivity|]. vm_compute. auto.
Qed.

(** C29: [direct join] has no check of the ring state: run in a ring, it
    clears [pred_conn] and overwrites [succ_conn] without closing them, so
    the connections to the old predecessor and successor stay open with
    no role and are from then on handled as inbound chords. *)
Theorem direct_join_while_connected_orphans_links :
  reachable (H := net_connected) node_a2 /\
  connection_state node_a2 = CONNECTED /\ pred_conn (reg node_a2) = Some 0 /\ succ_conn (reg node_a2) = Some 1 /\
  (exists g, loop_iteration (H := net_connected) (input_stdin 3 "dj 10 30 127.0.0.1 6000") node_a2 = Ok (true, g) /\
             connection_state g = CONNECTING /\
             live (reg g) 0 /\ live (reg g) 1 /\
             is_inbound_chord 0 (reg g) = true /\ is_inbound_chord 1 (reg g) = true).
Proof.
  split; [exact node_a2_reachable|]. split; [vm_compute; reflexivity|].
  split; [vm_compute; reflexivity|]. split; [vm_compute; reflexivity|].
  eexists. split; [vm_compute; reflexivity|].
  split; [vm_compute; reflexivity|].
  split; [apply liveb_live; vm_compute; reflexivity|].
  split; [apply liveb_live; vm_compute; reflexivity|].
  split; vm_compute; reflexivity.
Qed.

(** C31: [join] takes any [%hhd] as the node id, while the spec's ids
    are [0] to [99].  A node that joined as [100] is registered
    ([REG 123 100]).  Its [leave] writes [UNREG 123 100] and the NUL,
    14 bytes, into [unreg_msg[13]] ([Undefined]).  The same node with
    id [99] leaves and unregisters. *)
Theorem join_id_100_leave_overflows :
  reachable (H := net_empty_ring) node_b1 /\
  connection_state node_b1 = CONNECTED /\ Node.id (self node_b1) = 100 /\
  In (NsSent (bytes "REG 123 100 127.0.0.1 5000")) (trace node_b1) /\
  loop_iteration (H := net_empty_ring) (input_stdin 2 "leave") node_b1 = Undefined "sprintf past unreg_msg" /\
  (exists g, loop_iteration (H := net_empty_ring) (input_stdin 2 "leave") node_c1 = Ok (true, g) /\
             connection_state g = DISCONNECTED /\ In (NsSent (bytes "UNREG 123 99")) (trace g)).
Proof.
  split; [exact node_b1_reachable|]. split; [vm_compute; reflexivity|]. split; [vm_compute; reflexivity|].
  split; [vm_compute; tauto|]. split; [vm_compute; reflexivity|].
  eexists. split; [vm_compute; reflexivity|]. vm_compute. split; [reflexivity|tauto].
Qed.

(** C9: the predecessor timer fires (spec: "predecessor did not connect
    in 1 s: abandon, DISCONNECTED").  In every reachable state with the
    timer armed for [pred_timeout], the turn whose [select] returns at a
    time past the deadline leaves the ring.  The node is
    [DISCONNECTED], the timer is cleared, no slot is live and no role
    pointer is set.  The [UNREG] line must fit [unreg_msg]; it does not
    for a node id of three characters ([join_id_100_leave_overflows]). *)
Theorem pred_timer_fires_leaves_ring `{Net} (g : Globals) (now : timespec) :
  reachable g -> timeout_handler g = Some PRED_TIMEOUT ->
  tv_sec (timeout_instant g) < tv_sec now \/
    (tv_sec (timeout_instant g) = tv_sec now /\ tv_nsec (timeout_instant g) < tv_nsec now) ->
  unreg_fits g ->
  exists g', loop_iteration (input_timer now) g = Ok (true, g') /\
    connection_state g' = DISCONNECTED /\ timeout_handler g' = None /\
    role_slots (reg g') = [] /\ forall i, 0 <= i < MAX_CONNECTIONS -> ~ live (reg g') i.
Proof.
  intros Hr Ht Hafter%time_after_spec Hfit. destruct (reachable_ring_inv g Hr) as [Hwf _].
  destruct (leave_ring_spec (set_clock now g) Hwf Hfit) as (g2 & E2 & Hc2 & _ & Hroles & Hfree & Ht2).
  exists (set_timer (timeout_instant g2) None g2).
  split; [|cbn [connection_state timeout_handler reg set_timer]; by split; [|split; [|split]]].
  unfold loop_iteration. cbv beta. rewrite (bind_run _ _ g tt (set_clock now g)) by done.
  rewrite (bind_run _ _ _ tt (set_timer (timeout_instant g2) None g2)).
  - set (g3 := set_timer (timeout_instant g2) None g2).
    cbn [input_timer li_readable li_read li_accept existsb].
    rewrite (bind_run _ _ _ true g3) by done. cbv beta. cbn [negb].
    rewrite (bind_run _ _ _ g3 g3) by done. cbv beta.
    rewrite (bind_run _ _ _ true g3) by done. cbv beta. cbn [negb].
    rewrite (bind_run _ _ _ tt g3); [done|apply peers_idle].
  - unfold check_timeout. rewrite (bind_run _ _ _ _ (set_clock now g)) by done. simpl.
    rewrite Ht, Hafter. simpl. rewrite (bind_run _ _ _ tt g2) by exact E2. done.
Qed.

(** Node A after [dj 20 10 127.0.0.1 5000]: it connected to node 10 and
    waits for its predecessor, with the timer armed for second 2. *)
Definition node_d0 : Globals :=
  run_state (main_init (H := net_connected) (bytes "127.0.0.1") (bytes "5001") (bytes "127.0.0.1") (bytes "59000")
               (Some (bytes "dj 20 10 127.0.0.1 5000")) globals_zero).

Lemma pred_timer_fires_leaves_ring_witness :
  reachable (H := net_connected) node_d0 /\ timeout_handler node_d0 = Some PRED_TIMEOUT /\
  tv_sec (timeout_instant node_d0) < 3 /\ unreg_fits node_d0 /\
  exists g', loop_iteration (H := net_connected) (input_timer (mkTime 3 0)) node_d0 = Ok (true, g') /\
    connection_state g' = DISCONNECTED /\ timeout_handler g' = None /\
    role_slots (reg g') = [] /\ forall i, 0 <= i < MAX_CONNECTIONS -> ~ live (reg g') i.
Proof.
  assert (Hr : reachable (H := net_connected) node_d0).
  { apply (reach_init (bytes "127.0.0.1") (bytes "5001") (bytes "127.0.0.1") (bytes "59000") (Some (bytes "dj 20 10 127.0.0.1 5000"))).
    vm_compute. reflexivity. }
  assert (Ht : timeout_handler node_d0 = Some PRED_TIMEOUT) by (vm_compute; reflexivity).
  assert (Ha : tv_sec (timeout_instant node_d0) < 3) by (vm_compute; reflexivity).
  assert (Hf : unreg_fits node_d0) by (intros Hc; vm_compute in Hc; discriminate).
  split; [done|]. split; [done|]. split; [done|]. split; [done|].
  exact (pred_timer_fires_leaves_ring (H := net_connected) node_d0 (mkTime 3 0) Hr Ht (or_introl Ha) Hf).
Defined.

(** The [select] timeout bounds.  With valid times, the timeout the
    loop passes to [select] is zero once the deadline has passed.
    Otherwise it has [0 <= tv_sec], [0 <= tv_usec <= 10^6], and it
    exceeds the time left by less than 2 us.  [tv_usec = 10^6] is
    reached (see the witness); POSIX asks for less than [10^6], and
    Linux normalises it. *)
Theorem select_timeout_bounds (g : Globals) (now : timespec) (s u : Z) :
  nsec_ok now -> nsec_ok (timeout_instant g) -> select_timeout g now = Some (s, u) ->
  0 <= s /\ 0 <= u <= 1000000 /\
  (time_after now (timeout_instant g) = false ->
   ns_of (timeout_instant g) - ns_of now < s * 1000000000 + u * 1000 <
   ns_of (timeout_instant g) - ns_of now + 2000).
Proof.
  intros Hn Ht E. destruct (select_timeout_span g now s u Hn Ht E) as [(Ha & -> & ->)|(Ha & Hs & Hu & Hb)].
  - split; [lia|]. split; [lia|]. congruence.
  - auto.
Qed.

(** A deadline at second 1 plus 999999500 ns, seen at second 0: the
    timeout is one second and [10^6] microseconds. *)
Lemma select_timeout_bounds_witness :
  nsec_ok (mkTime 0 0) /\ nsec_ok (mkTime 1 999999500) /\
  select_timeout (set_timer (mkTime 1 999999500) (Some PRED_TIMEOUT) globals_zero) (mkTime 0 0) =
    Some (1, 1000000) /\
  0 <= 1 /\ 0 <= 1000000 <= 1000000 /\
  (time_after (mkTime 0 0) (mkTime 1 999999500) = false ->
   ns_of (mkTime 1 999999500) - ns_of (mkTime 0 0) < 1 * 1000000000 + 1000000 * 1000 <
   ns_of (mkTime 1 999999500) - ns_of (mkTime 0 0) + 2000).
Proof.
  assert (H0 : nsec_ok (mkTime 0 0)) by (unfold nsec_ok; simpl; lia).
  assert (H1 : nsec_ok (mkTime 1 999999500)) by (unfold nsec_ok; simpl; lia).
  assert (E : select_timeout (set_timer (mkTime 1 999999500) (Some PRED_TIMEOUT) globals_zero) (mkTime 0 0) =
              Some (1, 1000000)) by (vm_compute; reflexivity).
  split; [done|]. split; [done|]. split; [done|].
  exact (select_timeout_bounds (set_timer (mkTime 1 999999500) (Some PRED_TIMEOUT) globals_zero)
           (mkTime 0 0) 1 1000000 H0 H1 E).
Defined.

(** C10: the loop wakes up after the deadline.  If [select] returns by
    its timeout, at a time [later] no earlier than the time read before
    it plus the [select_timeout] it was given, then the timer check of
    that turn sees the deadline as passed and runs the handler
    ([pred_timer_fires_leaves_ring]).  The one microsecond added when
    rounding is what makes the deadline strictly passed. *)
Theorem select_timeout_reaches_deadline (g : Globals) (now later : timespec) (s u : Z) :
  nsec_ok now -> nsec_ok (timeout_instant g) -> nsec_ok later ->
  select_timeout g now = Some (s, u) ->
  ns_of now + s * 1000000000 + u * 1000 <= ns_of later ->
  time_after later (timeout_instant g) = true.
Proof.
  intros Hn Ht Hl E Hlater. apply (time_after_ns later _ Hl Ht).
  destruct (select_timeout_span g now s u Hn Ht E) as [(Ha & -> & ->)|(_ & _ & _ & Hb & _)].
  - apply (time_after_ns now _ Hn Ht) in Ha. lia.
  - lia.
Qed.

(** A node whose timer expires at second 2 reads the time 0.5 s and
    calls [select]; it returns at second 2 plus 1 us. *)
Lemma select_timeout_reaches_deadline_witness :
  nsec_ok (mkTime 0 500000000) /\
  nsec_ok (timeout_instant (set_timer (mkTime 2 0) (Some PRED_TIMEOUT) globals_zero)) /\
  nsec_ok (mkTime 2 1000) /\
  select_timeout (set_timer (mkTime 2 0) (Some PRED_TIMEOUT) globals_zero) (mkTime 0 500000000) =
    Some (1, 500001) /\
  ns_of (mkTime 0 500000000) + 1 * 1000000000 + 500001 * 1000 <= ns_of (mkTime 2 1000) /\
  time_after (mkTime 2 1000) (timeout_instant (set_timer (mkTime 2 0) (Some PRED_TIMEOUT) globals_zero)) = true.
Proof.
  assert (H0 : nsec_ok (mkTime 0 500000000)) by (unfold nsec_ok; simpl; lia).
  assert (H1 : nsec_ok (timeout_instant (set_timer (mkTime 2 0) (Some PRED_TIMEOUT) globals_zero)))
    by (unfold nsec_ok; simpl; lia).
  assert (H2 : nsec_ok (mkTime 2 1000)) by (unfold nsec_ok; simpl; lia).
  assert (E : select_timeout (set_timer (mkTime 2 0) (Some PRED_TIMEOUT) globals_zero) (mkTime 0 500000000) =
              Some (1, 500001)) by (vm_compute; reflexivity).
  assert (Hl : ns_of (mkTime 0 500000000) + 1 * 1000000000 + 500001 * 1000 <= ns_of (mkTime 2 1000))
    by (unfold ns_of; simpl; lia).
  split; [done|]. split; [done|]. split; [done|]. split; [done|]. split; [done|].
  exact (select_timeout_reaches_deadline (set_timer (mkTime 2 0) (Some PRED_TIMEOUT) globals_zero)
           (mkTime 0 500000000) (mkTime 2 1000) 1 500001 H0 H1 H2 E Hl).
Defined.

(** C32: [set_timeout] normalises the deadline only when [tv_nsec]
    exceeds [10^9] ([>] where [>=] is meant).  Armed for 1000 ms at
    exactly second 5, the predecessor timer's deadline is second 6 with
    [tv_nsec = 10^9], not a valid [timespec]; the [select] timeout
    computed from it at second 5 has [tv_usec = 1000001]. *)
Theorem set_timeout_unnormalised :
  tv_nsec (timeout_instant (run_state (set_timeout 1000 PRED_TIMEOUT (set_clock (mkTime 5 0) globals_zero)))) =
    1000000000 /\
  select_timeout (run_state (set_timeout 1000 PRED_TIMEOUT (set_clock (mkTime 5 0) globals_zero))) (mkTime 5 0) =
    Some (1, 1000001).
Proof. split; vm_compute; reflexivity. Qed.
