(* ===== verification/Args.v ===== *)
(** * Args: the command line of [main]

    [main] in [src/main.c] reads its options with
    [getopt(argc, argv, "x:v:")] until it returns [-1]:
    - [-x <command>] stores [initial_command];
    - [-v <level>] stores [verbose_level = atoi(level)] (the global of
      [src/util.c]), raised to [0] when negative;
    - any other return value (['?']: an unknown option or a last option
      without its argument) prints the usage and calls [exit(1)].
    It then needs two positional arguments, the node's address and TCP
    port; the directory's address and UDP port are the third and fourth
    when there are four, and the built-in defaults otherwise.

    [getopt_all] is glibc's [getopt] for that option string, called until
    it returns [-1]: it permutes [argv] so that the non-option elements
    end up, in order, after the options ([--] ends the options; what
    follows it is positional).  Both options take an argument, the rest of
    the element ([-v2]) or the next element ([-v 2], taken whatever it
    is).  [atoi] is glibc's [(int) strtol(s, NULL, 10)].  [parse_args]
    is [main] from its first line to the [strcpy] of the address, and
    [main_start] composes it with [Main.main_init]. *)

From S2P Require Import Prelude Scanf Path State NodeServer RingInv Main.

(** ** [getopt] *)

(** What one call of [getopt] returns: an option with its argument, or
    ['?']. *)
Inductive opt := OptX (arg : list Z) | OptV (arg : list Z) | OptErr.

#[export] Instance opt_eq_dec : EqDecision opt.
Proof. solve_decision. Defined.

(** An element of [argv] is an option element when it starts with ['-']
    and is not ["-"] itself: its option character and the rest. *)
Definition option_word (a : list Z) : option (Z * list Z) :=
  match a with
  | c :: c' :: tl => if c =? 45 then Some (c', tl) else None
  | _ => None
  end.

Definition DASH_DASH : list Z := [45; 45].
Definition DASH_X : list Z := [45; 120].
Definition DASH_V : list Z := [45; 118].

(** The returns of [getopt] up to the first ['?'] (after which [main]
    exits), and [argv[optind..argc)] once it has returned [-1]. *)
Fixpoint getopt_all (args : list (list Z)) : list opt * list (list Z) :=
  match args with
  | [] => ([], [])
  | a :: rest =>
      if bool_decide (a = DASH_DASH) then ([], rest)
      else match option_word a with
           | Some (c, tl) =>
               if (c =? 120) || (c =? 118) then
                 let k := if c =? 120 then OptX else OptV in
                 match tl, rest with
                 | _ :: _, _ => let '(os, ps) := getopt_all rest in (k tl :: os, ps)
                 | [], arg :: rest' => let '(os, ps) := getopt_all rest' in (k arg :: os, ps)
                 | [], [] => ([OptErr], [])
                 end
               else ([OptErr], [])
           | None => let '(os, ps) := getopt_all rest in (os, a :: ps)
           end
  end.

(** ** [atoi] *)

Definition INT_MIN : Z := - 2 ^ 31.
Definition INT_MAX : Z := 2 ^ 31 - 1.

(** The conversion of a [long] to [int] (modulo [2^32], as gcc does). *)
Definition int_of_long (v : Z) : Z := (v + 2 ^ 31) mod 2 ^ 32 - 2 ^ 31.

(** [atoi(s)]: white space, an optional sign, the longest run of digits
    ([0] when there is none), saturated at the bounds of [long] by
    [strtol], then converted to [int]. *)
Definition atoi (s : list Z) : Z :=
  let s1 := skip_space s in
  let '(sign, s2) := match s1 with
                     | c :: l => if c =? 45 then (-1, l) else if c =? 43 then (1, l) else (1, s1)
                     | [] => (1, [])
                     end in
  int_of_long (Z.max LONG_MIN (Z.min LONG_MAX (sign * decimal (fst (span_digits s2))))).

(** ** [main] up to the copy of the address *)

Record Args := mkArgs {
  own_ip : list Z;
  own_port : list Z;
  ns_addr : list Z;
  ns_port : list Z;
  initial_command : option (list Z);
  verbose_level : Z
}.

Definition NS_ADDR_DEFAULT : list Z := bytes "193.136.138.142".
Definition NS_PORT_DEFAULT : list Z := bytes "59000".

(** The [switch] on each return of [getopt], in order. *)
Fixpoint apply_opts (os : list opt) (cmd : option (list Z)) (v : Z) : outcome (option (list Z) * Z) :=
  match os with
  | [] => Ok (cmd, v)
  | OptX a :: os' => apply_opts os' (Some a) v
  | OptV a :: os' => let v' := atoi a in apply_opts os' cmd (if v' <? 0 then 0 else v')
  | OptErr :: _ => Exit "usage"
  end.

(** [argv[0]] is the program's name; [verbose_level] starts at [0]. *)
Definition parse_args (argv : list (list Z)) : outcome Args :=
  let '(os, ps) := getopt_all (tail argv) in
  let! (cmd, v) := apply_opts os None 0 in
  match ps with
  | ip :: port :: more =>
      let '(na, np) := match more with
                       | na :: np :: _ => (na, np)
                       | _ => (NS_ADDR_DEFAULT, NS_PORT_DEFAULT)
                       end in
      Ok (mkArgs ip port na np cmd v)
  | _ => Exit "usage"
  end.

Section Start.
Context `{Net}.

(** [main] up to its loop. *)
Definition main_start (argv : list (list Z)) : outcome (unit * Globals) :=
  let! a := parse_args argv in
  main_init (own_ip a) (own_port a) (ns_addr a) (ns_port a) (initial_command a) globals_zero.
End Start.

(** The elements of [argv] that give the options [os], each option and
    its argument as two elements. *)
Definition opt_words (os : list opt) : list (list Z) :=
  concat (map (fun o => match o with
                        | OptX a => [DASH_X; a]
                        | OptV a => [DASH_V; a]
                        | OptErr => []
                        end) os).

(** A command line giving [a]: the positional arguments around the
    options, [-x] when there is a command and [-v] in decimal. *)
Definition render_args (a : Args) : list (list Z) :=
  bytes "COR" :: [own_ip a; own_port a] ++
  opt_words (match initial_command a with Some c => [OptX c] | None => [] end ++
             [OptV (dec_digits 10 (verbose_level a))]) ++
  [ns_addr a; ns_port a].

(** ** Runs *)

Section Runs.
Local Open Scope string_scope.

Example getopt_samples :
  getopt_all (map bytes ["-v2"; "127.0.0.1"; "-x"; "join 123 10"; "5000"]) =
    ([OptV (bytes "2"); OptX (bytes "join 123 10")], map bytes ["127.0.0.1"; "5000"]) /\
  getopt_all (map bytes ["127.0.0.1"; "--"; "-v"; "5000"]) = ([], map bytes ["127.0.0.1"; "-v"; "5000"]) /\
  getopt_all (map bytes ["-x"; "-v"; "-"]) = ([OptX (bytes "-v")], [bytes "-"]) /\
  getopt_all (map bytes ["127.0.0.1"; "-q"]) = ([OptErr], [bytes "127.0.0.1"]) /\
  getopt_all (map bytes ["-v"]) = ([OptErr], []).
Proof. vm_compute. repeat split. Qed.

Example atoi_samples :
  atoi (bytes "  -12x") = -12 /\ atoi (bytes "x") = 0 /\ atoi (bytes "+7") = 7 /\
  atoi (bytes "4294967297") = 1 /\ atoi (bytes "99999999999999999999") = -1.
Proof. vm_compute. repeat split. Qed.
End Runs.

(** ** [getopt] on option and non-option elements *)

Lemma getopt_nonopt a rest :
  option_word a = None ->
  getopt_all (a :: rest) = (fst (getopt_all rest), a :: snd (getopt_all rest)).
Proof.
  intros Ha. cbn [getopt_all]. rewrite bool_decide_false by (intros ->; discriminate).
  rewrite Ha. by destruct (getopt_all rest).
Qed.

Lemma getopt_nonopts P rest :
  Forall (fun a => option_word a = None) P ->
  getopt_all (P ++ rest) = (fst (getopt_all rest), P ++ snd (getopt_all rest)).
Proof.
  induction 1 as [|a P Ha _ IH]; [cbn [app]; by destruct (getopt_all rest)|].
  by rewrite <- app_comm_cons, getopt_nonopt, IH.
Qed.

Lemma getopt_opt_words os rest :
  ~ In OptErr os ->
  getopt_all (opt_words os ++ rest) = (os ++ fst (getopt_all rest), snd (getopt_all rest)).
Proof.
  induction os as [|o os IH]; intros Hn; [cbn; by destruct (getopt_all rest)|].
  assert (IH' := IH (fun H => Hn (or_intror H))). unfold opt_words in *. cbn [map concat].
  destruct o as [a|a|]; [| |by destruct Hn; left]; cbn [app getopt_all];
    rewrite bool_decide_false by discriminate; cbn; rewrite IH'; done.
Qed.

(** ** [atoi] of a decimal number *)

Lemma decimal_snoc l d : decimal (l ++ [d]) = 10 * decimal l + (d - 48).
Proof. unfold decimal. by rewrite fold_left_app. Qed.

Lemma dec_digits_S f n :
  dec_digits (S f) n = if n <? 10 then [48 + n] else dec_digits f (n / 10) ++ [48 + n mod 10].
Proof. reflexivity. Qed.

Lemma dec_digits_spec f n :
  0 <= n < 10 ^ Z.of_nat (S f) ->
  dec_digits (S f) n <> [] /\ Forall (fun c => is_digit c = true) (dec_digits (S f) n) /\
  decimal (dec_digits (S f) n) = n.
Proof.
  revert n. induction f as [|f IH]; intros n Hn; rewrite dec_digits_S;
    destruct (n <? 10) eqn:E; apply Z.ltb_lt in E || apply Z.ltb_ge in E;
    try (split; [done|split; [constructor; [apply is_digit_of; lia|constructor]|unfold decimal; simpl; lia]]).
  rewrite Nat2Z.inj_succ, Z.pow_succ_r in Hn by lia.
  destruct (IH (n / 10)) as (Hne & Hd & Hdec);
    [split; [apply Z.div_pos; lia|apply Z.div_lt_upper_bound; lia]|].
  split; [by destruct (dec_digits _ _)|]. split.
  - apply Forall_app. split; [done|]. constructor; [|constructor].
    apply is_digit_of. pose proof (Z.mod_pos_bound n 10). lia.
  - rewrite decimal_snoc, Hdec. pose proof (Z.div_mod n 10). lia.
Qed.

Lemma span_digits_all ds : Forall (fun c => is_digit c = true) ds -> span_digits ds = (ds, []).
Proof. induction 1 as [|c ds Hc _ IH]; [done|]. cbn. by rewrite Hc, IH. Qed.

Lemma digit_not_sign_or_space c : is_digit c = true -> is_space c = false /\ c <> 45 /\ c <> 43.
Proof.
  unfold is_digit. rewrite andb_true_iff, !Z.leb_le. intros Hc.
  split; [|lia]. apply not_true_iff_false. unfold is_space.
  rewrite orb_true_iff, andb_true_iff, Z.eqb_eq, !Z.leb_le. lia.
Qed.

Lemma atoi_dec_digits v : 0 <= v <= INT_MAX -> atoi (dec_digits 10 v) = v.
Proof.
  intros Hv. destruct (dec_digits_spec 9 v) as (Hne & Hd & Hdec); [unfold INT_MAX in Hv; simpl; lia|].
  destruct (dec_digits 10 v) as [|c l] eqn:E; [done|].
  pose proof (Forall_inv Hd) as Hc. destruct (digit_not_sign_or_space c Hc) as (Hs & H45 & H43).
  unfold atoi. cbn [skip_space]. rewrite Hs.
  rewrite (proj2 (Z.eqb_neq _ _) H45), (proj2 (Z.eqb_neq _ _) H43), span_digits_all by done.
  cbn [fst]. rewrite Hdec. unfold int_of_long, LONG_MIN, LONG_MAX, INT_MAX in *.
  rewrite Z.min_r, Z.max_r by lia. rewrite Z.mod_small by lia. lia.
Qed.

Lemma int_of_long_range v : INT_MIN <= int_of_long v <= INT_MAX.
Proof.
  unfold int_of_long, INT_MIN, INT_MAX. pose proof (Z.mod_pos_bound (v + 2 ^ 31) (2 ^ 32)). lia.
Qed.

Lemma atoi_range s : INT_MIN <= atoi s <= INT_MAX.
Proof.
  unfold atoi. destruct (skip_space s) as [|c l]; [|destruct (c =? 45); [|destruct (c =? 43)]];
    apply int_of_long_range.
Qed.

(** ** The switch on the options *)

Lemma apply_opts_cases os c v :
  (In OptErr os /\ apply_opts os c v = Exit "usage") \/
  (~ In OptErr os /\ exists c' v', apply_opts os c v = Ok (c', v') /\ (v' = v \/ 0 <= v' <= INT_MAX)).
Proof.
  revert c v. induction os as [|o os IH]; intros c v; [right; split; [intros []|exists c, v; auto]|].
  destruct o as [a|a|]; [| |by left; split; [left|]].
  - destruct (IH (Some a) v) as [[Hi He]|[Hi He]]; [left; split; [by right|done]|right].
    split; [by intros [?|?]|done].
  - destruct (IH c (if atoi a <? 0 then 0 else atoi a)) as [[Hi He]|[Hi (c' & v' & He & Hv)]];
      [left; split; [by right|done]|right].
    split; [by intros [?|?]|]. exists c', v'. split; [done|right].
    destruct Hv as [->|Hv]; [|done]. pose proof (atoi_range a).
    destruct (_ <? 0) eqn:E; [unfold INT_MAX; lia|]. apply Z.ltb_ge in E. lia.
Qed.

(** ** What [main] takes from its command line *)

(** C12: round trip of the command line.  A command line written with
    the node's address and port first, then [-x] with the initial command
    when there is one and [-v] with the verbosity in decimal, then the
    directory's address and port, is read back by [getopt] and [main]'s
    option switch as exactly those values: the options after the first
    positional arguments are found (glibc permutes [argv]), and a
    verbosity in the range of [int] is read back by [atoi]. *)
Theorem parse_args_roundtrip a :
  option_word (own_ip a) = None -> option_word (own_port a) = None ->
  option_word (ns_addr a) = None -> option_word (ns_port a) = None ->
  0 <= verbose_level a <= INT_MAX ->
  parse_args (render_args a) = Ok a.
Proof.
  intros Hip Hport Hna Hnp Hv. unfold parse_args, render_args. cbn [tail].
  rewrite (getopt_nonopts [own_ip a; own_port a]) by (repeat constructor; assumption).
  rewrite getopt_opt_words by (destruct (initial_command a); cbn; intuition discriminate).
  rewrite (getopt_nonopt (ns_addr a)), (getopt_nonopt (ns_port a)) by assumption.
  cbn [fst snd app getopt_all].
  destruct (initial_command a) eqn:Ec; cbn [app apply_opts];
    rewrite atoi_dec_digits, (proj2 (Z.ltb_ge _ _)) by lia; destruct a; cbn in *; by subst.
Qed.

(** C13: the usage error.  [main] prints its usage and exits (status 1)
    exactly when [getopt] reports an unknown option or a last option
    without its argument, or fewer than two positional arguments remain;
    reading the command line never has undefined behaviour. *)
Theorem parse_args_usage argv :
  (parse_args argv = Exit "usage" <->
   In OptErr (fst (getopt_all (tail argv))) \/ (length (snd (getopt_all (tail argv))) < 2)%nat) /\
  (forall w, parse_args argv <> Undefined w).
Proof.
  unfold parse_args. destruct (getopt_all (tail argv)) as [os ps]. cbn [fst snd].
  destruct (apply_opts_cases os None 0) as [[Hi He]|[Hi (c & v & He & _)]]; rewrite He; cbn.
  - split; [split; [by left|done]|done].
  - destruct ps as [|ip [|port more]]; cbn.
    1,2: split; [split; [intros _; right; cbn; lia|done]|done].
    destruct more as [|na [|np more]]; cbn;
      (split; [split; [done|intros [?|?]; [done|cbn in *; lia]]|done]).
Qed.

(** Bounds of [verbose_level].  Whatever the command line, the
    verbosity [main] stores is a non-negative [int]: [atoi]'s result is
    converted to [int] and a negative one is raised to [0]. *)
Theorem parse_args_verbose_level argv a :
  parse_args argv = Ok a -> 0 <= verbose_level a <= INT_MAX.
Proof.
  unfold parse_args. destruct (getopt_all (tail argv)) as [os ps].
  destruct (apply_opts_cases os None 0) as [[_ He]|[_ (c & v & He & Hv)]]; rewrite He; cbn; [done|].
  destruct ps as [|ip [|port more]]; try done. destruct more as [|na [|np more]];
    intros [= <-]; cbn; unfold INT_MAX in *; lia.
Qed.

(** C14: an address argument of 16 bytes or more overflows
    [self.ip_addr].  [main] copies the first positional argument with
    [strcpy] into the 16-byte [self.ip_addr] without checking its length,
    so a longer address writes past the buffer. *)
Theorem main_start_long_address `{Net} argv a :
  parse_args argv = Ok a -> IPV4_ADDR_STR_SIZE <= zlen (own_ip a) ->
  main_start argv = Undefined "strcpy past self.ip_addr".
Proof.
  intros Ha Hlen. unfold main_start. rewrite Ha. cbv beta iota.
  unfold main_init, strcpy_into. rewrite (proj2 (Z.leb_gt _ _)) by lia. reflexivity.
Qed.

(** C15: the fatal environment errors of start-up (the spec's error
    class (a): the process ends with a diagnostic and status 1).  For
    arguments that fit [self], [main] exits when [getaddrinfo] cannot
    resolve the directory's address; then when it cannot resolve the
    node's own port for the listening socket, with the same message
    "Couldn't get the node server address"; then when the port cannot be
    bound.  Only when all three succeed does it reach the loop. *)
Theorem main_start_startup_errors `{Net} argv a :
  parse_args argv = Ok a ->
  zlen (own_ip a) < IPV4_ADDR_STR_SIZE -> zlen (own_port a) < TCP_PORT_STR_SIZE ->
  (net_resolve (Some (ns_addr a)) (ns_port a) = false ->
     main_start argv = Exit "Couldn't get the node server address") /\
  (net_resolve (Some (ns_addr a)) (ns_port a) = true -> net_resolve None (own_port a) = false ->
     main_start argv = Exit "Couldn't get the node server address") /\
  (net_resolve (Some (ns_addr a)) (ns_port a) = true -> net_resolve None (own_port a) = true ->
     net_bind (own_port a) = false -> main_start argv = Exit "Couldn't bind TCP server to port") /\
  (forall g, main_start argv = Ok (tt, g) ->
     net_resolve (Some (ns_addr a)) (ns_port a) = true /\ net_resolve None (own_port a) = true /\
     net_bind (own_port a) = true).
Proof.
  intros Ha Hip Hport. unfold main_start. rewrite Ha. cbv beta iota.
  unfold main_init, init_ns, strcpy_into.
  rewrite (proj2 (Z.leb_le _ _)) by lia. rewrite (proj2 (Z.leb_le _ _)) by lia. cbn [bind modify get ret lift].
  destruct (net_resolve (Some _) _), (net_resolve None _), (net_bind _); repeat split; try done;
    intros g' E; discriminate E.
Qed.

(** ** Witnesses *)

Definition args_sample : Args :=
  mkArgs (bytes "127.0.0.1") (bytes "5000") (bytes "127.0.0.1") (bytes "59001")
         (Some (bytes "join 123 10")) 2.

Lemma parse_args_roundtrip_witness :
  render_args args_sample = map bytes ["COR"; "127.0.0.1"; "5000"; "-x"; "join 123 10"; "-v"; "2";
                                       "127.0.0.1"; "59001"]%string /\
  parse_args (render_args args_sample) = Ok args_sample.
Proof.
  split; [vm_compute; reflexivity|].
  apply parse_args_roundtrip; vm_compute; [reflexivity..|split; discriminate].
Defined.

Lemma parse_args_verbose_level_witness :
  0 <= verbose_level args_sample <= INT_MAX.
Proof. apply (parse_args_verbose_level (render_args args_sample)). vm_compute. reflexivity. Defined.

Lemma main_start_long_address_witness :
  main_start (H := net_connected) (map bytes ["COR"; "192.168.100.1000"; "5000"]%string) =
    Undefined "strcpy past self.ip_addr".
Proof.
  apply (main_start_long_address _
           (mkArgs (bytes "192.168.100.1000") (bytes "5000") NS_ADDR_DEFAULT NS_PORT_DEFAULT None 0));
    vm_compute; [reflexivity|discriminate].
Defined.

(** Three positional arguments: the third is ignored and the directory
    is the built-in default one. *)
Example parse_args_three_positionals :
  parse_args (map bytes ["COR"; "127.0.0.1"; "5000"; "10.0.0.1"]%string) =
    Ok (mkArgs (bytes "127.0.0.1") (bytes "5000") NS_ADDR_DEFAULT NS_PORT_DEFAULT None 0).
Proof. vm_compute. reflexivity. Qed.

(** A directory that does not resolve, then one that does on a port
    that cannot be bound. *)
Definition net_unresolved : Net :=
  {| net_connect _ := NET_CONNECTED; net_nodes_reply _ := None;
     net_resolve h _ := match h with Some _ => false | None => true end; net_bind _ := true |}.

Lemma main_start_startup_errors_witness :
  main_start (H := net_unresolved) (map bytes ["COR"; "127.0.0.1"; "5000"]%string) =
    Exit "Couldn't get the node server address".
Proof.
  refine (proj1 (main_start_startup_errors (H := net_unresolved) _
           (mkArgs (bytes "127.0.0.1") (bytes "5000") NS_ADDR_DEFAULT NS_PORT_DEFAULT None 0) _ _ _) _);
    vm_compute; reflexivity.
Defined.

