(* ===== verification/Fits.v ===== *)
(** * Fits: the node fields always fit their C objects

    [struct Node] ([src/main.h]) has a [signed char] id, a 16-byte
    [ip_addr] and a 6-byte [tcp_port]; [ring_id_str] ([src/ring.c]) has 4
    bytes.  The code copies nodes with [copy_node], which uses [strcpy],
    and prints them with [%s]: each copy is within bounds only if every
    node it reads fits.  This file proves the type invariant [fits]: in
    every reachable state, [self], [succ], [second_succ] and every node of
    [node_arr] fit [struct Node] (an id in [[-128, 127]], at most 15
    address bytes, at most 5 port bytes), and [ring_id_str] has at most 3
    bytes.

    The values come from [sscanf] ([%hhd], [%15s], [%5s], [%3s]:
    [Scanf.sscanf_fits]), from other nodes that fit, from
    [first_unused_id], and from the command line, which [main_init]
    copies with [strcpy] only when it fits.  The proof follows
    [RingInv]: one [keeps] lemma per operation, by symbolic execution
    ([keep_fits]), then induction on [reachable].  Two consequences:
    [copy_node] from a node the program holds never overflows
    ([copy_node_fits]), and the rows of the node and topology tables
    ([Show.v]) are as wide as their borders exactly for the ids from -9
    to 99. *)

From S2P Require Import Prelude Scanf Path Connections Routing State Show Ring NodeServer RingInv Main.

Definition node_fits (n : Node.t) : Prop :=
  -128 <= Node.id n <= 127 /\ zlen (Node.ip_addr n) < IPV4_ADDR_STR_SIZE /\
  zlen (Node.tcp_port n) < TCP_PORT_STR_SIZE.

(** [char ring_id_str[4]] *)
Definition RING_ID_STR_SIZE : Z := 4.

Record fields_fit (f : NodeFields) : Prop := {
  fit_self : node_fits (nf_self f);
  fit_succ : node_fits (nf_succ f);
  fit_second_succ : node_fits (nf_second_succ f);
  fit_node_arr : Forall node_fits (nf_node_arr f);
  fit_ring_id : zlen (nf_ring_id f) < RING_ID_STR_SIZE
}.

Definition fits (g : Globals) : Prop := fields_fit (node_fields g).

Local Notation "'kept' m" := (keeps fits m (fun _ => True)) (at level 10, m at level 9).

(** ** What [sscanf] stores *)

Lemma Forall2_nth_error {A B} (P : A -> B -> Prop) l l' k y :
  Forall2 P l l' -> nth_error l' k = Some y -> exists x, nth_error l k = Some x /\ P x y.
Proof.
  intros F. revert k. induction F as [|x y' l l' Hxy F IH]; intros [|k] E; try done.
  - injection E as <-. by exists x.
  - by apply IH.
Qed.

Lemma nth_error_take_Some {A} (l : list A) n k x :
  nth_error (take n l) k = Some x -> nth_error l k = Some x.
Proof.
  revert n k. induction l as [|y l IH]; intros [|n] [|k]; cbn; try done. apply IH.
Qed.

Lemma sscanf_value input fmt n vs k v :
  sscanf input fmt = (n, vs) -> nth_error vs k = Some v ->
  exists d, nth_error (stored (parse_format (bytes fmt))) k = Some d /\ value_fits d v.
Proof.
  intros E Hk. destruct (Forall2_nth_error _ _ _ _ _ (sscanf_fits _ _ _ _ E) Hk) as (d & Hd & Hf).
  exists d. split; [|done]. by apply nth_error_take_Some in Hd.
Qed.

(** A [signed char] stored by [sscanf] ([%hhd]). *)
Lemma sscanf_int input fmt n vs k v :
  sscanf input fmt = (n, vs) -> nth_error vs k = Some (VInt v) -> -128 <= v <= 127.
Proof. intros E Hk. destruct (sscanf_value _ _ _ _ _ _ E Hk) as (d & _ & Hf). by inversion Hf. Qed.

(** A string stored by [sscanf] with the width [w] of its directive. *)
Lemma sscanf_str input fmt n vs k s w :
  sscanf input fmt = (n, vs) -> nth_error vs k = Some (VStr s) ->
  nth_error (stored (parse_format (bytes fmt))) k = Some (DStr (Some w)) -> zlen s <= Z.of_nat w.
Proof.
  intros E Hk Hw. destruct (sscanf_value _ _ _ _ _ _ E Hk) as (d & Hd & Hf).
  rewrite Hw in Hd. injection Hd as <-. inversion Hf as [| ? ? Hs |]; subst.
  unfold zlen. specialize (Hs w eq_refl). lia.
Qed.

(** A node of three [sscanf] values, [%hhd %15s %5s] at [k], [k+1], [k+2]. *)
Lemma sscanf_node input fmt n vs k id ip port :
  sscanf input fmt = (n, vs) ->
  nth_error vs k = Some (VInt id) -> nth_error vs (S k) = Some (VStr ip) ->
  nth_error vs (S (S k)) = Some (VStr port) ->
  nth_error (stored (parse_format (bytes fmt))) (S k) = Some (DStr (Some 15%nat)) ->
  nth_error (stored (parse_format (bytes fmt))) (S (S k)) = Some (DStr (Some 5%nat)) ->
  node_fits (Node.mk id ip port).
Proof.
  intros E Hid Hip Hport Hw1 Hw2. split; [by eapply sscanf_int|].
  unfold IPV4_ADDR_STR_SIZE, TCP_PORT_STR_SIZE. cbn.
  pose proof (sscanf_str _ _ _ _ _ _ _ E Hip Hw1). pose proof (sscanf_str _ _ _ _ _ _ _ E Hport Hw2). lia.
Qed.

(** ** Steps that leave the node fields alone *)

Lemma keeps_modify_fits_frame f : (forall g, node_fields (f g) = node_fields g) -> kept (modify f).
Proof. apply (keeps_modify_frame node_fields fields_fit). Qed.

Lemma keeps_fits_frame {A} (m : M A) :
  (forall g, match m g with Ok (_, g') => node_fields g' = node_fields g | _ => True end) -> kept m.
Proof.
  intros Hm g Hg. specialize (Hm g). destruct (m g) as [[a g']| |]; [|done|done].
  split; [|done]. unfold fits. by rewrite Hm.
Qed.

Lemma keeps_conn_printf_fits s l : kept (conn_printf s l).
Proof. apply (keeps_conn_printf node_fields fields_fit). Qed.
Lemma keeps_set_timeout_fits ms h : kept (set_timeout ms h).
Proof. apply (keeps_set_timeout node_fields fields_fit). Qed.
Lemma keeps_cancel_timeout_fits : kept cancel_timeout.
Proof. apply (keeps_cancel_timeout node_fields fields_fit). Qed.
Lemma keeps_send_ns_message_fits msg n : kept (send_ns_message msg n).
Proof. apply (keeps_send_ns_message node_fields fields_fit). Qed.
Lemma keeps_sprintf_into_fits size s what : keeps fits (sprintf_into size s what) (fun _ => True).
Proof. apply (keeps_sprintf_into node_fields fields_fit). Qed.
Lemma keeps_strcpy_into_fits size s what : kept (strcpy_into size s what).
Proof. apply (keeps_strcpy_into node_fields fields_fit). Qed.
Lemma keeps_routing_op_fits f : kept (routing_op f).
Proof. apply (keeps_routing_op node_fields fields_fit). Qed.

Lemma fits_emit e g : fits g -> fits (emit e g).
Proof. apply (frame_emit_keeps node_fields fields_fit). Qed.
Lemma keeps_print_fits s : kept (print s).
Proof. apply keeps_print, fits_emit. Qed.
Lemma keeps_print_node_table_fits : kept print_node_table.
Proof. apply keeps_print_node_table, fits_emit. Qed.
Lemma keeps_cmd_show_topology_fits : kept cmd_show_topology.
Proof. apply keeps_cmd_show_topology, fits_emit. Qed.
Lemma keeps_cmd_show_routing_fits short input : kept (cmd_show_routing short input).
Proof. apply keeps_cmd_show_routing, fits_emit. Qed.
Lemma keeps_cmd_show_path_fits short input : kept (cmd_show_path short input).
Proof. apply keeps_cmd_show_path, fits_emit. Qed.

Lemma keeps_update_routing_and_announce_m_fits nid rid p : kept (update_routing_and_announce_m nid rid p).
Proof. apply keeps_routing_op_fits. Qed.

Lemma keeps_deref_fits p what : kept (deref p what).
Proof. destruct p; [by apply keeps_gets|apply keeps_lift]. Qed.

Lemma keeps_set_node_id_fits p id what : kept (set_node_id p id what).
Proof. destruct p; [by apply keeps_modify_fits_frame|apply keeps_lift]. Qed.

Lemma keeps_add_connection_m_fits s : kept (add_connection_m s).
Proof.
  apply keeps_fits_frame. intros g. unfold add_connection_m. by destruct (add_connection _ _) as [[i r']| |].
Qed.

Lemma keeps_close_connection_m_fits p : kept (close_connection_m p).
Proof.
  apply keeps_fits_frame. intros g. unfold close_connection_m. destruct p; [|done]. by destruct (_ =? -1).
Qed.

Lemma keeps_send_shortest_paths_m_fits p : kept (send_shortest_paths_m p).
Proof.
  eapply keeps_bind; [apply keeps_deref_fits|]. intros c _. apply keeps_fits_frame. intros g. cbv beta.
  destruct (send_shortest_paths _ _ _); [|done|done]. apply (emit_all_frame node_fields).
Qed.

Lemma keeps_forward_message_m_fits sender rid text : kept (forward_message_m sender rid text).
Proof.
  apply keeps_fits_frame. intros g. unfold forward_message_m.
  by destruct (forward_message _ _ _ _ _) as [[[s l]|]| |].
Qed.

Create HintDb fits discriminated.
#[export] Hint Constants Opaque : fits.

#[export] Hint Resolve keeps_conn_printf_fits keeps_set_timeout_fits keeps_cancel_timeout_fits
  keeps_send_ns_message_fits keeps_sprintf_into_fits keeps_strcpy_into_fits keeps_routing_op_fits
  keeps_deref_fits keeps_set_node_id_fits keeps_add_connection_m_fits keeps_close_connection_m_fits
  keeps_send_shortest_paths_m_fits keeps_forward_message_m_fits keeps_update_routing_and_announce_m_fits
  keeps_print_fits keeps_print_node_table_fits keeps_cmd_show_topology_fits keeps_cmd_show_routing_fits
  keeps_cmd_show_path_fits : fits.
#[export] Hint Resolve keeps_lift : fits.
#[export] Hint Extern 1 (keeps _ (ret _) _) => apply keeps_ret; exact I : fits.
#[export] Hint Extern 1 (keeps fits (gets _) _) => apply keeps_gets; intros; exact I : fits.
#[export] Hint Extern 2 (keeps fits (modify _) _) => apply keeps_modify_fits_frame; intros; reflexivity : fits.

(** A handler's [match] on the result of [sscanf]: the branch of the
    expected values, with the equation, and the fallback. *)
Lemma keeps_scan3 {A} (I : Globals -> Prop) m f (K : Z -> list Z -> list Z -> M A) (D : M A) R :
  (forall id ip port, sscanf m f = (3, [VInt id; VStr ip; VStr port]) -> keeps I (K id ip port) R) ->
  keeps I D R ->
  keeps I (match sscanf m f with (3, [VInt id; VStr ip; VStr port]) => K id ip port | _ => D end) R.
Proof. intros HK HD. destruct (sscanf m f) as [n vs] eqn:E. repeat (case_match; subst; auto). Qed.

Lemma keeps_scan1 {A} (I : Globals -> Prop) m f (K : Z -> M A) (D : M A) R :
  (forall id, sscanf m f = (1, [VInt id]) -> keeps I (K id) R) ->
  keeps I D R ->
  keeps I (match sscanf m f with (1, [VInt id]) => K id | _ => D end) R.
Proof. intros HK HD. destruct (sscanf m f) as [n vs] eqn:E. repeat (case_match; subst; auto). Qed.

(** Symbolic execution for [fits]: a [match] on a computed value keeps
    its equation (the [sscanf] results the node writers need). *)
Ltac keep_fits :=
  keep_with ltac:(eauto with fits) ltac:(fun x => first [is_var x; destruct x | destruct x eqn:?]).

(** A step that writes node fields: what is left is that the new values
    fit. *)
Ltac fits_modify :=
  apply keeps_modify; intros ?g ?Hf; destruct Hf as [?Hs ?Hc ?H2 ?Ha ?Hr]; split;
  cbn [node_fields nf_self nf_succ nf_second_succ nf_node_arr nf_ring_id self succ second_succ node_arr
       ring_id_str set_self set_succ set_second_succ set_node_arr set_ring_id_str] in *;
  try assumption.

(** ** Steps that write a node *)

Lemma fits_self g : fits g -> node_fits (self g).
Proof. by intros []. Qed.
Lemma fits_succ g : fits g -> node_fits (succ g).
Proof. by intros []. Qed.
Lemma fits_second_succ g : fits g -> node_fits (second_succ g).
Proof. by intros []. Qed.

Lemma keeps_set_self_fits n : node_fits n -> kept (modify (set_self n)).
Proof. intros Hn. fits_modify. Qed.
Lemma keeps_set_succ_fits n : node_fits n -> kept (modify (set_succ n)).
Proof. intros Hn. fits_modify. Qed.
Lemma keeps_set_second_succ_fits n : node_fits n -> kept (modify (set_second_succ n)).
Proof. intros Hn. fits_modify. Qed.

(** A node scanned with [%hhd %15s %5s] as the first three values. *)
Ltac scanned_node :=
  match goal with
  | E : sscanf _ _ = (_, _) |- node_fits _ =>
      eapply (sscanf_node _ _ _ _ 0); [exact E|reflexivity..|vm_compute; reflexivity|vm_compute; reflexivity]
  end.

#[export] Hint Resolve fits_self fits_succ fits_second_succ keeps_set_self_fits keeps_set_succ_fits
  keeps_set_second_succ_fits : fits.
#[export] Hint Extern 3 (node_fits _) => scanned_node : fits.

(** ** The operations of [src/ring.c] *)

Lemma keeps_find_connection_by_node_id_m_fits id : kept (find_connection_by_node_id_m id).
Proof. by apply keeps_gets. Qed.

Lemma keeps_new_node_becomes_pred_fits : kept new_node_becomes_pred.
Proof. unfold new_node_becomes_pred, set_pred_conn, set_new_node_conn. keep_fits. Qed.

Lemma keeps_remove_neighbor_connection_fits id : kept (remove_neighbor_connection id).
Proof. unfold remove_neighbor_connection. keep_fits; apply keeps_find_connection_by_node_id_m_fits. Qed.

#[export] Hint Resolve keeps_find_connection_by_node_id_m_fits keeps_new_node_becomes_pred_fits
  keeps_remove_neighbor_connection_fits : fits.
#[export] Hint Extern 1 (keeps fits (set_pred_conn _) _) => apply keeps_modify_fits_frame; intros; reflexivity : fits.
#[export] Hint Extern 1 (keeps fits (set_succ_conn _) _) => apply keeps_modify_fits_frame; intros; reflexivity : fits.
#[export] Hint Extern 1 (keeps fits (set_new_node_conn _) _) => apply keeps_modify_fits_frame; intros; reflexivity : fits.
#[export] Hint Extern 1 (keeps fits (set_outbound_chord_conn _) _) => apply keeps_modify_fits_frame; intros; reflexivity : fits.

Section Ring.
Context `{Net}.

Lemma keeps_connect_to_node_fits n : kept (connect_to_node n).
Proof. unfold connect_to_node. keep_fits. Qed.

Lemma keeps_connect_succ_fits n : kept (connect_succ n).
Proof. unfold connect_succ. keep_fits. apply keeps_connect_to_node_fits. Qed.

Lemma keeps_connect_outbound_chord_fits n : kept (connect_outbound_chord n).
Proof. unfold connect_outbound_chord. keep_fits. apply keeps_connect_to_node_fits. Qed.
#[local] Hint Resolve keeps_connect_succ_fits keeps_connect_outbound_chord_fits : fits.

Lemma keeps_leave_ring_fits : kept leave_ring.
Proof.
  unfold leave_ring. keep_fits. apply keeps_for_each. intros. apply keeps_close_connection_m_fits.
Qed.
#[local] Hint Resolve keeps_leave_ring_fits : fits.

Lemma keeps_join_ring_fits : kept join_ring.
Proof. unfold join_ring. keep_fits. Qed.

Lemma keeps_on_join_end_fits : kept on_join_end.
Proof. unfold on_join_end. keep_fits. Qed.

Lemma keeps_create_outbound_chord_fits n : kept (create_outbound_chord n).
Proof. unfold create_outbound_chord. keep_fits. Qed.

Lemma keeps_handle_message_from_any_node_fits m conn : kept (handle_message_from_any_node m conn).
Proof. unfold handle_message_from_any_node. keep_fits. Qed.
#[local] Hint Resolve keeps_join_ring_fits keeps_on_join_end_fits keeps_handle_message_from_any_node_fits : fits.

Lemma keeps_handle_message_from_succ_fits m : kept (handle_message_from_succ m).
Proof.
  unfold handle_message_from_succ.
  apply keeps_scan3; [intros id ip port E; keep_fits|]. apply keeps_scan3; [intros id ip port E; keep_fits|].
  keep_fits.
Qed.

Lemma keeps_handle_message_from_pred_fits m : kept (handle_message_from_pred m).
Proof. unfold handle_message_from_pred. keep_fits. Qed.

Lemma keeps_handle_message_from_chord_fits m conn : kept (handle_message_from_chord m conn).
Proof. unfold handle_message_from_chord. keep_fits. Qed.

Lemma keeps_handle_message_from_new_node_fits m : kept (handle_message_from_new_node m).
Proof.
  unfold handle_message_from_new_node.
  apply keeps_scan3; [intros id ip port E; keep_fits|].
  apply keeps_scan1; [intros id E; keep_fits|]. apply keeps_scan1; [intros id E; keep_fits|]. keep_fits.
Qed.
#[local] Hint Resolve keeps_handle_message_from_succ_fits keeps_handle_message_from_pred_fits
  keeps_handle_message_from_chord_fits keeps_handle_message_from_new_node_fits : fits.

Lemma keeps_handle_message_fits sock m : kept (handle_message sock m).
Proof. unfold handle_message. keep_fits. Qed.

Lemma keeps_handle_broken_succ_socket_fits : kept handle_broken_succ_socket.
Proof. unfold handle_broken_succ_socket. keep_fits. Qed.

Lemma keeps_handle_broken_pred_socket_fits : kept handle_broken_pred_socket.
Proof. unfold handle_broken_pred_socket. keep_fits. Qed.
#[local] Hint Resolve keeps_handle_broken_succ_socket_fits keeps_handle_broken_pred_socket_fits : fits.

Lemma keeps_handle_broken_socket_fits sock : kept (handle_broken_socket sock).
Proof. unfold handle_broken_socket. keep_fits. Qed.
End Ring.

#[export] Hint Resolve keeps_connect_succ_fits keeps_connect_outbound_chord_fits keeps_leave_ring_fits
  keeps_join_ring_fits keeps_on_join_end_fits keeps_create_outbound_chord_fits
  keeps_handle_message_from_any_node_fits keeps_handle_message_fits keeps_handle_broken_socket_fits : fits.

(** ** The directory client *)

Lemma parse_node_lines_fits f msg cm sid r i nodes nodes' :
  Forall node_fits nodes -> parse_node_lines f msg cm sid r i nodes = Ok nodes' -> Forall node_fits nodes'.
Proof.
  revert i nodes. induction f as [|f IH]; intros i nodes Hn; cbn [parse_node_lines]; [by intros [= <-]|].
  unfold node_line_step. destruct (_ <? _); [|by intros [= <-]].
  destruct (sscanf _ _) as [cnt vals] eqn:E. repeat (case_match; try done). subst.
  all: apply IH; try done.
  apply Forall_app. split; [done|]. constructor; [scanned_node|constructor].
Qed.

Lemma parse_node_list_fits msg cm sid r nodes :
  parse_node_list msg cm sid r = Ok nodes -> Forall node_fits nodes.
Proof.
  unfold parse_node_list. destruct (msg_at msg 13); try done. destruct (negb _); [done|].
  destruct (msg_at _ _); try done. destruct (negb _); [done|]. by apply parse_node_lines_fits.
Qed.

Lemma keeps_parse_node_list_fits msg cm sid r :
  keeps fits (lift (parse_node_list msg cm sid r)) (Forall node_fits).
Proof.
  intros g Hg. unfold lift. destruct (parse_node_list msg cm sid r) eqn:E; [|done|done].
  split; [done|]. by eapply parse_node_list_fits.
Qed.

Lemma keeps_set_node_arr_fits l : Forall node_fits l -> kept (modify (set_node_arr l)).
Proof. intros Hl. fits_modify. Qed.

Lemma first_unused_id_range nodes : 0 <= first_unused_id nodes <= 100.
Proof.
  unfold first_unused_id. pose proof (find_index_range (fun k => negb (existsb (fun n => Node.id n =? k) nodes))
                                        (zrange 100)) as Hr.
  destruct (_ =? -1) eqn:E; [lia|]. apply Z.eqb_neq in E. rewrite zlen_zrange in Hr by lia. lia.
Qed.

(** A node with a new id that fits. *)
Lemma node_fits_id n id : node_fits n -> -128 <= id <= 127 -> node_fits (Node.mk id (Node.ip_addr n) (Node.tcp_port n)).
Proof. by intros (_ & Hip & Hport) Hid. Qed.

#[export] Hint Resolve keeps_parse_node_list_fits | 0 : fits.
#[export] Hint Resolve keeps_set_node_arr_fits : fits.

Section Client.
Context `{Net}.

Lemma keeps_request_node_list_fits : kept request_node_list.
Proof.
  unfold request_node_list. keep_fits.
  fits_modify. apply node_fits_id; [done|]. pose proof (first_unused_id_range a1). lia.
Qed.
End Client.

#[export] Hint Resolve keeps_request_node_list_fits : fits.

(** ** The commands of [src/main.c] *)

Lemma keeps_set_self_id_fits id : -128 <= id <= 127 -> kept (set_self_id id).
Proof. intros Hid. unfold set_self_id. fits_modify. by apply node_fits_id. Qed.

Lemma keeps_set_ring_id_fits s : zlen s < RING_ID_STR_SIZE -> kept (modify (set_ring_id_str s)).
Proof. intros Hs. fits_modify. Qed.

Lemma fits_find g f n : fits g -> List.find f (node_arr g) = Some n -> node_fits n.
Proof.
  intros [_ _ _ Ha _] E. apply List.find_some in E as [Hin _].
  rewrite List.Forall_forall in Ha. by apply Ha.
Qed.

(** An id or a string [sscanf] stored at position [k]. *)
Ltac scanned_value :=
  match goal with
  | E : sscanf _ _ = (_, ?vs) |- -128 <= ?v <= 127 =>
      first [eapply sscanf_int; [exact E|eassumption]
            | eapply (sscanf_int _ _ _ _ 0); [exact E|reflexivity]
            | eapply (sscanf_int _ _ _ _ 1); [exact E|reflexivity]]
  | E : sscanf _ _ = (_, ?vs) |- zlen ?s < ?size =>
      let H := fresh in
      first [epose proof (sscanf_str _ _ _ _ _ _ _ E ltac:(eassumption)) as H
            | epose proof (sscanf_str _ _ _ _ 0 _ _ E ltac:(reflexivity)) as H];
      specialize (H ltac:(vm_compute; reflexivity)); cbn in H;
      unfold IPV4_ADDR_STR_SIZE, TCP_PORT_STR_SIZE, RING_ID_STR_SIZE; lia
  end.

#[export] Hint Resolve keeps_set_self_id_fits keeps_set_ring_id_fits : fits.
#[export] Hint Extern 3 (node_fits _) => eapply fits_find; [eassumption|eassumption] : fits.
#[export] Hint Extern 4 (-128 <= _ <= 127) => scanned_value : fits.
#[export] Hint Extern 4 (zlen _ < _) => scanned_value : fits.

Lemma node_fits_set_id n id : node_fits n -> -128 <= id <= 127 -> node_fits (node_set_id n id).
Proof. apply node_fits_id. Qed.
Lemma node_fits_set_ip n s : node_fits n -> zlen s < IPV4_ADDR_STR_SIZE -> node_fits (node_set_ip n s).
Proof. by intros (Hid & _ & Hport) Hs. Qed.
Lemma node_fits_set_port n s : node_fits n -> zlen s < TCP_PORT_STR_SIZE -> node_fits (node_set_port n s).
Proof. by intros (Hid & Hip & _) Hs. Qed.

#[export] Hint Resolve node_fits_set_id node_fits_set_ip node_fits_set_port : fits.

(** A step that writes node fields, closed from the old fields and the
    scanned values. *)
Ltac fits_write :=
  fits_modify; try (unfold RING_ID_STR_SIZE, zlen; simpl; lia); eauto with fits.

Section Commands.
Context `{Net}.

Lemma keeps_handle_node_selection_fits input : kept (handle_node_selection input).
Proof. unfold handle_node_selection. keep_fits. Qed.

Lemma keeps_cmd_join_fits input : kept (cmd_join input).
Proof. unfold cmd_join. keep_fits. Qed.

Lemma keeps_cmd_direct_join_fits dj input : kept (cmd_direct_join dj input).
Proof. unfold cmd_direct_join. destruct dj; keep_fits; fits_write. Qed.

Lemma keeps_cmd_chord_fits : kept cmd_chord.
Proof. unfold cmd_chord. keep_fits. Qed.

Lemma keeps_cmd_remove_chord_fits : kept cmd_remove_chord.
Proof. unfold cmd_remove_chord. keep_fits. Qed.

Lemma keeps_cmd_message_fits input : kept (cmd_message input).
Proof. unfold cmd_message. keep_fits. Qed.
#[local] Hint Resolve keeps_handle_node_selection_fits keeps_cmd_join_fits keeps_cmd_direct_join_fits
  keeps_cmd_chord_fits keeps_cmd_remove_chord_fits keeps_cmd_message_fits : fits.

Lemma keeps_handle_user_input_fits input : kept (handle_user_input input).
Proof. unfold handle_user_input. keep_fits. Qed.
End Commands.

#[export] Hint Resolve keeps_handle_user_input_fits : fits.

(** ** The event loop *)

Section Loop.
Context `{Net}.

Lemma keeps_check_timeout_fits : kept check_timeout.
Proof. unfold check_timeout, run_timeout_handler, pred_timeout. keep_fits. Qed.

Lemma keeps_read_stdin_fits rd : kept (read_stdin rd).
Proof. unfold read_stdin. keep_fits. apply keeps_for_lines. intros. apply keeps_handle_user_input_fits. Qed.

Lemma keeps_accept_connection_fits peer : kept (accept_connection peer).
Proof. unfold accept_connection, accept_new_node. keep_fits. Qed.

Lemma keeps_peer_readable_fits rd readable i : kept (peer_readable rd readable i).
Proof. unfold peer_readable. keep_fits. apply keeps_for_lines. intros. apply keeps_handle_message_fits. Qed.
#[local] Hint Resolve keeps_check_timeout_fits keeps_read_stdin_fits keeps_accept_connection_fits : fits.

Lemma keeps_loop_iteration_fits li : kept (loop_iteration li).
Proof.
  unfold loop_iteration. keep_fits. apply keeps_for_each. intros. apply keeps_peer_readable_fits.
Qed.

Lemma main_init_fits ip port nsa nsp cmd : holds_after fits (main_init ip port nsa nsp cmd globals_zero).
Proof.
  unfold main_init, init_ns, strcpy_into.
  destruct (zlen ip + 1 <=? IPV4_ADDR_STR_SIZE) eqn:Hip; [|done].
  destruct (zlen port + 1 <=? TCP_PORT_STR_SIZE) eqn:Hport; [|done].
  repeat match goal with |- context [net_resolve ?h ?s] => destruct (net_resolve h s); [|done] end.
  destruct (net_bind _); [|done].
  apply Z.leb_le in Hip, Hport. cbn [bind modify get ret].
  match goal with |- holds_after _ (match _ with _ => _ end ?G) => assert (HG : fits G) end.
  { split; cbn; [| | |constructor|];
      unfold node_fits, IPV4_ADDR_STR_SIZE, TCP_PORT_STR_SIZE, RING_ID_STR_SIZE, zlen in *; cbn; lia. }
  destruct cmd as [c|]; [|done]. eapply keeps_holds_after; [apply keeps_handle_user_input_fits|done].
Qed.
End Loop.

(** ** Every reachable state *)

(** [copy_node] from a node that fits copies it without overflow. *)
Lemma copy_node_fits set n g : node_fits n -> copy_node set n g = Ok (tt, set n g).
Proof.
  intros (_ & Hip & Hport). unfold copy_node, strcpy_into.
  rewrite (proj2 (Z.leb_le _ _)) by lia. rewrite (proj2 (Z.leb_le _ _)) by lia. reflexivity.
Qed.

(** Every reachable state satisfies [fits]: induction on [reachable]. *)
Lemma reachable_fits `{Net} g : reachable g -> fits g.
Proof.
  induction 1 as [ip port nsa nsp cmd g Hinit|g li g' _ IH _ Hstep].
  - pose proof (main_init_fits ip port nsa nsp cmd) as Hi. rewrite Hinit in Hi. exact Hi.
  - pose proof (keeps_loop_iteration_fits li g IH) as K. rewrite Hstep in K. by destruct K.
Qed.

(** C16: type invariant of the node fields.  In every state the program
    reaches, [self], [succ], [second_succ] and every node of [node_arr]
    fit [struct Node]: an id in the range of [signed char], at most 15
    address bytes and at most 5 port bytes (with their [NUL],
    [char ip_addr[16]] and [char tcp_port[6]]); and [ring_id_str] has at
    most 3 bytes ([char ring_id_str[4]]).  Every [copy_node] of the code,
    a [strcpy] between these objects, therefore stays in bounds. *)
Theorem reachable_node_fields_fit `{Net} g :
  reachable g ->
  node_fits (self g) /\ node_fits (succ g) /\ node_fits (second_succ g) /\
  Forall node_fits (node_arr g) /\ zlen (ring_id_str g) < RING_ID_STR_SIZE /\
  forall set n, In n ([self g; succ g; second_succ g] ++ node_arr g) -> copy_node set n g = Ok (tt, set n g).
Proof.
  intros Hr. destruct (reachable_fits g Hr) as [Hs Hsu Hss Harr Hr']. cbn in *.
  do 5 (split; [done|]). intros set n Hn. apply copy_node_fits.
  destruct Hn as [<-|[<-|[<-|Hn]]]; [done..|by apply (proj1 (List.Forall_forall _ _) Harr)].
Qed.

Lemma reachable_node_fields_fit_witness :
  node_fits (self node_b1) /\ node_fits (succ node_b1) /\ node_fits (second_succ node_b1) /\
  Forall node_fits (node_arr node_b1) /\ zlen (ring_id_str node_b1) < RING_ID_STR_SIZE /\
  forall set n, In n ([self node_b1; succ node_b1; second_succ node_b1] ++ node_arr node_b1) ->
    copy_node set n node_b1 = Ok (tt, set n node_b1).
Proof. apply (reachable_node_fields_fit (H := net_empty_ring) node_b1). exact node_b1_reachable. Defined.

(** ** The tables the user sees *)

(** A node that fits [struct Node] prints a row of the node table as
    wide as its border, and a row of the topology table as wide as its
    border, exactly when its id prints in two characters. *)
Lemma node_fits_rows n :
  node_fits n ->
  (length (node_row n) = length NODE_TABLE_BORDER <-> -9 <= Node.id n <= 99) /\
  forall head, length (bytes head) = 19%nat ->
    (length (node_topology_row head n) = length TOPOLOGY_BORDER <-> -9 <= Node.id n <= 99).
Proof.
  intros (Hid & Hip & Hport). unfold IPV4_ADDR_STR_SIZE, TCP_PORT_STR_SIZE, zlen in *.
  rewrite <- fmt_id_width by done. split.
  - rewrite length_node_row by lia. set (k := length (fmt_id _)). simpl. lia.
  - intros head Hh. rewrite length_node_topology_row, Hh, <- fmt_id_width by lia.
    set (k := length (fmt_id _)). simpl. lia.
Qed.

Lemma node_fits_topology head n :
  node_fits n -> length (bytes head) = 19%nat ->
  node_fits n /\ (length (node_topology_row head n) = length TOPOLOGY_BORDER <-> -9 <= Node.id n <= 99).
Proof. intros Hn Hh. split; [done|]. by apply (node_fits_rows n Hn). Qed.

(** C23: the tables line up.  In every reachable state, each row that
    [print_node_table] prints for a node of [node_arr], and the rows
    [show topology] prints for this node, its successor and its second
    successor, are exactly as wide as the table's border when the node's
    id is between -9 and 99; [%hhd] lets ids from -128 to 127 in, and the
    others push the right-hand columns out. *)
Theorem reachable_tables_aligned `{Net} g :
  reachable g ->
  Forall (fun n => node_fits n /\
    (length (node_row n) = length NODE_TABLE_BORDER <-> -9 <= Node.id n <= 99)) (node_arr g) /\
  Forall (fun '(head, n) => node_fits n /\
    (length (node_topology_row head n) = length TOPOLOGY_BORDER <-> -9 <= Node.id n <= 99))
    [("| This node      | "%string, self g); ("| Successor      | "%string, succ g); ("| Second succ.   | "%string, second_succ g)].
Proof.
  intros Hr. destruct (reachable_fits g Hr) as [Hs Hsu Hss Harr _]. cbn in Hs, Hsu, Hss, Harr. split.
  - eapply Forall_impl; [exact Harr|]. intros n Hn. split; [done|apply (node_fits_rows n Hn)].
  - constructor; [|constructor; [|constructor; [|constructor]]]; cbv beta iota;
      (apply node_fits_topology; [assumption|reflexivity]).
Qed.

Lemma reachable_tables_aligned_witness :
  Forall (fun n => node_fits n /\
    (length (node_row n) = length NODE_TABLE_BORDER <-> -9 <= Node.id n <= 99)) (node_arr node_b1) /\
  Forall (fun '(head, n) => node_fits n /\
    (length (node_topology_row head n) = length TOPOLOGY_BORDER <-> -9 <= Node.id n <= 99))
    [("| This node      | "%string, self node_b1); ("| Successor      | "%string, succ node_b1);
     ("| Second succ.   | "%string, second_succ node_b1)].
Proof. apply (reachable_tables_aligned (H := net_empty_ring) node_b1). exact node_b1_reachable. Defined.
