(* ===== verification/Network.v ===== *)
(** * Network: nodes joining, chatting and crashing, turn by turn

    Two copies of the program ([Main.v]) run side by side.  The TCP
    stream between them is modelled by [sent_since]: what one node wrote
    on a socket during some turns (its [Sent] events) is what the other
    node's [read] returns on its end of the connection.  Each node has its
    own environment: node A's directory answers that ring 123 is empty;
    node B's answers that node 10 (A) is in it.

    The run is spec scenario 2 ("two-node join") with [join] through the
    directory instead of [dj] ([Main.solo_direct_join_first_route_exits]
    shows that the [dj] version exits).  A joins ring 123 alone.  B joins,
    selects A and connects to it; A accepts, takes B as predecessor and
    successor, and answers; B accepts A's connection and reads; A reads
    B's answers.  All of B's turns fall within the second its predecessor
    timer allows.

    Then spec scenario 3: a third copy, C, enters the ring with [dj]
    through A, and the three exchange [ENTRY], [SUCC], [PRED] and their
    tables until no node writes anything.  Then scenarios 4 and 5: A
    sends a chat line to B, and B crashes; A and C repair the ring
    between themselves, and A's user asks for its reports ([printed]
    collects what a turn prints). *)

From S2P Require Import Prelude ReadLines Scanf Path Connections Routing State Show Ring NodeServer RingInv Main.

(** The bytes a node wrote on socket [sock] between states [g] and [g']:
    the [Sent] events appended to the trace, in order. *)
Definition sent_since (g g' : Globals) (sock : Z) : list Z :=
  concat (map (fun e => match e with Sent s l => if s =? sock then l else [] | _ => [] end)
              (drop (length (trace g)) (trace g'))).

(** What a turn printed on the standard output ([Printed] events), when
    it ends normally. *)
Definition printed (o : outcome (unit * Globals)) (g : Globals) : option (list (list Z)) :=
  match o with
  | Ok (_, g') => Some (concat (map (fun e => match e with Printed t => [t] | _ => [] end)
                                    (drop (length (trace g)) (trace g'))))
  | _ => None
  end.

(** Node A's directory: ring 123 has no node yet. *)
Definition net_A : Net :=
  {| net_connect _ := NET_CONNECTED; net_nodes_reply _ := Some (bytes "NODESLIST 123" ++ [LF]);
     net_resolve _ _ := true; net_bind _ := true |}.

(** Node B's directory: node 10 at 127.0.0.1:5000 is in ring 123. *)
Definition net_B : Net :=
  {| net_connect _ := NET_CONNECTED;
     net_nodes_reply _ := Some (bytes "NODESLIST 123" ++ [LF] ++ bytes "10 127.0.0.1 5000" ++ [LF]);
     net_resolve _ _ := true; net_bind _ := true |}.

(** ** The run *)

(** A starts on port 5000 and joins ring 123 as node 10: it is alone. *)
Definition A0 : Globals :=
  run_state (main_init (H := net_A) (bytes "127.0.0.1") (bytes "5000") (bytes "127.0.0.1") (bytes "59000") None globals_zero).
Definition A1 : Globals := run_state (loop_iteration (H := net_A) (input_stdin 1 "join 123 10") A0).

(** B starts on port 5001, joins ring 123 as node 20, and selects node
    10: it connects (socket 5) and sends [ENTRY] and its table. *)
Definition B0 : Globals :=
  run_state (main_init (H := net_B) (bytes "127.0.0.1") (bytes "5001") (bytes "127.0.0.1") (bytes "59000") None globals_zero).
Definition B1 : Globals := run_state (loop_iteration (H := net_B) (input_stdin 1 "join 123 20") B0).
Definition B2 : Globals := run_state (loop_iteration (H := net_B) (input_stdin 2 "10") B1).

(** A accepts B (socket 5) and reads what B sent: it connects back to B
    (socket 6) as its successor. *)
Definition A2 : Globals := run_state (loop_iteration (H := net_A) (input_accept 3 "127.0.0.1") A1).
Definition A3 : Globals := run_state (loop_iteration (H := net_A) (input_peer 4 5 (sent_since B1 B2 5)) A2).

(** B accepts A's connection (socket 6), reads A's [PRED] on it, then
    A's [SUCC] on its successor socket 5. *)
Definition B3 : Globals := run_state (loop_iteration (H := net_B) (input_accept 2 "127.0.0.1") B2).
Definition B4 : Globals := run_state (loop_iteration (H := net_B) (input_peer 2 6 (sent_since A2 A3 6)) B3).
Definition B5 : Globals := run_state (loop_iteration (H := net_B) (input_peer 2 5 (sent_since A2 A3 5)) B4).

(** A reads what B sent on each of the two connections. *)
Definition A4 : Globals := run_state (loop_iteration (H := net_A) (input_peer 4 6 (sent_since B2 B5 6)) A3).
Definition A5 : Globals := run_state (loop_iteration (H := net_A) (input_peer 4 5 (sent_since B2 B5 5)) A4).

(** ** A third node enters (spec scenario 3)

    Node C (15, port 5002) joins with [dj 15 10 127.0.0.1 5000]: it
    connects to A (its socket 5) and sends [ENTRY].  A accepts it (socket
    7), answers [SUCC 20], forwards the entry to its predecessor B as
    [ENTRY 15 ...] and takes C as its predecessor.  B reads the entry from
    its successor, tells A [SUCC 15], and connects to C (its new socket
    5) with [PRED 20].  C accepts B (socket 6) and reads A's [SUCC], then
    B's [PRED]; A and B read what C and B sent. *)

(** Node C's environment: [dj] needs no directory. *)
Definition net_C : Net := {| net_connect _ := NET_CONNECTED; net_nodes_reply _ := None;
     net_resolve _ _ := true; net_bind _ := true |}.

Definition C0 : Globals :=
  run_state (main_init (H := net_C) (bytes "127.0.0.1") (bytes "5002") (bytes "127.0.0.1") (bytes "59000") None globals_zero).
Definition C1 : Globals := run_state (loop_iteration (H := net_C) (input_stdin 3 "dj 15 10 127.0.0.1 5000") C0).
Definition A6 : Globals := run_state (loop_iteration (H := net_A) (input_accept 3 "127.0.0.1") A5).
Definition A7 : Globals := run_state (loop_iteration (H := net_A) (input_peer 3 7 (sent_since C0 C1 5)) A6).
Definition B6 : Globals := run_state (loop_iteration (H := net_B) (input_peer 3 5 (sent_since A6 A7 5)) B5).
Definition C2 : Globals := run_state (loop_iteration (H := net_C) (input_accept 3 "127.0.0.1") C1).
Definition C3 : Globals := run_state (loop_iteration (H := net_C) (input_peer 3 5 (sent_since A6 A7 7)) C2).
Definition C4 : Globals := run_state (loop_iteration (H := net_C) (input_peer 3 6 (sent_since B5 B6 5)) C3).
Definition A8 : Globals := run_state (loop_iteration (H := net_A) (input_peer 3 6 (sent_since B5 B6 6)) A7).
Definition A9 : Globals := run_state (loop_iteration (H := net_A) (input_peer 3 7 (sent_since C1 C4 5)) A8).
Definition B7 : Globals := run_state (loop_iteration (H := net_B) (input_peer 3 5 (sent_since C1 C4 6)) B6).
Definition C5 : Globals := run_state (loop_iteration (H := net_C) (input_peer 3 6 (sent_since B6 B7 5)) C4).
Definition A10 : Globals := run_state (loop_iteration (H := net_A) (input_peer 3 6 (sent_since B6 B7 6)) A9).

(** ** A chat message, then node 20 crashes (spec scenarios 4 and 5)

    A sends [m 20 hello]; B reads the line.  Then B's process dies: A's
    and C's reads on their connections to it return 0 (end of file).
    A's successor is gone, so A promotes its second successor C, tells
    its predecessor C [SUCC 15] and connects to C (its new socket 5) with
    [PRED 10].  C's predecessor is gone, so C arms its timer; it accepts
    A (socket 6), reads [PRED 10] and then [SUCC 15], and both exchange
    their tables until no node writes anything. *)

Definition A11 : Globals := run_state (loop_iteration (H := net_A) (input_stdin 3 "m 20 hello") A10).
Definition B8 : Globals := run_state (loop_iteration (H := net_B) (input_peer 3 6 (sent_since A10 A11 6)) B7).
Definition A12 : Globals := run_state (loop_iteration (H := net_A) (input_peer 4 6 []) A11).
Definition C6 : Globals := run_state (loop_iteration (H := net_C) (input_peer 4 6 []) C5).
Definition C7 : Globals := run_state (loop_iteration (H := net_C) (input_accept 4 "127.0.0.1") C6).
Definition C8 : Globals := run_state (loop_iteration (H := net_C) (input_peer 4 6 (sent_since A11 A12 5)) C7).
Definition C9 : Globals := run_state (loop_iteration (H := net_C) (input_peer 4 5 (sent_since A11 A12 7)) C8).
Definition A13 : Globals := run_state (loop_iteration (H := net_A) (input_peer 4 7 (sent_since C5 C9 5)) A12).
Definition A14 : Globals := run_state (loop_iteration (H := net_A) (input_peer 4 5 (sent_since C6 C9 6)) A13).
Definition C10 : Globals := run_state (loop_iteration (H := net_C) (input_peer 4 6 (sent_since A12 A14 5)) C9).
Definition C11 : Globals := run_state (loop_iteration (H := net_C) (input_peer 4 5 (sent_since A12 A14 7)) C10).

(** The id of the node on the other end of a role pointer. *)
Definition role_peer (p : option Z) (g : Globals) : option Z :=
  match p with Some i => Some (node_id (connections (reg g)).[i]) | None => None end.

(** ** Reachability of the run *)

(** A turn that returns [true] from a reachable state that did not ask
    to exit reaches the state it leaves. *)
Lemma reach_next `{Net} g li :
  reachable g -> should_exit g = false -> loop_iteration li g = Ok (true, run_state (loop_iteration li g)) ->
  reachable (run_state (loop_iteration li g)).
Proof. intros Hr Hs E. by apply (reach_turn g li). Qed.

Ltac reach_by prev := apply reach_next; [exact prev|vm_compute; reflexivity|vm_compute; reflexivity].

Lemma A0_reachable : reachable (H := net_A) A0.
Proof. apply (reach_init (bytes "127.0.0.1") (bytes "5000") (bytes "127.0.0.1") (bytes "59000") None). vm_compute. reflexivity. Qed.
Lemma A1_reachable : reachable (H := net_A) A1.
Proof. reach_by A0_reachable. Qed.
Lemma A2_reachable : reachable (H := net_A) A2.
Proof. reach_by A1_reachable. Qed.
Lemma A3_reachable : reachable (H := net_A) A3.
Proof. reach_by A2_reachable. Qed.
Lemma A4_reachable : reachable (H := net_A) A4.
Proof. reach_by A3_reachable. Qed.
Lemma A5_reachable : reachable (H := net_A) A5.
Proof. reach_by A4_reachable. Qed.

Lemma B0_reachable : reachable (H := net_B) B0.
Proof. apply (reach_init (bytes "127.0.0.1") (bytes "5001") (bytes "127.0.0.1") (bytes "59000") None). vm_compute. reflexivity. Qed.
Lemma B1_reachable : reachable (H := net_B) B1.
Proof. reach_by B0_reachable. Qed.
Lemma B2_reachable : reachable (H := net_B) B2.
Proof. reach_by B1_reachable. Qed.
Lemma B3_reachable : reachable (H := net_B) B3.
Proof. reach_by B2_reachable. Qed.
Lemma B4_reachable : reachable (H := net_B) B4.
Proof. reach_by B3_reachable. Qed.
Lemma B5_reachable : reachable (H := net_B) B5.
Proof. reach_by B4_reachable. Qed.

(** ** The outcome *)

(** C11: a two-node ring formed through the directory (spec scenario 2,
    with [join]).  Every state of the run is reachable by its node.  At
    the end both nodes are [CONNECTED], and each has the other as
    successor, with its predecessor and successor roles on connections
    to it.  Each node routes to the other directly.  B registered with
    the directory.  A's last two turns, which read everything B wrote,
    write nothing: the exchange is over.  Each node's second successor is
    itself (A: 10, B: 20), where the spec's scenario expects the other
    node. *)
Theorem two_node_join_via_directory :
  reachable (H := net_A) A5 /\ reachable (H := net_B) B5 /\
  connection_state A5 = CONNECTED /\ connection_state B5 = CONNECTED /\
  Node.id (succ A5) = 20 /\ Node.id (second_succ A5) = 10 /\
  Node.id (succ B5) = 10 /\ Node.id (second_succ B5) = 20 /\
  (exists i j, pred_conn (reg A5) = Some i /\ succ_conn (reg A5) = Some j /\
               node_id (connections (reg A5)).[i] = 20 /\ node_id (connections (reg A5)).[j] = 20) /\
  (exists i j, pred_conn (reg B5) = Some i /\ succ_conn (reg B5) = Some j /\
               node_id (connections (reg B5)).[i] = 10 /\ node_id (connections (reg B5)).[j] = 10) /\
  chosen (rt A5) 20 = Some (20, Some (0, [])) /\ chosen (rt B5) 10 = Some (10, Some (0, [])) /\
  In (NsSent (bytes "REG 123 20 127.0.0.1 5001")) (trace B5) /\
  drop (length (trace A3)) (trace A5) = [].
Proof.
  split; [exact A5_reachable|]. split; [exact B5_reachable|].
  do 6 (split; [vm_compute; reflexivity|]).
  split; [exists 0, 1; vm_compute; auto|]. split; [exists 1, 0; vm_compute; auto|].
  split; [vm_compute; reflexivity|]. split; [vm_compute; reflexivity|].
  split; [vm_compute; tauto|vm_compute; reflexivity].
Qed.

Lemma A6_reachable : reachable (H := net_A) A6.
Proof. reach_by A5_reachable. Qed.
Lemma A7_reachable : reachable (H := net_A) A7.
Proof. reach_by A6_reachable. Qed.
Lemma A8_reachable : reachable (H := net_A) A8.
Proof. reach_by A7_reachable. Qed.
Lemma A9_reachable : reachable (H := net_A) A9.
Proof. reach_by A8_reachable. Qed.
Lemma A10_reachable : reachable (H := net_A) A10.
Proof. reach_by A9_reachable. Qed.
Lemma B6_reachable : reachable (H := net_B) B6.
Proof. reach_by B5_reachable. Qed.
Lemma B7_reachable : reachable (H := net_B) B7.
Proof. reach_by B6_reachable. Qed.
Lemma C0_reachable : reachable (H := net_C) C0.
Proof. apply (reach_init (bytes "127.0.0.1") (bytes "5002") (bytes "127.0.0.1") (bytes "59000") None). vm_compute. reflexivity. Qed.
Lemma C1_reachable : reachable (H := net_C) C1.
Proof. reach_by C0_reachable. Qed.
Lemma C2_reachable : reachable (H := net_C) C2.
Proof. reach_by C1_reachable. Qed.
Lemma C3_reachable : reachable (H := net_C) C3.
Proof. reach_by C2_reachable. Qed.
Lemma C4_reachable : reachable (H := net_C) C4.
Proof. reach_by C3_reachable. Qed.
Lemma C5_reachable : reachable (H := net_C) C5.
Proof. reach_by C4_reachable. Qed.

(** C17: a node entering a ring of two (spec scenario 3).  Node 15 runs
    [dj 15 10 ...] with node 10 as its successor.  Every state of the run
    is reachable by its node, and all three end [CONNECTED].  The entering
    node is inserted before its successor: the ring is 20 -> 15 -> 10 ->
    20 (B's successor is 15, 15's is 10, 10's is 20).  Each second
    successor is the successor's successor, and each predecessor pointer
    is on a connection to the right node.  Every node routes to both
    others directly, and the last turns of each node write nothing: the
    exchange is over.  The spec's scenario expects [A.succ = 15] and
    [C.succ = 20], the entering node after node 10. *)
Theorem entry_inserted_before_successor :
  reachable (H := net_A) A10 /\ reachable (H := net_B) B7 /\ reachable (H := net_C) C5 /\
  connection_state A10 = CONNECTED /\ connection_state B7 = CONNECTED /\ connection_state C5 = CONNECTED /\
  map (fun g => (Node.id (succ g), Node.id (second_succ g))) [A10; B7; C5] = [(20, 15); (15, 10); (10, 20)] /\
  [role_peer (pred_conn (reg A10)) A10; role_peer (pred_conn (reg B7)) B7; role_peer (pred_conn (reg C5)) C5] =
    [Some 15; Some 10; Some 20] /\
  map (chosen (rt A10)) [15; 20] = [Some (15, Some (0, [])); Some (20, Some (0, []))] /\
  map (chosen (rt B7)) [10; 15] = [Some (10, Some (0, [])); Some (15, Some (0, []))] /\
  map (chosen (rt C5)) [10; 20] = [Some (10, Some (0, [])); Some (20, Some (0, []))] /\
  drop (length (trace A8)) (trace A10) = [] /\ drop (length (trace C4)) (trace C5) = [].
Proof.
  split; [exact A10_reachable|]. split; [exact B7_reachable|]. split; [exact C5_reachable|].
  repeat split; vm_compute; reflexivity.
Qed.

Lemma A11_reachable : reachable (H := net_A) A11.
Proof. reach_by A10_reachable. Qed.
Lemma A12_reachable : reachable (H := net_A) A12.
Proof. reach_by A11_reachable. Qed.
Lemma A13_reachable : reachable (H := net_A) A13.
Proof. reach_by A12_reachable. Qed.
Lemma A14_reachable : reachable (H := net_A) A14.
Proof. reach_by A13_reachable. Qed.
Lemma B8_reachable : reachable (H := net_B) B8.
Proof. reach_by B7_reachable. Qed.
Lemma C6_reachable : reachable (H := net_C) C6.
Proof. reach_by C5_reachable. Qed.
Lemma C7_reachable : reachable (H := net_C) C7.
Proof. reach_by C6_reachable. Qed.
Lemma C8_reachable : reachable (H := net_C) C8.
Proof. reach_by C7_reachable. Qed.
Lemma C9_reachable : reachable (H := net_C) C9.
Proof. reach_by C8_reachable. Qed.
Lemma C10_reachable : reachable (H := net_C) C10.
Proof. reach_by C9_reachable. Qed.
Lemma C11_reachable : reachable (H := net_C) C11.
Proof. reach_by C10_reachable. Qed.

(** C18: a chat message across the ring (spec scenario 4).  In the
    three-node ring, node 10's command [m 20 hello] writes exactly one
    line, [CHAT 10 20 hello], on its connection to node 20 (its forwarding
    table's next hop), and node 20, reading it, delivers [hello] from node
    10 and writes nothing. *)
Theorem chat_delivered_in_ring :
  reachable (H := net_A) A11 /\ reachable (H := net_B) B8 /\
  drop (length (trace A10)) (trace A11) = [Sent 6 (bytes "CHAT 10 20 hello" ++ [LF])] /\
  drop (length (trace B7)) (trace B8) = [Delivered 10 (bytes "hello")].
Proof.
  split; [exact A11_reachable|]. split; [exact B8_reachable|]. split; vm_compute; reflexivity.
Qed.

(** C19: recovery from a crashed node (spec scenario 5, in the ring the
    code builds).  Node 20 dies after the chat.  Node 10 loses its
    successor and node 15 its predecessor.  Every state of the run is
    reachable, and the two end [CONNECTED] in a ring of two: 10 -> 15 ->
    10, each its own second successor, each predecessor pointer on a
    connection to the other.  Node 15's predecessor timer is cancelled
    because node 10, promoting its second successor, connects to it
    with [PRED].  Neither node has a route to 20 any more, each routes to
    the other directly, and the exchange ends.  The spec's scenario says
    the node whose predecessor died receives no new predecessor and
    leaves the ring. *)
Theorem crash_repaired_by_second_successor :
  reachable (H := net_A) A14 /\ reachable (H := net_C) C11 /\
  connection_state A14 = CONNECTED /\ connection_state C11 = CONNECTED /\
  map (fun g => (Node.id (succ g), Node.id (second_succ g))) [A14; C11] = [(15, 10); (10, 15)] /\
  [role_peer (pred_conn (reg A14)) A14; role_peer (pred_conn (reg C11)) C11] = [Some 15; Some 10] /\
  timeout_handler A14 = None /\ timeout_handler C11 = None /\
  map (chosen (rt A14)) [15; 20] = [Some (15, Some (0, [])); None] /\
  map (chosen (rt C11)) [10; 20] = [Some (10, Some (0, [])); None] /\
  drop (length (trace C9)) (trace C11) = [].
Proof.
  split; [exact A14_reachable|]. split; [exact C11_reachable|]. repeat split; vm_compute; reflexivity.
Qed.

(** C20: what node 10 shows after the crash.  In the repaired ring of
    two, node 10's [show topology] prints node 15 as its predecessor,
    successor 15 and second successor 10; [show path 15] prints the
    direct path [10-15] and [show path 20] that node 20 has no known path.
    [sp 255] ([%hhd] reads -1, the free-slot marker of the routing rows)
    finds the row node 20 left, whose forwarding entry is -1, and reads
    [routing_table[recipient][-1]]: undefined behaviour in a state the
    program reaches. *)
Theorem reports_after_crash :
  reachable (H := net_A) A14 /\
  printed (handle_user_input (H := net_A) (bytes "st") A14) A14 =
    Some [TOPOLOGY_BORDER ++ bytes "| Node           | ID | IP address      | Port  |" ++ [LF] ++ TOPOLOGY_BORDER;
          topology_row "| Predecessor    | " 15 (bytes "127.0.0.1") None;
          node_topology_row "| This node      | " (Node.mk 10 (bytes "127.0.0.1") (bytes "5000"));
          node_topology_row "| Successor      | " (Node.mk 15 (bytes "127.0.0.1") (bytes "5002"));
          node_topology_row "| Second succ.   | " (Node.mk 10 (bytes "127.0.0.1") (bytes "5000"));
          TOPOLOGY_BORDER] /\
  printed (handle_user_input (H := net_A) (bytes "sp 15") A14) A14 =
    Some [bytes "Shortest path to 15: 10-15" ++ [LF]] /\
  printed (handle_user_input (H := net_A) (bytes "sp 20") A14) A14 = Some [no_known_path 20] /\
  handle_user_input (H := net_A) (bytes "sp 255") A14 =
    Undefined "routing_table[recipient][neighbor] outside the row".
Proof. split; [exact A14_reachable|]. repeat split; vm_compute; reflexivity. Qed.

